(** * GANDALF: tree subsystem, export/import protocol and run loop

    A shallow embedding of the parts of GANDALF that the specification's
    claims are about:

    - [Parameters::SetParameter]                       (Parameters.cpp)
    - the force-update pass of [SphSimulation::Setup]
      and [SphSimulation::MainLoop]                    (SphSimulation.cpp)
    - [SphTree::AllocateMemory], [BuildTree],
      [SearchBoundaryGhostParticles], [FindLoadBalancingDivision],
      [GetExportInfo], [UnpackExported], [GetBackExportInfo],
      [UnpackReturnedExportInfo]                       (SphTree.cpp)

    Conventions.  A C++ [int] is a [Z] (signed overflow is undefined in the
    source and is not modelled).  [FLOAT] values are abstract: the
    arithmetic the code performs on them is a class of uninterpreted
    operations, so no statement below depends on rounding.  [std::map] is
    [gmap]; [std::vector] and C arrays are lists; a byte buffer
    ([vector<char>]) is a [list byte].  Code that can end the run or leave
    the defined part of C++ lives in the monad [M]: [Abort] is a failed
    [assert] or [ExceptionHandler::raise], [Undefined] an access outside an
    array or a division by zero, [OutOfFuel] a [while] loop that was not
    given enough steps.

    Part I holds the definitions, Part II the theorems. *)

From Stdlib Require Import ZArith Lia Bool.
From Stdlib.Strings Require Import Byte.
From stdpp Require Import gmap strings list.

Local Open Scope Z_scope.

(** * Part I: the model *)

(** ** Floating point values, uninterpreted *)

Class FloatOps (FLOAT : Type) := {
  f_zero : FLOAT;                       (* 0.0 *)
  f_half : FLOAT;                       (* 0.5 *)
  f_worktol : FLOAT;                    (* 0.001 *)
  fadd : FLOAT -> FLOAT -> FLOAT;
  fsub : FLOAT -> FLOAT -> FLOAT;
  fmul : FLOAT -> FLOAT -> FLOAT;
  fdiv : FLOAT -> FLOAT -> FLOAT;
  fmin : FLOAT -> FLOAT -> FLOAT;
  fmax : FLOAT -> FLOAT -> FLOAT;
  fabs : FLOAT -> FLOAT;
  flt : FLOAT -> FLOAT -> bool;         (* x < y *)
  fgt : FLOAT -> FLOAT -> bool          (* x > y *)
}.

(** ** The run monad: state, abort, undefined behaviour, fuel *)

Inductive run (S A : Type) : Type :=
| Done (a : A) (s : S)          (* returned [a] in state [s] *)
| Abort (msg : string) (s : S)  (* the run ended in state [s] *)
| Undefined                     (* outside the defined part of C++ *)
| OutOfFuel.
Arguments Done {S A} a s.
Arguments Abort {S A} msg s.
Arguments Undefined {S A}.
Arguments OutOfFuel {S A}.

Definition M (S A : Type) : Type := S -> run S A.

Definition ret {S A} (a : A) : M S A := fun s => Done a s.

Definition bind {S A B} (m : M S A) (k : A -> M S B) : M S B :=
  fun s => match m s with
           | Done a s' => k a s'
           | Abort msg s' => Abort msg s'
           | Undefined => Undefined
           | OutOfFuel => OutOfFuel
           end.

Notation "x <- m ;; k" := (bind m (fun x => k))
  (at level 100, m at next level, right associativity).
Notation "m ;;; k" := (bind m (fun _ => k))
  (at level 100, right associativity).

Definition get {S} : M S S := fun s => Done s s.
Definition gets {S A} (f : S -> A) : M S A := fun s => Done (f s) s.
Definition modify {S} (f : S -> S) : M S unit := fun s => Done tt (f s).
Definition raise {S A} (msg : string) : M S A := fun s => Abort msg s.
Definition undefined {S A} : M S A := fun _ => Undefined.
Definition out_of_fuel {S A} : M S A := fun _ => OutOfFuel.

(** [assert(b)]. *)
Definition assert {S} (b : bool) : M S unit :=
  if b then ret tt else raise "assertion failed".

(** An access that is only defined when [o] is [Some]. *)
Definition defined {S A} (o : option A) : M S A :=
  match o with Some a => ret a | None => undefined end.

(** [for (x : l) body], the list being fixed when the loop is entered. *)
Fixpoint for_each {S B} (l : list B) (body : B -> M S unit) : M S unit :=
  match l with
  | [] => ret tt
  | x :: l' => body x ;;; for_each l' body
  end.

(** A loop that carries local variables [acc]. *)
Fixpoint fold_each {S A B} (l : list B) (body : B -> A -> M S A) (acc : A)
  : M S A :=
  match l with
  | [] => ret acc
  | x :: l' => acc' <- body x acc ;; fold_each l' body acc'
  end.

(** [for (i = lo; i < hi; i++) body], for a body that leaves [lo] and [hi]
    alone. *)
Definition for_range {S} (lo hi : Z) (body : Z -> M S unit) : M S unit :=
  for_each (seqZ lo (hi - lo)) body.

(** ** Arrays indexed by [int] *)

Definition zget {A} (l : list A) (i : Z) : option A :=
  if decide (0 <= i) then l !! Z.to_nat i else None.

Definition zset {A} (l : list A) (i : Z) (x : A) : option (list A) :=
  if decide (0 <= i < Z.of_nat (length l)) then Some (<[Z.to_nat i := x]> l)
  else None.

(** ** Byte buffers *)

(** [v.resize(n)]: keeps the first [n] bytes, pads with zero bytes. *)
Definition resize_buffer (n : nat) (v : list byte) : list byte :=
  take n v ++ replicate (n - length v) x00.

(** [memcpy(&v[off], data, |data|)]; only defined inside the buffer. *)
Definition write_at (v : list byte) (off : Z) (data : list byte)
  : option (list byte) :=
  if decide (0 <= off /\ off + Z.of_nat (length data) <= Z.of_nat (length v))
  then Some (take (Z.to_nat off) v ++ data
               ++ drop (Z.to_nat off + length data) v)
  else None.

(** The [n] bytes at [&v[off]]; only defined inside the buffer. *)
Definition read_at (v : list byte) (off : Z) (n : nat) : option (list byte) :=
  if decide (0 <= off /\ off + Z.of_nat n <= Z.of_nat (length v))
  then Some (take n (drop (Z.to_nat off) v))
  else None.
(** ** The objects of the code *)

(** [ParticleType<ndim>]: one particle record.  Only the fields the modelled code
    names are kept; vectors are arrays of [ndim] values. *)
Module Particle.
Record t {FLOAT : Type} := mk {
  r : list FLOAT;                           (* position *)
  v : list FLOAT;                           (* velocity *)
  a : list FLOAT;                           (* acceleration *)
  agrav : list FLOAT;                       (* gravitational acceleration *)
  m : FLOAT;                                (* mass *)
  h : FLOAT;                                (* smoothing length *)
  gpot : FLOAT;                             (* gravitational potential *)
  gpe : FLOAT;                              (* gravitational potential energy *)
  dudt : FLOAT;                             (* energy derivative *)
  div_v : FLOAT;                            (* velocity divergence *)
  levelneib : Z;                            (* maximum neighbour level *)
  iorig : Z;                                (* stable origin identifier *)
  active : bool                             (* active this step *)
}.
Arguments t : clear implicits.
Arguments mk {FLOAT}.
Definition set_a {FLOAT} (x : list FLOAT) (s : t FLOAT) : t FLOAT :=
  mk (r s) (v s) x (agrav s) (m s) (h s) (gpot s) (gpe s) (dudt s) (div_v s)
    (levelneib s) (iorig s) (active s).
Definition set_agrav {FLOAT} (x : list FLOAT) (s : t FLOAT) : t FLOAT :=
  mk (r s) (v s) (a s) x (m s) (h s) (gpot s) (gpe s) (dudt s) (div_v s)
    (levelneib s) (iorig s) (active s).
Definition set_gpot {FLOAT} (x : FLOAT) (s : t FLOAT) : t FLOAT :=
  mk (r s) (v s) (a s) (agrav s) (m s) (h s) x (gpe s) (dudt s) (div_v s)
    (levelneib s) (iorig s) (active s).
Definition set_gpe {FLOAT} (x : FLOAT) (s : t FLOAT) : t FLOAT :=
  mk (r s) (v s) (a s) (agrav s) (m s) (h s) (gpot s) x (dudt s) (div_v s)
    (levelneib s) (iorig s) (active s).
Definition set_dudt {FLOAT} (x : FLOAT) (s : t FLOAT) : t FLOAT :=
  mk (r s) (v s) (a s) (agrav s) (m s) (h s) (gpot s) (gpe s) x (div_v s)
    (levelneib s) (iorig s) (active s).
Definition set_div_v {FLOAT} (x : FLOAT) (s : t FLOAT) : t FLOAT :=
  mk (r s) (v s) (a s) (agrav s) (m s) (h s) (gpot s) (gpe s) (dudt s) x
    (levelneib s) (iorig s) (active s).
Definition set_levelneib {FLOAT} (x : Z) (s : t FLOAT) : t FLOAT :=
  mk (r s) (v s) (a s) (agrav s) (m s) (h s) (gpot s) (gpe s) (dudt s)
    (div_v s) x (iorig s) (active s).
End Particle.
(** [TreeCell<ndim>]: one cell of the tree. *)
Module TreeCell.
Record t {FLOAT : Type} := mk {
  level : Z;
  N : Z;                                    (* particles in the cell *)
  Nactive : Z;                              (* active particles in the cell *)
  ifirst : Z;                               (* first particle of the cell *)
  ilast : Z;                                (* last particle of the cell *)
  cnext : Z;                                (* next cell outside the subtree *)
  c1 : Z;
  c2 : Z;
  bbmin : list FLOAT;
  bbmax : list FLOAT;
  v : list FLOAT;                           (* cell velocity *)
  hmax : FLOAT
}.
Arguments t : clear implicits.
Arguments mk {FLOAT}.
Definition set_ifirst {FLOAT} (x : Z) (s : t FLOAT) : t FLOAT :=
  mk (level s) (N s) (Nactive s) x (ilast s) (cnext s) (c1 s) (c2 s)
    (bbmin s) (bbmax s) (v s) (hmax s).
Definition set_ilast {FLOAT} (x : Z) (s : t FLOAT) : t FLOAT :=
  mk (level s) (N s) (Nactive s) (ifirst s) x (cnext s) (c1 s) (c2 s)
    (bbmin s) (bbmax s) (v s) (hmax s).
End TreeCell.
(** [Tree<ndim,ParticleType,TreeCell>]: the cell array and the particle chain. *)
Module Tree.
Record t {FLOAT : Type} := mk {
  Ncell : Z;
  Ncellmax : Z;
  Ncelltot : Z;                             (* local plus imported cells *)
  Nimportedcell : Z;
  ltot : Z;                                 (* level of the leaf cells *)
  gmax : Z;
  ifirst : Z;
  ilast : Z;
  Ntot : Z;
  Ntotmax : Z;
  Ntotmaxold : Z;
  celldata : list (TreeCell.t FLOAT);
  inext : list Z                            (* next particle in the chain *)
}.
Arguments t : clear implicits.
Arguments mk {FLOAT}.
Definition set_Ncelltot {FLOAT} (x : Z) (s : t FLOAT) : t FLOAT :=
  mk (Ncell s) (Ncellmax s) x (Nimportedcell s) (ltot s) (gmax s) (ifirst s)
    (ilast s) (Ntot s) (Ntotmax s) (Ntotmaxold s) (celldata s) (inext s).
Definition set_Nimportedcell {FLOAT} (x : Z) (s : t FLOAT) : t FLOAT :=
  mk (Ncell s) (Ncellmax s) (Ncelltot s) x (ltot s) (gmax s) (ifirst s)
    (ilast s) (Ntot s) (Ntotmax s) (Ntotmaxold s) (celldata s) (inext s).
Definition set_ifirst {FLOAT} (x : Z) (s : t FLOAT) : t FLOAT :=
  mk (Ncell s) (Ncellmax s) (Ncelltot s) (Nimportedcell s) (ltot s) (gmax s)
    x (ilast s) (Ntot s) (Ntotmax s) (Ntotmaxold s) (celldata s) (inext s).
Definition set_ilast {FLOAT} (x : Z) (s : t FLOAT) : t FLOAT :=
  mk (Ncell s) (Ncellmax s) (Ncelltot s) (Nimportedcell s) (ltot s) (gmax s)
    (ifirst s) x (Ntot s) (Ntotmax s) (Ntotmaxold s) (celldata s) (inext s).
Definition set_Ntot {FLOAT} (x : Z) (s : t FLOAT) : t FLOAT :=
  mk (Ncell s) (Ncellmax s) (Ncelltot s) (Nimportedcell s) (ltot s) (gmax s)
    (ifirst s) (ilast s) x (Ntotmax s) (Ntotmaxold s) (celldata s) (inext s).
Definition set_Ntotmax {FLOAT} (x : Z) (s : t FLOAT) : t FLOAT :=
  mk (Ncell s) (Ncellmax s) (Ncelltot s) (Nimportedcell s) (ltot s) (gmax s)
    (ifirst s) (ilast s) (Ntot s) x (Ntotmaxold s) (celldata s) (inext s).
Definition set_Ntotmaxold {FLOAT} (x : Z) (s : t FLOAT) : t FLOAT :=
  mk (Ncell s) (Ncellmax s) (Ncelltot s) (Nimportedcell s) (ltot s) (gmax s)
    (ifirst s) (ilast s) (Ntot s) (Ntotmax s) x (celldata s) (inext s).
Definition set_celldata {FLOAT} (x : list (TreeCell.t FLOAT)) (s : t FLOAT) : t FLOAT :=
  mk (Ncell s) (Ncellmax s) (Ncelltot s) (Nimportedcell s) (ltot s) (gmax s)
    (ifirst s) (ilast s) (Ntot s) (Ntotmax s) (Ntotmaxold s) x (inext s).
Definition set_inext {FLOAT} (x : list Z) (s : t FLOAT) : t FLOAT :=
  mk (Ncell s) (Ncellmax s) (Ncelltot s) (Nimportedcell s) (ltot s) (gmax s)
    (ifirst s) (ilast s) (Ntot s) (Ntotmax s) (Ntotmaxold s) (celldata s) x.
End Tree.
(** [Sph<ndim>]: the particle store and its counters. *)
Module Sph.
Record t {FLOAT : Type} := mk {
  Nsph : Z;
  Nghost : Z;
  NPeriodicGhost : Z;
  Nmpighost : Z;
  Nghostmax : Z;
  Ntot : Z;
  Nsphmax : Z;                              (* capacity of the particle array *)
  NImportedParticles : Z;
  Ngather : Z;
  sphdata : list (Particle.t FLOAT)
}.
Arguments t : clear implicits.
Arguments mk {FLOAT}.
Definition set_Nghost {FLOAT} (x : Z) (s : t FLOAT) : t FLOAT :=
  mk (Nsph s) x (NPeriodicGhost s) (Nmpighost s) (Nghostmax s) (Ntot s)
    (Nsphmax s) (NImportedParticles s) (Ngather s) (sphdata s).
Definition set_NPeriodicGhost {FLOAT} (x : Z) (s : t FLOAT) : t FLOAT :=
  mk (Nsph s) (Nghost s) x (Nmpighost s) (Nghostmax s) (Ntot s) (Nsphmax s)
    (NImportedParticles s) (Ngather s) (sphdata s).
Definition set_Nmpighost {FLOAT} (x : Z) (s : t FLOAT) : t FLOAT :=
  mk (Nsph s) (Nghost s) (NPeriodicGhost s) x (Nghostmax s) (Ntot s)
    (Nsphmax s) (NImportedParticles s) (Ngather s) (sphdata s).
Definition set_Nghostmax {FLOAT} (x : Z) (s : t FLOAT) : t FLOAT :=
  mk (Nsph s) (Nghost s) (NPeriodicGhost s) (Nmpighost s) x (Ntot s)
    (Nsphmax s) (NImportedParticles s) (Ngather s) (sphdata s).
Definition set_Ntot {FLOAT} (x : Z) (s : t FLOAT) : t FLOAT :=
  mk (Nsph s) (Nghost s) (NPeriodicGhost s) (Nmpighost s) (Nghostmax s) x
    (Nsphmax s) (NImportedParticles s) (Ngather s) (sphdata s).
Definition set_NImportedParticles {FLOAT} (x : Z) (s : t FLOAT) : t FLOAT :=
  mk (Nsph s) (Nghost s) (NPeriodicGhost s) (Nmpighost s) (Nghostmax s)
    (Ntot s) (Nsphmax s) x (Ngather s) (sphdata s).
Definition set_sphdata {FLOAT} (x : list (Particle.t FLOAT)) (s : t FLOAT) : t FLOAT :=
  mk (Nsph s) (Nghost s) (NPeriodicGhost s) (Nmpighost s) (Nghostmax s)
    (Ntot s) (Nsphmax s) (NImportedParticles s) (Ngather s) x.
End Sph.
(** [DomainBox<ndim>]: the simulation box and its boundary kinds. *)
Module DomainBox.
Record t {FLOAT : Type} := mk {
  x_boundary_lhs : string;
  x_boundary_rhs : string;
  y_boundary_lhs : string;
  y_boundary_rhs : string;
  z_boundary_lhs : string;
  z_boundary_rhs : string;
  boxmin : list FLOAT;
  boxmax : list FLOAT
}.
Arguments t : clear implicits.
Arguments mk {FLOAT}.
End DomainBox.
(** [SphTree<ndim,ParticleType,TreeCell>]: the neighbour-search object.  The
    per-thread scratch arrays are kept by their sizes only.  A
    [TreeCell<ndim>*] is the index of the cell in [tree->celldata]. *)
Module SphTree.
Record t {FLOAT : Type} := mk {
  tree : Tree.t FLOAT;
  Nleafmax : Z;
  Nmpi : Z;
  Nthreads : Z;
  kernrange : FLOAT;
  ghost_range : FLOAT;
  Ntot : Z;
  Ntotold : Z;
  Ntotmax : Z;
  Ntotmaxold : Z;
  allocated_buffer : bool;
  Nneibmaxbuf : list Z;
  Ndirectmaxbuf : list Z;
  Ngravcellmaxbuf : list Z;
  Ncellexport : list Z;
  Npartexport : list Z;
  cellexportlist : list (list Z);
  ids_sent_particles : list (list Z);
  N_imported_part_per_proc : list Z
}.
Arguments t : clear implicits.
Arguments mk {FLOAT}.
Definition set_tree {FLOAT} (x : Tree.t FLOAT) (s : t FLOAT) : t FLOAT :=
  mk x (Nleafmax s) (Nmpi s) (Nthreads s) (kernrange s) (ghost_range s)
    (Ntot s) (Ntotold s) (Ntotmax s) (Ntotmaxold s) (allocated_buffer s)
    (Nneibmaxbuf s) (Ndirectmaxbuf s) (Ngravcellmaxbuf s) (Ncellexport s)
    (Npartexport s) (cellexportlist s) (ids_sent_particles s)
    (N_imported_part_per_proc s).
Definition set_Ntot {FLOAT} (x : Z) (s : t FLOAT) : t FLOAT :=
  mk (tree s) (Nleafmax s) (Nmpi s) (Nthreads s) (kernrange s)
    (ghost_range s) x (Ntotold s) (Ntotmax s) (Ntotmaxold s)
    (allocated_buffer s) (Nneibmaxbuf s) (Ndirectmaxbuf s)
    (Ngravcellmaxbuf s) (Ncellexport s) (Npartexport s) (cellexportlist s)
    (ids_sent_particles s) (N_imported_part_per_proc s).
Definition set_Ntotmax {FLOAT} (x : Z) (s : t FLOAT) : t FLOAT :=
  mk (tree s) (Nleafmax s) (Nmpi s) (Nthreads s) (kernrange s)
    (ghost_range s) (Ntot s) (Ntotold s) x (Ntotmaxold s)
    (allocated_buffer s) (Nneibmaxbuf s) (Ndirectmaxbuf s)
    (Ngravcellmaxbuf s) (Ncellexport s) (Npartexport s) (cellexportlist s)
    (ids_sent_particles s) (N_imported_part_per_proc s).
Definition set_Ntotmaxold {FLOAT} (x : Z) (s : t FLOAT) : t FLOAT :=
  mk (tree s) (Nleafmax s) (Nmpi s) (Nthreads s) (kernrange s)
    (ghost_range s) (Ntot s) (Ntotold s) (Ntotmax s) x (allocated_buffer s)
    (Nneibmaxbuf s) (Ndirectmaxbuf s) (Ngravcellmaxbuf s) (Ncellexport s)
    (Npartexport s) (cellexportlist s) (ids_sent_particles s)
    (N_imported_part_per_proc s).
Definition set_ids_sent_particles {FLOAT} (x : list (list Z)) (s : t FLOAT) : t FLOAT :=
  mk (tree s) (Nleafmax s) (Nmpi s) (Nthreads s) (kernrange s)
    (ghost_range s) (Ntot s) (Ntotold s) (Ntotmax s) (Ntotmaxold s)
    (allocated_buffer s) (Nneibmaxbuf s) (Ndirectmaxbuf s)
    (Ngravcellmaxbuf s) (Ncellexport s) (Npartexport s) (cellexportlist s) x
    (N_imported_part_per_proc s).
Definition set_N_imported_part_per_proc {FLOAT} (x : list Z) (s : t FLOAT) : t FLOAT :=
  mk (tree s) (Nleafmax s) (Nmpi s) (Nthreads s) (kernrange s)
    (ghost_range s) (Ntot s) (Ntotold s) (Ntotmax s) (Ntotmaxold s)
    (allocated_buffer s) (Nneibmaxbuf s) (Ndirectmaxbuf s)
    (Ngravcellmaxbuf s) (Ncellexport s) (Npartexport s) (cellexportlist s)
    (ids_sent_particles s) x.
End SphTree.
(** [Parameters]: the three parameter maps, and what was written to
    [std::cout]. *)
Module Parameters.
Record t {FLOAT : Type} := mk {
  intparams : gmap string Z;
  floatparams : gmap string FLOAT;
  stringparams : gmap string string;
  cout : list string
}.
Arguments t : clear implicits.
Arguments mk {FLOAT}.
End Parameters.

(** ** Code of the repository that is not among the sources *)

(** [std::stringstream(value) >> x] for an [int] and a [float] target: the
    text and the old content of the target give its new content. *)
Class StreamOps (FLOAT : Type) := {
  extract_int : string -> Z -> Z;
  extract_float : string -> FLOAT -> FLOAT
}.

(** The neighbour-search object of SphSimulation.cpp ([sphneib]). *)
Class NeibOps (FLOAT : Type) := {
  UpdateAllSphForces : Sph.t FLOAT -> Parameters.t FLOAT -> Sph.t FLOAT;
  UpdateAllGravityForces : Sph.t FLOAT -> Parameters.t FLOAT -> Sph.t FLOAT
}.

(** The methods of [Tree] and [Sph] that SphTree.cpp calls. *)
Class TreeOps (FLOAT : Type) := {
  tree_BuildTree :
    Z -> Z -> list (Particle.t FLOAT) -> FLOAT -> Tree.t FLOAT -> Tree.t FLOAT;
  tree_StockTree : list (Particle.t FLOAT) -> Tree.t FLOAT -> Tree.t FLOAT;
  tree_ExtrapolateCellProperties : FLOAT -> Tree.t FLOAT -> Tree.t FLOAT;
  (* the indices written to [activelist]; their number is the return value *)
  tree_ComputeActiveParticleList :
    TreeCell.t FLOAT -> list (Particle.t FLOAT) -> Tree.t FLOAT -> list Z;
  sph_DeleteDeadParticles : Sph.t FLOAT -> Sph.t FLOAT;
  (* the periodic or mirror images that particle [p] needs along axis [k] *)
  boundary_images :
    nat -> FLOAT -> DomainBox.t FLOAT -> Particle.t FLOAT ->
    list (Particle.t FLOAT)
}.

(** The object representation of the records that [copy] moves through byte
    buffers: [sizeof], the bytes of a value, the value of some bytes. *)
Class Layout (FLOAT : Type) := {
  sizeof_cell : nat;
  sizeof_part : nat;
  bytes_of_int : Z -> list byte;
  bytes_of_cell : TreeCell.t FLOAT -> list byte;
  bytes_of_part : Particle.t FLOAT -> list byte;
  int_of_bytes : list byte -> Z;
  cell_of_bytes : list byte -> TreeCell.t FLOAT;
  part_of_bytes : list byte -> Particle.t FLOAT
}.

Definition sizeof_int : nat := 4.

(** A value's bytes are [sizeof] of them. *)
Class LayoutLaws (FLOAT : Type) `{!Layout FLOAT} : Prop := {
  length_bytes_of_int : forall z, length (bytes_of_int z) = sizeof_int;
  length_bytes_of_cell : forall c, length (bytes_of_cell c) = sizeof_cell;
  length_bytes_of_part : forall p, length (bytes_of_part p) = sizeof_part
}.

(** What the modelled code asks of its collaborators, in call order. *)
Inductive Event : Type :=
| CallDeleteDeadParticles
| CallTreeBuildTree (Npart Npartmax : Z)
| CallStockTree
| CallExtrapolateCellProperties
| CallCheckBoundaryGhostParticle (k : nat) (i : Z).

(** ** Parameters.cpp *)

Section ParametersModel.
Context {FLOAT : Type} `{!StreamOps FLOAT}.

Definition warning (key : string) : string :=
  "Warning: parameter " +:+ key +:+ "was not recognized".

Definition SetParameter (key value : string) (p : Parameters.t FLOAT)
  : Parameters.t FLOAT :=
  match Parameters.intparams p !! key with
  | Some old =>
      Parameters.mk (<[key := extract_int value old]> (Parameters.intparams p))
        (Parameters.floatparams p) (Parameters.stringparams p)
        (Parameters.cout p)
  | None =>
    match Parameters.floatparams p !! key with
    | Some old =>
        Parameters.mk (Parameters.intparams p)
          (<[key := extract_float value old]> (Parameters.floatparams p))
          (Parameters.stringparams p) (Parameters.cout p)
    | None =>
      match Parameters.stringparams p !! key with
      | Some _ =>
          Parameters.mk (Parameters.intparams p) (Parameters.floatparams p)
            (<[key := value]> (Parameters.stringparams p)) (Parameters.cout p)
      | None =>
          Parameters.mk (Parameters.intparams p) (Parameters.floatparams p)
            (Parameters.stringparams p) (Parameters.cout p ++ [warning key])
      end
    end
  end.

(** [intparams[key]] as an rvalue: a missing key is inserted with 0. *)
Definition index_intparams (key : string) (p : Parameters.t FLOAT)
  : Z * Parameters.t FLOAT :=
  match Parameters.intparams p !! key with
  | Some x => (x, p)
  | None =>
      (0, Parameters.mk (<[key := 0]> (Parameters.intparams p))
            (Parameters.floatparams p) (Parameters.stringparams p)
            (Parameters.cout p))
  end.

End ParametersModel.

(** ** Vectors of [ndim] components and loops over the particle array *)

Section Vectors.
Context {FLOAT : Type} `{!FloatOps FLOAT}.

(** [x[k]] as an rvalue.  The arrays hold [ndim] values and [k < ndim], so
    the default is never read. *)
Definition vec_get (x : list FLOAT) (k : nat) : FLOAT :=
  default f_zero (x !! k).

(** [for (k=0; k<ndim; k++) x[k] = f(k, x[k])]. *)
Definition vec_loop (ndim : nat) (f : nat -> FLOAT -> FLOAT) (x : list FLOAT)
  : list FLOAT :=
  imap (fun k xk => if decide (k < ndim)%nat then f k xk else xk) x.

(** [for (i=0; i<n; i++) data[i] = f(data[i])]. *)
Definition particle_loop {A} (n : Z) (f : A -> A) (data : list A) : list A :=
  imap (fun i p => if decide (Z.of_nat i < n) then f p else p) data.

End Vectors.

(** ** SphSimulation.cpp: the force-update pass of [Setup] and [MainLoop] *)

Section SimulationModel.
Context {FLOAT : Type} `{!FloatOps FLOAT} `{!StreamOps FLOAT}
  `{!NeibOps FLOAT}.

(** "Zero accelerations (perhaps)". *)
Definition zero_accelerations (ndim : nat) (p : Particle.t FLOAT)
  : Particle.t FLOAT :=
  Particle.set_dudt f_zero
    (Particle.set_gpot f_zero
       (Particle.set_agrav (vec_loop ndim (fun _ _ => f_zero) (Particle.agrav p))
          (Particle.set_a (vec_loop ndim (fun _ _ => f_zero) (Particle.a p))
             p))).

(** "Add accelerations": [a[k] = agrav[k]]. *)
Definition add_accelerations (ndim : nat) (p : Particle.t FLOAT)
  : Particle.t FLOAT :=
  Particle.set_a
    (vec_loop ndim (fun k _ => vec_get (Particle.agrav p) k) (Particle.a p)) p.

(** Lines 385-406 of [Setup] and 469-489 of [MainLoop], which are the same
    statements. *)
Definition ForceUpdate (ndim : nat) (simparams : Parameters.t FLOAT)
    (sph : Sph.t FLOAT) : Parameters.t FLOAT * Sph.t FLOAT :=
  let sph1 :=
    Sph.set_sphdata
      (particle_loop (Sph.Nsph sph) (zero_accelerations ndim) (Sph.sphdata sph))
      sph in
  let '(hydro_forces, simparams1) := index_intparams "hydro_forces" simparams in
  let sph2 :=
    if decide (hydro_forces = 1) then UpdateAllSphForces sph1 simparams1
    else sph1 in
  let '(self_gravity, simparams2) := index_intparams "self_gravity" simparams1 in
  let sph3 :=
    if decide (self_gravity = 1) then UpdateAllGravityForces sph2 simparams2
    else sph2 in
  (simparams2,
   Sph.set_sphdata
     (particle_loop (Sph.Nsph sph3) (add_accelerations ndim) (Sph.sphdata sph3))
     sph3).

(** The state in which the two force routines have run and the closing
    loop has not: the two contributions the comment wants added. *)
Definition ForcesBeforeAdd (ndim : nat) (simparams : Parameters.t FLOAT)
    (sph : Sph.t FLOAT) : Sph.t FLOAT :=
  let sph1 :=
    Sph.set_sphdata
      (particle_loop (Sph.Nsph sph) (zero_accelerations ndim) (Sph.sphdata sph))
      sph in
  let '(hydro_forces, simparams1) := index_intparams "hydro_forces" simparams in
  let sph2 :=
    if decide (hydro_forces = 1) then UpdateAllSphForces sph1 simparams1
    else sph1 in
  let '(self_gravity, simparams2) := index_intparams "self_gravity" simparams1 in
  if decide (self_gravity = 1) then UpdateAllGravityForces sph2 simparams2
  else sph2.

End SimulationModel.

(** ** SphTree.cpp *)

(** The objects a method of [SphTree] works on: [this], the [Sph] object it
    is handed, and the calls made so far. *)
Record State {FLOAT : Type} := mkState {
  self : SphTree.t FLOAT;
  sph : Sph.t FLOAT;
  calls : list Event
}.
Arguments State : clear implicits.
Arguments mkState {FLOAT}.

Section SphTreeModel.
Context {FLOAT : Type} `{!FloatOps FLOAT} `{!TreeOps FLOAT} `{!Layout FLOAT}.

Definition on_self (f : SphTree.t FLOAT -> SphTree.t FLOAT)
  : M (State FLOAT) unit :=
  modify (fun s => mkState (f (self s)) (sph s) (calls s)).

Definition on_tree (f : Tree.t FLOAT -> Tree.t FLOAT) : M (State FLOAT) unit :=
  on_self (fun t => SphTree.set_tree (f (SphTree.tree t)) t).

Definition on_sph (f : Sph.t FLOAT -> Sph.t FLOAT) : M (State FLOAT) unit :=
  modify (fun s => mkState (self s) (f (sph s)) (calls s)).

Definition call (e : Event) : M (State FLOAT) unit :=
  modify (fun s => mkState (self s) (sph s) (calls s ++ [e])).

Definition the_tree : M (State FLOAT) (Tree.t FLOAT) :=
  gets (fun s => SphTree.tree (self s)).

(** *** AllocateMemory *)


(** *** BuildTree *)

(** [n % m]; a zero divisor is undefined. *)
Definition c_rem (n m : Z) : option Z :=
  if decide (m = 0) then None else Some (Z.rem n m).





(** *** SearchBoundaryGhostParticles *)

(** Modelled from the spec: [Sph::CreateBoundaryGhostParticle] (Sph.cpp is
    not among the sources).  A ghost is "appended after real particles in
    the shared index space" and the generator "produces a running Nghost
    count". *)
Definition CreateBoundaryGhostParticle (image : Particle.t FLOAT)
    (s : Sph.t FLOAT) : Sph.t FLOAT :=
  Sph.set_Nghost (Sph.Nghost s + 1)
    (Sph.set_sphdata
       (<[Z.to_nat (Sph.Nsph s + Sph.Nghost s) := image]> (Sph.sphdata s)) s).

(** Modelled from the spec: [Sph::CheckXBoundaryGhostParticle],
    [CheckYBoundaryGhostParticle] and [CheckZBoundaryGhostParticle] (axis
    [k] = 0, 1, 2; Sph.cpp is not among the sources): "for each contained
    particle, creates/refreshes its periodic or mirror image".  Which
    images particle [i] needs is [boundary_images]. *)
Definition CheckBoundaryGhostParticle_sph (k : nat) (i : Z) (tghost : FLOAT)
    (simbox : DomainBox.t FLOAT) (s : Sph.t FLOAT) : Sph.t FLOAT :=
  match zget (Sph.sphdata s) i with
  | Some p =>
      foldl (fun s' image => CreateBoundaryGhostParticle image s') s
        (boundary_images k tghost simbox p)
  | None => s
  end.

Definition CheckBoundaryGhostParticle (k : nat) (tghost : FLOAT)
    (simbox : DomainBox.t FLOAT) (i : Z) : M (State FLOAT) unit :=
  call (CallCheckBoundaryGhostParticle k i) ;;;
  on_sph (CheckBoundaryGhostParticle_sph k i tghost simbox).

(** The cell's box along axis [k], stretched by its motion over [tghost],
    reaches within [grange*hmax] of an edge of the domain. *)
Definition ghost_overlap (k : nat) (tghost grange : FLOAT)
    (simbox : DomainBox.t FLOAT) (cell : TreeCell.t FLOAT) : bool :=
  flt (fadd (vec_get (TreeCell.bbmin cell) k)
            (fmin f_zero (fmul (vec_get (TreeCell.v cell) k) tghost)))
      (fadd (vec_get (DomainBox.boxmin simbox) k)
            (fmul grange (TreeCell.hmax cell)))
  || fgt (fadd (vec_get (TreeCell.bbmax cell) k)
               (fmax f_zero (fmul (vec_get (TreeCell.v cell) k) tghost)))
         (fsub (vec_get (DomainBox.boxmax simbox) k)
               (fmul grange (TreeCell.hmax cell))).

(** [i = ifirst; while (i != -1) { check(i); if (i == ilast) break;
    i = inext[i]; }] *)
Fixpoint leaf_loop (fuel : nat) (check : Z -> M (State FLOAT) unit)
    (ilast i : Z) : M (State FLOAT) unit :=
  match fuel with
  | O => out_of_fuel
  | S fuel' =>
      if decide (i = -1) then ret tt
      else
        check i ;;;
        if decide (i = ilast) then ret tt
        else
          t <- the_tree ;;
          i' <- defined (zget (Tree.inext t) i) ;;
          leaf_loop fuel' check ilast i'
  end.

(** [while (c < tree->Ncell) { ... }] for axis [k]. *)
Fixpoint walk (pfuel fuel : nat) (k : nat) (tghost grange : FLOAT)
    (simbox : DomainBox.t FLOAT) (c : Z) : M (State FLOAT) unit :=
  match fuel with
  | O => out_of_fuel
  | S fuel' =>
      t <- the_tree ;;
      if decide (c < Tree.Ncell t) then
        cell <- defined (zget (Tree.celldata t) c) ;;
        if ghost_overlap k tghost grange simbox cell then
          if decide (TreeCell.level cell <> Tree.ltot t) then
            walk pfuel fuel' k tghost grange simbox (c + 1)
          else if decide (TreeCell.N cell = 0) then
            walk pfuel fuel' k tghost grange simbox (TreeCell.cnext cell)
          else if decide (TreeCell.level cell = Tree.ltot t) then
            leaf_loop pfuel (CheckBoundaryGhostParticle k tghost simbox)
              (TreeCell.ilast cell) (TreeCell.ifirst cell) ;;;
            walk pfuel fuel' k tghost grange simbox (TreeCell.cnext cell)
          else walk pfuel fuel' k tghost grange simbox c
        else walk pfuel fuel' k tghost grange simbox (TreeCell.cnext cell)
      else ret tt
  end.

Definition is_open (lhs rhs : string) : bool :=
  bool_decide (lhs = "open") && bool_decide (rhs = "open").

Definition x_open (simbox : DomainBox.t FLOAT) : bool :=
  is_open (DomainBox.x_boundary_lhs simbox) (DomainBox.x_boundary_rhs simbox).
Definition y_open (simbox : DomainBox.t FLOAT) : bool :=
  is_open (DomainBox.y_boundary_lhs simbox) (DomainBox.y_boundary_rhs simbox).
Definition z_open (simbox : DomainBox.t FLOAT) : bool :=
  is_open (DomainBox.z_boundary_lhs simbox) (DomainBox.z_boundary_rhs simbox).

(** [sph->Ntot = sph->Nsph + sph->Nghost]. *)
Definition count_ghosts : M (State FLOAT) unit :=
  on_sph (fun s => Sph.set_Ntot (Sph.Nsph s + Sph.Nghost s) s).

(** [for (i=sph->Nsph; i<sph->Ntot; i++) check(i)]: the ghosts made so far,
    which are not part of the tree.  ([check] leaves [Nsph] and [Ntot]
    alone, so the bounds are those at loop entry.) *)
Definition direct_scan (check : Z -> M (State FLOAT) unit)
  : M (State FLOAT) unit :=
  s <- gets sph ;;
  for_range (Sph.Nsph s) (Sph.Ntot s) check.

Definition reset_ghost_counters (s : Sph.t FLOAT) : Sph.t FLOAT :=
  Sph.set_Ntot (Sph.Nsph s)
    (Sph.set_Nghostmax (Sph.Nsphmax s - Sph.Nsph s)
       (Sph.set_Nmpighost 0 (Sph.set_NPeriodicGhost 0 (Sph.set_Nghost 0 s)))).

Definition SearchBoundaryGhostParticles (fuel : nat) (ndim : Z)
    (tghost : FLOAT) (simbox : DomainBox.t FLOAT) : M (State FLOAT) unit :=
  t <- gets self ;;
  let grange := fmul (SphTree.ghost_range t) (SphTree.kernrange t) in
  on_sph reset_ghost_counters ;;;
  if x_open simbox && y_open simbox && z_open simbox then ret tt
  else
    (if negb (x_open simbox) then
       walk fuel fuel 0 tghost grange simbox 0 ;;;
       count_ghosts
     else ret tt) ;;;
    (if bool_decide (ndim >= 2) && negb (y_open simbox) then
       walk fuel fuel 1 tghost grange simbox 0 ;;;
       direct_scan (CheckBoundaryGhostParticle 1 tghost simbox) ;;;
       count_ghosts
     else ret tt) ;;;
    (if bool_decide (ndim = 3) && negb (z_open simbox) then
       walk fuel fuel 2 tghost grange simbox 0 ;;;
       direct_scan (CheckBoundaryGhostParticle 2 tghost simbox) ;;;
       count_ghosts
     else ret tt) ;;;
    s <- gets sph ;;
    (if decide (Sph.Ntot s > Sph.Nsphmax s) then
       raise "Not enough memory for ghost particles"
     else ret tt) ;;;
    on_sph (fun s => Sph.set_NPeriodicGhost (Sph.Nghost s) s).

(** *** FindLoadBalancingDivision *)

(** The state of this function is a history: the values of [workleft] and
    [workright] each time [workfrac] is computed. *)
Definition WorkHistory : Type := list (FLOAT * FLOAT).

(** [for (int i=0; i<leftnodes.size(); i++) { int inode = leftnodes[i]; }] *)
Definition scan_leftnodes (leftnodes : list Z) (work : FLOAT * FLOAT)
  : FLOAT * FLOAT :=
  foldl (fun w inode => let inode' : Z := inode in w) work leftnodes.

Fixpoint division_loop (fuel : nat) (leftnodes : list Z)
    (r_min r_max r_divide : FLOAT) : M WorkHistory FLOAT :=
  match fuel with
  | O => out_of_fuel
  | S fuel' =>
      let '(workleft, workright) := scan_leftnodes leftnodes (f_zero, f_zero) in
      modify (fun hist => hist ++ [(workleft, workright)]) ;;;
      let workfrac := fdiv workleft (fadd workleft workright) in
      if flt workfrac (fsub f_half f_worktol) then
        let r_min := r_divide in
        let r_divide := fmul f_half (fadd r_min r_max) in
        if flt (fabs (fsub workfrac f_half)) f_worktol then
          division_loop fuel' leftnodes r_min r_max r_divide
        else ret r_divide
      else if fgt workfrac (fadd f_half f_worktol) then
        let r_max := r_divide in
        let r_divide := fmul f_half (fadd r_min r_max) in
        if flt (fabs (fsub workfrac f_half)) f_worktol then
          division_loop fuel' leftnodes r_min r_max r_divide
        else ret r_divide
      else ret r_divide
  end.

Definition FindLoadBalancingDivision {MpiNode : Type} (fuel : nat)
    (k_divide : Z) (r_old : FLOAT) (bbmin bbmax : list FLOAT)
    (leftnodes rightnodes : list Z) (mpinode : list MpiNode)
  : M WorkHistory FLOAT :=
  r_max <- defined (zget bbmax k_divide) ;;
  r_min <- defined (zget bbmin k_divide) ;;
  division_loop fuel leftnodes r_min r_max r_old.

End SphTreeModel.

(** *** The export/import protocol (MPI_PARALLEL) *)

Section ExportModel.
Context {FLOAT : Type} `{!FloatOps FLOAT} `{!TreeOps FLOAT} `{!Layout FLOAT}.

(** [v.resize(n)] for a vector of [int]. *)
Definition resize_ints (n : nat) (v : list Z) : list Z :=
  take n v ++ replicate (n - length v) 0.

(** [ids_sent_particles[Nproc]] as an lvalue. *)
Definition set_ids_sent (Nproc : Z) (ids : list Z) : M (State FLOAT) unit :=
  t <- gets self ;;
  all <- defined (zset (SphTree.ids_sent_particles t) Nproc ids) ;;
  on_self (SphTree.set_ids_sent_particles all).

Definition get_ids_sent (Nproc : Z) : M (State FLOAT) (list Z) :=
  t <- gets self ;;
  defined (zget (SphTree.ids_sent_particles t) Nproc).

(** **** GetExportInfo *)

(** One turn of the loop over [activelist]; the locals are [offset] and the
    buffer. *)
Definition export_particle (Nproc : Z) (ip : Z) (acc : Z * list byte)
  : M (State FLOAT) (Z * list byte) :=
  let '(offset, buf) := acc in
  ids <- get_ids_sent Nproc ;;
  set_ids_sent Nproc (ids ++ [ip]) ;;;
  s <- gets sph ;;
  p <- defined (zget (Sph.sphdata s) ip) ;;
  buf' <- defined (write_at buf offset (bytes_of_part p)) ;;
  ret (offset + Z.of_nat sizeof_part, buf').

(** One turn of the loop over the cells to export; the locals are [offset],
    [exported_particles] and the buffer. *)
Definition export_cell (Nproc : Z) (celllist : list Z) (i : Z)
    (acc : Z * Z * list byte) : M (State FLOAT) (Z * Z * list byte) :=
  let '(offset, exported_particles, buf) := acc in
  t <- the_tree ;;
  s <- gets sph ;;
  c <- defined (zget celllist i) ;;
  cell <- defined (zget (Tree.celldata t) c) ;;
  buf1 <- defined (write_at buf offset (bytes_of_cell cell)) ;;
  let activelist := tree_ComputeActiveParticleList cell (Sph.sphdata s) t in
  let Nactive_cell := Z.of_nat (length activelist) in
  let exported_cell :=
    TreeCell.set_ilast (exported_particles + Nactive_cell - 1)
      (TreeCell.set_ifirst exported_particles cell) in
  buf2 <- defined (write_at buf1 offset (bytes_of_cell exported_cell)) ;;
  ob <- fold_each activelist (export_particle Nproc)
          (offset + Z.of_nat sizeof_cell, buf2) ;;
  ret (ob.1, exported_particles + Nactive_cell, ob.2).

Definition GetExportInfo (Nproc : Z) (send_buffer : list byte)
  : M (State FLOAT) (Z * list byte) :=
  t <- gets self ;;
  assert (bool_decide (Tree.Nimportedcell (SphTree.tree t) = 0)) ;;;
  celllist <- defined (zget (SphTree.cellexportlist t) Nproc) ;;
  cactive <- defined (zget (SphTree.Ncellexport t) Nproc) ;;
  Nactive <- defined (zget (SphTree.Npartexport t) Nproc) ;;
  let size_header := 2 * Z.of_nat sizeof_int in
  let size_particles := Nactive * Z.of_nat sizeof_part in
  let size_cells := cactive * Z.of_nat sizeof_cell in
  let old_size := Z.of_nat (length send_buffer) in
  let new_size := size_particles + size_cells + size_header + old_size in
  (if decide (new_size < 0) then raise "std::length_error" else ret tt) ;;;
  let buf0 := resize_buffer (Z.to_nat new_size) send_buffer in
  buf1 <- defined (write_at buf0 old_size (bytes_of_int Nactive)) ;;
  buf2 <- defined (write_at buf1 (old_size + Z.of_nat sizeof_int)
                     (bytes_of_int cactive)) ;;
  set_ids_sent Nproc [] ;;;
  acc <- fold_each (seqZ 0 cactive) (export_cell Nproc celllist)
           (size_header + old_size, 0, buf2) ;;
  let '(offset, exported_particles, buf) := acc in
  assert (bool_decide (exported_particles = Nactive)) ;;;
  assert (bool_decide (offset = Z.of_nat (length buf))) ;;;
  ret (size_particles + size_cells + size_header, buf).

(** **** UnpackExported *)

Definition set_N_imported (Nproc : Z) (n : Z) : M (State FLOAT) unit :=
  t <- gets self ;;
  v <- defined (zset (SphTree.N_imported_part_per_proc t) Nproc n) ;;
  on_self (SphTree.set_N_imported_part_per_proc v).

Definition read_int (buf : list byte) (off : Z) : M (State FLOAT) Z :=
  bs <- defined (read_at buf off sizeof_int) ;;
  ret (int_of_bytes bs).

(** One turn of the loop over the particles of a received cell; the locals
    are [particle_index] and [offset]. *)
Definition unpack_particle (received_array : list byte) (iparticle : Z)
    (acc : Z * Z) : M (State FLOAT) (Z * Z) :=
  let '(particle_index, offset) := acc in
  bs <- defined (read_at received_array offset sizeof_part) ;;
  s <- gets sph ;;
  data <- defined (zset (Sph.sphdata s) particle_index (part_of_bytes bs)) ;;
  on_sph (Sph.set_sphdata data) ;;;
  t <- the_tree ;;
  next <- defined (zset (Tree.inext t) particle_index (particle_index + 1)) ;;
  on_tree (Tree.set_inext next) ;;;
  ret (particle_index + 1, offset + Z.of_nat sizeof_part).

(** One turn of the loop over the received cells. *)
Definition unpack_cell (received_array : list byte) (icell : Z)
    (acc : Z * Z) : M (State FLOAT) (Z * Z) :=
  let '(particle_index, offset) := acc in
  t <- the_tree ;;
  s <- gets sph ;;
  bs <- defined (read_at received_array offset sizeof_cell) ;;
  let received_cell := cell_of_bytes bs in
  let dest_cell :=
    TreeCell.set_ilast (TreeCell.ilast received_cell + Sph.Ntot s)
      (TreeCell.set_ifirst (TreeCell.ifirst received_cell + Sph.Ntot s)
         received_cell) in
  cells <- defined (zset (Tree.celldata t) (icell + Tree.Ncelltot t) dest_cell) ;;
  on_tree (Tree.set_celldata cells) ;;;
  fold_each (seqZ 0 (TreeCell.Nactive dest_cell))
    (unpack_particle received_array)
    (particle_index, offset + Z.of_nat sizeof_cell).

(** What follows the capacity checks for one peer: the payload is copied
    and the counters are advanced. *)
Definition unpack_payload (received_array : list byte)
    (N_received_particles N_received_cells : Z) (offset : Z)
  : M (State FLOAT) Z :=
  s <- gets sph ;;
  po <- fold_each (seqZ 0 N_received_cells) (unpack_cell received_array)
          (Sph.Ntot s, offset + 2 * Z.of_nat sizeof_int) ;;
  on_sph (fun s =>
    Sph.set_NImportedParticles (Sph.NImportedParticles s + N_received_particles)
      (Sph.set_Ntot (Sph.Ntot s + N_received_particles) s)) ;;;
  s' <- gets sph ;;
  on_tree (fun t =>
    Tree.set_Ntot (Sph.Ntot s')
      (Tree.set_Ncelltot (Tree.Ncelltot t + N_received_cells)
         (Tree.set_Nimportedcell (Tree.Nimportedcell t + N_received_cells) t))) ;;;
  ret po.2.

(** One turn of the loop over the peers; the local is [offset]. *)
Definition unpack_proc (received_array : list byte)
    (Nbytes_exported_from_proc : list Z) (Nproc : Z) (offset : Z)
  : M (State FLOAT) Z :=
  N_received_bytes <- defined (zget Nbytes_exported_from_proc Nproc) ;;
  if decide (N_received_bytes = 0) then
    set_N_imported Nproc 0 ;;; ret offset
  else
    N_received_particles <- read_int received_array offset ;;
    set_N_imported Nproc N_received_particles ;;;
    N_received_cells <-
      read_int received_array (offset + Z.of_nat sizeof_int) ;;
    s <- gets sph ;;
    t <- the_tree ;;
    (if decide (Sph.Ntot s + N_received_particles > Sph.Nsphmax s) then
       raise "Error while receiving imported particles: not enough memory!"
     else ret tt) ;;;
    (if decide (Tree.Ncelltot t + N_received_cells > Tree.Ncellmax t) then
       raise "Error while receiving imported cells: not enough memory!"
     else ret tt) ;;;
    unpack_payload received_array N_received_particles N_received_cells offset.

(** The statements before the loop over the peers. *)
Definition unpack_begin (Nbytes_exported_from_proc : list Z)
  : M (State FLOAT) unit :=
  s <- gets sph ;;
  assert (bool_decide (Sph.NImportedParticles s = 0)) ;;;
  on_tree (fun t => Tree.set_Ncelltot (Tree.Ncell t) (Tree.set_Nimportedcell 0 t)) ;;;
  on_self (fun t =>
    SphTree.set_N_imported_part_per_proc
      (resize_ints (length Nbytes_exported_from_proc)
         (SphTree.N_imported_part_per_proc t)) t).

Definition UnpackExported (received_array : list byte)
    (Nbytes_exported_from_proc : list Z) : M (State FLOAT) unit :=
  unpack_begin Nbytes_exported_from_proc ;;;
  offset <- fold_each
              (seqZ 0 (Z.of_nat (length Nbytes_exported_from_proc)))
              (unpack_proc received_array Nbytes_exported_from_proc) 0 ;;
  assert (bool_decide (offset = foldl Z.add 0 Nbytes_exported_from_proc)).

(** **** GetBackExportInfo *)

(** The locals of the loop over the peers: [removed_particles], and the
    three vectors the caller passed by reference. *)
Record BackLocals := mkBackLocals {
  removed_particles : Z;
  send_buffer : list byte;
  Nbytes_exported_from_proc : list Z;
  Nbytes_to_each_proc : list Z
}.

(** One turn of the copy loop; the locals are [j] and the buffer. *)
Definition back_particle (removed : Z) (i : Z) (acc : Z * list byte)
  : M (State FLOAT) (Z * list byte) :=
  let '(j, buf) := acc in
  s <- gets sph ;;
  p <- defined (zget (Sph.sphdata s) i) ;;
  buf' <- defined (write_at buf ((removed + j) * Z.of_nat sizeof_part)
                     (bytes_of_part p)) ;;
  ret (j + 1, buf').

Definition back_proc (Nproc : Z) (loc : BackLocals)
  : M (State FLOAT) BackLocals :=
  t <- gets self ;;
  s <- gets sph ;;
  N_received_particles <-
    defined (zget (SphTree.N_imported_part_per_proc t) Nproc) ;;
  let start_index := Sph.Nsph s + Sph.Nghost s + removed_particles loc in
  jb <- fold_each (seqZ start_index N_received_particles)
          (back_particle (removed_particles loc)) (0, send_buffer loc) ;;
  assert (bool_decide (jb.1 = N_received_particles)) ;;;
  on_sph (fun s =>
    Sph.set_NImportedParticles (Sph.NImportedParticles s - N_received_particles)
      (Sph.set_Ntot (Sph.Ntot s - N_received_particles) s)) ;;;
  exported <- defined (zset (Nbytes_exported_from_proc loc) Nproc
                         (N_received_particles * Z.of_nat sizeof_part)) ;;
  ids <- get_ids_sent Nproc ;;
  to_each <- defined (zset (Nbytes_to_each_proc loc) Nproc
                        (Z.of_nat (length ids) * Z.of_nat sizeof_part)) ;;
  ret (mkBackLocals (removed_particles loc + jb.1) jb.2 exported to_each).

Definition GetBackExportInfo (send_buffer0 : list byte)
    (Nbytes_exported_from_proc0 Nbytes_to_each_proc0 : list Z) (rank : Z)
  : M (State FLOAT) BackLocals :=
  t <- gets self ;;
  s <- gets sph ;;
  let InitialNImportedParticles := Sph.NImportedParticles s in
  let new_size := InitialNImportedParticles * Z.of_nat sizeof_part in
  (if decide (new_size < 0) then raise "std::length_error" else ret tt) ;;;
  loc <- fold_each
           (seqZ 0 (Z.of_nat (length (SphTree.N_imported_part_per_proc t))))
           back_proc
           (mkBackLocals 0 (resize_buffer (Z.to_nat new_size) send_buffer0)
              Nbytes_exported_from_proc0 Nbytes_to_each_proc0) ;;
  on_tree (fun t =>
    Tree.set_Ntot (Tree.Ntot t - InitialNImportedParticles)
      (Tree.set_Nimportedcell 0 (Tree.set_Ncelltot (Tree.Ncell t) t))) ;;;
  s' <- gets sph ;;
  assert (bool_decide (Sph.NImportedParticles s' = 0)) ;;;
  assert (bool_decide (Sph.Ntot s' = Sph.Nsph s' + Sph.Nghost s')) ;;;
  assert (bool_decide (Z.of_nat (length (send_buffer loc))
                       = removed_particles loc * Z.of_nat sizeof_part)) ;;;
  ret loc.

(** **** UnpackReturnedExportInfo *)

(** The sums of the loop body. *)
Definition add_returned (ndim : nat) (p received_particle : Particle.t FLOAT)
  : Particle.t FLOAT :=
  let rp := received_particle in
  Particle.set_levelneib (Z.max (Particle.levelneib p) (Particle.levelneib rp))
    (Particle.set_div_v (fadd (Particle.div_v p) (Particle.div_v rp))
       (Particle.set_dudt (fadd (Particle.dudt p) (Particle.dudt rp))
          (Particle.set_gpe (fadd (Particle.gpe p) (Particle.gpe rp))
             (Particle.set_gpot (fadd (Particle.gpot p) (Particle.gpot rp))
                (Particle.set_agrav
                   (vec_loop ndim
                      (fun k x => fadd x (vec_get (Particle.agrav rp) k))
                      (Particle.agrav p))
                   (Particle.set_a
                      (vec_loop ndim
                         (fun k x => fadd x (vec_get (Particle.a rp) k))
                         (Particle.a p))
                      p)))))).

(** The body for the local particle [j] and the record returned for it. *)
Definition reconcile (ndim : nat) (j : Z) (received_particle : Particle.t FLOAT)
  : M (State FLOAT) unit :=
  s <- gets sph ;;
  p <- defined (zget (Sph.sphdata s) j) ;;
  assert (bool_decide (Particle.iorig p = Particle.iorig received_particle)) ;;;
  data <- defined (zset (Sph.sphdata s) j (add_returned ndim p received_particle)) ;;
  on_sph (Sph.set_sphdata data).

(** One turn of the loop over [ids_active_particles]; the local is [i]. *)
Definition unpack_returned_particle (ndim : nat)
    (received_information : list byte) (displ : Z) (j : Z) (i : Z)
  : M (State FLOAT) Z :=
  bs <- defined (read_at received_information
                   (i * Z.of_nat sizeof_part + displ) sizeof_part) ;;
  reconcile ndim j (part_of_bytes bs) ;;;
  ret (i + 1).

Definition unpack_returned_proc (ndim : nat) (received_information : list byte)
    (recv_displs : list Z) (rank : Z) (Nproc : Z) : M (State FLOAT) unit :=
  if decide (rank = Nproc) then ret tt
  else
    ids_active_particles <- get_ids_sent Nproc ;;
    displ <- defined (zget recv_displs Nproc) ;;
    fold_each ids_active_particles
      (unpack_returned_particle ndim received_information displ) 0 ;;;
    ret tt.

Definition UnpackReturnedExportInfo (ndim : nat)
    (received_information : list byte) (recv_displs : list Z) (rank : Z)
  : M (State FLOAT) unit :=
  for_each (seqZ 0 (Z.of_nat (length recv_displs)))
    (unpack_returned_proc ndim received_information recv_displs rank).

End ExportModel.

(** ** Vocabulary of the statements *)

Section StatementVocabulary.
Context {FLOAT : Type} `{!FloatOps FLOAT} `{!TreeOps FLOAT} `{!Layout FLOAT}.

(** The calls of the boundary check for axis [k] on the particles [l]. *)
Definition check_calls (k : nat) (l : list Z) : list Event :=
  CallCheckBoundaryGhostParticle k <$> l.

(** What a sequence of calls does to the particle store. *)
Definition replay_call (tghost : FLOAT) (simbox : DomainBox.t FLOAT)
    (s : Sph.t FLOAT) (e : Event) : Sph.t FLOAT :=
  match e with
  | CallCheckBoundaryGhostParticle k i =>
      CheckBoundaryGhostParticle_sph k i tghost simbox s
  | _ => s
  end.

Definition replay (tghost : FLOAT) (simbox : DomainBox.t FLOAT)
    (es : list Event) (s : Sph.t FLOAT) : Sph.t FLOAT :=
  foldl (replay_call tghost simbox) s es.

(** Following [inext] from [i] meets [ilast] or -1 within [n] particles. *)
Fixpoint chain_ok (n : nat) (inext : list Z) (ilast i : Z) : Prop :=
  match n with
  | O => False
  | S n' =>
      i = -1 \/ i = ilast \/
      exists i', zget inext i = Some i' /\ chain_ok n' inext ilast i'
  end.

(** A tree whose walk ends: the cells are there, every skip pointer points
    forward, and the particle chain of every leaf ends.  [n] bounds the
    number of cells and the length of a chain. *)
Definition tree_ok (n : nat) (t : Tree.t FLOAT) : Prop :=
  Tree.Ncell t <= Z.of_nat (length (Tree.celldata t)) /\
  Tree.Ncell t <= Z.of_nat n /\
  forall c cell,
    0 <= c < Tree.Ncell t -> zget (Tree.celldata t) c = Some cell ->
    c < TreeCell.cnext cell /\
    (TreeCell.level cell = Tree.ltot t -> TreeCell.N cell <> 0 ->
     chain_ok n (Tree.inext t) (TreeCell.ilast cell) (TreeCell.ifirst cell)).

(** The state reached from [s0] when the ghost counters were reset, the
    calls [es] were made, and [Ntot] was last set to [ntot]. *)
Definition ghost_search_at (tghost : FLOAT) (simbox : DomainBox.t FLOAT)
    (s0 : State FLOAT) (es : list Event) (ntot : Z) (s : State FLOAT) : Prop :=
  self s = self s0 /\
  calls s = calls s0 ++ es /\
  sph s = Sph.set_Ntot ntot
            (replay tghost simbox es (reset_ghost_counters (sph s0))).

(** The calls of a ghost search in which the tree walks of the x, y and z
    passes visited the particles [lx], [ly] and [lz]: the x walk; then the y
    walk followed by the y check of every ghost the x pass made (they sit
    at [Nsph], [Nsph+1], ...); then the z walk followed by the z check of
    every ghost the x and y passes made.  A pass whose two edges are open,
    or whose axis the dimension does not have, makes no call. *)
Definition search_calls (tghost : FLOAT) (simbox : DomainBox.t FLOAT)
    (ndim : Z) (s : Sph.t FLOAT) (lx ly lz : list Z) : list Event :=
  let r0 := reset_ghost_counters s in
  let xs := if negb (x_open simbox) then check_calls 0 lx else [] in
  let ys :=
    if bool_decide (ndim >= 2) && negb (y_open simbox) then
      check_calls 1 ly
      ++ check_calls 1
           (seqZ (Sph.Nsph s) (Sph.Nghost (replay tghost simbox xs r0)))
    else [] in
  let zs :=
    if bool_decide (ndim = 3) && negb (z_open simbox) then
      check_calls 2 lz
      ++ check_calls 2
           (seqZ (Sph.Nsph s) (Sph.Nghost (replay tghost simbox (xs ++ ys) r0)))
    else [] in
  xs ++ ys ++ zs.

(** A state without the contents of its arrays ([sphdata], [celldata],
    [inext]): the counters and the bookkeeping. *)
Definition bookkeeping (s : State FLOAT) : State FLOAT :=
  mkState
    (SphTree.set_tree
       (Tree.set_inext [] (Tree.set_celldata [] (SphTree.tree (self s))))
       (self s))
    (Sph.set_sphdata [] (sph s)) (calls s).

(** The sum of a vector of counts. *)
Definition sumZ (l : list Z) : Z := foldr Z.add 0 l.

(** The fields that [UnpackReturnedExportInfo] accumulates. *)
Definition result_fields (p : Particle.t FLOAT)
  : list FLOAT * list FLOAT * FLOAT * FLOAT * FLOAT * FLOAT * Z :=
  (Particle.a p, Particle.agrav p, Particle.gpot p, Particle.gpe p,
   Particle.dudt p, Particle.div_v p, Particle.levelneib p).

(** The imported particles: those after the real particles and ghosts. *)
Definition imported_particles (s : Sph.t FLOAT) : list (Particle.t FLOAT) :=
  take (Z.to_nat (Sph.NImportedParticles s))
    (drop (Z.to_nat (Sph.Nsph s + Sph.Nghost s)) (Sph.sphdata s)).

(** The records of one exported cell as [GetExportInfo] lays them out: the
    cell, then its active particles. *)
Definition cell_with_particles (cell : TreeCell.t FLOAT)
    (parts : list (Particle.t FLOAT)) : list byte :=
  bytes_of_cell cell ++ concat (bytes_of_part <$> parts).

(** The records of the cells that the claim would have first, then those of
    the particles. *)
Definition cells_then_particles (cells : list (TreeCell.t FLOAT))
    (parts : list (Particle.t FLOAT)) : list byte :=
  concat (bytes_of_cell <$> cells) ++ concat (bytes_of_part <$> parts).

(** [records] are the exported cells from position [k] of [celllist] on,
    each with its active particles: the cell is the tree's, with [ifirst]
    and [ilast] renumbered from [exported], the count of particles before
    it. *)
Fixpoint export_records_ok (t : Tree.t FLOAT) (data : list (Particle.t FLOAT))
    (celllist : list Z) (k exported : Z)
    (records : list (TreeCell.t FLOAT * list (Particle.t FLOAT))) : Prop :=
  match records with
  | [] => True
  | (c, ps) :: records' =>
      (exists ci cell,
         zget celllist k = Some ci /\
         zget (Tree.celldata t) ci = Some cell /\
         Forall2 (fun ip p => zget data ip = Some p)
           (tree_ComputeActiveParticleList cell data t) ps /\
         c = TreeCell.set_ilast (exported + Z.of_nat (length ps) - 1)
               (TreeCell.set_ifirst exported cell)) /\
      export_records_ok t data celllist (k + 1)
        (exported + Z.of_nat (length ps)) records'
  end.

(** The number of particles in some records. *)
Definition particle_count
    (records : list (TreeCell.t FLOAT * list (Particle.t FLOAT))) : Z :=
  sumZ ((fun r => Z.of_nat (length r.2)) <$> records).

(** The bytes of some records, each cell followed by its particles. *)
Definition records_bytes
    (records : list (TreeCell.t FLOAT * list (Particle.t FLOAT))) : list byte :=
  concat ((fun r => cell_with_particles r.1 r.2) <$> records).

End StatementVocabulary.

(** ** Worked examples: integers for [FLOAT], a box of side 10 *)

Module Worked.

Definition ZFloat : FloatOps Z := {|
  f_zero := 0; f_half := 5; f_worktol := 1;
  fadd := Z.add; fsub := Z.sub; fmul := Z.mul; fdiv := Z.div;
  fmin := Z.min; fmax := Z.max; fabs := Z.abs;
  flt := Z.ltb; fgt := Z.gtb |}.

Definition ZStream : StreamOps Z := {|
  extract_int := fun _ old => old; extract_float := fun _ old => old |}.

(** A particle at [r] that is at rest, with origin identifier [id]. *)
Definition particle_at (r : list Z) (id : Z) : Particle.t Z :=
  Particle.mk r [0; 0; 0] [0; 0; 0] [0; 0; 0] 1 1 0 0 0 0 0 id true.

Definition unused : Particle.t Z := particle_at [0; 0; 0] (-1).

(** Hydrodynamics pushes every particle by 1 along x, gravity by 2. *)
Definition ZNeib : NeibOps Z := {|
  UpdateAllSphForces := fun s _ =>
    Sph.set_sphdata
      (particle_loop (Sph.Nsph s)
         (fun p => Particle.set_a (<[0%nat := 1]> (Particle.a p)) p)
         (Sph.sphdata s)) s;
  UpdateAllGravityForces := fun s _ =>
    Sph.set_sphdata
      (particle_loop (Sph.Nsph s)
         (fun p => Particle.set_agrav (<[0%nat := 2]> (Particle.agrav p)) p)
         (Sph.sphdata s)) s |}.

(** The image of [p] moved by [d] along axis [k]. *)
Definition shifted (k : nat) (d : Z) (p : Particle.t Z) : Particle.t Z :=
  Particle.mk (<[k := default 0 (Particle.r p !! k) + d]> (Particle.r p))
    (Particle.v p) (Particle.a p) (Particle.agrav p) (Particle.m p)
    (Particle.h p) (Particle.gpot p) (Particle.gpe p) (Particle.dudt p)
    (Particle.div_v p) (Particle.levelneib p) (Particle.iorig p)
    (Particle.active p).

(** Periodic images in a box [0,10] on each axis: a particle within 1 of an
    edge has an image beyond the opposite edge.  All particles of a cell are
    active; the tree methods do nothing. *)
Definition ZTree : TreeOps Z := {|
  tree_BuildTree := fun _ _ _ _ t => t;
  tree_StockTree := fun _ t => t;
  tree_ExtrapolateCellProperties := fun _ t => t;
  tree_ComputeActiveParticleList := fun cell _ _ =>
    seqZ (TreeCell.ifirst cell) (TreeCell.Nactive cell);
  sph_DeleteDeadParticles := fun s => s;
  boundary_images := fun k _ _ p =>
    let x := default 0 (Particle.r p !! k) in
    if x <? 1 then [shifted k 10 p]
    else if x >? 9 then [shifted k (-10) p]
    else [] |}.

(** A layout: every field is four bytes, little endian; a vector is three
    fields. *)
Definition byte_of_Z (z : Z) : byte :=
  default x00 (Byte.of_N (Z.to_N (z mod 256))).

Definition Z_of_byte (b : byte) : Z := Z.of_N (Byte.to_N b).

Definition bytes_of_Z (z : Z) : list byte :=
  [byte_of_Z z; byte_of_Z (z / 256); byte_of_Z (z / 65536);
   byte_of_Z (z / 16777216)].

Definition Z_of_bytes (bs : list byte) : Z :=
  let u := foldr (fun b acc => Z_of_byte b + 256 * acc) 0 bs in
  if u <? 2147483648 then u else u - 4294967296.

Definition bytes_of_vec (x : list Z) : list byte :=
  bytes_of_Z (default 0 (x !! 0%nat)) ++ bytes_of_Z (default 0 (x !! 1%nat))
  ++ bytes_of_Z (default 0 (x !! 2%nat)).

Fixpoint fields_of (n : nat) (bs : list byte) : list Z :=
  match n with
  | O => []
  | S n' => Z_of_bytes (take 4 bs) :: fields_of n' (drop 4 bs)
  end.

Definition field (fs : list Z) (i : nat) : Z := default 0 (fs !! i).
Definition vec_field (fs : list Z) (i : nat) : list Z :=
  [field fs i; field fs (i + 1); field fs (i + 2)].

Definition ZLayout : Layout Z := {|
  sizeof_cell := 72;
  sizeof_part := 84;
  bytes_of_int := bytes_of_Z;
  bytes_of_cell := fun c =>
    bytes_of_Z (TreeCell.level c) ++ bytes_of_Z (TreeCell.N c)
    ++ bytes_of_Z (TreeCell.Nactive c) ++ bytes_of_Z (TreeCell.ifirst c)
    ++ bytes_of_Z (TreeCell.ilast c) ++ bytes_of_Z (TreeCell.cnext c)
    ++ bytes_of_Z (TreeCell.c1 c) ++ bytes_of_Z (TreeCell.c2 c)
    ++ bytes_of_vec (TreeCell.bbmin c) ++ bytes_of_vec (TreeCell.bbmax c)
    ++ bytes_of_vec (TreeCell.v c) ++ bytes_of_Z (TreeCell.hmax c);
  bytes_of_part := fun p =>
    bytes_of_vec (Particle.r p) ++ bytes_of_vec (Particle.v p)
    ++ bytes_of_vec (Particle.a p) ++ bytes_of_vec (Particle.agrav p)
    ++ bytes_of_Z (Particle.m p) ++ bytes_of_Z (Particle.h p)
    ++ bytes_of_Z (Particle.gpot p) ++ bytes_of_Z (Particle.gpe p)
    ++ bytes_of_Z (Particle.dudt p) ++ bytes_of_Z (Particle.div_v p)
    ++ bytes_of_Z (Particle.levelneib p) ++ bytes_of_Z (Particle.iorig p)
    ++ bytes_of_Z (if Particle.active p then 1 else 0);
  int_of_bytes := Z_of_bytes;
  cell_of_bytes := fun bs =>
    let fs := fields_of 18 bs in
    TreeCell.mk (field fs 0) (field fs 1) (field fs 2) (field fs 3)
      (field fs 4) (field fs 5) (field fs 6) (field fs 7) (vec_field fs 8)
      (vec_field fs 11) (vec_field fs 14) (field fs 17);
  part_of_bytes := fun bs =>
    let fs := fields_of 21 bs in
    Particle.mk (vec_field fs 0) (vec_field fs 3) (vec_field fs 6)
      (vec_field fs 9) (field fs 12) (field fs 13) (field fs 14)
      (field fs 15) (field fs 16) (field fs 17) (field fs 18) (field fs 19)
      (bool_decide (field fs 20 <> 0)) |}.

(** *** A force-update pass: one particle, hydrodynamics and gravity on *)

Definition force_params : Parameters.t Z :=
  Parameters.mk {[ "hydro_forces" := 1; "self_gravity" := 1 ]} ∅ ∅ [].

Definition force_sph : Sph.t Z :=
  Sph.mk 1 0 0 0 0 1 1 0 0 [particle_at [5; 5; 5] 0].

(** *** A tree of one leaf with a particle in a corner of the box *)

Definition corner_cell : TreeCell.t Z :=
  TreeCell.mk 0 2 2 0 1 1 (-1) (-1) [0; 0; 5] [5; 5; 5] [0; 0; 0] 1.

Definition corner_tree : Tree.t Z :=
  Tree.mk 1 4 1 0 0 1 0 1 2 8 8
    [corner_cell; corner_cell; corner_cell; corner_cell]
    [1; -1; 0; 0; 0; 0; 0; 0].

Definition corner_sphtree : SphTree.t Z :=
  SphTree.mk corner_tree 8 2 1 1 1 2 2 8 8 false [] [] []
    [0; 0] [0; 0] [[]; []] [[]; []] [].

(** Room for [Nsphmax] particles, two of them real. *)
Definition corner_sph (Nsphmax : Z) : Sph.t Z :=
  Sph.mk 2 0 0 0 0 2 Nsphmax 0 8
    ([particle_at [0; 0; 5] 0; particle_at [5; 5; 5] 1]
     ++ replicate (Z.to_nat Nsphmax - 2) unused).

Definition corner_state (Nsphmax : Z) : State Z :=
  mkState corner_sphtree (corner_sph Nsphmax) [].

(** Periodic in x and y, open in z. *)
Definition corner_box : DomainBox.t Z :=
  DomainBox.mk "periodic" "periodic" "periodic" "periodic" "open" "open"
    [0; 0; 0] [10; 10; 10].

(** *** An export from rank 0 to rank 1 and its import *)

(** A root with two leaves of one active particle each. *)
Definition leaf (ifirst : Z) (cnext : Z) (lo hi : list Z) : TreeCell.t Z :=
  TreeCell.mk 1 1 1 ifirst ifirst cnext (-1) (-1) lo hi [0; 0; 0] 1.

Definition export_tree : Tree.t Z :=
  Tree.mk 3 4 3 0 1 2 0 1 2 8 8
    [TreeCell.mk 0 2 2 0 1 3 1 2 [1; 1; 1] [8; 8; 8] [0; 0; 0] 1;
     leaf 0 2 [1; 1; 1] [1; 1; 1]; leaf 1 3 [8; 8; 8] [8; 8; 8];
     corner_cell]
    [1; -1; 0; 0; 0; 0; 0; 0].

(** Both leaves are to be exported to rank 1. *)
Definition export_sphtree : SphTree.t Z :=
  SphTree.mk export_tree 8 2 1 1 1 2 2 8 8 false [] [] []
    [0; 2] [0; 2] [[]; [1; 2]] [[]; []] [].

Definition export_sph : Sph.t Z :=
  Sph.mk 2 0 0 0 0 2 8 0 8
    ([particle_at [1; 1; 1] 100; particle_at [8; 8; 8] 101]
     ++ replicate 6 unused).

Definition export_state : State Z := mkState export_sphtree export_sph [].

Definition message_of (r : run (State Z) (Z * list byte)) : list byte :=
  match r with Done (_, buf) _ => buf | _ => [] end.

(** The message rank 0 builds for rank 1. *)
Definition export_message : list byte :=
  message_of
    (@GetExportInfo Z ZTree ZLayout 1 [] export_state).

(** The two cells as the message carries them, renumbered from 0, and
    their particles. *)
Definition exported_cell1 : TreeCell.t Z :=
  TreeCell.set_ilast 0 (TreeCell.set_ifirst 0 (leaf 0 2 [1; 1; 1] [1; 1; 1])).

Definition exported_cell2 : TreeCell.t Z :=
  TreeCell.set_ilast 1 (TreeCell.set_ifirst 1 (leaf 1 3 [8; 8; 8] [8; 8; 8])).

Definition exported_part1 : Particle.t Z := particle_at [1; 1; 1] 100.
Definition exported_part2 : Particle.t Z := particle_at [8; 8; 8] 101.

(** The receiving rank: two real particles of its own, one cell, room for
    [Nsphmax] particles and four cells. *)
Definition import_sphtree : SphTree.t Z :=
  SphTree.mk
    (Tree.mk 1 4 1 0 0 1 0 1 2 8 8
       [corner_cell; corner_cell; corner_cell; corner_cell]
       [1; -1; 0; 0; 0; 0; 0; 0])
    8 2 1 1 1 2 2 8 8 false [] [] [] [0; 0] [0; 0] [[]; []] [[]; []] [].

Definition import_sph (Nsphmax : Z) : Sph.t Z :=
  Sph.mk 2 0 0 0 0 2 Nsphmax 0 8
    ([particle_at [3; 3; 3] 200; particle_at [4; 4; 4] 201]
     ++ replicate (Z.to_nat Nsphmax - 2) unused).

Definition import_state (Nsphmax : Z) : State Z :=
  mkState import_sphtree (import_sph Nsphmax) [].

(** A state that holds one imported particle [p] after its own two. *)
Definition holding (p : Particle.t Z) : State Z :=
  mkState
    (SphTree.set_N_imported_part_per_proc [1] import_sphtree)
    (Sph.mk 2 0 0 0 0 3 8 1 8
       ([particle_at [3; 3; 3] 200; particle_at [4; 4; 4] 201; p]
        ++ replicate 5 unused))
    [].

Definition state_of {A} (r : run (State Z) A) (otherwise : State Z) : State Z :=
  match r with Done _ s => s | Abort _ s => s | _ => otherwise end.

(** The receiving rank after the import of [export_message]. *)
Definition imported_state : State Z :=
  state_of
    (@UnpackExported Z ZLayout export_message [320] (import_state 8))
    (import_state 8).

End Worked.


(** ** Parameters.cpp: the rest of the class *)

(** *** [std::string] *)

(** [s.find(c)], [s.find_first_not_of(c)], [s.find_last_not_of(c)]: a
    position, or [None] for [std::string::npos]. *)
Fixpoint find (c : Ascii.ascii) (s : string) : option nat :=
  match s with
  | EmptyString => None
  | String a s' => if decide (a = c) then Some 0%nat else S <$> find c s'
  end.

Fixpoint find_first_not_of (c : Ascii.ascii) (s : string) : option nat :=
  match s with
  | EmptyString => None
  | String a s' =>
      if decide (a = c) then S <$> find_first_not_of c s' else Some 0%nat
  end.

Fixpoint find_last_not_of (c : Ascii.ascii) (s : string) : option nat :=
  match s with
  | EmptyString => None
  | String a s' =>
      match find_last_not_of c s' with
      | Some i => Some (S i)
      | None => if decide (a = c) then None else Some 0%nat
      end
  end.

(** The first [n] characters, and the string without them. *)
Fixpoint str_take (n : nat) (s : string) : string :=
  match n, s with
  | S n', String a s' => String a (str_take n' s')
  | _, _ => EmptyString
  end.

Fixpoint str_drop (n : nat) (s : string) : string :=
  match n, s with
  | S n', String _ s' => str_drop n' s'
  | _, _ => s
  end.

(** [s.substr(pos, n)], for [pos] inside the string. *)
Definition substr (pos n : nat) (s : string) : string :=
  str_take n (str_drop pos s).

(** The character [c] occurs in [s]. *)
Fixpoint contains (c : Ascii.ascii) (s : string) : Prop :=
  match s with
  | EmptyString => False
  | String a s' => a = c \/ contains c s'
  end.

(** [n] times the character [c]. *)
Fixpoint str_repeat (c : Ascii.ascii) (n : nat) : string :=
  match n with O => EmptyString | S n' => String c (str_repeat c n') end.

(** [s] starts with the character [c]; [s] ends with it. *)
Definition starts_with (c : Ascii.ascii) (s : string) : Prop :=
  match s with String a _ => a = c | EmptyString => False end.

Fixpoint ends_with (c : Ascii.ascii) (s : string) : Prop :=
  match s with
  | EmptyString => False
  | String a EmptyString => a = c
  | String _ s' => ends_with c s'
  end.

(** The character of a one-character literal. *)
Definition char (s : string) : Ascii.ascii :=
  match s with String a _ => a | EmptyString => Ascii.zero end.

Definition space : Ascii.ascii := char " ".

(** *** trim2 *)

Definition trim2 (str : string) : string :=
  match find_last_not_of space str with
  | Some pos =>
      let str1 := str_take (pos + 1) str in            (* str.erase(pos + 1) *)
      match find_first_not_of space str1 with
      | Some pos' => str_drop pos' str1                (* str.erase(0, pos) *)
      | None => str1
      end
  | None => EmptyString                 (* str.erase(str.begin(), str.end()) *)
  end.

(** Float literals of the source, as written. *)
Class FloatLit (FLOAT : Type) := { f_lit : string -> FLOAT }.

Section ParametersRest.
Context {FLOAT : Type} `{!StreamOps FLOAT} `{!FloatLit FLOAT}.

(** *** ParseLine *)

Definition ParseLine (paramline : string) (p : Parameters.t FLOAT)
  : Parameters.t FLOAT :=
  let length := String.length paramline in
  match find (char ":") paramline, find (char "=") paramline with
  | Some colon_pos, Some equal_pos =>
      if decide (equal_pos <= colon_pos)%nat then p   (* colon_pos >= equal_pos *)
      else
        let var_name :=
          substr (colon_pos + 1) (equal_pos - colon_pos - 1) paramline in
        let var_value :=
          substr (equal_pos + 1) (length - equal_pos - 1) paramline in
        SetParameter (trim2 var_name) (trim2 var_value) p
  | _, _ => p
  end.

(** *** SetDefaultValues *)

(** The assignments to each map, in the order of the source (without
    [FIXED_DIMENSIONS]). *)
Definition default_strings : list (string * string) :=
  [("run_id", "TEST"); ("in_file_form", "ascii"); ("out_file_form", "ascii");
   ("ic", "random_cube"); ("sph_integration", "lfkdk"); ("sph", "gradh");
   ("kernel", "m4"); ("neib_search", "bruteforce"); ("avisc", "mon97");
   ("acond", "none"); ("gas_eos", "isothermal");
   ("energy_integration", "PEC");
   ("x_boundary_lhs", "open"); ("x_boundary_rhs", "open");
   ("y_boundary_lhs", "open"); ("y_boundary_rhs", "open");
   ("z_boundary_lhs", "open"); ("z_boundary_rhs", "open");
   ("rinunit", ""); ("minunit", ""); ("tinunit", "");
   ("routunit", "pc"); ("moutunit", "m_sun"); ("toutunit", "myr")].

Definition default_ints : list (string * Z) :=
  [("Nstepsmax", 9999999); ("Npart", 100); ("ndim", 3);
   ("Nlattice1[0]", 16); ("Nlattice1[1]", 16); ("Nlattice1[2]", 16);
   ("Nlattice2[0]", 16); ("Nlattice2[1]", 16); ("Nlattice2[2]", 16);
   ("hydro_forces", 1); ("self_gravity", 0)].

Definition default_floats : list (string * string) :=
  [("tend", "10.0"); ("dt_snap", "0.1");
   ("vfluid1[0]", "0.0"); ("vfluid1[1]", "0.0"); ("vfluid1[2]", "0.0");
   ("vfluid2[0]", "0.0"); ("vfluid2[1]", "0.0"); ("vfluid2[2]", "0.0");
   ("rhofluid1", "1.0"); ("rhofluid2", "1.0"); ("press1", "1.0");
   ("press2", "1.0"); ("amp", "0.1"); ("lambda", "0.5");
   ("accel_mult", "0.3"); ("courant_mult", "0.15");
   ("h_fac", "1.2"); ("h_converge", "0.005");
   ("alpha_visc", "1.0"); ("beta_visc", "2.0");
   ("energy_mult", "0.2"); ("gamma_eos", "1.6666666666666");
   ("temp0", "1.0"); ("mu_bar", "1.0");
   ("boxmin[0]", "0.0"); ("boxmin[1]", "0.0"); ("boxmin[2]", "0.0");
   ("boxmax[0]", "0.0"); ("boxmax[1]", "0.0"); ("boxmax[2]", "0.0")].

(** [m[k] = v] for each pair in turn. *)
Definition assign_all {A} (kvs : list (string * A)) (m : gmap string A)
  : gmap string A :=
  foldl (fun m kv => <[kv.1 := kv.2]> m) m kvs.

Definition SetDefaultValues (p : Parameters.t FLOAT) : Parameters.t FLOAT :=
  Parameters.mk
    (assign_all default_ints (Parameters.intparams p))
    (assign_all (prod_map id f_lit <$> default_floats)
       (Parameters.floatparams p))
    (assign_all default_strings (Parameters.stringparams p))
    (Parameters.cout p).

(** [Parameters::Parameters()]. *)
Definition Parameters_new : Parameters.t FLOAT :=
  SetDefaultValues (Parameters.mk ∅ ∅ ∅ []).

(** *** ReadParamsFile *)

Definition newline : Ascii.ascii := Ascii.ascii_of_nat 10.

(** The values [getline] gives to [line] while the stream is good: the
    text between newlines, and what follows the last newline (the empty
    string if nothing does). *)
Fixpoint getlines (line : string) (content : string) : list string :=
  match content with
  | EmptyString => [line]
  | String a content' =>
      if decide (a = newline) then line :: getlines EmptyString content'
      else getlines (line +:+ String a EmptyString) content'
  end.

(** [file] is the content of the file called [filename], if it can be
    opened. *)
Definition ReadParamsFile (file : option string) (filename : string)
  : M (Parameters.t FLOAT) unit :=
  match file with
  | Some content =>
      for_each (getlines EmptyString content) (fun line => modify (ParseLine line))
  | None =>
      modify (fun p =>
        Parameters.mk (Parameters.intparams p) (Parameters.floatparams p)
          (Parameters.stringparams p)
          (Parameters.cout p
           ++ ["The specified parameter file: " +:+ filename
               +:+ " does not exist, aborting"])) ;;;
      raise "exit(-1)"
  end.

End ParametersRest.

(** ** Vocabulary: the calls a user of [Parameters] can make *)

Inductive ParametersCall : Type :=
| DoSetParameter (key value : string)
| DoParseLine (paramline : string)
| DoReadParamsFile (file : option string) (filename : string)
| DoSetDefaultValues.

Section ParametersCalls.
Context {FLOAT : Type} `{!StreamOps FLOAT} `{!FloatLit FLOAT}.

(** The object after a run, however the run ended. *)
Definition left_by {S A} (r : run S A) (otherwise : S) : S :=
  match r with Done _ s => s | Abort _ s => s | _ => otherwise end.

Definition do_call (p : Parameters.t FLOAT) (c : ParametersCall)
  : Parameters.t FLOAT :=
  match c with
  | DoSetParameter key value => SetParameter key value p
  | DoParseLine paramline => ParseLine paramline p
  | DoReadParamsFile file filename =>
      left_by (ReadParamsFile file filename p) p
  | DoSetDefaultValues => SetDefaultValues p
  end.

(** The names of the parameters of a map. *)
Definition keys {A} (m : gmap string A) : gset string := dom m.

(** [q] has the parameters of [p]. *)
Definition same_keys (p q : Parameters.t FLOAT) : Prop :=
  keys (Parameters.intparams q) = keys (Parameters.intparams p) /\
  keys (Parameters.floatparams q) = keys (Parameters.floatparams p) /\
  keys (Parameters.stringparams q) = keys (Parameters.stringparams p).

(** [p] has the parameters that [SetDefaultValues] assigns. *)
Definition default_keys (p : Parameters.t FLOAT) : Prop :=
  keys (Parameters.intparams p) = list_to_set default_ints.*1 /\
  keys (Parameters.floatparams p) = list_to_set default_floats.*1 /\
  keys (Parameters.stringparams p) = list_to_set default_strings.*1.

End ParametersCalls.

(** ** Worked example: a stream that reads decimal digits *)

Module ParamsExample.

Definition digit (a : Ascii.ascii) : option Z :=
  let n := Z.of_nat (Ascii.nat_of_ascii a) in
  if decide (48 <= n <= 57) then Some (n - 48) else None.

Fixpoint digits (acc : Z) (s : string) : option Z :=
  match s with
  | EmptyString => Some acc
  | String a s' =>
      match digit a with
      | Some d => digits (10 * acc + d) s'
      | None => None
      end
  end.

(** A value of digits is read; anything else leaves the old value. *)
Definition DecStream : StreamOps Z := {|
  extract_int := fun value old =>
    match value with
    | EmptyString => old
    | _ => default old (digits 0 value)
    end;
  extract_float := fun _ old => old |}.

(** Literals are not interpreted: every float is 0. *)
Definition NoLit : FloatLit Z := {| f_lit := fun _ => 0 |}.

Definition defaults : Parameters.t Z :=
  @Parameters_new Z NoLit.

Definition params_file : string :=
  "Number of particles : Npart = 200" +:+ String newline
    ("no colon here = 1" +:+ String newline
       "Run id          : run_id = RUN1").

End ParamsExample.


(** ** Vocabulary: the records a rank gets back *)

Section ReturnedVocabulary.
Context {FLOAT : Type} `{!FloatOps FLOAT} `{!TreeOps FLOAT} `{!Layout FLOAT}.

(** The records that one peer returned, read from [displ] on, each with the
    index remembered for it: the [i]-th record goes with the [i]-th entry
    of [ids]. *)
Fixpoint records_of (received_information : list byte) (displ : Z) (i : Z)
    (ids : list Z) : option (list (Z * Particle.t FLOAT)) :=
  match ids with
  | [] => Some []
  | j :: ids' =>
      match read_at received_information
              (i * Z.of_nat sizeof_part + displ) sizeof_part,
            records_of received_information displ (i + 1) ids' with
      | Some bs, Some rs => Some ((j, part_of_bytes bs) :: rs)
      | _, _ => None
      end
  end.

(** The records of the peers [procs], this rank left out. *)
Fixpoint records_of_procs (ids_sent : list (list Z))
    (received_information : list byte) (recv_displs : list Z) (rank : Z)
    (procs : list Z) : option (list (Z * Particle.t FLOAT)) :=
  match procs with
  | [] => Some []
  | Nproc :: procs' =>
      let here :=
        if decide (rank = Nproc) then Some []
        else
          match zget ids_sent Nproc, zget recv_displs Nproc with
          | Some ids, Some displ =>
              records_of received_information displ 0 ids
          | _, _ => None
          end in
      match here, records_of_procs ids_sent received_information recv_displs
                    rank procs' with
      | Some a, Some b => Some (a ++ b)
      | _, _ => None
      end
  end.

Definition returned_records (ids_sent : list (list Z))
    (received_information : list byte) (recv_displs : list Z) (rank : Z)
  : option (list (Z * Particle.t FLOAT)) :=
  records_of_procs ids_sent received_information recv_displs rank
    (seqZ 0 (Z.of_nat (length recv_displs))).

(** The particle array after the record [jr.2] was summed into the
    particle [jr.1]. *)
Definition sum_record (ndim : nat) (data : list (Particle.t FLOAT))
    (jr : Z * Particle.t FLOAT) : list (Particle.t FLOAT) :=
  match zget data jr.1 with
  | Some p => <[Z.to_nat jr.1 := add_returned ndim p jr.2]> data
  | None => data
  end.

(** The record [jr.2] has the origin identifier of the particle [jr.1]. *)
Definition origin_matches (data : list (Particle.t FLOAT))
    (jr : Z * Particle.t FLOAT) : Prop :=
  exists p, zget data jr.1 = Some p /\ Particle.iorig p = Particle.iorig jr.2.

(** The state [s] with another particle array. *)
Definition with_sphdata (data : list (Particle.t FLOAT)) (s : State FLOAT)
  : State FLOAT :=
  mkState (self s) (Sph.set_sphdata data (sph s)) (calls s).

End ReturnedVocabulary.

(** ** Worked example: the whole exchange between rank 0 and rank 1 *)

Module Exchange.
Import Worked.

(** Rank 0 after it built [export_message] for rank 1. *)
Definition exported_state : State Z :=
  state_of (@GetExportInfo Z ZTree ZLayout 1 [] export_state) export_state.

(** Rank 1 after it imported the message and worked on the two imported
    particles: acceleration (1, 2, 3) and potential 7 for each. *)
Definition worked_state : State Z :=
  with_sphdata
    (imap (fun i p =>
             if decide (2 <= i)%nat
             then Particle.set_gpot 7 (Particle.set_a [1; 2; 3] p) else p)
       (Sph.sphdata (sph imported_state)))
    imported_state.

Definition buffer_of (r : run (State Z) BackLocals) : list byte :=
  match r with Done loc _ => send_buffer loc | _ => [] end.

(** What rank 1 sends back. *)
Definition returned_message : list byte :=
  buffer_of (@GetBackExportInfo Z ZLayout [] [0] [0] 0 worked_state).

End Exchange.

From stdpp Require pretty.

(** ** SphSimulation.cpp: set-up and the run loop *)

(** What the code asks of floating point values beyond [FloatOps], and the
    field [u] of a particle, which the record of the tree code does not
    carry. *)
Class SimFloat (FLOAT : Type) := {
  fge : FLOAT -> FLOAT -> bool;                     (* x >= y *)
  big_number : FLOAT;                               (* Constants.h *)
  DotProduct : list FLOAT -> list FLOAT -> FLOAT;   (* InlineFuncs.h *)
  part_u : Particle.t FLOAT -> FLOAT                (* sphdata[i].u *)
}.

(** [cout << x] for a floating point value. *)
Class FloatShow (FLOAT : Type) := { f_show : FLOAT -> string }.

(** The objects that [ProcessParameters] creates, by their constructor
    calls. *)
Inductive SphKernel : Type :=
| M4Kernel (ndim : Z).

Inductive EOS (FLOAT : Type) : Type :=
| Adiabatic (temp0 mu_bar gamma_eos : FLOAT)
| Isothermal (temp0 mu_bar gamma_eos : FLOAT).
Arguments Adiabatic {FLOAT}.
Arguments Isothermal {FLOAT}.

Inductive SphNeighbourSearch : Type :=
| BruteForceSearch.

Inductive SphIntegration (FLOAT : Type) : Type :=
| SphLFKDK (accel_mult courant_mult : FLOAT).
Arguments SphLFKDK {FLOAT}.

Inductive EnergyEquation (FLOAT : Type) : Type :=
| EnergyPEC (energy_mult : FLOAT).
Arguments EnergyPEC {FLOAT}.

(** [Diagnostics]: the totals that [CalculateDiagnostics] prints. *)
Module Diagnostics.
Record t {FLOAT : Type} := mk {
  Etot : FLOAT;
  utot : FLOAT;
  ketot : FLOAT;
  gpetot : FLOAT;
  mom : list FLOAT;
  angmom : list FLOAT;
  force : list FLOAT;
  force_grav : list FLOAT
}.
Arguments t : clear implicits.
Arguments mk {FLOAT}.
Definition set_Etot {FLOAT} (x : FLOAT) (s : t FLOAT) : t FLOAT :=
  mk x (utot s) (ketot s) (gpetot s) (mom s) (angmom s) (force s)
    (force_grav s).
Definition set_utot {FLOAT} (x : FLOAT) (s : t FLOAT) : t FLOAT :=
  mk (Etot s) x (ketot s) (gpetot s) (mom s) (angmom s) (force s)
    (force_grav s).
Definition set_ketot {FLOAT} (x : FLOAT) (s : t FLOAT) : t FLOAT :=
  mk (Etot s) (utot s) x (gpetot s) (mom s) (angmom s) (force s) (force_grav
    s).
Definition set_gpetot {FLOAT} (x : FLOAT) (s : t FLOAT) : t FLOAT :=
  mk (Etot s) (utot s) (ketot s) x (mom s) (angmom s) (force s) (force_grav
    s).
Definition set_mom {FLOAT} (x : list FLOAT) (s : t FLOAT) : t FLOAT :=
  mk (Etot s) (utot s) (ketot s) (gpetot s) x (angmom s) (force s)
    (force_grav s).
Definition set_angmom {FLOAT} (x : list FLOAT) (s : t FLOAT) : t FLOAT :=
  mk (Etot s) (utot s) (ketot s) (gpetot s) (mom s) x (force s) (force_grav
    s).
Definition set_force {FLOAT} (x : list FLOAT) (s : t FLOAT) : t FLOAT :=
  mk (Etot s) (utot s) (ketot s) (gpetot s) (mom s) (angmom s) x (force_grav
    s).
Definition set_force_grav {FLOAT} (x : list FLOAT) (s : t FLOAT) : t FLOAT :=
  mk (Etot s) (utot s) (ketot s) (gpetot s) (mom s) (angmom s) (force s) x.
End Diagnostics.

(** The [Sph] object of SphSimulation.cpp: the particle store and what
    [ProcessParameters] hangs on it. *)
Module SphObject.
Record t {FLOAT : Type} := mk {
  store : Sph.t FLOAT;                      (* Nsph, Ntot, sphdata *)
  alpha_visc : FLOAT;
  beta_visc : FLOAT;
  kern : option SphKernel;
  eos : option (EOS FLOAT)
}.
Arguments t : clear implicits.
Arguments mk {FLOAT}.
Definition set_store {FLOAT} (x : Sph.t FLOAT) (s : t FLOAT) : t FLOAT :=
  mk x (alpha_visc s) (beta_visc s) (kern s) (eos s).
Definition set_alpha_visc {FLOAT} (x : FLOAT) (s : t FLOAT) : t FLOAT :=
  mk (store s) x (beta_visc s) (kern s) (eos s).
Definition set_beta_visc {FLOAT} (x : FLOAT) (s : t FLOAT) : t FLOAT :=
  mk (store s) (alpha_visc s) x (kern s) (eos s).
Definition set_kern {FLOAT} (x : option SphKernel) (s : t FLOAT) : t FLOAT :=
  mk (store s) (alpha_visc s) (beta_visc s) x (eos s).
Definition set_eos {FLOAT} (x : option (EOS FLOAT)) (s : t FLOAT) : t FLOAT :=
  mk (store s) (alpha_visc s) (beta_visc s) (kern s) x.
End SphObject.

(** [simbox]: the box of Part I with its two derived arrays. *)
Module SimBox.
Record t {FLOAT : Type} := mk {
  box : DomainBox.t FLOAT;
  boxsize : list FLOAT;
  boxhalf : list FLOAT
}.
Arguments t : clear implicits.
Arguments mk {FLOAT}.
End SimBox.

(** [SphSimulation].  A pointer member is [None] until an object is created
    for it.  [snapshots] are the calls of [WriteSnapshotFile] so far. *)
Module Simulation.
Record t {FLOAT : Type} := mk {
  paramfile : string;
  n : Z;
  Nsteps : Z;
  Nstepsmax : Z;
  Noutsnap : Z;
  ndim : Z;
  vdim : Z;
  bdim : Z;
  time : FLOAT;                             (* t *)
  tend : FLOAT;
  timestep : FLOAT;
  tsnapnext : FLOAT;
  dt_snap : FLOAT;
  run_id : string;
  simparams : Parameters.t FLOAT;
  simbox : SimBox.t FLOAT;
  sph : option (SphObject.t FLOAT);
  sphneib : option SphNeighbourSearch;
  sphint : option (SphIntegration FLOAT);
  uint : option (EnergyEquation FLOAT);
  diag : Diagnostics.t FLOAT;
  diag0 : Diagnostics.t FLOAT;
  snapshots : list (string * string)
}.
Arguments t : clear implicits.
Arguments mk {FLOAT}.
Definition set_paramfile {FLOAT} (x : string) (s : t FLOAT) : t FLOAT :=
  mk x (n s) (Nsteps s) (Nstepsmax s) (Noutsnap s) (ndim s) (vdim s) (bdim
    s) (time s) (tend s) (timestep s) (tsnapnext s) (dt_snap s) (run_id s)
    (simparams s) (simbox s) (sph s) (sphneib s) (sphint s) (uint s) (diag
    s) (diag0 s) (snapshots s).
Definition set_n {FLOAT} (x : Z) (s : t FLOAT) : t FLOAT :=
  mk (paramfile s) x (Nsteps s) (Nstepsmax s) (Noutsnap s) (ndim s) (vdim s)
    (bdim s) (time s) (tend s) (timestep s) (tsnapnext s) (dt_snap s)
    (run_id s) (simparams s) (simbox s) (sph s) (sphneib s) (sphint s) (uint
    s) (diag s) (diag0 s) (snapshots s).
Definition set_Nsteps {FLOAT} (x : Z) (s : t FLOAT) : t FLOAT :=
  mk (paramfile s) (n s) x (Nstepsmax s) (Noutsnap s) (ndim s) (vdim s)
    (bdim s) (time s) (tend s) (timestep s) (tsnapnext s) (dt_snap s)
    (run_id s) (simparams s) (simbox s) (sph s) (sphneib s) (sphint s) (uint
    s) (diag s) (diag0 s) (snapshots s).
Definition set_Nstepsmax {FLOAT} (x : Z) (s : t FLOAT) : t FLOAT :=
  mk (paramfile s) (n s) (Nsteps s) x (Noutsnap s) (ndim s) (vdim s) (bdim
    s) (time s) (tend s) (timestep s) (tsnapnext s) (dt_snap s) (run_id s)
    (simparams s) (simbox s) (sph s) (sphneib s) (sphint s) (uint s) (diag
    s) (diag0 s) (snapshots s).
Definition set_Noutsnap {FLOAT} (x : Z) (s : t FLOAT) : t FLOAT :=
  mk (paramfile s) (n s) (Nsteps s) (Nstepsmax s) x (ndim s) (vdim s) (bdim
    s) (time s) (tend s) (timestep s) (tsnapnext s) (dt_snap s) (run_id s)
    (simparams s) (simbox s) (sph s) (sphneib s) (sphint s) (uint s) (diag
    s) (diag0 s) (snapshots s).
Definition set_ndim {FLOAT} (x : Z) (s : t FLOAT) : t FLOAT :=
  mk (paramfile s) (n s) (Nsteps s) (Nstepsmax s) (Noutsnap s) x (vdim s)
    (bdim s) (time s) (tend s) (timestep s) (tsnapnext s) (dt_snap s)
    (run_id s) (simparams s) (simbox s) (sph s) (sphneib s) (sphint s) (uint
    s) (diag s) (diag0 s) (snapshots s).
Definition set_vdim {FLOAT} (x : Z) (s : t FLOAT) : t FLOAT :=
  mk (paramfile s) (n s) (Nsteps s) (Nstepsmax s) (Noutsnap s) (ndim s) x
    (bdim s) (time s) (tend s) (timestep s) (tsnapnext s) (dt_snap s)
    (run_id s) (simparams s) (simbox s) (sph s) (sphneib s) (sphint s) (uint
    s) (diag s) (diag0 s) (snapshots s).
Definition set_bdim {FLOAT} (x : Z) (s : t FLOAT) : t FLOAT :=
  mk (paramfile s) (n s) (Nsteps s) (Nstepsmax s) (Noutsnap s) (ndim s)
    (vdim s) x (time s) (tend s) (timestep s) (tsnapnext s) (dt_snap s)
    (run_id s) (simparams s) (simbox s) (sph s) (sphneib s) (sphint s) (uint
    s) (diag s) (diag0 s) (snapshots s).
Definition set_time {FLOAT} (x : FLOAT) (s : t FLOAT) : t FLOAT :=
  mk (paramfile s) (n s) (Nsteps s) (Nstepsmax s) (Noutsnap s) (ndim s)
    (vdim s) (bdim s) x (tend s) (timestep s) (tsnapnext s) (dt_snap s)
    (run_id s) (simparams s) (simbox s) (sph s) (sphneib s) (sphint s) (uint
    s) (diag s) (diag0 s) (snapshots s).
Definition set_tend {FLOAT} (x : FLOAT) (s : t FLOAT) : t FLOAT :=
  mk (paramfile s) (n s) (Nsteps s) (Nstepsmax s) (Noutsnap s) (ndim s)
    (vdim s) (bdim s) (time s) x (timestep s) (tsnapnext s) (dt_snap s)
    (run_id s) (simparams s) (simbox s) (sph s) (sphneib s) (sphint s) (uint
    s) (diag s) (diag0 s) (snapshots s).
Definition set_timestep {FLOAT} (x : FLOAT) (s : t FLOAT) : t FLOAT :=
  mk (paramfile s) (n s) (Nsteps s) (Nstepsmax s) (Noutsnap s) (ndim s)
    (vdim s) (bdim s) (time s) (tend s) x (tsnapnext s) (dt_snap s) (run_id
    s) (simparams s) (simbox s) (sph s) (sphneib s) (sphint s) (uint s)
    (diag s) (diag0 s) (snapshots s).
Definition set_tsnapnext {FLOAT} (x : FLOAT) (s : t FLOAT) : t FLOAT :=
  mk (paramfile s) (n s) (Nsteps s) (Nstepsmax s) (Noutsnap s) (ndim s)
    (vdim s) (bdim s) (time s) (tend s) (timestep s) x (dt_snap s) (run_id
    s) (simparams s) (simbox s) (sph s) (sphneib s) (sphint s) (uint s)
    (diag s) (diag0 s) (snapshots s).
Definition set_dt_snap {FLOAT} (x : FLOAT) (s : t FLOAT) : t FLOAT :=
  mk (paramfile s) (n s) (Nsteps s) (Nstepsmax s) (Noutsnap s) (ndim s)
    (vdim s) (bdim s) (time s) (tend s) (timestep s) (tsnapnext s) x (run_id
    s) (simparams s) (simbox s) (sph s) (sphneib s) (sphint s) (uint s)
    (diag s) (diag0 s) (snapshots s).
Definition set_run_id {FLOAT} (x : string) (s : t FLOAT) : t FLOAT :=
  mk (paramfile s) (n s) (Nsteps s) (Nstepsmax s) (Noutsnap s) (ndim s)
    (vdim s) (bdim s) (time s) (tend s) (timestep s) (tsnapnext s) (dt_snap
    s) x (simparams s) (simbox s) (sph s) (sphneib s) (sphint s) (uint s)
    (diag s) (diag0 s) (snapshots s).
Definition set_simparams {FLOAT} (x : Parameters.t FLOAT) (s : t FLOAT) : t FLOAT :=
  mk (paramfile s) (n s) (Nsteps s) (Nstepsmax s) (Noutsnap s) (ndim s)
    (vdim s) (bdim s) (time s) (tend s) (timestep s) (tsnapnext s) (dt_snap
    s) (run_id s) x (simbox s) (sph s) (sphneib s) (sphint s) (uint s) (diag
    s) (diag0 s) (snapshots s).
Definition set_simbox {FLOAT} (x : SimBox.t FLOAT) (s : t FLOAT) : t FLOAT :=
  mk (paramfile s) (n s) (Nsteps s) (Nstepsmax s) (Noutsnap s) (ndim s)
    (vdim s) (bdim s) (time s) (tend s) (timestep s) (tsnapnext s) (dt_snap
    s) (run_id s) (simparams s) x (sph s) (sphneib s) (sphint s) (uint s)
    (diag s) (diag0 s) (snapshots s).
Definition set_sph {FLOAT} (x : option (SphObject.t FLOAT)) (s : t FLOAT) : t FLOAT :=
  mk (paramfile s) (n s) (Nsteps s) (Nstepsmax s) (Noutsnap s) (ndim s)
    (vdim s) (bdim s) (time s) (tend s) (timestep s) (tsnapnext s) (dt_snap
    s) (run_id s) (simparams s) (simbox s) x (sphneib s) (sphint s) (uint s)
    (diag s) (diag0 s) (snapshots s).
Definition set_sphneib {FLOAT} (x : option SphNeighbourSearch) (s : t FLOAT) : t FLOAT :=
  mk (paramfile s) (n s) (Nsteps s) (Nstepsmax s) (Noutsnap s) (ndim s)
    (vdim s) (bdim s) (time s) (tend s) (timestep s) (tsnapnext s) (dt_snap
    s) (run_id s) (simparams s) (simbox s) (sph s) x (sphint s) (uint s)
    (diag s) (diag0 s) (snapshots s).
Definition set_sphint {FLOAT} (x : option (SphIntegration FLOAT)) (s : t FLOAT) : t FLOAT :=
  mk (paramfile s) (n s) (Nsteps s) (Nstepsmax s) (Noutsnap s) (ndim s)
    (vdim s) (bdim s) (time s) (tend s) (timestep s) (tsnapnext s) (dt_snap
    s) (run_id s) (simparams s) (simbox s) (sph s) (sphneib s) x (uint s)
    (diag s) (diag0 s) (snapshots s).
Definition set_uint {FLOAT} (x : option (EnergyEquation FLOAT)) (s : t FLOAT) : t FLOAT :=
  mk (paramfile s) (n s) (Nsteps s) (Nstepsmax s) (Noutsnap s) (ndim s)
    (vdim s) (bdim s) (time s) (tend s) (timestep s) (tsnapnext s) (dt_snap
    s) (run_id s) (simparams s) (simbox s) (sph s) (sphneib s) (sphint s) x
    (diag s) (diag0 s) (snapshots s).
Definition set_diag {FLOAT} (x : Diagnostics.t FLOAT) (s : t FLOAT) : t FLOAT :=
  mk (paramfile s) (n s) (Nsteps s) (Nstepsmax s) (Noutsnap s) (ndim s)
    (vdim s) (bdim s) (time s) (tend s) (timestep s) (tsnapnext s) (dt_snap
    s) (run_id s) (simparams s) (simbox s) (sph s) (sphneib s) (sphint s)
    (uint s) x (diag0 s) (snapshots s).
Definition set_diag0 {FLOAT} (x : Diagnostics.t FLOAT) (s : t FLOAT) : t FLOAT :=
  mk (paramfile s) (n s) (Nsteps s) (Nstepsmax s) (Noutsnap s) (ndim s)
    (vdim s) (bdim s) (time s) (tend s) (timestep s) (tsnapnext s) (dt_snap
    s) (run_id s) (simparams s) (simbox s) (sph s) (sphneib s) (sphint s)
    (uint s) (diag s) x (snapshots s).
Definition set_snapshots {FLOAT} (x : list (string * string)) (s : t FLOAT) : t FLOAT :=
  mk (paramfile s) (n s) (Nsteps s) (Nstepsmax s) (Noutsnap s) (ndim s)
    (vdim s) (bdim s) (time s) (tend s) (timestep s) (tsnapnext s) (dt_snap
    s) (run_id s) (simparams s) (simbox s) (sph s) (sphneib s) (sphint s)
    (uint s) (diag s) (diag0 s) x.
End Simulation.

(** Code of the repository that is not among the sources: the constructor
    of [GradhSph], the other members of [SphSimulation] and the methods of
    the objects it owns.  Each is given by what it makes of the objects it
    is handed. *)
Class SimOps (FLOAT : Type) := {
  new_GradhSph : Z -> Z -> Z -> SphObject.t FLOAT;
  RandomBox : Parameters.t FLOAT -> SimBox.t FLOAT -> Sph.t FLOAT -> Sph.t FLOAT;
  RandomSphere :
    Parameters.t FLOAT -> SimBox.t FLOAT -> Sph.t FLOAT -> Sph.t FLOAT;
  ShockTube : Parameters.t FLOAT -> SimBox.t FLOAT -> Sph.t FLOAT -> Sph.t FLOAT;
  KHI : Parameters.t FLOAT -> SimBox.t FLOAT -> Sph.t FLOAT -> Sph.t FLOAT;
  SearchGhostParticles : SimBox.t FLOAT -> Sph.t FLOAT -> Sph.t FLOAT;
  CopyDataToGhosts : Sph.t FLOAT -> Sph.t FLOAT;
  CheckBoundaries : SimBox.t FLOAT -> Sph.t FLOAT -> Sph.t FLOAT;
  InitialSmoothingLengthGuess : Sph.t FLOAT -> Sph.t FLOAT;
  UpdateAllSphProperties : Sph.t FLOAT -> Parameters.t FLOAT -> Sph.t FLOAT;
  sphint_Timestep :
    SphIntegration FLOAT -> Particle.t FLOAT -> Parameters.t FLOAT -> FLOAT;
  sphint_AdvanceParticles :
    SphIntegration FLOAT -> Z -> list (Particle.t FLOAT) -> FLOAT ->
    list (Particle.t FLOAT);
  sphint_CorrectionTerms :
    SphIntegration FLOAT -> Z -> list (Particle.t FLOAT) -> FLOAT ->
    list (Particle.t FLOAT);
  sphint_EndTimestep :
    SphIntegration FLOAT -> Z -> Z -> list (Particle.t FLOAT) ->
    list (Particle.t FLOAT);
  uint_Timestep : EnergyEquation FLOAT -> Particle.t FLOAT -> FLOAT;
  uint_EnergyIntegration :
    EnergyEquation FLOAT -> Z -> list (Particle.t FLOAT) -> FLOAT ->
    list (Particle.t FLOAT);
  uint_EnergyCorrectionTerms :
    EnergyEquation FLOAT -> Z -> list (Particle.t FLOAT) -> FLOAT ->
    list (Particle.t FLOAT);
  uint_EndTimestep :
    EnergyEquation FLOAT -> Z -> Z -> list (Particle.t FLOAT) ->
    list (Particle.t FLOAT)
}.

Section SimulationRest.
Context {FLOAT : Type} `{!FloatOps FLOAT} `{!StreamOps FLOAT}
  `{!FloatLit FLOAT} `{!NeibOps FLOAT} `{!SimFloat FLOAT} `{!FloatShow FLOAT}
  `{!SimOps FLOAT}.

(** *** Reading a parameter: [operator[]] of [std::map] *)

(** [stringparams[key]] and [floatparams[key]] as rvalues: a missing key is
    inserted with the empty string, with 0. *)
Definition index_stringparams (key : string) (p : Parameters.t FLOAT)
  : string * Parameters.t FLOAT :=
  match Parameters.stringparams p !! key with
  | Some x => (x, p)
  | None =>
      ("", Parameters.mk (Parameters.intparams p) (Parameters.floatparams p)
             (<[key := ""]> (Parameters.stringparams p)) (Parameters.cout p))
  end.

Definition index_floatparams (key : string) (p : Parameters.t FLOAT)
  : FLOAT * Parameters.t FLOAT :=
  match Parameters.floatparams p !! key with
  | Some x => (x, p)
  | None =>
      (f_zero,
       Parameters.mk (Parameters.intparams p)
         (<[key := f_zero]> (Parameters.floatparams p))
         (Parameters.stringparams p) (Parameters.cout p))
  end.

Definition index_with {A} (index : Parameters.t FLOAT -> A * Parameters.t FLOAT)
  : M (Simulation.t FLOAT) A :=
  s <- get ;;
  let '(x, p) := index (Simulation.simparams s) in
  modify (Simulation.set_simparams p) ;;;
  ret x.

Definition intparam (key : string) : M (Simulation.t FLOAT) Z :=
  index_with (index_intparams key).
Definition floatparam (key : string) : M (Simulation.t FLOAT) FLOAT :=
  index_with (index_floatparams key).
Definition stringparam (key : string) : M (Simulation.t FLOAT) string :=
  index_with (index_stringparams key).

(** [std::cout] is the [cout] of the parameters, the one stream of Part I;
    a line is what is written up to an [endl]. *)
Definition print_line (line : string) (p : Parameters.t FLOAT)
  : Parameters.t FLOAT :=
  Parameters.mk (Parameters.intparams p) (Parameters.floatparams p)
    (Parameters.stringparams p) (Parameters.cout p ++ [line]).

Definition print (line : string) : M (Simulation.t FLOAT) unit :=
  modify (fun s =>
    Simulation.set_simparams (print_line line (Simulation.simparams s)) s).

(** A method of [simparams]. *)
Definition on_simparams {A} (m : M (Parameters.t FLOAT) A) : M (Simulation.t FLOAT) A :=
  fun s =>
    match m (Simulation.simparams s) with
    | Done a p => Done a (Simulation.set_simparams p s)
    | Abort msg p => Abort msg (Simulation.set_simparams p s)
    | Undefined => Undefined
    | OutOfFuel => OutOfFuel
    end.

(** The objects behind the pointer members; an unset pointer cannot be
    followed. *)
Definition the_sph : M (Simulation.t FLOAT) (SphObject.t FLOAT) :=
  s <- get ;; defined (Simulation.sph s).
Definition the_sphneib : M (Simulation.t FLOAT) SphNeighbourSearch :=
  s <- get ;; defined (Simulation.sphneib s).
Definition the_sphint : M (Simulation.t FLOAT) (SphIntegration FLOAT) :=
  s <- get ;; defined (Simulation.sphint s).
Definition the_uint : M (Simulation.t FLOAT) (EnergyEquation FLOAT) :=
  s <- get ;; defined (Simulation.uint s).

(** An assignment to a member of [*sph]. *)
Definition on_the_sph (f : SphObject.t FLOAT -> SphObject.t FLOAT)
  : M (Simulation.t FLOAT) unit :=
  o <- the_sph ;; modify (Simulation.set_sph (Some (f o))).

Definition on_store (f : Sph.t FLOAT -> Sph.t FLOAT) : M (Simulation.t FLOAT) unit :=
  on_the_sph (fun o => SphObject.set_store (f (SphObject.store o)) o).

Definition on_sphdata (f : list (Particle.t FLOAT) -> list (Particle.t FLOAT))
  : M (Simulation.t FLOAT) unit :=
  on_store (fun st => Sph.set_sphdata (f (Sph.sphdata st)) st).

Definition the_store : M (Simulation.t FLOAT) (Sph.t FLOAT) :=
  o <- the_sph ;; ret (SphObject.store o).

(** *** SphSimulation::SphSimulation *)

(** The members that the constructor does not assign keep what the storage
    held, [raw]; its pointers point nowhere; [simparams] is constructed by
    [Parameters::Parameters]. *)
Definition SphSimulation_new (raw : Simulation.t FLOAT)
  : Simulation.t FLOAT :=
  Simulation.set_time f_zero
    (Simulation.set_Nsteps 0
       (Simulation.set_n 0
          (Simulation.set_paramfile "freefall.dat"
             (Simulation.set_uint None
                (Simulation.set_sphint None
                   (Simulation.set_sphneib None
                      (Simulation.set_sph None
                         (Simulation.set_simparams
                            (SetDefaultValues
                               (Parameters.mk ∅ ∅ ∅
                                  (Parameters.cout (Simulation.simparams raw))))
                            raw)))))))).

(** *** Output *)

(** [ss << setfill('0') << setw(5) << Noutsnap]: the decimal digits, filled
    with zeros on the left to five characters. *)
Definition setw5 (Noutsnap : Z) : string :=
  let digits := pretty.pretty Noutsnap in
  str_repeat (char "0") (5 - String.length digits) +:+ digits.

Definition snapshot_name (run_id fileform : string) (Noutsnap : Z) : string :=
  run_id +:+ "." +:+ fileform +:+ "." +:+ setw5 Noutsnap.

(** [WriteSnapshotFile(filename,fileform)]. *)
Definition WriteSnapshotFile (filename fileform : string) : M (Simulation.t FLOAT) unit :=
  modify (fun s =>
    Simulation.set_snapshots (Simulation.snapshots s ++ [(filename, fileform)])
      s).

Definition Output : M (Simulation.t FLOAT) unit :=
  fileform <- stringparam "out_file_form" ;;
  s <- get ;;
  if fge (Simulation.time s) (Simulation.tsnapnext s) then
    modify (Simulation.set_Noutsnap (Simulation.Noutsnap s + 1)) ;;;
    modify (Simulation.set_tsnapnext
              (fadd (Simulation.tsnapnext s) (Simulation.dt_snap s))) ;;;
    WriteSnapshotFile
      (snapshot_name (Simulation.run_id s) fileform (Simulation.Noutsnap s + 1))
      "column"
  else ret tt.

(** *** CalculateDiagnostics *)

(** What particle [p] adds to the totals. *)
Definition add_to_diagnostics (ndim : nat) (p : Particle.t FLOAT)
    (d : Diagnostics.t FLOAT) : Diagnostics.t FLOAT :=
  let d1 :=
    Diagnostics.set_ketot
      (fadd (Diagnostics.ketot d)
         (fmul (Particle.m p) (DotProduct (Particle.v p) (Particle.v p)))) d in
  let d2 :=
    Diagnostics.set_utot
      (fadd (Diagnostics.utot d1) (fmul (Particle.m p) (part_u p))) d1 in
  let d3 :=
    Diagnostics.set_gpetot
      (fadd (Diagnostics.gpetot d2) (fmul (Particle.m p) (Particle.gpot p)))
      d2 in
  let plus (x : list FLOAT) k acc := fadd acc (fmul (Particle.m p) (vec_get x k)) in
  Diagnostics.set_force_grav
    (vec_loop ndim (plus (Particle.agrav p)) (Diagnostics.force_grav d3))
    (Diagnostics.set_force
       (vec_loop ndim (plus (Particle.a p)) (Diagnostics.force d3))
       (Diagnostics.set_mom
          (vec_loop ndim (plus (Particle.v p)) (Diagnostics.mom d3)) d3)).

(** The totals of the first [Nsph] particles. *)
Definition diagnostics_of (ndim : nat) (Nsph : Z)
    (sphdata : list (Particle.t FLOAT)) (d : Diagnostics.t FLOAT)
  : Diagnostics.t FLOAT :=
  let zero k := vec_loop k (fun _ _ => f_zero) in
  let d0 :=
    Diagnostics.mk f_zero f_zero f_zero f_zero
      (zero ndim (Diagnostics.mom d)) (zero 3%nat (Diagnostics.angmom d))
      (zero ndim (Diagnostics.force d)) (zero ndim (Diagnostics.force_grav d)) in
  let d1 :=
    foldl (fun d p => add_to_diagnostics ndim p d) d0
      (take (Z.to_nat Nsph) sphdata) in
  let d2 := Diagnostics.set_ketot (fmul (Diagnostics.ketot d1) f_half) d1 in
  let d3 := Diagnostics.set_gpetot (fmul (Diagnostics.gpetot d2) f_half) d2 in
  Diagnostics.set_Etot
    (fadd (fadd (Diagnostics.ketot d3) (Diagnostics.utot d3))
       (Diagnostics.gpetot d3)) d3.

(** [x[0] << "   " << x[1] ...], the first [ndim] components. *)
Definition show_vector (ndim : nat) (x : list FLOAT) : string :=
  match (fun k => f_show (vec_get x k)) <$> seq 0 ndim with
  | [] => ""
  | first :: rest => foldl (fun acc y => acc +:+ "   " +:+ y) first rest
  end.

Definition CalculateDiagnostics : M (Simulation.t FLOAT) unit :=
  s <- get ;;
  st <- the_store ;;
  let ndim := Simulation.ndim s in
  let d :=
    diagnostics_of (Z.to_nat ndim) (Sph.Nsph st) (Sph.sphdata st)
      (Simulation.diag s) in
  modify (Simulation.set_diag d) ;;;
  print "Printing out diagnostics" ;;;
  print ("Etot       : " +:+ f_show (Diagnostics.Etot d)) ;;;
  print ("utot       : " +:+ f_show (Diagnostics.utot d)) ;;;
  print ("ketot      : " +:+ f_show (Diagnostics.ketot d)) ;;;
  print ("gpetot     : " +:+ f_show (Diagnostics.gpetot d)) ;;;
  if bool_decide (ndim = 1) || bool_decide (ndim = 2) || bool_decide (ndim = 3)
  then
    print ("mom        : " +:+ show_vector (Z.to_nat ndim) (Diagnostics.mom d)) ;;;
    print ("force      : "
           +:+ show_vector (Z.to_nat ndim) (Diagnostics.force d)) ;;;
    print ("force_grav : "
           +:+ show_vector (Z.to_nat ndim) (Diagnostics.force_grav d))
  else ret tt.

(** *** GenerateIC *)

Definition GenerateIC : M (Simulation.t FLOAT) unit :=
  let generate ic :=
    s <- get ;;
    on_store (ic (Simulation.simparams s) (Simulation.simbox s)) in
  ic1 <- stringparam "ic" ;;
  if bool_decide (ic1 = "random_cube") then generate RandomBox
  else
    ic2 <- stringparam "ic" ;;
    if bool_decide (ic2 = "random_sphere") then generate RandomSphere
    else
      ic3 <- stringparam "ic" ;;
      if bool_decide (ic3 = "shocktube") then generate ShockTube
      else
        ic4 <- stringparam "ic" ;;
        if bool_decide (ic4 = "khi") then generate KHI
        else
          ic5 <- stringparam "ic" ;;
          raise ("Unrecognised parameter : ic = " +:+ ic5).

(** *** ComputeBlockTimesteps *)

(** [if (dt < timestep) timestep = dt]. *)
Definition lower_timestep (dt : FLOAT) : M (Simulation.t FLOAT) unit :=
  modify (fun s =>
    if flt dt (Simulation.timestep s) then Simulation.set_timestep dt s
    else s).

Definition ComputeBlockTimesteps : M (Simulation.t FLOAT) unit :=
  modify (Simulation.set_timestep big_number) ;;;
  st <- the_store ;;
  for_each (take (Z.to_nat (Sph.Nsph st)) (Sph.sphdata st)) (fun p =>
    integ <- the_sphint ;;
    s <- get ;;
    lower_timestep (sphint_Timestep integ p (Simulation.simparams s)) ;;;
    gas_eos <- stringparam "gas_eos" ;;
    if bool_decide (gas_eos = "energy_eqn") then
      energy <- the_uint ;;
      lower_timestep (uint_Timestep energy p)
    else ret tt) ;;;
  s <- get ;;
  print ("Global timestep : " +:+ f_show (Simulation.timestep s)
         +:+ "   t : " +:+ f_show (Simulation.time s)).

(** *** ProcessParameters *)

(** Without [FIXED_DIMENSIONS]. *)
Definition ProcessParameters : M (Simulation.t FLOAT) unit :=
  ndim <- intparam "ndim" ;; modify (Simulation.set_ndim ndim) ;;;
  vdim <- intparam "ndim" ;; modify (Simulation.set_vdim vdim) ;;;
  bdim <- intparam "ndim" ;; modify (Simulation.set_bdim bdim) ;;;
  (* the SPH object *)
  sph <- stringparam "sph" ;;
  (if bool_decide (sph = "gradh") then
     modify (Simulation.set_sph (Some (new_GradhSph ndim vdim bdim))) ;;;
     alpha_visc <- floatparam "alpha_visc" ;;
     on_the_sph (SphObject.set_alpha_visc alpha_visc) ;;;
     beta_visc <- floatparam "beta_visc" ;;
     on_the_sph (SphObject.set_beta_visc beta_visc)
   else
     sph' <- stringparam "sph" ;;
     raise ("Unrecognised parameter : sph = " +:+ sph')) ;;;
  (* the kernel *)
  kernel <- stringparam "kernel" ;;
  (if bool_decide (kernel = "m4") then
     on_the_sph (SphObject.set_kern (Some (M4Kernel ndim)))
   else
     kernel' <- stringparam "kernel" ;;
     raise ("Unrecognised parameter : kernel = " +:+ kernel')) ;;;
  (* boundary condition variables *)
  x_lhs <- stringparam "x_boundary_lhs" ;;
  x_rhs <- stringparam "x_boundary_rhs" ;;
  y_lhs <- stringparam "y_boundary_lhs" ;;
  y_rhs <- stringparam "y_boundary_rhs" ;;
  z_lhs <- stringparam "z_boundary_lhs" ;;
  z_rhs <- stringparam "z_boundary_rhs" ;;
  min0 <- floatparam "boxmin[0]" ;;
  min1 <- floatparam "boxmin[1]" ;;
  min2 <- floatparam "boxmin[2]" ;;
  max0 <- floatparam "boxmax[0]" ;;
  max1 <- floatparam "boxmax[1]" ;;
  max2 <- floatparam "boxmax[2]" ;;
  let boxmin := [min0; min1; min2] in
  let boxmax := [max0; max1; max2] in
  let boxsize := zip_with fsub boxmax boxmin in
  modify (Simulation.set_simbox
            (SimBox.mk
               (DomainBox.mk x_lhs x_rhs y_lhs y_rhs z_lhs z_rhs boxmin boxmax)
               boxsize (fmul f_half <$> boxsize))) ;;;
  (* the neighbour search *)
  neib_search <- stringparam "neib_search" ;;
  (if bool_decide (neib_search = "bruteforce") then
     modify (Simulation.set_sphneib (Some BruteForceSearch))
   else
     neib_search' <- stringparam "neib_search" ;;
     raise ("Unrecognised parameter : neib_search = " +:+ neib_search')) ;;;
  sph_integration <- stringparam "sph_integration" ;;
  (if bool_decide (sph_integration = "lfkdk") then
     accel_mult <- floatparam "accel_mult" ;;
     courant_mult <- floatparam "courant_mult" ;;
     modify (Simulation.set_sphint (Some (SphLFKDK accel_mult courant_mult)))
   else
     sph_integration' <- stringparam "sph_integration" ;;
     raise ("Unrecognised parameter : sph_integration = "
            +:+ sph_integration')) ;;;
  (* thermal physics *)
  gas_eos <- stringparam "gas_eos" ;;
  (if bool_decide (gas_eos = "energy_eqn") then
     temp0 <- floatparam "temp0" ;;
     mu_bar <- floatparam "mu_bar" ;;
     gamma_eos <- floatparam "gamma_eos" ;;
     on_the_sph (SphObject.set_eos (Some (Adiabatic temp0 mu_bar gamma_eos))) ;;;
     energy_integration <- stringparam "energy_integration" ;;
     if bool_decide (energy_integration = "PEC") then
       energy_mult <- floatparam "energy_mult" ;;
       modify (Simulation.set_uint (Some (EnergyPEC energy_mult)))
     else
       energy_integration' <- stringparam "energy_integration" ;;
       raise ("Unrecognised parameter : energy_integration = "
              +:+ energy_integration')
   else
     gas_eos2 <- stringparam "gas_eos" ;;
     if bool_decide (gas_eos2 = "isothermal") then
       temp0 <- floatparam "temp0" ;;
       mu_bar <- floatparam "mu_bar" ;;
       gamma_eos <- floatparam "gamma_eos" ;;
       on_the_sph (SphObject.set_eos (Some (Isothermal temp0 mu_bar gamma_eos)))
     else
       gas_eos' <- stringparam "gas_eos" ;;
       raise ("Unrecognised parameter : gas_eos = " +:+ gas_eos')) ;;;
  Npart <- intparam "Npart" ;;
  on_store (fun st =>
    Sph.mk Npart (Sph.Nghost st) (Sph.NPeriodicGhost st) (Sph.Nmpighost st)
      (Sph.Nghostmax st) (Sph.Ntot st) (Sph.Nsphmax st)
      (Sph.NImportedParticles st) (Sph.Ngather st) (Sph.sphdata st)) ;;;
  Nstepsmax <- intparam "Nstepsmax" ;;
  modify (Simulation.set_Nstepsmax Nstepsmax) ;;;
  run_id <- stringparam "run_id" ;;
  modify (Simulation.set_run_id run_id) ;;;
  tend <- floatparam "tend" ;;
  modify (Simulation.set_tend tend) ;;;
  dt_snap <- floatparam "dt_snap" ;;
  modify (Simulation.set_dt_snap dt_snap).

(** *** The force pass of [Setup] and [MainLoop] *)

(** [ForceUpdate] of Part I on the simulation's objects. *)
Definition update_forces : M (Simulation.t FLOAT) unit :=
  s <- get ;;
  st <- the_store ;;
  let '(simparams', st') :=
    ForceUpdate (Z.to_nat (Simulation.ndim s)) (Simulation.simparams s) st in
  modify (Simulation.set_simparams simparams') ;;;
  on_store (fun _ => st').

(** [if (simparams.stringparams["gas_eos"] == "energy_eqn") uint->f(...)]. *)
Definition with_energy_equation
    (f : EnergyEquation FLOAT -> M (Simulation.t FLOAT) unit) : M (Simulation.t FLOAT) unit :=
  gas_eos <- stringparam "gas_eos" ;;
  if bool_decide (gas_eos = "energy_eqn") then
    energy <- the_uint ;; f energy
  else ret tt.

(** *** Setup *)

(** "Set-up all parameters and assign default values", "Read parameters
    files"; [file] is the content of the file called [paramfile], if it
    can be opened. *)
Definition read_parameters (file : option string)
  : M (Simulation.t FLOAT) unit :=
  on_simparams (modify SetDefaultValues) ;;;
  s <- get ;;
  on_simparams (ReadParamsFile file (Simulation.paramfile s)).

(** "Set time variables here (for now)". *)
Definition reset_output : M (Simulation.t FLOAT) unit :=
  modify (Simulation.set_Noutsnap 0) ;;;
  modify (fun s => Simulation.set_tsnapnext (Simulation.dt_snap s) s).

(** From "Set initial smoothing lengths and create initial ghost
    particles" to "Set r0,v0,a0 for initial step". *)
Definition setup_particles : M (Simulation.t FLOAT) unit :=
  st <- the_store ;;
  (if decide (Sph.Nsph st > 0) then
     on_store (fun st => Sph.set_Ntot (Sph.Nsph st) st) ;;;
     on_store InitialSmoothingLengthGuess ;;;
     _ <- the_sphneib ;;
     s <- get ;;
     on_store (fun st => UpdateAllSphProperties st (Simulation.simparams s)) ;;;
     on_store (SearchGhostParticles (Simulation.simbox s))
   else ret tt) ;;;
  st <- the_store ;;
  (if decide (Sph.Nsph st > 0) then
     print ("Ntot : " +:+ pretty.pretty (Sph.Ntot st)) ;;;
     _ <- the_sphneib ;;
     s <- get ;;
     on_store (fun st => UpdateAllSphProperties st (Simulation.simparams s)) ;;;
     on_store CopyDataToGhosts ;;;
     update_forces ;;;
     (* printed between the two force routines, which print nothing here *)
     self_gravity <- intparam "self_gravity" ;;
     print ("self_gravity : " +:+ pretty.pretty self_gravity)
   else ret tt) ;;;
  s <- get ;;
  integ <- the_sphint ;;
  st <- the_store ;;
  on_sphdata (sphint_EndTimestep integ (Simulation.n s) (Sph.Nsph st)) ;;;
  with_energy_equation (fun energy =>
    st <- the_store ;;
    on_sphdata (uint_EndTimestep energy (Simulation.n s) (Sph.Nsph st))).

Definition Setup (file : option string) : M (Simulation.t FLOAT) unit :=
  read_parameters file ;;;
  ProcessParameters ;;;
  GenerateIC ;;;
  reset_output ;;;
  setup_particles ;;;
  CalculateDiagnostics ;;;
  modify (fun s => Simulation.set_diag0 (Simulation.diag s) s).

(** *** MainLoop *)

(** "Advance time variables". *)
Definition advance_time : M (Simulation.t FLOAT) unit :=
  modify (fun s => Simulation.set_n (Simulation.n s + 1) s) ;;;
  modify (fun s => Simulation.set_Nsteps (Simulation.Nsteps s + 1) s) ;;;
  modify (fun s =>
    Simulation.set_time (fadd (Simulation.time s) (Simulation.timestep s)) s).

(** The rest of [MainLoop]: the particles are advanced, their properties
    and forces computed, the step corrected and ended. *)
Definition advance_particles : M (Simulation.t FLOAT) unit :=
  s <- get ;;
  let timestep := Simulation.timestep s in
  integ <- the_sphint ;;
  st <- the_store ;;
  on_sphdata (fun d => sphint_AdvanceParticles integ (Sph.Nsph st) d timestep) ;;;
  with_energy_equation (fun energy =>
    st <- the_store ;;
    on_sphdata (fun d =>
      uint_EnergyIntegration energy (Sph.Nsph st) d timestep)) ;;;
  on_store (CheckBoundaries (Simulation.simbox s)) ;;;
  st <- the_store ;;
  (if decide (Sph.Nsph st > 0) then
     on_store (SearchGhostParticles (Simulation.simbox s))
   else ret tt) ;;;
  st <- the_store ;;
  (if decide (Sph.Nsph st > 0) then
     _ <- the_sphneib ;;
     s <- get ;;
     on_store (fun st => UpdateAllSphProperties st (Simulation.simparams s)) ;;;
     on_store CopyDataToGhosts ;;;
     update_forces
   else ret tt) ;;;
  (* correction steps *)
  integ <- the_sphint ;;
  st <- the_store ;;
  on_sphdata (fun d => sphint_CorrectionTerms integ (Sph.Nsph st) d timestep) ;;;
  with_energy_equation (fun energy =>
    st <- the_store ;;
    on_sphdata (fun d =>
      uint_EnergyCorrectionTerms energy (Sph.Nsph st) d timestep)) ;;;
  (* end of the step *)
  s <- get ;;
  integ <- the_sphint ;;
  st <- the_store ;;
  on_sphdata (sphint_EndTimestep integ (Simulation.n s) (Sph.Nsph st)) ;;;
  with_energy_equation (fun energy =>
    st <- the_store ;;
    on_sphdata (uint_EndTimestep energy (Simulation.n s) (Sph.Nsph st))).

Definition MainLoop : M (Simulation.t FLOAT) unit :=
  ComputeBlockTimesteps ;;;
  advance_time ;;;
  advance_particles.

(** *** Run *)

(** [while (t < tend && Nsteps < Ntarget) { MainLoop(); Output(); }]. *)
Fixpoint run_loop (fuel : nat) (Ntarget : Z) : M (Simulation.t FLOAT) unit :=
  s <- get ;;
  if flt (Simulation.time s) (Simulation.tend s)
     && bool_decide (Simulation.Nsteps s < Ntarget)
  then
    match fuel with
    | O => out_of_fuel
    | S fuel' => MainLoop ;;; Output ;;; run_loop fuel' Ntarget
    end
  else ret tt.

Definition Ntarget_of (Nadvance : Z) (s : Simulation.t FLOAT) : Z :=
  if decide (Nadvance < 0) then Simulation.Nstepsmax s
  else Simulation.Nsteps s + Nadvance.

Definition Run (fuel : nat) (Nadvance : Z) : M (Simulation.t FLOAT) unit :=
  s <- get ;;
  run_loop fuel (Ntarget_of Nadvance s) ;;;
  CalculateDiagnostics ;;;
  s <- get ;;
  print ("Eerror : "
         +:+ f_show
               (fdiv
                  (fabs (fsub (Diagnostics.Etot (Simulation.diag0 s))
                           (Diagnostics.Etot (Simulation.diag s))))
                  (fabs (Diagnostics.Etot (Simulation.diag0 s))))).

End SimulationRest.

(** ** Vocabulary for the statements about the simulation *)

Section SimulationVocabulary.
Context {FLOAT : Type} `{!FloatOps FLOAT} `{!StreamOps FLOAT}
  `{!FloatLit FLOAT} `{!NeibOps FLOAT} `{!SimFloat FLOAT} `{!FloatShow FLOAT}
  `{!SimOps FLOAT}.

(** What reading [stringparams[key]] gives. *)
Definition string_value (key : string) (p : Parameters.t FLOAT) : string :=
  default "" (Parameters.stringparams p !! key).

(** The objects that [MainLoop] uses exist: [uint] is only used with the
    energy equation. *)
Definition objects_created (s : Simulation.t FLOAT) : Prop :=
  is_Some (Simulation.sph s) /\ is_Some (Simulation.sphneib s) /\
  is_Some (Simulation.sphint s) /\
  (string_value "gas_eos" (Simulation.simparams s) = "energy_eqn" ->
   is_Some (Simulation.uint s)).

(** The same parameters with the same values, whatever was printed. *)
Definition same_parameters (p q : Parameters.t FLOAT) : Prop :=
  Parameters.intparams q = Parameters.intparams p /\
  Parameters.floatparams q = Parameters.floatparams p /\
  Parameters.stringparams q = Parameters.stringparams p.

(** The options that [ProcessParameters] knows, those that [GenerateIC]
    knows. *)
Definition options_recognised (p : Parameters.t FLOAT) : Prop :=
  string_value "sph" p = "gradh" /\
  string_value "kernel" p = "m4" /\
  string_value "neib_search" p = "bruteforce" /\
  string_value "sph_integration" p = "lfkdk" /\
  (string_value "gas_eos" p = "energy_eqn" /\
   string_value "energy_integration" p = "PEC" \/
   string_value "gas_eos" p = "isothermal").

Definition ic_recognised (p : Parameters.t FLOAT) : Prop :=
  string_value "ic" p ∈ ["random_cube"; "random_sphere"; "shocktube"; "khi"].

Definition recognised (p : Parameters.t FLOAT) : Prop :=
  options_recognised p /\ ic_recognised p.

(** The message for the parameter [name]. *)
Definition unrecognised (name : string) (p : Parameters.t FLOAT) : string :=
  "Unrecognised parameter : " +:+ name +:+ " = " +:+ string_value name p.

(** The parameters after [SetDefaultValues] and the lines of the file. *)
Definition parameters_read (content : string) (p : Parameters.t FLOAT)
  : Parameters.t FLOAT :=
  foldl (fun p line => ParseLine line p) (SetDefaultValues p)
    (getlines EmptyString content).

(** [s] without its particles, its timestep and what it printed. *)
Definition control (s : Simulation.t FLOAT) : Simulation.t FLOAT :=
  let p := Simulation.simparams s in
  Simulation.set_sph None
    (Simulation.set_timestep f_zero
       (Simulation.set_simparams
          (Parameters.mk (Parameters.intparams p) (Parameters.floatparams p)
             (Parameters.stringparams p) []) s)).

(** A simulation that has been set up: its parameters are those of
    [SetDefaultValues], its objects exist. *)
Definition ready (s : Simulation.t FLOAT) : Prop :=
  default_keys (Simulation.simparams s) /\ objects_created s.

(** [m] returns on a simulation that has been set up, and leaves all but
    the particles, the timestep and the output alone. *)
Definition steps_on {A} (m : M (Simulation.t FLOAT) A) : Prop :=
  forall s, ready s ->
    exists a s', m s = Done a s' /\ control s' = control s /\
                 is_Some (Simulation.sph s').

(** The settings that a run works with. *)
Definition same_settings (s s' : Simulation.t FLOAT) : Prop :=
  Simulation.Nstepsmax s' = Simulation.Nstepsmax s /\
  Simulation.tend s' = Simulation.tend s /\
  Simulation.dt_snap s' = Simulation.dt_snap s /\
  Simulation.run_id s' = Simulation.run_id s /\
  Simulation.ndim s' = Simulation.ndim s /\
  same_parameters (Simulation.simparams s) (Simulation.simparams s').

(** How a run ended. *)
Definition outcome {S A} (r : run S A) : string :=
  match r with
  | Done _ _ => "returned"
  | Abort msg _ => msg
  | Undefined => "undefined"
  | OutOfFuel => "out of fuel"
  end.

(** The snapshot files numbered [first], [first + 1], ... *)
Definition snapshot_files (run_id fileform : string) (first count : Z)
  : list (string * string) :=
  (fun i => (snapshot_name run_id fileform i, "column")) <$> seqZ first count.

End SimulationVocabulary.

(** ** Worked example: four steps of a simulation *)

Module SimExample.
Import Worked ParamsExample.

(** Floats are tenths: "1.6" is 16, and what follows the first decimal is
    dropped. *)
Definition tenths (s : string) : Z :=
  match find (char ".") s with
  | Some i =>
      10 * default 0 (digits 0 (str_take i s))
      + default 0 (digits 0 (str_take 1 (str_drop (i + 1) s)))
  | None => 10 * default 0 (digits 0 s)
  end.

Definition ZLit : FloatLit Z := {| f_lit := tenths |}.

Definition ZStream : StreamOps Z := {|
  extract_int := extract_int (StreamOps := DecStream);
  extract_float := fun value _ => tenths value |}.

Definition ZSimFloat : SimFloat Z := {|
  fge := Z.geb;
  big_number := 1000000;
  DotProduct := fun x y => foldr Z.add 0 (zip_with Z.mul x y);
  part_u := fun _ => 0 |}.

Definition ZShow : FloatShow Z := {| f_show := pretty.pretty |}.

(** A new [GradhSph] has no particles; [RandomBox] makes the [Nsph]
    particles that were asked for; the integration scheme asks for a
    timestep of 0.3, the energy equation for one of 0.2; the other
    routines leave the particles as they are. *)
Definition ZSimOps : SimOps Z := {|
  new_GradhSph := fun _ _ _ =>
    SphObject.mk (Sph.mk 0 0 0 0 0 0 0 0 0 []) 0 0 None None;
  RandomBox := fun _ _ st =>
    Sph.set_sphdata
      (replicate (Z.to_nat (Sph.Nsph st)) (particle_at [0; 0; 0] 0)) st;
  RandomSphere := fun _ _ st => st;
  ShockTube := fun _ _ st => st;
  KHI := fun _ _ st => st;
  SearchGhostParticles := fun _ st => st;
  CopyDataToGhosts := fun st => st;
  CheckBoundaries := fun _ st => st;
  InitialSmoothingLengthGuess := fun st => st;
  UpdateAllSphProperties := fun st _ => st;
  sphint_Timestep := fun _ _ _ => 3;
  sphint_AdvanceParticles := fun _ _ d _ => d;
  sphint_CorrectionTerms := fun _ _ d _ => d;
  sphint_EndTimestep := fun _ _ _ d => d;
  uint_Timestep := fun _ _ => 2;
  uint_EnergyIntegration := fun _ _ d _ => d;
  uint_EnergyCorrectionTerms := fun _ _ d _ => d;
  uint_EndTimestep := fun _ _ _ d => d |}.

#[local] Existing Instances ZFloat ZNeib ZLit ZStream ZSimFloat ZShow ZSimOps.

(** The storage before the constructor runs. *)
Definition raw : Simulation.t Z :=
  let diag := Diagnostics.mk 0 0 0 0 [7; 7; 7] [7; 7; 7] [7; 7; 7] [7; 7; 7] in
  Simulation.mk "" 7 7 7 7 7 7 7 7 7 7 7 7 "" (Parameters.mk ∅ ∅ ∅ [])
    (SimBox.mk (DomainBox.mk "" "" "" "" "" "" [] []) [] [])
    None None None None diag diag [].

Definition fresh : Simulation.t Z := SphSimulation_new raw.

(** Two particles until the time 1.0. *)
Definition run_file : string :=
  "Number of particles : Npart = 2" +:+ String newline
    ("End time            : tend = 1.0" +:+ String newline
       "Run id              : run_id = RUN1").

(** The same with an equation of state that does not exist. *)
Definition bad_file : string :=
  run_file +:+ String newline "Equation of state   : gas_eos = polytropic".

Definition set_up : Simulation.t Z :=
  left_by (Setup (Some run_file) fresh) fresh.

End SimExample.


(** ** SphTree.cpp: the searches for particles and cells to send *)

Module Box.
Record t {FLOAT : Type} := mk {
  boxmin : list FLOAT;
  boxmax : list FLOAT
}.
Arguments t : clear implicits.
Arguments mk {FLOAT}.
End Box.

Module MpiNode.
Record t {FLOAT : Type} := mk {
  domain : Box.t FLOAT
}.
Arguments t : clear implicits.
Arguments mk {FLOAT}.
End MpiNode.

(** The functions of InlineFuncs.h that the searches call. *)
Class GeomOps (FLOAT : Type) := {
  BoxOverlap :
    nat -> list FLOAT -> list FLOAT -> list FLOAT -> list FLOAT -> bool;
  ParticleInBox : Particle.t FLOAT -> Box.t FLOAT -> bool
}.

(** What [SearchMpiGhostParticles] works on: the caller's list and the
    local counter. *)
Record GhostExport := mkGhostExport {
  export_list : list Z;
  Nexport : Z
}.

(** What [SearchHydroExportParticles] works on; a pointer to a cell of the
    tree is the index of the cell. *)
Record CellExport := mkCellExport {
  cell_list : list Z;
  Nexport_cells : Z
}.

(** What [FindMpiTransferParticles] works on. *)
Record TransferLists := mkTransferLists {
  particles_to_export : list (list Z);
  all_particles_to_export : list Z
}.

Section SearchModel.
Context {FLOAT : Type} `{!FloatOps FLOAT} `{!GeomOps FLOAT}.

(** [for (k=0; k<ndim; k++) x[k] = f(k)] on a fresh array. *)
Definition vec_build (ndim : nat) (f : nat -> FLOAT) : list FLOAT :=
  f <$> seq 0 ndim.

(** [i = ifirst; while (i != -1) { visit(i); if (i == ilast) break;
    i = inext[i]; }] *)
Fixpoint chain_loop {S} (fuel : nat) (inext : list Z) (visit : Z -> M S unit)
    (ilast i : Z) : M S unit :=
  match fuel with
  | O => out_of_fuel
  | S fuel' =>
      if decide (i = -1) then ret tt
      else
        visit i ;;;
        if decide (i = ilast) then ret tt
        else
          i' <- defined (zget inext i) ;;
          chain_loop fuel' inext visit ilast i'
  end.

(** The walk that the three searches share: [c = 0; while (c < Ncell)
    { ... }], with the test [overlap] on a cell and the statements [leaf]
    for a leaf that holds particles.  A cell that is not opened is left by
    its [cnext]. *)
Fixpoint walk_cells {S} (fuel : nat) (Ncell : Z) (t : Tree.t FLOAT)
    (overlap : TreeCell.t FLOAT -> bool)
    (leaf : Z -> TreeCell.t FLOAT -> M S unit) (c : Z) : M S unit :=
  match fuel with
  | O => out_of_fuel
  | S fuel' =>
      if decide (c < Ncell) then
        cell <- defined (zget (Tree.celldata t) c) ;;
        if overlap cell then
          if decide (TreeCell.level cell <> Tree.ltot t) then
            walk_cells fuel' Ncell t overlap leaf (c + 1)
          else if decide (TreeCell.N cell = 0) then
            walk_cells fuel' Ncell t overlap leaf (TreeCell.cnext cell)
          else if decide (TreeCell.level cell = Tree.ltot t) then
            leaf c cell ;;;
            walk_cells fuel' Ncell t overlap leaf (TreeCell.cnext cell)
          else walk_cells fuel' Ncell t overlap leaf c
        else walk_cells fuel' Ncell t overlap leaf (TreeCell.cnext cell)
      else ret tt
  end.

(** *** SearchMpiGhostParticles *)

(** The box of a cell, stretched by its motion over [tghost] and by
    [grange*hmax]. *)
Definition scatter_box (ndim : nat) (tghost grange : FLOAT)
    (cell : TreeCell.t FLOAT) : list FLOAT * list FLOAT :=
  (vec_build ndim (fun k =>
     fsub (fadd (vec_get (TreeCell.bbmin cell) k)
                (fmin f_zero (fmul (vec_get (TreeCell.v cell) k) tghost)))
          (fmul grange (TreeCell.hmax cell))),
   vec_build ndim (fun k =>
     fadd (fadd (vec_get (TreeCell.bbmax cell) k)
                (fmax f_zero (fmul (vec_get (TreeCell.v cell) k) tghost)))
          (fmul grange (TreeCell.hmax cell)))).

Definition scatter_overlap (ndim : nat) (tghost grange : FLOAT)
    (mpibox : Box.t FLOAT) (cell : TreeCell.t FLOAT) : bool :=
  let '(scattermin, scattermax) := scatter_box ndim tghost grange cell in
  BoxOverlap ndim scattermin scattermax (Box.boxmin mpibox) (Box.boxmax mpibox).

(** [export_list.push_back(i); Nexport++;] *)
Definition export_ghost (i : Z) : M GhostExport unit :=
  modify (fun s => mkGhostExport (export_list s ++ [i]) (Nexport s + 1)).

(** The walk of one tree. *)
Definition search_mpi_ghosts (fuel : nat) (ndim : nat) (tghost grange : FLOAT)
    (mpibox : Box.t FLOAT) (t : Tree.t FLOAT) : M GhostExport unit :=
  walk_cells fuel (Tree.Ncell t) t (scatter_overlap ndim tghost grange mpibox)
    (fun _ cell =>
       chain_loop fuel (Tree.inext t) export_ghost
         (TreeCell.ilast cell) (TreeCell.ifirst cell))
    0.

(** [this] is [self] and its tree of periodic ghosts, [ghosttree]. *)
Definition SearchMpiGhostParticles (fuel : nat) (ndim : nat) (tghost : FLOAT)
    (mpibox : Box.t FLOAT) (self : SphTree.t FLOAT) (ghosttree : Tree.t FLOAT)
    (export_list0 : list Z) : run (list Z) Z :=
  let grange := fmul (SphTree.ghost_range self) (SphTree.kernrange self) in
  match
    (search_mpi_ghosts fuel ndim tghost grange mpibox (SphTree.tree self) ;;;
     search_mpi_ghosts fuel ndim tghost grange mpibox ghosttree ;;;
     gets Nexport) (mkGhostExport export_list0 0)
  with
  | Done n s => Done n (export_list s)
  | Abort msg s => Abort msg (export_list s)
  | Undefined => Undefined
  | OutOfFuel => OutOfFuel
  end.

(** *** SearchHydroExportParticles *)

Definition hydro_box (ndim : nat) (grange : FLOAT) (cell : TreeCell.t FLOAT)
  : list FLOAT * list FLOAT :=
  (vec_build ndim (fun k =>
     fsub (vec_get (TreeCell.bbmin cell) k) (fmul grange (TreeCell.hmax cell))),
   vec_build ndim (fun k =>
     fadd (vec_get (TreeCell.bbmax cell) k) (fmul grange (TreeCell.hmax cell)))).

Definition hydro_overlap (ndim : nat) (grange : FLOAT) (mpibox : Box.t FLOAT)
    (cell : TreeCell.t FLOAT) : bool :=
  let '(scattermin, scattermax) := hydro_box ndim grange cell in
  BoxOverlap ndim scattermin scattermax (Box.boxmin mpibox) (Box.boxmax mpibox).

(** [if (cellptr->Nactive>0) { Nexport += cellptr->Nactive;
    cell_list.push_back(cellptr); }] *)
Definition export_cell_if_active (c : Z) (cell : TreeCell.t FLOAT)
  : M CellExport unit :=
  if decide (TreeCell.Nactive cell > 0) then
    modify (fun s =>
      mkCellExport (cell_list s ++ [c])
        (Nexport_cells s + TreeCell.Nactive cell))
  else ret tt.

Definition SearchHydroExportParticles (fuel : nat) (ndim : nat)
    (mpibox : Box.t FLOAT) (self : SphTree.t FLOAT) (cell_list0 : list Z)
  : run (list Z) Z :=
  let grange := fmul (SphTree.ghost_range self) (SphTree.kernrange self) in
  let t := SphTree.tree self in
  match
    (walk_cells fuel (Tree.Ncell t) t (hydro_overlap ndim grange mpibox)
       export_cell_if_active 0 ;;;
     gets Nexport_cells) (mkCellExport cell_list0 0)
  with
  | Done n s => Done n (cell_list s)
  | Abort msg s => Abort msg (cell_list s)
  | Undefined => Undefined
  | OutOfFuel => OutOfFuel
  end.

(** *** FindMpiTransferParticles *)

(** [if (ParticleInBox(sphdata[i], domain)) {
      particles_to_export[node_number].push_back(i);
      all_particles_to_export.push_back(i); }] *)
Definition transfer_particle (sphdata : list (Particle.t FLOAT))
    (node_number : Z) (domain : Box.t FLOAT) (i : Z) : M TransferLists unit :=
  p <- defined (zget sphdata i) ;;
  if ParticleInBox p domain then
    s <- get ;;
    l <- defined (zget (particles_to_export s) node_number) ;;
    pe <- defined (zset (particles_to_export s) node_number (l ++ [i])) ;;
    modify (fun s => mkTransferLists pe (all_particles_to_export s ++ [i]))
  else ret tt.

(** One turn of the loop over [potential_nodes].  The walk is bounded by
    the member [Ncell] of the [SphTree], not by the number of cells of the
    tree. *)
Definition transfer_to_node (fuel : nat) (ndim : nat) (Ncell : Z)
    (t : Tree.t FLOAT) (sphdata : list (Particle.t FLOAT))
    (mpinodes : list (MpiNode.t FLOAT)) (node_number : Z)
  : M TransferLists unit :=
  node <- defined (zget mpinodes node_number) ;;
  let nodebox := MpiNode.domain node in
  walk_cells fuel Ncell t
    (fun cell =>
       BoxOverlap ndim (TreeCell.bbmin cell) (TreeCell.bbmax cell)
         (Box.boxmin nodebox) (Box.boxmax nodebox))
    (fun _ cell =>
       chain_loop fuel (Tree.inext t)
         (transfer_particle sphdata node_number (MpiNode.domain node))
         (TreeCell.ilast cell) (TreeCell.ifirst cell))
    0.

Definition FindMpiTransferParticles (fuel : nat) (ndim : nat) (Ncell : Z)
    (self : SphTree.t FLOAT) (sph : Sph.t FLOAT)
    (potential_nodes : list Z) (mpinodes : list (MpiNode.t FLOAT))
  : M TransferLists unit :=
  for_each potential_nodes
    (transfer_to_node fuel ndim Ncell (SphTree.tree self) (Sph.sphdata sph)
       mpinodes).

End SearchModel.

(** ** Vocabulary of the searches *)

Section SearchVocabulary.
Context {FLOAT : Type}.

(** The particles of the chain from [i] to [ilast], at most [n] of them. *)
Fixpoint chain_ids (n : nat) (inext : list Z) (ilast i : Z) : list Z :=
  match n with
  | O => []
  | S n' =>
      if decide (i = -1) then []
      else
        i :: (if decide (i = ilast) then []
              else match zget inext i with
                   | Some i' => chain_ids n' inext ilast i'
                   | None => []
                   end)
  end.

(** The leaves with particles that a walk of at most [n] cells from [c]
    comes to, each with its index. *)
Fixpoint walk_leaves (n : nat) (Ncell : Z) (t : Tree.t FLOAT)
    (overlap : TreeCell.t FLOAT -> bool) (c : Z)
  : list (Z * TreeCell.t FLOAT) :=
  match n with
  | O => []
  | S n' =>
      if decide (c < Ncell) then
        match zget (Tree.celldata t) c with
        | Some cell =>
            if overlap cell then
              if decide (TreeCell.level cell <> Tree.ltot t) then
                walk_leaves n' Ncell t overlap (c + 1)
              else if decide (TreeCell.N cell = 0) then
                walk_leaves n' Ncell t overlap (TreeCell.cnext cell)
              else (c, cell) :: walk_leaves n' Ncell t overlap (TreeCell.cnext cell)
            else walk_leaves n' Ncell t overlap (TreeCell.cnext cell)
        | None => []
        end
      else []
  end.

(** The links of the tree point into an array of [len] particles. *)
Definition links_within (len : nat) (t : Tree.t FLOAT) : Prop :=
  (forall c cell,
     zget (Tree.celldata t) c = Some cell ->
     TreeCell.ifirst cell = -1 \/
     0 <= TreeCell.ifirst cell < Z.of_nat len) /\
  Forall (fun i => i = -1 \/ 0 <= i < Z.of_nat len) (Tree.inext t).

(** What a walk of the cells before [Ncell] keeps to: the tree has these
    cells, and every one of them is left forwards. *)
Definition cells_ok (Ncell : Z) (t : Tree.t FLOAT) : Prop :=
  Ncell <= Z.of_nat (length (Tree.celldata t)) /\
  forall c cell,
    0 <= c < Ncell -> zget (Tree.celldata t) c = Some cell ->
    c < TreeCell.cnext cell.

(** The cell has active particles. *)
Definition is_active (cc : Z * TreeCell.t FLOAT) : Prop :=
  TreeCell.Nactive cc.2 > 0.

#[global] Instance is_active_dec cc : Decision (is_active cc) :=
  decide (TreeCell.Nactive cc.2 > 0).

(** The particle [i] of the array lies in the box. *)
Definition in_box `{!GeomOps FLOAT} (sphdata : list (Particle.t FLOAT))
    (domain : Box.t FLOAT) (i : Z) : Prop :=
  ((fun p => ParticleInBox p domain) <$> zget sphdata i) = Some true.

#[global] Instance in_box_dec `{!GeomOps FLOAT} sphdata domain i
  : Decision (in_box sphdata domain i) :=
  decide (((fun p => ParticleInBox p domain) <$> zget sphdata i) = Some true).

(** [l] is strictly increasing. *)
Fixpoint increasing (l : list Z) : Prop :=
  match l with
  | [] => True
  | x :: l' => match l' with [] => True | y :: _ => x < y end /\ increasing l'
  end.

(** The lists after [add] was appended to the list of [node], for each
    pair in turn. *)
Definition extend_lists (lists : list (list Z))
    (adds : list (Z * list Z)) : list (list Z) :=
  foldl (fun ls na => alter (fun l => l ++ na.2) (Z.to_nat na.1) ls) lists adds.

End SearchVocabulary.

(** ** Worked example: a root with two leaves, three particles *)

Module SearchExample.
Import Worked.

(** Boxes overlap when they do on each of the first [ndim] axes, edges
    included; a particle is in a box when its position is, the upper edge
    excluded. *)
Definition ZGeom : GeomOps Z := {|
  BoxOverlap := fun ndim min1 max1 min2 max2 =>
    forallb (fun k =>
               negb (default 0 (max1 !! k) <? default 0 (min2 !! k))
               && negb (default 0 (max2 !! k) <? default 0 (min1 !! k)))
      (seq 0 ndim);
  ParticleInBox := fun p box =>
    forallb (fun k =>
               (default 0 (Box.boxmin box !! k) <=? default 0 (Particle.r p !! k))
               && (default 0 (Particle.r p !! k) <? default 0 (Box.boxmax box !! k)))
      (seq 0 3) |}.

(** The particles 0 and 1 are in the first leaf, the particle 2 in the
    second; all are active but the particle 1. *)
Definition search_tree : Tree.t Z :=
  Tree.mk 3 4 3 0 1 2 0 2 3 8 8
    [TreeCell.mk 0 3 2 0 2 3 1 2 [1; 1; 1] [7; 7; 7] [0; 0; 0] 0;
     TreeCell.mk 1 2 1 0 1 2 (-1) (-1) [1; 1; 1] [3; 3; 3] [0; 0; 0] 0;
     TreeCell.mk 1 1 1 2 2 3 (-1) (-1) [7; 7; 7] [7; 7; 7] [0; 0; 0] 0]
    [1; -1; -1].

Definition search_sphtree : SphTree.t Z :=
  SphTree.mk search_tree 8 2 1 1 1 3 3 8 8 false [] [] []
    [0; 0] [0; 0] [[]; []] [[]; []] [].

Definition search_sph : Sph.t Z :=
  Sph.mk 3 0 0 0 0 3 8 0 8
    [particle_at [1; 1; 1] 0; particle_at [3; 3; 3] 1; particle_at [7; 7; 7] 2].

(** A ghost tree of one leaf with the particles 3 and 4. *)
Definition search_ghosttree : Tree.t Z :=
  Tree.mk 1 4 1 0 0 1 3 4 2 8 8
    [TreeCell.mk 0 2 2 3 4 1 (-1) (-1) [8; 8; 8] [9; 9; 9] [0; 0; 0] 0]
    [0; 0; 0; 4; -1].

(** The half of the box [0,10] with the larger coordinates. *)
Definition upper_box : Box.t Z := Box.mk [5; 5; 5] [10; 10; 10].
Definition lower_box : Box.t Z := Box.mk [0; 0; 0] [5; 5; 5].

Definition two_nodes : list (MpiNode.t Z) :=
  [MpiNode.mk lower_box; MpiNode.mk upper_box].

End SearchExample.


(** ** SphTree.cpp: the lists of cells to export *)

(** The methods of [Tree] that the export lists and the pruned trees
    call. *)
Class PrunedOps (FLOAT : Type) := {
  (* the cells written to [celllist]; their number is the return value *)
  tree_ComputeActiveCellList : Tree.t FLOAT -> list Z;
  (* [prunedtree->ComputeHydroTreeCellOverlap(cellptr)] *)
  tree_ComputeHydroTreeCellOverlap : Tree.t FLOAT -> TreeCell.t FLOAT -> bool;
  tree_AllocateTreeMemory : Tree.t FLOAT -> Tree.t FLOAT
}.

Section ExportListModel.
Context {FLOAT : Type} `{!PrunedOps FLOAT}.

(** [this] with other export counters and lists. *)
Definition with_exports (Ncellexport Npartexport : list Z)
    (cellexportlist : list (list Z)) (t : SphTree.t FLOAT) : SphTree.t FLOAT :=
  SphTree.mk (SphTree.tree t) (SphTree.Nleafmax t) (SphTree.Nmpi t)
    (SphTree.Nthreads t) (SphTree.kernrange t) (SphTree.ghost_range t)
    (SphTree.Ntot t) (SphTree.Ntotold t) (SphTree.Ntotmax t)
    (SphTree.Ntotmaxold t) (SphTree.allocated_buffer t)
    (SphTree.Nneibmaxbuf t) (SphTree.Ndirectmaxbuf t)
    (SphTree.Ngravcellmaxbuf t) Ncellexport Npartexport cellexportlist
    (SphTree.ids_sent_particles t) (SphTree.N_imported_part_per_proc t).

(** [Ncellexport[j] = 0; Npartexport[j] = 0;] *)
Definition reset_export (j : Z) : M (SphTree.t FLOAT) unit :=
  t <- get ;;
  nc <- defined (zset (SphTree.Ncellexport t) j 0) ;;
  np <- defined (zset (SphTree.Npartexport t) j 0) ;;
  modify (with_exports nc np (SphTree.cellexportlist t)).

(** One turn of the loop over the pruned trees, for the active cell [c]:
    [if (overlapflag) cellexportlist[j][Ncellexport[j]++] = cellptr;] *)
Definition export_cell_to (rank : Z) (prunedtree : list (Tree.t FLOAT))
    (c : Z) (j : Z) : M (SphTree.t FLOAT) unit :=
  if decide (j = rank) then ret tt
  else
    pruned <- defined (zget prunedtree j) ;;
    t <- get ;;
    cell <- defined (zget (Tree.celldata (SphTree.tree t)) c) ;;
    if tree_ComputeHydroTreeCellOverlap pruned cell then
      t <- get ;;
      n <- defined (zget (SphTree.Ncellexport t) j) ;;
      l <- defined (zget (SphTree.cellexportlist t) j) ;;
      l' <- defined (zset l n c) ;;
      cl <- defined (zset (SphTree.cellexportlist t) j l') ;;
      nc <- defined (zset (SphTree.Ncellexport t) j (n + 1)) ;;
      modify (with_exports nc (SphTree.Npartexport t) cl)
    else ret tt.

(** [rank] and [Nsph], [Ntot], the particles, [sph] and [nbody], which the
    function does not use; [prunedtree] is a member of [this]. *)
Definition UpdateHydroExportList (rank : Z) (prunedtree : list (Tree.t FLOAT))
  : M (SphTree.t FLOAT) unit :=
  t <- get ;;
  let celllist := tree_ComputeActiveCellList (SphTree.tree t) in
  for_range 0 (SphTree.Nmpi t) reset_export ;;;
  for_each celllist (fun c =>
    for_range 0 (SphTree.Nmpi t) (export_cell_to rank prunedtree c)).

(** The cells of [cs] that overlap the pruned tree. *)
Definition overlapping (pruned : Tree.t FLOAT)
    (celldata : list (TreeCell.t FLOAT)) (cs : list Z) : list Z :=
  filter (fun c =>
            (tree_ComputeHydroTreeCellOverlap pruned <$> zget celldata c)
            = Some true) cs.

(** What the function leaves for the process [j], having started from [t0]
    and gone through the active cells [cs]: no particles; for [rank] no
    cells; for another process the cells of [cs] that overlap its pruned
    tree, in the order of [cs], at the start of its list. *)
Definition exports_of (rank : Z) (prunedtree : list (Tree.t FLOAT))
    (t0 t : SphTree.t FLOAT) (cs : list Z) (j : Z) : Prop :=
  zget (SphTree.Npartexport t) j = Some 0 /\
  if decide (j = rank) then
    zget (SphTree.Ncellexport t) j = Some 0 /\
    zget (SphTree.cellexportlist t) j = zget (SphTree.cellexportlist t0) j
  else
    exists pruned old,
      zget prunedtree j = Some pruned /\
      zget (SphTree.cellexportlist t0) j = Some old /\
      let cells :=
        overlapping pruned (Tree.celldata (SphTree.tree t0)) cs in
      zget (SphTree.Ncellexport t) j = Some (Z.of_nat (length cells)) /\
      zget (SphTree.cellexportlist t) j
      = Some (cells ++ drop (length cells) old).

(** [t] is [t0] but for the export counters and lists, which are as
    long. *)
Definition exports_frame (t0 t : SphTree.t FLOAT) : Prop :=
  t = with_exports (SphTree.Ncellexport t) (SphTree.Npartexport t)
        (SphTree.cellexportlist t) t0 /\
  length (SphTree.Ncellexport t) = length (SphTree.Ncellexport t0) /\
  length (SphTree.Npartexport t) = length (SphTree.Npartexport t0) /\
  length (SphTree.cellexportlist t) = length (SphTree.cellexportlist t0).

(** The arrays of [t0] have room: one entry per process in each, a cell for
    every active cell, and for every other process a pruned tree and a
    list that holds the cells that overlap it. *)
Definition exports_fit (rank : Z) (prunedtree : list (Tree.t FLOAT))
    (t0 : SphTree.t FLOAT) : Prop :=
  let Nmpi := SphTree.Nmpi t0 in
  let celllist := tree_ComputeActiveCellList (SphTree.tree t0) in
  Nmpi <= Z.of_nat (length (SphTree.Ncellexport t0)) /\
  Nmpi <= Z.of_nat (length (SphTree.Npartexport t0)) /\
  Nmpi <= Z.of_nat (length (SphTree.cellexportlist t0)) /\
  Forall (fun c => 0 <= c < Z.of_nat (length (Tree.celldata (SphTree.tree t0))))
    celllist /\
  forall j, 0 <= j < Nmpi -> j <> rank ->
    exists pruned old,
      zget prunedtree j = Some pruned /\
      zget (SphTree.cellexportlist t0) j = Some old /\
      (length (overlapping pruned (Tree.celldata (SphTree.tree t0)) celllist)
       <= length old)%nat.

(** The slots of [k] are the same in [t] and [t']. *)
Definition same_slots (t t' : SphTree.t FLOAT) (k : Z) : Prop :=
  zget (SphTree.Ncellexport t') k = zget (SphTree.Ncellexport t) k /\
  zget (SphTree.Npartexport t') k = zget (SphTree.Npartexport t) k /\
  zget (SphTree.cellexportlist t') k = zget (SphTree.cellexportlist t) k.

End ExportListModel.

(** ** Worked example: the export lists of rank 0 for rank 1 *)

Module ExportListExample.
Import Worked.

(** The active cells are the leaves with active particles; a cell overlaps
    a pruned tree when its box meets the box of the root along x; memory
    is allocated by extending the cells to [Ncellmax]. *)
Definition ZPruned : PrunedOps Z := {|
  tree_ComputeActiveCellList := fun t =>
    filter (fun c =>
              (fun cell => bool_decide (TreeCell.level cell = Tree.ltot t
                                        /\ TreeCell.Nactive cell > 0))
                <$> zget (Tree.celldata t) c = Some true)
      (seqZ 0 (Tree.Ncell t));
  tree_ComputeHydroTreeCellOverlap := fun pruned cell =>
    match Tree.celldata pruned with
    | root :: _ =>
        (default 0 (TreeCell.bbmin cell !! 0%nat)
         <=? default 0 (TreeCell.bbmax root !! 0%nat))
        && (default 0 (TreeCell.bbmin root !! 0%nat)
            <=? default 0 (TreeCell.bbmax cell !! 0%nat))
    | [] => false
    end;
  tree_AllocateTreeMemory := fun t =>
    Tree.set_celldata
      (take (Z.to_nat (Tree.Ncellmax t)) (Tree.celldata t)
       ++ replicate (Z.to_nat (Tree.Ncellmax t) - length (Tree.celldata t))
            (TreeCell.mk 0 0 0 (-1) (-1) (-1) (-1) (-1) [] [] [] 0))
      t |}.

(** A pruned tree of one cell with the box from [lo] to [hi]. *)
Definition pruned_box (lo hi : Z) : Tree.t Z :=
  Tree.mk 1 1 1 0 0 1 0 0 0 0 0
    [TreeCell.mk 0 0 0 (-1) (-1) 1 (-1) (-1) [lo; lo; lo] [hi; hi; hi]
       [0; 0; 0] 0]
    [].

(** Rank 0 holds the lower half of the box, rank 1 the upper half. *)
Definition two_pruned : list (Tree.t Z) := [pruned_box 0 5; pruned_box 5 10].

(** Rank 0 with stale counters and room for two cells per process. *)
Definition stale_sphtree : SphTree.t Z :=
  SphTree.mk export_tree 8 2 1 1 1 2 2 8 8 false [] [] []
    [7; 7] [9; 9] [[-1; -1]; [-1; -1]] [[]; []] [].

(** The same with a tree in which no particle is active. *)
Definition idle_tree : Tree.t Z :=
  Tree.mk 3 4 3 0 1 2 0 1 2 8 8
    [TreeCell.mk 0 2 0 0 1 3 1 2 [1; 1; 1] [8; 8; 8] [0; 0; 0] 1;
     TreeCell.mk 1 1 0 0 0 2 (-1) (-1) [1; 1; 1] [1; 1; 1] [0; 0; 0] 1;
     TreeCell.mk 1 1 0 1 1 3 (-1) (-1) [8; 8; 8] [8; 8; 8] [0; 0; 0] 1]
    [1; -1; 0; 0; 0; 0; 0; 0].


(** The object that a call left, or the stale one. *)
Definition left_by_update (r : run (SphTree.t Z) unit) : SphTree.t Z :=
  match r with Done _ t => t | Abort _ t => t | _ => stale_sphtree end.

End ExportListExample.


(** ** SphTree.cpp: the trees of the ghosts and the pruned trees *)

Section GhostTreeModel.
Context {FLOAT : Type} `{!FloatOps FLOAT} `{!TreeOps FLOAT}.

(** The state of the two functions is the tree they build, [ghosttree] or
    [mpighosttree], and [std::cout].  As in [BuildTree], the particle array
    is that of [sph]. *)
Definition on_ghost_tree (f : Tree.t FLOAT -> Tree.t FLOAT)
  : M (Tree.t FLOAT * list string) unit :=
  modify (fun s => (f s.1, s.2)).

(** The assignments before the tree is built: the tree is to hold the
    [count] particles from [first] on. *)
Definition cover (first count Nsphmax : Z) (t : Tree.t FLOAT) : Tree.t FLOAT :=
  let t1 :=
    Tree.set_Ntot count
      (Tree.set_ilast (first + count - 1) (Tree.set_ifirst first t)) in
  let t2 := Tree.set_Ntotmaxold (Tree.Ntotmax t1) t1 in
  let t3 := Tree.set_Ntotmax (Z.max (Tree.Ntotmax t2) (Tree.Ntot t2)) t2 in
  Tree.set_Ntotmax (Z.max (Tree.Ntotmax t3) Nsphmax) t3.

(** [t->BuildTree(t->Ntot,t->Ntotmax,sphdata,timestep)]. *)
Definition build_with_own_counts (sphdata : list (Particle.t FLOAT))
    (timestep : FLOAT) (t : Tree.t FLOAT) : Tree.t FLOAT :=
  tree_BuildTree (Tree.Ntot t) (Tree.Ntotmax t) sphdata timestep t.

Definition BuildGhostTree (rebuild_tree : bool)
    (n ntreebuildstep ntreestockstep Npart Npartmax : Z) (sph : Sph.t FLOAT)
    (timestep : FLOAT) : M (Tree.t FLOAT * list string) unit :=
  nb <- defined (c_rem n ntreebuildstep) ;;
  if bool_decide (nb = 0) || rebuild_tree then
    on_ghost_tree
      (cover (Sph.Nsph sph) (Sph.NPeriodicGhost sph) (Sph.Nsphmax sph)) ;;;
    on_ghost_tree (build_with_own_counts (Sph.sphdata sph) timestep)
  else
    ns <- defined (c_rem n ntreestockstep) ;;
    if bool_decide (ns = 0) then
      on_ghost_tree (tree_StockTree (Sph.sphdata sph))
    else on_ghost_tree (tree_ExtrapolateCellProperties timestep).

Definition BuildMpiGhostTree (rebuild_tree : bool)
    (n ntreebuildstep ntreestockstep Npart Npartmax : Z) (sph : Sph.t FLOAT)
    (timestep : FLOAT) : M (Tree.t FLOAT * list string) unit :=
  modify (fun s =>
    (s.1, s.2 ++ ["BUILDING TREE WITH " +:+ pretty.pretty (Sph.Nmpighost sph)
                  +:+ " MPI GHOSTS!!"])) ;;;
  nb <- defined (c_rem n ntreebuildstep) ;;
  if bool_decide (nb = 0) || rebuild_tree then
    on_ghost_tree
      (cover (Sph.Nsph sph + Sph.NPeriodicGhost sph) (Sph.Nmpighost sph)
         (Sph.Nsphmax sph)) ;;;
    on_ghost_tree (build_with_own_counts (Sph.sphdata sph) timestep)
  else
    ns <- defined (c_rem n ntreestockstep) ;;
    if bool_decide (ns = 0) then
      on_ghost_tree (tree_StockTree (Sph.sphdata sph))
    else on_ghost_tree (tree_ExtrapolateCellProperties timestep).

End GhostTreeModel.

(** [prunedtree], the member [ltot_old] of each of its trees, which the
    record of Part I does not carry, [Nprunedcellmax] and [std::cout]. *)
Module PrunedTrees.
Record t {FLOAT : Type} := mk {
  prunedtree : list (Tree.t FLOAT);
  ltot_old : list Z;
  Nprunedcellmax : Z;
  cout : list string
}.
Arguments t : clear implicits.
Arguments mk {FLOAT}.
Definition set_prunedtree {FLOAT} (x : list (Tree.t FLOAT)) (s : t FLOAT)
  : t FLOAT :=
  mk x (ltot_old s) (Nprunedcellmax s) (cout s).
Definition set_ltot_old {FLOAT} (x : list Z) (s : t FLOAT) : t FLOAT :=
  mk (prunedtree s) x (Nprunedcellmax s) (cout s).
Definition set_Nprunedcellmax {FLOAT} (x : Z) (s : t FLOAT) : t FLOAT :=
  mk (prunedtree s) (ltot_old s) x (cout s).
Definition set_cout {FLOAT} (x : list string) (s : t FLOAT) : t FLOAT :=
  mk (prunedtree s) (ltot_old s) (Nprunedcellmax s) x.
End PrunedTrees.

Section PrunedTreeModel.
Context {FLOAT : Type} `{!FloatOps FLOAT} `{!PrunedOps FLOAT}
  `{!FloatShow FLOAT}.

(** [int gmax = pow(2,pruning_level)]: the power as an [int], which is 0
    for a negative level (the fraction is dropped) and not defined when it
    does not fit. *)
Definition pow2_int (pruning_level : Z) : option Z :=
  if decide (pruning_level < 0) then Some 0
  else if decide (pruning_level < 31) then Some (2 ^ pruning_level)
  else None.

(** [ltot], [gmax], [Ncellmax] and [Ncell] of a pruned tree. *)
Definition with_levels (pruning_level gmax : Z) (t : Tree.t FLOAT)
  : Tree.t FLOAT :=
  Tree.mk (2 * gmax - 1) (2 * gmax - 1) (Tree.Ncelltot t)
    (Tree.Nimportedcell t) pruning_level gmax (Tree.ifirst t) (Tree.ilast t)
    (Tree.Ntot t) (Tree.Ntotmax t) (Tree.Ntotmaxold t) (Tree.celldata t)
    (Tree.inext t).

(** One turn of the loop over the pruned trees. *)
Definition set_pruning_level (pruning_level : Z) (i : Z)
  : M (PrunedTrees.t FLOAT) unit :=
  s <- get ;;
  pruned <- defined (zget (PrunedTrees.prunedtree s) i) ;;
  olds <- defined (zset (PrunedTrees.ltot_old s) i (Tree.ltot pruned)) ;;
  gmax <- defined (pow2_int pruning_level) ;;
  let pruned' := with_levels pruning_level gmax pruned in
  trees <-
    defined (zset (PrunedTrees.prunedtree s) i
               (tree_AllocateTreeMemory pruned')) ;;
  modify (fun s =>
    PrunedTrees.set_prunedtree trees
      (PrunedTrees.set_Nprunedcellmax
         (PrunedTrees.Nprunedcellmax s + Tree.Ncellmax pruned')
         (PrunedTrees.set_ltot_old olds s))).

(** The data of [cell] with the links of [old]. *)
Definition with_links_of (old cell : TreeCell.t FLOAT) : TreeCell.t FLOAT :=
  TreeCell.mk (TreeCell.level cell) (TreeCell.N cell) (TreeCell.Nactive cell)
    (TreeCell.ifirst cell) (TreeCell.ilast cell) (TreeCell.cnext old)
    (TreeCell.c1 old) (TreeCell.c2 old) (TreeCell.bbmin cell)
    (TreeCell.bbmax cell) (TreeCell.v cell) (TreeCell.hmax cell).

(** One turn of the walk through the cells of the main tree; the local is
    [cnew]. *)
Definition copy_cell (pruning_level rank : Z) (tree : Tree.t FLOAT) (c : Z)
    (cnew : Z) : M (PrunedTrees.t FLOAT) Z :=
  cell <- defined (zget (Tree.celldata tree) c) ;;
  if decide (TreeCell.level cell > pruning_level) then ret cnew
  else
    s <- get ;;
    pruned <- defined (zget (PrunedTrees.prunedtree s) rank) ;;
    old <- defined (zget (Tree.celldata pruned) cnew) ;;
    cells <-
      defined (zset (Tree.celldata pruned) cnew (with_links_of old cell)) ;;
    trees <-
      defined (zset (PrunedTrees.prunedtree s) rank
                 (Tree.set_celldata cells pruned)) ;;
    modify (PrunedTrees.set_prunedtree trees) ;;;
    ret (cnew + 1).

Definition print_pruned (line : string) : M (PrunedTrees.t FLOAT) unit :=
  modify (fun s => PrunedTrees.set_cout (PrunedTrees.cout s ++ [line]) s).

Definition print_pruned_cell (rank : Z) (c : Z) : M (PrunedTrees.t FLOAT) unit :=
  s <- get ;;
  pruned <- defined (zget (PrunedTrees.prunedtree s) rank) ;;
  cell <- defined (zget (Tree.celldata pruned) c) ;;
  print_pruned
    ("bb[" +:+ pretty.pretty c +:+ "] : "
     +:+ f_show (vec_get (TreeCell.bbmin cell) 0) +:+ "    "
     +:+ f_show (vec_get (TreeCell.bbmax cell) 0) +:+ "    level : "
     +:+ pretty.pretty (TreeCell.level cell)).

(** [tree] and [Nmpi] are members of [this] that the function reads. *)
Definition BuildPrunedTree (tree : Tree.t FLOAT) (Nmpi : Z)
    (pruning_level rank : Z) : M (PrunedTrees.t FLOAT) unit :=
  modify (PrunedTrees.set_Nprunedcellmax 0) ;;;
  for_range 0 Nmpi (set_pruning_level pruning_level) ;;;
  _ <- fold_each (seqZ 0 (Tree.Ncell tree))
         (copy_cell pruning_level rank tree) 0 ;;
  s <- get ;;
  pruned <- defined (zget (PrunedTrees.prunedtree s) rank) ;;
  print_pruned
    ("Pruned tree size : " +:+ pretty.pretty (Tree.Ncell pruned) +:+ "    "
     +:+ pretty.pretty (Tree.ltot pruned) +:+ "    "
     +:+ pretty.pretty pruning_level) ;;;
  for_range 0 (Tree.Ncell pruned) (print_pruned_cell rank).

End PrunedTreeModel.

(** ** Vocabulary for the statement about the pruned trees *)

Section PrunedTreeVocabulary.
Context {FLOAT : Type} `{!FloatOps FLOAT} `{!PrunedOps FLOAT}.

(** A pruned tree with its new sizes and its memory. *)
Definition levelled (pruning_level gmax : Z) (t : Tree.t FLOAT) : Tree.t FLOAT :=
  tree_AllocateTreeMemory (with_levels pruning_level gmax t).

(** The cells of the main tree down to the pruning level, in the order of
    the tree. *)
Definition upper_cells (pruning_level : Z) (tree : Tree.t FLOAT)
  : list (TreeCell.t FLOAT) :=
  filter (fun cell => TreeCell.level cell <= pruning_level)
    (take (Z.to_nat (Tree.Ncell tree)) (Tree.celldata tree)).

(** [cells] with the data of [kept] in its first cells, which keep their
    links. *)
Definition copied_over (kept cells : list (TreeCell.t FLOAT))
  : list (TreeCell.t FLOAT) :=
  zip_with with_links_of (take (length kept) cells) kept
  ++ drop (length kept) cells.

End PrunedTreeVocabulary.

(** ** Worked example: ghosts after three particles, a tree pruned at its
    leaves *)

Module TreesExample.
Import Worked ExportListExample SimExample.

(** Three particles, two periodic ghosts and one MPI ghost. *)
Definition ghost_sph : Sph.t Z :=
  Sph.mk 3 3 2 1 5 6 8 0 8 (replicate 6 (particle_at [0; 0; 0] 0)).

(** A tree that was built over other particles. *)
Definition old_ghost_tree : Tree.t Z :=
  Tree.mk 1 1 1 0 0 1 7 9 3 4 2
    [TreeCell.mk 0 3 3 7 9 1 (-1) (-1) [0; 0; 0] [1; 1; 1] [0; 0; 0] 0]
    [].

(** The pruned trees of two processes, with stale counters. *)
Definition pruned_state : PrunedTrees.t Z :=
  PrunedTrees.mk two_pruned [9; 9] 7 [].

End TreesExample.


(** ** SphTree.cpp: CheckValidNeighbourList (with [VERIFY_ALL]) *)

(** What the check asks of floating point values and of the helpers of
    InlineFuncs.h, which are not among the sources. *)
Class NeibCheckOps (FLOAT : Type) := {
  fle : FLOAT -> FLOAT -> bool;                          (* x <= y *)
  DotProduct3 : list FLOAT -> list FLOAT -> nat -> FLOAT; (* DotProduct(a,b,ndim) *)
  (* the first [n] ids of the array after [InsertionSortIds(n,ids)] *)
  InsertionSortIds : Z -> list Z -> list Z;
  (* the lines of [PrintArray(message,n,values)] *)
  PrintArray : string -> Z -> list Z -> list string
}.

(** The caller's array [neiblist], which the check sorts before it
    complains, and [std::cout]. *)
Module NeibCheck.
Record t := mk {
  neiblist : list Z;
  cout : list string
}.
End NeibCheck.

Section NeighbourCheckModel.
Context {FLOAT : Type} `{!FloatOps FLOAT} `{!FloatShow FLOAT}
  `{!NeibCheckOps FLOAT}.

(** [kernrangesqd*p.h*p.h]. *)
Definition kernel_extent (kernrangesqd : FLOAT) (p : Particle.t FLOAT) : FLOAT :=
  fmul (fmul kernrangesqd (Particle.h p)) (Particle.h p).

(** [drsqd] for the particles [pi] and [pj]. *)
Definition distance_squared (ndim : nat) (pi pj : Particle.t FLOAT) : FLOAT :=
  let dr :=
    (fun k => fsub (vec_get (Particle.r pj) k) (vec_get (Particle.r pi) k))
      <$> seq 0 ndim in
  DotProduct3 dr dr ndim.

(** The tests of the two loops that fill [trueneiblist]. *)
Definition gather_neighbour (ndim : nat) (kernrangesqd : FLOAT)
    (pi pj : Particle.t FLOAT) : bool :=
  fle (distance_squared ndim pi pj) (kernel_extent kernrangesqd pi).

Definition any_neighbour (ndim : nat) (kernrangesqd : FLOAT)
    (pi pj : Particle.t FLOAT) : bool :=
  flt (distance_squared ndim pi pj) (kernel_extent kernrangesqd pi)
  || flt (distance_squared ndim pi pj) (kernel_extent kernrangesqd pj).

(** One turn of a loop that fills [trueneiblist]; the local is the part of
    the list that is filled. *)
Definition note_neighbour
    (test : Particle.t FLOAT -> Particle.t FLOAT -> bool) (i : Z)
    (partdata : list (Particle.t FLOAT)) (j : Z) (trueneiblist : list Z)
  : M NeibCheck.t (list Z) :=
  pj <- defined (zget partdata j) ;;
  pi <- defined (zget partdata i) ;;
  ret (if test pi pj then trueneiblist ++ [j] else trueneiblist).

(** [for (k=0; k<Nneib; k++) if (neiblist[k] == id) count++]. *)
Definition count_listed (Nneib : Z) (id : Z) : M NeibCheck.t Z :=
  fold_each (seqZ 0 Nneib)
    (fun k count =>
       s <- get ;;
       listed <- defined (zget (NeibCheck.neiblist s) k) ;;
       ret (if decide (listed = id) then count + 1 else count))
    0.

Definition say (lines : list string) : M NeibCheck.t unit :=
  modify (fun s => NeibCheck.mk (NeibCheck.neiblist s) (NeibCheck.cout s ++ lines)).

(** One turn of the loop over the true neighbours. *)
Definition check_listed_once (i Nneib : Z)
    (partdata : list (Particle.t FLOAT)) (trueneiblist : list Z) (j : Z)
  : M NeibCheck.t unit :=
  id <- defined (zget trueneiblist j) ;;
  count <- count_listed Nneib id ;;
  if decide (count <> 1) then
    modify (fun s =>
      NeibCheck.mk (InsertionSortIds Nneib (NeibCheck.neiblist s))
        (NeibCheck.cout s)) ;;;
    pi <- defined (zget partdata i) ;;
    say ["Problem with neighbour lists : " +:+ pretty.pretty i +:+ "  "
         +:+ pretty.pretty j +:+ "   " +:+ pretty.pretty count +:+ "   "
         +:+ f_show (vec_get (Particle.r pi) 0) +:+ "   "
         +:+ f_show (Particle.h pi)] ;;;
    say ["Nneib : " +:+ pretty.pretty Nneib +:+ "   Ntrueneib : "
         +:+ pretty.pretty (Z.of_nat (length trueneiblist))] ;;;
    s <- get ;;
    say (PrintArray "neiblist     : " Nneib (NeibCheck.neiblist s)) ;;;
    say (PrintArray "trueneiblist : " (Z.of_nat (length trueneiblist))
           trueneiblist) ;;;
    raise "Problem with neighbour lists in grid search"
  else ret tt.

(** [ndim] is the template parameter, [kernrangesqd] a member of [this]. *)
Definition CheckValidNeighbourList (ndim : nat) (kernrangesqd : FLOAT)
    (i Ntot Nneib : Z) (partdata : list (Particle.t FLOAT))
    (neibtype : string) : M NeibCheck.t unit :=
  (* [new int[Ntot]] *)
  (if decide (Ntot < 0) then raise "std::bad_array_new_length" else ret tt) ;;;
  trueneiblist <-
    (if bool_decide (neibtype = "gather") then
       fold_each (seqZ 0 Ntot)
         (note_neighbour (gather_neighbour ndim kernrangesqd) i partdata) []
     else if bool_decide (neibtype = "all") then
       fold_each (seqZ 0 Ntot)
         (note_neighbour (any_neighbour ndim kernrangesqd) i partdata) []
     else ret []) ;;
  for_range 0 (Z.of_nat (length trueneiblist))
    (check_listed_once i Nneib partdata trueneiblist).

End NeighbourCheckModel.

(** ** Vocabulary for the statement about the check *)

Section NeighbourCheckVocabulary.
Context {FLOAT : Type} `{!FloatOps FLOAT} `{!NeibCheckOps FLOAT}.

(** The test that [neibtype] selects; no particle is a neighbour for a
    type that the check does not know. *)
Definition neighbour_test (ndim : nat) (kernrangesqd : FLOAT)
    (neibtype : string) (pi pj : Particle.t FLOAT) : bool :=
  if bool_decide (neibtype = "gather") then
    gather_neighbour ndim kernrangesqd pi pj
  else if bool_decide (neibtype = "all") then
    any_neighbour ndim kernrangesqd pi pj
  else false.

(** The true neighbours of [pi] among the first [Ntot] particles. *)
Definition true_neighbours (ndim : nat) (kernrangesqd : FLOAT)
    (neibtype : string) (pi : Particle.t FLOAT) (Ntot : Z)
    (partdata : list (Particle.t FLOAT)) : list Z :=
  filter
    (fun j =>
       neighbour_test ndim kernrangesqd neibtype pi <$> zget partdata j
       = Some true)
    (seqZ 0 Ntot).

(** How often [id] is among the first [Nneib] entries of [neiblist]. *)
Definition times_listed (Nneib : Z) (neiblist : list Z) (id : Z) : Z :=
  Z.of_nat (length (filter (fun listed => listed = id)
                      (take (Z.to_nat Nneib) neiblist))).

End NeighbourCheckVocabulary.

(** ** Worked example: three particles on a line *)

Module NeibExample.
Import Worked SimExample.

Fixpoint insert_sorted (x : Z) (l : list Z) : list Z :=
  match l with
  | [] => [x]
  | y :: l' => if x <=? y then x :: l else y :: insert_sorted x l'
  end.

(** The dot product of the first [ndim] components; the first [n] ids in
    increasing order; one line with the values. *)
Definition ZNeibCheck : NeibCheckOps Z := {|
  fle := Z.leb;
  DotProduct3 := fun a b ndim =>
    foldr Z.add 0 (zip_with Z.mul (take ndim a) (take ndim b));
  InsertionSortIds := fun n ids =>
    foldr insert_sorted [] (take (Z.to_nat n) ids) ++ drop (Z.to_nat n) ids;
  PrintArray := fun message n values =>
    [foldl (fun line v => line +:+ pretty.pretty v +:+ " ") message
       (take (Z.to_nat n) values)] |}.

(** The particles at 0, 1 and 5, with the smoothing length 1. *)
Definition line_particles : list (Particle.t Z) :=
  [particle_at [0; 0; 0] 0; particle_at [1; 0; 0] 1; particle_at [5; 0; 0] 2].

(** A list with the two neighbours of the first particle and a particle
    that is none, and a list that leaves the particle itself out. *)
Definition good_list : NeibCheck.t := NeibCheck.mk [1; 0; 2] [].
Definition bad_list : NeibCheck.t := NeibCheck.mk [2; 1; 1] [].

End NeibExample.

(** * Part II: the theorems *)

(** ** The run monad *)

Section MonadFacts.
Context {S : Type}.

Lemma bind_done {A B} (m : M S A) (k : A -> M S B) s a s' :
  m s = Done a s' -> bind m k s = k a s'.
Proof. unfold bind. intros ->. reflexivity. Qed.

Lemma bind_abort {A B} (m : M S A) (k : A -> M S B) s msg s' :
  m s = Abort msg s' -> bind m k s = Abort msg s'.
Proof. unfold bind. intros ->. reflexivity. Qed.

(** A sequence returned: so did its first part, and the rest ran from there. *)
Lemma bind_inv_done {A B} (m : M S A) (k : A -> M S B) s b s2 :
  bind m k s = Done b s2 ->
  exists a s1, m s = Done a s1 /\ k a s1 = Done b s2.
Proof.
  unfold bind. destruct (m s) as [a s1| | |]; try discriminate.
  intros Hk. exists a, s1. split; [reflexivity | exact Hk].
Qed.

Lemma assert_inv_done (b : bool) (s : S) u s' :
  assert b s = Done u s' -> b = true /\ s' = s.
Proof.
  unfold assert. destruct b; cbn; [|discriminate].
  intros [= _ ->]. split; reflexivity.
Qed.

Lemma defined_inv_done {A} (o : option A) (s : S) a s' :
  defined o s = Done a s' -> o = Some a /\ s' = s.
Proof.
  destruct o as [x|]; cbn; [|discriminate].
  intros [= -> ->]. split; reflexivity.
Qed.

Lemma fold_each_app {A B} (l1 l2 : list B) (body : B -> A -> M S A) :
  forall acc s,
    fold_each (l1 ++ l2) body acc s
    = bind (fold_each l1 body acc) (fold_each l2 body) s.
Proof.
  induction l1 as [|x l1 IH]; intros acc s; [reflexivity|].
  cbn [fold_each app]. unfold bind.
  destruct (body x acc s) as [a s1| | |]; try reflexivity.
  rewrite IH. reflexivity.
Qed.

(** What every turn of a loop keeps, the loop keeps. *)
Lemma fold_each_keeps {A B} (P : S -> Prop) (body : B -> A -> M S A) :
  (forall x acc s acc' s', P s -> body x acc s = Done acc' s' -> P s') ->
  forall l acc s acc' s',
    P s -> fold_each l body acc s = Done acc' s' -> P s'.
Proof.
  intros Hbody. induction l as [|x l IH]; intros acc s acc' s' HP Hrun.
  - cbn in Hrun. injection Hrun as <- <-. exact HP.
  - cbn in Hrun. apply bind_inv_done in Hrun as (a1 & s1 & H1 & H2).
    eapply IH; [|exact H2]. eapply Hbody; eassumption.
Qed.

End MonadFacts.

(** Taking apart a run that returned. *)
Ltac run_inj H :=
  first [ injection H as <- <- <- <- | injection H as <- <- <-
        | injection H as <- <- | injection H as <-
        | inversion H; clear H; subst ].

Ltac run_inv H :=
  lazymatch type of H with
  | bind _ _ _ = Done _ _ =>
      let a := fresh "a" in
      let s := fresh "s" in
      let H1 := fresh "Hrun" in
      let H2 := fresh "Hrun" in
      apply bind_inv_done in H as (a & s & H1 & H2);
      run_inv H1; run_inv H2
  | defined _ _ = Done _ _ =>
      let E := fresh "Hdef" in
      apply defined_inv_done in H as [E ->]
  | assert _ _ = Done _ _ =>
      let E := fresh "Hassert" in
      apply assert_inv_done in H as [E ->];
      try apply bool_decide_eq_true in E
  | raise _ _ = Done _ _ => discriminate H
  | undefined _ = Done _ _ => discriminate H
  | out_of_fuel _ = Done _ _ => discriminate H
  | ret _ _ = Done _ _ => unfold ret in H; run_inj H
  | gets _ _ = Done _ _ => unfold gets in H; run_inj H
  | get _ = Done _ _ => unfold get in H; run_inj H
  | modify _ _ = Done _ _ => unfold modify in H; run_inj H
  | on_sph _ _ = Done _ _ => unfold on_sph in H; run_inv H
  | on_self _ _ = Done _ _ => unfold on_self in H; run_inv H
  | on_tree _ _ = Done _ _ => unfold on_tree, on_self in H; run_inv H
  | call _ _ = Done _ _ => unfold call in H; run_inv H
  | the_tree _ = Done _ _ => unfold the_tree in H; run_inv H
  | get_ids_sent _ _ = Done _ _ => unfold get_ids_sent in H; run_inv H
  | set_ids_sent _ _ _ = Done _ _ => unfold set_ids_sent in H; run_inv H
  | set_N_imported _ _ _ = Done _ _ => unfold set_N_imported in H; run_inv H
  | read_int _ _ _ = Done _ _ => unfold read_int in H; run_inv H
  | (if ?b then _ else _) _ = Done _ _ =>
      let E := fresh "Hif" in
      destruct b eqn:E; run_inv H
  | (let '(_, _) := ?p in _) _ = Done _ _ =>
      destruct p; run_inv H
  | _ => idtac
  end.


(** ** Parameters.cpp *)

Section ParametersFacts.
Context {FLOAT : Type} `{!StreamOps FLOAT}.

(** C9.  [Parameters::SetParameter] with a key that none of the three maps
    holds writes the warning and leaves the three maps as they were; with a
    key that a map holds, nothing is written, every other key keeps its
    entry in every map, and exactly one entry is rewritten: that of the key
    in the first map of the chain int, float, string that holds it. *)
Theorem SetParameter_unknown_warns_known_updates_one
    (key value : string) (p : Parameters.t FLOAT) :
  let p' := SetParameter key value p in
  (Parameters.intparams p !! key = None ->
   Parameters.floatparams p !! key = None ->
   Parameters.stringparams p !! key = None ->
   Parameters.intparams p' = Parameters.intparams p /\
   Parameters.floatparams p' = Parameters.floatparams p /\
   Parameters.stringparams p' = Parameters.stringparams p /\
   Parameters.cout p' = Parameters.cout p ++ [warning key])
  /\
  (is_Some (Parameters.intparams p !! key) \/
   is_Some (Parameters.floatparams p !! key) \/
   is_Some (Parameters.stringparams p !! key) ->
   Parameters.cout p' = Parameters.cout p /\
   (forall k, k <> key ->
      Parameters.intparams p' !! k = Parameters.intparams p !! k /\
      Parameters.floatparams p' !! k = Parameters.floatparams p !! k /\
      Parameters.stringparams p' !! k = Parameters.stringparams p !! k) /\
   ((exists old,
       Parameters.intparams p !! key = Some old /\
       Parameters.intparams p'
         = <[key := extract_int value old]> (Parameters.intparams p) /\
       Parameters.floatparams p' = Parameters.floatparams p /\
       Parameters.stringparams p' = Parameters.stringparams p)
    \/
    (exists old,
       Parameters.intparams p !! key = None /\
       Parameters.floatparams p !! key = Some old /\
       Parameters.floatparams p'
         = <[key := extract_float value old]> (Parameters.floatparams p) /\
       Parameters.intparams p' = Parameters.intparams p /\
       Parameters.stringparams p' = Parameters.stringparams p)
    \/
    (exists old,
       Parameters.intparams p !! key = None /\
       Parameters.floatparams p !! key = None /\
       Parameters.stringparams p !! key = Some old /\
       Parameters.stringparams p' = <[key := value]> (Parameters.stringparams p) /\
       Parameters.intparams p' = Parameters.intparams p /\
       Parameters.floatparams p' = Parameters.floatparams p))).
Proof.
  intros p'. subst p'. unfold SetParameter. split.
  - intros -> -> ->. cbn. repeat split; reflexivity.
  - intros Hknown.
    destruct (Parameters.intparams p !! key) as [oi|] eqn:Hi.
    { cbn. split; [reflexivity|]. split.
      - intros k Hk. rewrite lookup_insert_ne by congruence. repeat split.
      - left. exists oi. repeat split. }
    destruct (Parameters.floatparams p !! key) as [ofl|] eqn:Hf.
    { cbn. split; [reflexivity|]. split.
      - intros k Hk. rewrite lookup_insert_ne by congruence. repeat split.
      - right. left. exists ofl. repeat split; assumption. }
    destruct (Parameters.stringparams p !! key) as [os|] eqn:Hs.
    { cbn. split; [reflexivity|]. split.
      - intros k Hk. rewrite lookup_insert_ne by congruence. repeat split.
      - right. right. exists os. repeat split; assumption. }
    destruct Hknown as [[? ?]|[[? ?]|[? ?]]]; discriminate.
Qed.

End ParametersFacts.

(** ** SphSimulation.cpp *)

Section SimulationFacts.
Context {FLOAT : Type} `{!FloatOps FLOAT} `{!StreamOps FLOAT}
  `{!NeibOps FLOAT}.

Lemma lookup_particle_loop {A} (n : Z) (f : A -> A) (data : list A) (i : nat) :
  particle_loop n f data !! i
  = (fun p => if decide (Z.of_nat i < n) then f p else p) <$> data !! i.
Proof. unfold particle_loop. apply list_lookup_imap. Qed.

Lemma lookup_vec_loop (ndim : nat) (f : nat -> FLOAT -> FLOAT)
    (x : list FLOAT) (k : nat) :
  vec_loop ndim f x !! k
  = (fun xk => if decide (k < ndim)%nat then f k xk else xk) <$> x !! k.
Proof. unfold vec_loop. apply list_lookup_imap. Qed.

Lemma length_vec_loop (ndim : nat) (f : nat -> FLOAT -> FLOAT) (x : list FLOAT) :
  length (vec_loop ndim f x) = length x.
Proof. unfold vec_loop. apply length_imap. Qed.

Lemma ForceUpdate_after_forces (ndim : nat) (simparams : Parameters.t FLOAT)
    (s : Sph.t FLOAT) :
  let before := ForcesBeforeAdd ndim simparams s in
  (ForceUpdate ndim simparams s).2
  = Sph.set_sphdata
      (particle_loop (Sph.Nsph before) (add_accelerations ndim)
         (Sph.sphdata before)) before.
Proof.
  unfold ForceUpdate, ForcesBeforeAdd.
  destruct (index_intparams "hydro_forces" simparams) as [hf p1].
  destruct (index_intparams "self_gravity" p1) as [sg p2].
  reflexivity.
Qed.

(** What the pass leaves in [a]: the gravitational acceleration alone,
    whatever the hydrodynamic routine had put there. *)
Lemma ForceUpdate_total_is_gravity (ndim : nat) (simparams : Parameters.t FLOAT)
    (s : Sph.t FLOAT) (i : nat) (p' : Particle.t FLOAT) :
  let before := ForcesBeforeAdd ndim simparams s in
  Sph.sphdata (ForceUpdate ndim simparams s).2 !! i = Some p' ->
  Z.of_nat i < Sph.Nsph before ->
  exists p,
    Sph.sphdata before !! i = Some p /\
    Particle.agrav p' = Particle.agrav p /\
    forall k, (k < ndim)%nat -> (k < length (Particle.a p))%nat ->
      Particle.a p' !! k = Some (vec_get (Particle.agrav p) k).
Proof.
  intros before. rewrite ForceUpdate_after_forces. fold before. cbn.
  rewrite lookup_particle_loop. intros Hp' Hi.
  destruct (Sph.sphdata before !! i) as [p|] eqn:Hp; [|discriminate].
  cbn in Hp'. rewrite decide_True in Hp' by exact Hi.
  injection Hp' as <-. exists p. split; [reflexivity|]. split; [reflexivity|].
  intros k Hk Hlen. cbn. rewrite lookup_vec_loop.
  destruct (Particle.a p !! k) as [x|] eqn:Hx.
  - cbn. rewrite decide_True by exact Hk. reflexivity.
  - apply lookup_ge_None in Hx. lia.
Qed.

End SimulationFacts.

Section SimulationExample.
Import Worked.
#[local] Existing Instances ZFloat ZStream ZNeib.

(** C4 (the code departs from the claim).  One particle, hydrodynamic
    forces and self-gravity both on, hydrodynamics contributing 1 and
    gravity 2 along x: when the two force routines have run, [a] holds the
    hydrodynamic 1 and [agrav] the gravitational 2; after the closing loop
    of the pass [a] is 2, not the sum 3. *)
Example ForceUpdate_drops_hydro_contribution :
  let before := ForcesBeforeAdd 1 force_params force_sph in
  let after := (ForceUpdate 1 force_params force_sph).2 in
  Particle.a <$> Sph.sphdata before !! 0%nat = Some [1; 0; 0] /\
  Particle.agrav <$> Sph.sphdata before !! 0%nat = Some [2; 0; 0] /\
  Particle.a <$> Sph.sphdata after !! 0%nat = Some [2; 0; 0] /\
  fadd 1 2 = 3.
Proof. vm_compute. repeat split. Qed.

End SimulationExample.

(** ** SphTree.cpp: BuildTree *)

Section BuildTreeFacts.
Context {FLOAT : Type} `{!FloatOps FLOAT} `{!TreeOps FLOAT} `{!Layout FLOAT}.




End BuildTreeFacts.

Section BuildTreeExample.
Import Worked.
#[local] Existing Instances ZFloat ZTree ZLayout.


End BuildTreeExample.

(** ** SphTree.cpp: FindLoadBalancingDivision *)

Section DivisionFacts.
Context {FLOAT : Type} `{!FloatOps FLOAT}.

(** The loop over the left nodes changes neither accumulator. *)
Lemma scan_leftnodes_unchanged (leftnodes : list Z) (work : FLOAT * FLOAT) :
  scan_leftnodes leftnodes work = work.
Proof.
  unfold scan_leftnodes. revert work.
  induction leftnodes as [|inode l IH]; intros work; cbn; [reflexivity|].
  apply IH.
Qed.

Lemma division_loop_unfold (fuel : nat) (leftnodes : list Z)
    (r_min r_max r_divide : FLOAT) (hist : WorkHistory) :
  division_loop (S fuel) leftnodes r_min r_max r_divide hist
  = let workfrac := fdiv f_zero (fadd f_zero f_zero) in
    let hist' := hist ++ [(f_zero, f_zero)] in
    if flt workfrac (fsub f_half f_worktol) then
      if flt (fabs (fsub workfrac f_half)) f_worktol then
        division_loop fuel leftnodes r_divide r_max
          (fmul f_half (fadd r_divide r_max)) hist'
      else Done (fmul f_half (fadd r_divide r_max)) hist'
    else if fgt workfrac (fadd f_half f_worktol) then
      if flt (fabs (fsub workfrac f_half)) f_worktol then
        division_loop fuel leftnodes r_min r_divide
          (fmul f_half (fadd r_min r_divide)) hist'
      else Done (fmul f_half (fadd r_min r_divide)) hist'
    else Done r_divide hist'.
Proof.
  cbn [division_loop]. rewrite scan_leftnodes_unchanged.
  unfold bind, modify, ret. cbn.
  repeat match goal with |- context [if ?b then _ else _] => destruct b end;
    reflexivity.
Qed.

Lemma division_loop_observes_zero (fuel : nat) (leftnodes : list Z) :
  forall r_min r_max r_divide (hist : WorkHistory) r hist',
    division_loop fuel leftnodes r_min r_max r_divide hist = Done r hist' ->
    exists obs, hist' = hist ++ obs /\
                forall w, w ∈ obs -> w = (f_zero, f_zero).
Proof.
  induction fuel as [|fuel IH]; intros r_min r_max r_divide hist r hist'.
  - discriminate.
  - rewrite division_loop_unfold. cbv zeta.
    assert (Hone : forall w : FLOAT * FLOAT,
               w ∈ [(f_zero, f_zero)] -> w = (f_zero, f_zero)).
    { intros w Hw. apply list_elem_of_singleton in Hw. exact Hw. }
    assert (Hstep : forall a b c,
      division_loop fuel leftnodes a b c (hist ++ [(f_zero, f_zero)])
        = Done r hist' ->
      exists obs, hist' = hist ++ obs /\
                  forall w, w ∈ obs -> w = (f_zero, f_zero)).
    { intros a b c Hrun. apply IH in Hrun as (obs & -> & Hobs).
      exists ((f_zero, f_zero) :: obs). split.
      - rewrite <- app_assoc. reflexivity.
      - intros w Hw. apply elem_of_cons in Hw as [->|Hw]; [reflexivity|].
        apply Hobs, Hw. }
    repeat match goal with
           | |- context [if ?b then _ else _] => destruct b
           end;
      first [ apply Hstep
            | intros [= <- <-]; exists [(f_zero, f_zero)];
              split; [reflexivity | exact Hone] ].
Qed.

Lemma division_loop_ignores_nodes (fuel : nat) (leftnodes leftnodes' : list Z) :
  forall r_min r_max r_divide (hist : WorkHistory),
    division_loop fuel leftnodes r_min r_max r_divide hist
    = division_loop fuel leftnodes' r_min r_max r_divide hist.
Proof.
  induction fuel as [|fuel IH]; intros r_min r_max r_divide hist.
  - reflexivity.
  - rewrite !division_loop_unfold. cbv zeta. rewrite !IH. reflexivity.
Qed.

(** C8.  In [FindLoadBalancingDivision] the loop over the left nodes
    leaves the accumulators as it found them; every time the work fraction
    is computed, [workleft] and [workright] are the 0.0 they were set to;
    and the outcome (the division returned, or the loop still running
    when the fuel ends) is the same for any other left nodes, right nodes
    and MPI nodes.  When, as for the IEEE quotient 0.0/0.0, the work
    fraction is neither below nor above the tolerance band, the first
    iteration returns [r_old]. *)
Theorem FindLoadBalancingDivision_ignores_work
    {MpiNode MpiNode' : Type} (fuel : nat) (k_divide : Z) (r_old : FLOAT)
    (bbmin bbmax : list FLOAT) (leftnodes rightnodes : list Z)
    (mpinode : list MpiNode) (leftnodes' rightnodes' : list Z)
    (mpinode' : list MpiNode') (hist : WorkHistory) :
  (forall work : FLOAT * FLOAT, scan_leftnodes leftnodes work = work) /\
  (forall r hist',
     FindLoadBalancingDivision fuel k_divide r_old bbmin bbmax
       leftnodes rightnodes mpinode hist = Done r hist' ->
     exists obs, hist' = hist ++ obs /\
                 forall w, w ∈ obs -> w = (f_zero, f_zero)) /\
  FindLoadBalancingDivision fuel k_divide r_old bbmin bbmax
    leftnodes rightnodes mpinode hist
  = FindLoadBalancingDivision fuel k_divide r_old bbmin bbmax
      leftnodes' rightnodes' mpinode' hist /\
  (let workfrac := fdiv f_zero (fadd f_zero f_zero) in
   flt workfrac (fsub f_half f_worktol) = false ->
   fgt workfrac (fadd f_half f_worktol) = false ->
   is_Some (zget bbmax k_divide) -> is_Some (zget bbmin k_divide) ->
   (0 < fuel)%nat ->
   FindLoadBalancingDivision fuel k_divide r_old bbmin bbmax
     leftnodes rightnodes mpinode hist
   = Done r_old (hist ++ [(f_zero, f_zero)])).
Proof.
  split; [apply scan_leftnodes_unchanged|].
  unfold FindLoadBalancingDivision, bind.
  destruct (zget bbmax k_divide) as [r_max|]; cbn [defined ret undefined].
  2:{ split; [intros ? ? [=]|]. split; [reflexivity|].
      intros _ _ [? ?]; discriminate. }
  destruct (zget bbmin k_divide) as [r_min|]; cbn [defined ret undefined].
  2:{ split; [intros ? ? [=]|]. split; [reflexivity|].
      intros _ _ _ [? ?]; discriminate. }
  split; [apply division_loop_observes_zero|].
  split; [apply division_loop_ignores_nodes|].
  intros Hlt Hgt _ _ Hfuel. destruct fuel as [|fuel]; [lia|].
  rewrite division_loop_unfold. cbv zeta. rewrite Hlt, Hgt.
  reflexivity.
Qed.

End DivisionFacts.

(** ** SphTree.cpp: SearchBoundaryGhostParticles *)

Section GhostFacts.
Context {FLOAT : Type} `{!FloatOps FLOAT} `{!TreeOps FLOAT} `{!Layout FLOAT}.
Variables (tghost : FLOAT) (simbox : DomainBox.t FLOAT).

Lemma Create_set_Ntot (image : Particle.t FLOAT) (n : Z) (s : Sph.t FLOAT) :
  CreateBoundaryGhostParticle image (Sph.set_Ntot n s)
  = Sph.set_Ntot n (CreateBoundaryGhostParticle image s).
Proof. reflexivity. Qed.

Lemma Create_frame (image : Particle.t FLOAT) (s : Sph.t FLOAT) :
  Sph.Nsph (CreateBoundaryGhostParticle image s) = Sph.Nsph s /\
  Sph.Ntot (CreateBoundaryGhostParticle image s) = Sph.Ntot s /\
  Sph.Nsphmax (CreateBoundaryGhostParticle image s) = Sph.Nsphmax s.
Proof. repeat split. Qed.

Lemma Creates_set_Ntot (images : list (Particle.t FLOAT)) (n : Z) :
  forall s,
    foldl (fun s' image => CreateBoundaryGhostParticle image s')
      (Sph.set_Ntot n s) images
    = Sph.set_Ntot n
        (foldl (fun s' image => CreateBoundaryGhostParticle image s') s images).
Proof.
  induction images as [|image l IH]; intros s; cbn; [reflexivity|].
  rewrite Create_set_Ntot. apply IH.
Qed.

Lemma Creates_frame (images : list (Particle.t FLOAT)) :
  forall s,
    let s' := foldl (fun s' image => CreateBoundaryGhostParticle image s') s
                images in
    Sph.Nsph s' = Sph.Nsph s /\ Sph.Ntot s' = Sph.Ntot s /\
    Sph.Nsphmax s' = Sph.Nsphmax s.
Proof.
  induction images as [|image l IH]; intros s; cbn; [repeat split|].
  destruct (IH (CreateBoundaryGhostParticle image s)) as (H1 & H2 & H3).
  cbn in H1, H2, H3. repeat split; assumption.
Qed.

(** The boundary check leaves [Nsph], [Ntot] and [Nsphmax] alone. *)
Lemma Check_frame (k : nat) (i : Z) (s : Sph.t FLOAT) :
  let s' := CheckBoundaryGhostParticle_sph k i tghost simbox s in
  Sph.Nsph s' = Sph.Nsph s /\ Sph.Ntot s' = Sph.Ntot s /\
  Sph.Nsphmax s' = Sph.Nsphmax s.
Proof.
  unfold CheckBoundaryGhostParticle_sph.
  destruct (zget (Sph.sphdata s) i) as [p|]; [|repeat split].
  apply Creates_frame.
Qed.

Lemma Check_set_Ntot (k : nat) (i : Z) (n : Z) (s : Sph.t FLOAT) :
  CheckBoundaryGhostParticle_sph k i tghost simbox (Sph.set_Ntot n s)
  = Sph.set_Ntot n (CheckBoundaryGhostParticle_sph k i tghost simbox s).
Proof.
  unfold CheckBoundaryGhostParticle_sph. cbn [Sph.sphdata Sph.set_Ntot].
  destruct (zget (Sph.sphdata s) i) as [p|]; [|reflexivity].
  apply Creates_set_Ntot.
Qed.

Lemma replay_app (es1 es2 : list Event) (s : Sph.t FLOAT) :
  replay tghost simbox (es1 ++ es2) s
  = replay tghost simbox es2 (replay tghost simbox es1 s).
Proof. unfold replay. apply foldl_app. Qed.

Lemma replay_set_Ntot (es : list Event) (n : Z) :
  forall s,
    replay tghost simbox es (Sph.set_Ntot n s)
    = Sph.set_Ntot n (replay tghost simbox es s).
Proof.
  unfold replay. induction es as [|e es IH]; intros s; cbn; [reflexivity|].
  rewrite <- IH. f_equal. destruct e; try reflexivity. apply Check_set_Ntot.
Qed.

Lemma replay_frame (es : list Event) :
  forall s,
    Sph.Nsph (replay tghost simbox es s) = Sph.Nsph s /\
    Sph.Nsphmax (replay tghost simbox es s) = Sph.Nsphmax s.
Proof.
  unfold replay. induction es as [|e es IH]; intros s; cbn; [split; reflexivity|].
  destruct (IH (replay_call tghost simbox s e)) as [H1 H2].
  rewrite H1, H2.
  destruct e; cbn; try (split; reflexivity).
  destruct (Check_frame k i s) as (? & _ & ?). split; assumption.
Qed.

Lemma set_Ntot_twice (a b : Z) (s : Sph.t FLOAT) :
  Sph.set_Ntot a (Sph.set_Ntot b s) = Sph.set_Ntot a s.
Proof. reflexivity. Qed.

(** One call of the check. *)
Lemma Check_step (s0 : State FLOAT) (k : nat) (i : Z) es ntot s :
  ghost_search_at tghost simbox s0 es ntot s ->
  exists s',
    CheckBoundaryGhostParticle k tghost simbox i s = Done tt s' /\
    ghost_search_at tghost simbox s0
      (es ++ [CallCheckBoundaryGhostParticle k i]) ntot s'.
Proof.
  intros (Hself & Hcalls & Hsph).
  eexists. split; [reflexivity|]. cbn. repeat split.
  - exact Hself.
  - rewrite Hcalls, <- app_assoc. reflexivity.
  - rewrite Hsph, Check_set_Ntot, replay_app. reflexivity.
Qed.

(** The loop over the particles of a leaf. *)
Lemma leaf_loop_run (s0 : State FLOAT) (k : nat) (ilast : Z) (n : nat) :
  forall (pfuel : nat) (i : Z) es ntot s,
    ghost_search_at tghost simbox s0 es ntot s ->
    chain_ok n (Tree.inext (SphTree.tree (self s0))) ilast i ->
    (n <= pfuel)%nat ->
    exists l s',
      leaf_loop pfuel (CheckBoundaryGhostParticle k tghost simbox) ilast i s
        = Done tt s' /\
      ghost_search_at tghost simbox s0 (es ++ check_calls k l) ntot s'.
Proof.
  induction n as [|n IH]; intros pfuel i es ntot s Hat Hchain Hfuel;
    [contradiction|].
  destruct pfuel as [|pfuel]; [lia|]. cbn [leaf_loop].
  destruct (decide (i = -1)) as [Hi|Hi].
  { exists [], s. split; [reflexivity|]. cbn. rewrite app_nil_r. exact Hat. }
  destruct (Check_step s0 k i es ntot s Hat) as (s1 & Hrun & Hat1).
  rewrite (bind_done _ _ _ _ _ Hrun).
  destruct (decide (i = ilast)) as [Hl|Hl].
  { exists [i], s1. split; [reflexivity|]. exact Hat1. }
  destruct Hchain as [?|[?|(i' & Hnext & Hchain)]]; [contradiction..|].
  assert (Hself1 : self s1 = self s0) by apply Hat1.
  unfold the_tree. unfold bind at 1. unfold gets. rewrite Hself1.
  unfold bind at 1. rewrite Hnext. cbn [defined ret].
  destruct (IH pfuel i' _ ntot s1 Hat1 Hchain ltac:(lia)) as (l & s' & Hrun' & Hat').
  exists (i :: l), s'. split; [exact Hrun'|].
  cbn. rewrite <- app_assoc in Hat'. exact Hat'.
Qed.

(** The walk of the tree for one axis. *)
Lemma walk_run (s0 : State FLOAT) (k : nat) (grange : FLOAT) (n pfuel : nat) :
  tree_ok n (SphTree.tree (self s0)) -> (n <= pfuel)%nat ->
  forall (fuel : nat) (c : Z) es ntot s,
    ghost_search_at tghost simbox s0 es ntot s ->
    0 <= c ->
    (Z.to_nat (Tree.Ncell (SphTree.tree (self s0)) - c) < fuel)%nat ->
    exists l s',
      walk pfuel fuel k tghost grange simbox c s = Done tt s' /\
      ghost_search_at tghost simbox s0 (es ++ check_calls k l) ntot s'.
Proof.
  intros (Hlen & Hn & Hcells) Hpfuel.
  induction fuel as [|fuel IH]; intros c es ntot s Hat Hc Hfuel; [lia|].
  cbn [walk]. unfold the_tree. unfold bind at 1. unfold gets.
  assert (Hself : self s = self s0) by apply Hat. rewrite Hself.
  set (t := SphTree.tree (self s0)) in *.
  destruct (decide (c < Tree.Ncell t)) as [Hin|Hout].
  2:{ exists [], s. split; [reflexivity|]. cbn. rewrite app_nil_r. exact Hat. }
  destruct (zget (Tree.celldata t) c) as [cell|] eqn:Hcell.
  2:{ exfalso. unfold zget in Hcell. rewrite decide_True in Hcell by lia.
      apply lookup_ge_None in Hcell. lia. }
  unfold bind at 1. cbn [defined ret].
  destruct (Hcells c cell ltac:(lia) Hcell) as [Hnext Hleaf].
  assert (Hstep : forall c' es' s1,
            c < c' -> ghost_search_at tghost simbox s0 es' ntot s1 ->
            exists l s',
              walk pfuel fuel k tghost grange simbox c' s1 = Done tt s' /\
              ghost_search_at tghost simbox s0 (es' ++ check_calls k l) ntot s').
  { intros c' es' s1 Hc' Hat1. apply IH; [exact Hat1 | lia | lia]. }
  destruct (ghost_overlap k tghost grange simbox cell).
  2:{ apply Hstep; assumption. }
  destruct (decide (TreeCell.level cell <> Tree.ltot t)) as [Hlev|Hlev].
  { apply Hstep; [lia | assumption]. }
  destruct (decide (TreeCell.N cell = 0)) as [HN|HN].
  { apply Hstep; assumption. }
  destruct (decide (TreeCell.level cell = Tree.ltot t)) as [Hlev'|Hlev'].
  2:{ exfalso. apply Hlev. exact Hlev'. }
  destruct (leaf_loop_run s0 k (TreeCell.ilast cell) n pfuel
              (TreeCell.ifirst cell) es ntot s Hat (Hleaf Hlev' HN) Hpfuel)
    as (l1 & s1 & Hrun1 & Hat1).
  rewrite (bind_done _ _ _ _ _ Hrun1).
  destruct (Hstep (TreeCell.cnext cell) _ s1 Hnext Hat1) as (l2 & s2 & Hrun2 & Hat2).
  exists (l1 ++ l2), s2. split; [exact Hrun2|].
  unfold check_calls in *. rewrite fmap_app, app_assoc. exact Hat2.
Qed.

(** A run of checks over a fixed list of particles. *)
Lemma for_each_checks (s0 : State FLOAT) (k : nat) (l : list Z) :
  forall es ntot s,
    ghost_search_at tghost simbox s0 es ntot s ->
    exists s',
      for_each l (CheckBoundaryGhostParticle k tghost simbox) s = Done tt s' /\
      ghost_search_at tghost simbox s0 (es ++ check_calls k l) ntot s'.
Proof.
  induction l as [|i l IH]; intros es ntot s Hat.
  - exists s. split; [reflexivity|]. cbn. rewrite app_nil_r. exact Hat.
  - cbn [for_each].
    destruct (Check_step s0 k i es ntot s Hat) as (s1 & Hrun & Hat1).
    rewrite (bind_done _ _ _ _ _ Hrun).
    destruct (IH _ ntot s1 Hat1) as (s' & Hrun' & Hat').
    exists s'. split; [exact Hrun'|].
    cbn. rewrite <- app_assoc in Hat'. exact Hat'.
Qed.

Lemma ghost_search_at_counters (s0 : State FLOAT) es ntot s :
  ghost_search_at tghost simbox s0 es ntot s ->
  Sph.Nsph (sph s) = Sph.Nsph (sph s0) /\ Sph.Ntot (sph s) = ntot /\
  Sph.Nsphmax (sph s) = Sph.Nsphmax (sph s0) /\
  Sph.Nghost (sph s)
  = Sph.Nghost (replay tghost simbox es (reset_ghost_counters (sph s0))).
Proof.
  intros (_ & _ & ->).
  destruct (replay_frame es (reset_ghost_counters (sph s0))) as [H1 H2].
  cbn. rewrite H1, H2. repeat split.
Qed.

(** The direct scan visits the indices from [Nsph] up to [Ntot]. *)
Lemma direct_scan_run (s0 : State FLOAT) (k : nat) es ntot s :
  ghost_search_at tghost simbox s0 es ntot s ->
  exists s',
    direct_scan (CheckBoundaryGhostParticle k tghost simbox) s = Done tt s' /\
    ghost_search_at tghost simbox s0
      (es ++ check_calls k (seqZ (Sph.Nsph (sph s0)) (ntot - Sph.Nsph (sph s0))))
      ntot s'.
Proof.
  intros Hat. unfold direct_scan, for_range. unfold bind at 1. unfold gets.
  destruct (ghost_search_at_counters s0 es ntot s Hat) as (-> & -> & _).
  apply for_each_checks. exact Hat.
Qed.

Lemma count_ghosts_run (s0 : State FLOAT) es ntot s :
  ghost_search_at tghost simbox s0 es ntot s ->
  exists s',
    count_ghosts s = Done tt s' /\
    ghost_search_at tghost simbox s0 es
      (Sph.Nsph (sph s0)
       + Sph.Nghost (replay tghost simbox es (reset_ghost_counters (sph s0))))
      s'.
Proof.
  intros Hat.
  destruct (ghost_search_at_counters s0 es ntot s Hat) as (HN & _ & _ & HG).
  destruct Hat as (Hself & Hcalls & Hsph).
  eexists. split; [reflexivity|]. cbn. repeat split; [assumption..|].
  rewrite HN, HG, Hsph. reflexivity.
Qed.

(** The x pass: the walk, then the count. *)
Lemma x_block_run (s0 : State FLOAT) (grange : FLOAT) (n fuel : nat) es ntot s :
  tree_ok n (SphTree.tree (self s0)) -> (n < fuel)%nat ->
  ghost_search_at tghost simbox s0 es ntot s ->
  ntot = Sph.Nsph (sph s0)
         + Sph.Nghost (replay tghost simbox es (reset_ghost_counters (sph s0))) ->
  exists l s',
    (if negb (x_open simbox) then
       walk fuel fuel 0 tghost grange simbox 0 ;;; count_ghosts
     else ret tt) s = Done tt s' /\
    let es' := es ++ (if negb (x_open simbox) then check_calls 0 l else []) in
    ghost_search_at tghost simbox s0 es'
      (Sph.Nsph (sph s0)
       + Sph.Nghost (replay tghost simbox es' (reset_ghost_counters (sph s0))))
      s'.
Proof.
  intros Hok Hfuel Hat Hntot. destruct (negb (x_open simbox)).
  - destruct (walk_run s0 0 grange n fuel Hok ltac:(lia) fuel 0 es ntot s Hat)
      as (l & s1 & Hrun & Hat1); [lia | destruct Hok as (_ & ? & _); lia |].
    destruct (count_ghosts_run s0 _ ntot s1 Hat1) as (s2 & Hrun2 & Hat2).
    exists l, s2. split; [|exact Hat2].
    rewrite (bind_done _ _ _ _ _ Hrun). exact Hrun2.
  - exists [], s. split; [reflexivity|]. cbn. rewrite app_nil_r, <- Hntot.
    exact Hat.
Qed.

(** A later pass: the walk, the direct scan of the ghosts counted so far,
    then the count. *)
Lemma scan_block_run (s0 : State FLOAT) (k : nat) (enabled : bool)
    (grange : FLOAT) (n fuel : nat) es ntot s :
  tree_ok n (SphTree.tree (self s0)) -> (n < fuel)%nat ->
  ghost_search_at tghost simbox s0 es ntot s ->
  ntot = Sph.Nsph (sph s0)
         + Sph.Nghost (replay tghost simbox es (reset_ghost_counters (sph s0))) ->
  exists l s',
    (if enabled then
       walk fuel fuel k tghost grange simbox 0 ;;;
       direct_scan (CheckBoundaryGhostParticle k tghost simbox) ;;;
       count_ghosts
     else ret tt) s = Done tt s' /\
    let es' :=
      es ++ (if enabled then
               check_calls k l
               ++ check_calls k
                    (seqZ (Sph.Nsph (sph s0))
                       (Sph.Nghost
                          (replay tghost simbox es
                             (reset_ghost_counters (sph s0)))))
             else []) in
    ghost_search_at tghost simbox s0 es'
      (Sph.Nsph (sph s0)
       + Sph.Nghost (replay tghost simbox es' (reset_ghost_counters (sph s0))))
      s'.
Proof.
  intros Hok Hfuel Hat Hntot. destruct enabled.
  - destruct (walk_run s0 k grange n fuel Hok ltac:(lia) fuel 0 es ntot s Hat)
      as (l & s1 & Hrun & Hat1); [lia | destruct Hok as (_ & ? & _); lia |].
    destruct (direct_scan_run s0 k _ ntot s1 Hat1) as (s2 & Hrun2 & Hat2).
    destruct (count_ghosts_run s0 _ ntot s2 Hat2) as (s3 & Hrun3 & Hat3).
    exists l, s3. split.
    + rewrite (bind_done _ _ _ _ _ Hrun), (bind_done _ _ _ _ _ Hrun2).
      exact Hrun3.
    + cbv zeta. rewrite <- app_assoc in Hat3.
      replace (ntot - Sph.Nsph (sph s0))
        with (Sph.Nghost (replay tghost simbox es
                            (reset_ghost_counters (sph s0)))) in Hat3 by lia.
      exact Hat3.
  - exists [], s. split; [reflexivity|]. cbn. rewrite app_nil_r, <- Hntot.
    exact Hat.
Qed.

(** The whole search, for a tree whose walk ends and a box with an edge
    that is not open: the calls it makes and the state it ends in. *)
Lemma SearchBoundaryGhostParticles_run (fuel n : nat) (ndim : Z)
    (s : State FLOAT) :
  tree_ok n (SphTree.tree (self s)) -> (n < fuel)%nat ->
  x_open simbox && y_open simbox && z_open simbox = false ->
  exists lx ly lz,
    let r0 := reset_ghost_counters (sph s) in
    let Nsph0 := Sph.Nsph (sph s) in
    let xs := if negb (x_open simbox) then check_calls 0 lx else [] in
    let ys :=
      if bool_decide (ndim >= 2) && negb (y_open simbox) then
        check_calls 1 ly
        ++ check_calls 1 (seqZ Nsph0 (Sph.Nghost (replay tghost simbox xs r0)))
      else [] in
    let zs :=
      if bool_decide (ndim = 3) && negb (z_open simbox) then
        check_calls 2 lz
        ++ check_calls 2
             (seqZ Nsph0 (Sph.Nghost (replay tghost simbox (xs ++ ys) r0)))
      else [] in
    let final := replay tghost simbox (xs ++ ys ++ zs) r0 in
    let ntot := Nsph0 + Sph.Nghost final in
    SearchBoundaryGhostParticles fuel ndim tghost simbox s
    = if decide (ntot > Sph.Nsphmax (sph s)) then
        Abort "Not enough memory for ghost particles"
          (mkState (self s) (Sph.set_Ntot ntot final) (calls s ++ xs ++ ys ++ zs))
      else
        Done tt
          (mkState (self s)
             (Sph.set_NPeriodicGhost (Sph.Nghost final)
                (Sph.set_Ntot ntot final))
             (calls s ++ xs ++ ys ++ zs)).
Proof.
  intros Hok Hfuel Hopen.
  unfold SearchBoundaryGhostParticles. unfold bind at 1. unfold gets.
  unfold bind at 1. unfold on_sph at 1. unfold modify at 1.
  rewrite Hopen.
  set (grange := fmul (SphTree.ghost_range (self s)) (SphTree.kernrange (self s))).
  set (r0 := reset_ghost_counters (sph s)).
  set (s1 := mkState (self s) r0 (calls s)).
  assert (Hat1 : ghost_search_at tghost simbox s [] (Sph.Nsph (sph s)) s1).
  { split; [reflexivity|]. split; [cbn; rewrite app_nil_r; reflexivity|].
    reflexivity. }
  destruct (x_block_run s grange n fuel [] _ s1 Hok Hfuel Hat1) as
    (lx & s2 & Hrun2 & Hat2); [cbn; lia|].
  cbn [app] in Hat2. cbv zeta in Hat2.
  destruct (scan_block_run s 1 (bool_decide (ndim >= 2) && negb (y_open simbox))
              grange n fuel _ _ s2 Hok Hfuel Hat2 eq_refl) as
    (ly & s3 & Hrun3 & Hat3).
  cbv zeta in Hat3.
  destruct (scan_block_run s 2 (bool_decide (ndim = 3) && negb (z_open simbox))
              grange n fuel _ _ s3 Hok Hfuel Hat3 eq_refl) as
    (lz & s4 & Hrun4 & Hat4).
  cbv zeta in Hat4. rewrite <- app_assoc in Hat4.
  exists lx, ly, lz. cbv zeta.
  rewrite (bind_done _ _ _ _ _ Hrun2), (bind_done _ _ _ _ _ Hrun3),
    (bind_done _ _ _ _ _ Hrun4).
  destruct (ghost_search_at_counters s _ _ s4 Hat4) as (HN & HT & HM & HG).
  destruct Hat4 as (Hself & Hcalls & Hsph).
  unfold bind at 1. unfold gets. rewrite HT, HM.
  destruct s4 as [t4 sph4 calls4]. cbn in Hself, Hcalls, Hsph. subst t4 calls4 sph4.
  destruct (decide (_ > _)); reflexivity.
Qed.


End GhostFacts.

(** ** SphTree.cpp: UnpackExported and GetBackExportInfo *)

Section ListFacts.

Lemma seqZ_succ (k : Z) (n : nat) :
  seqZ k (Z.of_nat (S n)) = k :: seqZ (k + 1) (Z.of_nat n).
Proof.
  rewrite seqZ_cons by lia. f_equal. f_equal; lia.
Qed.

Lemma seqZ_to_nat (k n : Z) : seqZ k n = seqZ k (Z.of_nat (Z.to_nat n)).
Proof. unfold seqZ. rewrite Nat2Z.id. reflexivity. Qed.

Lemma zset_spec {A} (l l' : list A) (i : Z) (x : A) :
  zset l i x = Some l' ->
  0 <= i < Z.of_nat (length l) /\ l' = <[Z.to_nat i := x]> l.
Proof.
  unfold zset. destruct (decide _) as [Hi|Hi]; [|discriminate].
  intros [= <-]. split; [exact Hi | reflexivity].
Qed.

Lemma zget_spec {A} (l : list A) (i : Z) (x : A) :
  zget l i = Some x -> 0 <= i /\ l !! Z.to_nat i = Some x.
Proof.
  unfold zget. destruct (decide _) as [Hi|Hi]; [|discriminate].
  intros H. split; assumption.
Qed.

Lemma sumZ_app (l1 l2 : list Z) : sumZ (l1 ++ l2) = sumZ l1 + sumZ l2.
Proof.
  unfold sumZ. induction l1 as [|x l1 IH]; cbn; [reflexivity|].
  rewrite IH. lia.
Qed.

End ListFacts.

Section UnpackFacts.
Context {FLOAT : Type} `{!FloatOps FLOAT} `{!TreeOps FLOAT} `{!Layout FLOAT}.
Variables (received_array : list byte) (Nbytes : list Z).

Lemma unpack_particle_bookkeeping (iparticle : Z) (acc acc' : Z * Z)
    (s s' : State FLOAT) :
  unpack_particle received_array iparticle acc s = Done acc' s' ->
  bookkeeping s' = bookkeeping s.
Proof.
  unfold unpack_particle. destruct acc as [particle_index offset].
  intros Hrun. run_inv Hrun. reflexivity.
Qed.

Lemma unpack_cell_bookkeeping (icell : Z) (acc acc' : Z * Z)
    (s s' : State FLOAT) :
  unpack_cell received_array icell acc s = Done acc' s' ->
  bookkeeping s' = bookkeeping s.
Proof.
  unfold unpack_cell. destruct acc as [particle_index offset].
  intros Hrun. run_inv Hrun.
  match goal with
  | H : fold_each _ _ _ ?s1 = Done _ _ |- _ =>
      apply (fold_each_keeps (fun x => bookkeeping x = bookkeeping s)) in H;
        [exact H | | reflexivity]
  end.
  intros ? ? ? ? ? HP Hbody.
  rewrite (unpack_particle_bookkeeping _ _ _ _ _ Hbody). exact HP.
Qed.

(** Copying a peer's payload advances the particle counters by the number
    of particles in its header; what the rank owns is as before. *)
Lemma unpack_payload_counters (Np Nc offset offset' : Z) (s s' : State FLOAT) :
  unpack_payload received_array Np Nc offset s = Done offset' s' ->
  SphTree.N_imported_part_per_proc (self s')
    = SphTree.N_imported_part_per_proc (self s) /\
  Sph.Nsph (sph s') = Sph.Nsph (sph s) /\
  Sph.Nghost (sph s') = Sph.Nghost (sph s) /\
  Tree.Ncell (SphTree.tree (self s')) = Tree.Ncell (SphTree.tree (self s)) /\
  Sph.Ntot (sph s') = Sph.Ntot (sph s) + Np /\
  Sph.NImportedParticles (sph s') = Sph.NImportedParticles (sph s) + Np.
Proof.
  unfold unpack_payload. intros Hrun. run_inv Hrun.
  match goal with
  | H : fold_each _ _ _ s = Done _ ?s1 |- _ =>
      apply (fold_each_keeps (fun x => bookkeeping x = bookkeeping s)) in H;
        [rename H into Hb | | reflexivity]
  end.
  2:{ intros ? ? ? ? ? HP Hbody.
      rewrite (unpack_cell_bookkeeping _ _ _ _ _ Hbody). exact HP. }
  cbn.
  pose proof (f_equal (fun x => SphTree.N_imported_part_per_proc (self x)) Hb) as H1.
  pose proof (f_equal (fun x => Sph.Nsph (sph x)) Hb) as H2.
  pose proof (f_equal (fun x => Sph.Nghost (sph x)) Hb) as H3.
  pose proof (f_equal (fun x => Tree.Ncell (SphTree.tree (self x))) Hb) as H4.
  pose proof (f_equal (fun x => Sph.Ntot (sph x)) Hb) as H5.
  pose proof (f_equal (fun x => Sph.NImportedParticles (sph x)) Hb) as H6.
  cbn in H1, H2, H3, H4, H5, H6.
  rewrite H1, H2, H3, H4, H5, H6. repeat split.
Qed.

(** One peer: its count [v] (zero for an empty message) is recorded at
    [Nproc] and added to the particle counters. *)
Lemma unpack_proc_counters (Nproc offset offset' : Z) (s s' : State FLOAT) :
  unpack_proc received_array Nbytes Nproc offset s = Done offset' s' ->
  exists v,
    zset (SphTree.N_imported_part_per_proc (self s)) Nproc v
      = Some (SphTree.N_imported_part_per_proc (self s')) /\
    Sph.Nsph (sph s') = Sph.Nsph (sph s) /\
    Sph.Nghost (sph s') = Sph.Nghost (sph s) /\
    Tree.Ncell (SphTree.tree (self s')) = Tree.Ncell (SphTree.tree (self s)) /\
    Sph.Ntot (sph s') = Sph.Ntot (sph s) + v /\
    Sph.NImportedParticles (sph s') = Sph.NImportedParticles (sph s) + v.
Proof.
  unfold unpack_proc. intros Hrun. run_inv Hrun.
  - exists 0. cbn. rewrite !Z.add_0_r. repeat split. assumption.
  - match goal with
    | H : unpack_payload _ _ _ _ _ = Done _ _ |- _ =>
        apply unpack_payload_counters in H as (H1 & H2 & H3 & H4 & H5 & H6)
    end.
    cbn in H1, H2, H3, H4, H5, H6.
    eexists. rewrite H1, H2, H3, H4, H5, H6. repeat split. eassumption.
Qed.

(** The loop over the peers [k], [k+1], ..., [k+n-1]. *)
Lemma unpack_fold_counters (n : nat) :
  forall (k offset offset' : Z) (s s' : State FLOAT),
    0 <= k ->
    fold_each (seqZ k (Z.of_nat n)) (unpack_proc received_array Nbytes)
      offset s = Done offset' s' ->
    let imported := SphTree.N_imported_part_per_proc (self s') in
    length imported = length (SphTree.N_imported_part_per_proc (self s)) /\
    take (Z.to_nat k) imported
      = take (Z.to_nat k) (SphTree.N_imported_part_per_proc (self s)) /\
    Sph.Nsph (sph s') = Sph.Nsph (sph s) /\
    Sph.Nghost (sph s') = Sph.Nghost (sph s) /\
    Tree.Ncell (SphTree.tree (self s')) = Tree.Ncell (SphTree.tree (self s)) /\
    Sph.Ntot (sph s')
      = Sph.Ntot (sph s) + sumZ (take n (drop (Z.to_nat k) imported)) /\
    Sph.NImportedParticles (sph s')
      = Sph.NImportedParticles (sph s)
        + sumZ (take n (drop (Z.to_nat k) imported)).
Proof.
  induction n as [|n IH]; intros k offset offset' s s' Hk Hrun.
  - cbn in Hrun. run_inj Hrun. cbn. rewrite !Z.add_0_r. repeat split.
  - rewrite seqZ_succ in Hrun. cbn [fold_each] in Hrun.
    apply bind_inv_done in Hrun as (off1 & s1 & Hstep & Hrest).
    apply unpack_proc_counters in Hstep as (v & Hv & S1 & S2 & S3 & S4 & S5).
    apply zset_spec in Hv as [Hrange Hv].
    apply IH in Hrest as (R0 & R1 & R2 & R3 & R4 & R5 & R6); [|lia].
    cbv zeta. rewrite Hv in R0, R1.
    rewrite length_insert in R0.
    replace (Z.to_nat (k + 1)) with (S (Z.to_nat k)) in * by lia.
    assert (Hat : SphTree.N_imported_part_per_proc (self s') !! Z.to_nat k
                  = Some v).
    { apply (f_equal (fun l => l !! Z.to_nat k)) in R1.
      rewrite !lookup_take_lt in R1 by lia.
      rewrite R1. apply list_lookup_insert_eq. lia. }
    split; [exact R0|]. split.
    { apply (f_equal (take (Z.to_nat k))) in R1.
      rewrite !take_take in R1.
      rewrite !Nat.min_l in R1 by lia.
      rewrite R1. apply take_insert_ge. lia. }
    rewrite (drop_S _ _ _ Hat). cbn [take sumZ foldr].
    fold (sumZ (take n (drop (S (Z.to_nat k))
                          (SphTree.N_imported_part_per_proc (self s'))))).
    repeat split; lia.
Qed.

Lemma unpack_begin_done (s s0 : State FLOAT) :
  unpack_begin Nbytes s = Done tt s0 ->
  length (SphTree.N_imported_part_per_proc (self s0)) = length Nbytes /\
  sph s0 = sph s /\
  Sph.NImportedParticles (sph s) = 0 /\
  Tree.Ncell (SphTree.tree (self s0)) = Tree.Ncell (SphTree.tree (self s)).
Proof.
  unfold unpack_begin. intros Hrun. run_inv Hrun. cbn.
  split; [|repeat split; assumption].
  unfold resize_ints. rewrite length_app, length_take, length_replicate. lia.
Qed.

(** A message the loop accepted has advanced the counters by the sum of the
    recorded counts. *)
Lemma UnpackExported_counters (s s' : State FLOAT) :
  UnpackExported received_array Nbytes s = Done tt s' ->
  let imported := SphTree.N_imported_part_per_proc (self s') in
  Sph.Nsph (sph s') = Sph.Nsph (sph s) /\
  Sph.Nghost (sph s') = Sph.Nghost (sph s) /\
  Tree.Ncell (SphTree.tree (self s')) = Tree.Ncell (SphTree.tree (self s)) /\
  Sph.Ntot (sph s') = Sph.Ntot (sph s) + sumZ imported /\
  Sph.NImportedParticles (sph s') = sumZ imported.
Proof.
  unfold UnpackExported. intros Hrun.
  apply bind_inv_done in Hrun as ([] & s0 & Hbegin & Hrun).
  apply bind_inv_done in Hrun as (offset & s1 & Hloop & Hend).
  run_inv Hend.
  apply unpack_begin_done in Hbegin as (Hlen & Hsph & Hzero & Hcell).
  apply unpack_fold_counters in Hloop as (R0 & _ & R2 & R3 & R4 & R5 & R6);
    [|lia].
  cbv zeta. change (Z.to_nat 0) with 0%nat in R5, R6. rewrite drop_0 in R5, R6.
  rewrite take_ge in R5, R6 by (rewrite R0, Hlen; reflexivity).
  rewrite Hsph in *. rewrite Hcell in *. rewrite Hzero in R6.
  repeat split; assumption || lia.
Qed.

End UnpackFacts.

Section BackFacts.
Context {FLOAT : Type} `{!FloatOps FLOAT} `{!TreeOps FLOAT} `{!Layout FLOAT}.

Lemma back_particle_state (removed i : Z) (acc acc' : Z * list byte)
    (s s' : State FLOAT) :
  back_particle removed i acc s = Done acc' s' -> s' = s.
Proof.
  unfold back_particle. destruct acc as [j buf].
  intros Hrun. run_inv Hrun. reflexivity.
Qed.

(** One peer: its recorded count leaves the particle counters and joins
    [removed_particles]. *)
Lemma back_proc_counters (Nproc : Z) (loc loc' : BackLocals)
    (s s' : State FLOAT) :
  back_proc Nproc loc s = Done loc' s' ->
  exists N,
    zget (SphTree.N_imported_part_per_proc (self s)) Nproc = Some N /\
    self s' = self s /\
    Sph.Nsph (sph s') = Sph.Nsph (sph s) /\
    Sph.Nghost (sph s') = Sph.Nghost (sph s) /\
    Sph.Ntot (sph s') = Sph.Ntot (sph s) - N /\
    Sph.NImportedParticles (sph s') = Sph.NImportedParticles (sph s) - N /\
    removed_particles loc' = removed_particles loc + N.
Proof.
  unfold back_proc. intros Hrun. run_inv Hrun.
  match goal with
  | H : fold_each _ _ _ s = Done _ ?s1 |- _ =>
      apply (fold_each_keeps (fun x => x = s)) in H; [subst s1 | | reflexivity]
  end.
  2:{ intros ? ? ? ? ? -> Hbody. apply (back_particle_state _ _ _ _ _ _ Hbody). }
  cbn. eexists. split; [eassumption|]. repeat split. lia.
Qed.

Lemma back_fold_counters (n : nat) :
  forall (k : Z) (loc loc' : BackLocals) (s s' : State FLOAT),
    0 <= k ->
    fold_each (seqZ k (Z.of_nat n)) back_proc loc s = Done loc' s' ->
    let counts :=
      sumZ (take n (drop (Z.to_nat k)
                      (SphTree.N_imported_part_per_proc (self s)))) in
    self s' = self s /\
    Sph.Nsph (sph s') = Sph.Nsph (sph s) /\
    Sph.Nghost (sph s') = Sph.Nghost (sph s) /\
    Sph.Ntot (sph s') = Sph.Ntot (sph s) - counts /\
    Sph.NImportedParticles (sph s') = Sph.NImportedParticles (sph s) - counts /\
    removed_particles loc' = removed_particles loc + counts.
Proof.
  induction n as [|n IH]; intros k loc loc' s s' Hk Hrun.
  - cbn in Hrun. run_inj Hrun. cbn. rewrite !Z.sub_0_r, Z.add_0_r.
    repeat split.
  - rewrite seqZ_succ in Hrun. cbn [fold_each] in Hrun.
    apply bind_inv_done in Hrun as (loc1 & s1 & Hstep & Hrest).
    apply back_proc_counters in Hstep as (N & HN & S0 & S1 & S2 & S3 & S4 & S5).
    apply zget_spec in HN as [_ HN].
    apply IH in Hrest as (R0 & R1 & R2 & R3 & R4 & R5); [|lia].
    cbv zeta. rewrite S0 in R0, R3, R4, R5.
    replace (Z.to_nat (k + 1)) with (S (Z.to_nat k)) in * by lia.
    rewrite (drop_S _ _ _ HN). cbn [take sumZ foldr].
    fold (sumZ (take n (drop (S (Z.to_nat k))
                          (SphTree.N_imported_part_per_proc (self s))))).
    split; [exact R0|]. repeat split; lia.
Qed.

(** A return that was packed has taken the recorded counts back out of the
    particle counters and reset the cell counters. *)
Lemma GetBackExportInfo_counters (send_buffer0 : list byte)
    (exported0 to_each0 : list Z) (rank : Z) (loc : BackLocals)
    (s s' : State FLOAT) :
  GetBackExportInfo send_buffer0 exported0 to_each0 rank s = Done loc s' ->
  Sph.Nsph (sph s') = Sph.Nsph (sph s) /\
  Sph.Nghost (sph s') = Sph.Nghost (sph s) /\
  Sph.Ntot (sph s')
    = Sph.Ntot (sph s) - sumZ (SphTree.N_imported_part_per_proc (self s)) /\
  Sph.Ntot (sph s') = Sph.Nsph (sph s') + Sph.Nghost (sph s') /\
  Sph.NImportedParticles (sph s') = 0 /\
  Tree.Ncell (SphTree.tree (self s')) = Tree.Ncell (SphTree.tree (self s)) /\
  Tree.Ncelltot (SphTree.tree (self s')) = Tree.Ncell (SphTree.tree (self s')) /\
  Tree.Nimportedcell (SphTree.tree (self s')) = 0.
Proof.
  unfold GetBackExportInfo. intros Hrun.
  apply bind_inv_done in Hrun as (t & s1 & Hself & Hrun). run_inv Hself.
  apply bind_inv_done in Hrun as (s0 & s1 & Hsph & Hrun). run_inv Hsph.
  apply bind_inv_done in Hrun as ([] & s1 & Hsize & Hrun). run_inv Hsize.
  apply bind_inv_done in Hrun as (loc1 & s1 & Hloop & Hrun).
  apply back_fold_counters in Hloop as (R0 & R1 & R2 & R3 & R4 & R5); [|lia].
  cbv zeta in R3, R4, R5. change (Z.to_nat 0) with 0%nat in R3, R4, R5.
  rewrite drop_0, take_ge in R3, R4, R5 by reflexivity.
  run_inv Hrun. cbn in *. rewrite R0.
  repeat split; assumption || lia.
Qed.

(** C10.  When [UnpackExported] has accepted the per-peer buffers and
    [GetBackExportInfo] has then packed the returns, the particle total is
    [Nsph + Nghost] again, and it is the total the import started from; the
    imported-particle count is zero; the tree's total cell count is its
    local cell count and its imported-cell count is zero.  What the rank
    owns ([Nsph], [Nghost], [Ncell]) is as it was before the import. *)
Theorem import_then_return_restores_counters (received_array : list byte)
    (Nbytes : list Z) (send_buffer0 : list byte) (exported0 to_each0 : list Z)
    (rank : Z) (loc : BackLocals) (s0 s1 s2 : State FLOAT) :
  UnpackExported received_array Nbytes s0 = Done tt s1 ->
  GetBackExportInfo send_buffer0 exported0 to_each0 rank s1 = Done loc s2 ->
  Sph.Ntot (sph s2) = Sph.Nsph (sph s2) + Sph.Nghost (sph s2) /\
  Sph.Ntot (sph s2) = Sph.Ntot (sph s0) /\
  Sph.NImportedParticles (sph s2) = 0 /\
  Tree.Ncelltot (SphTree.tree (self s2)) = Tree.Ncell (SphTree.tree (self s2)) /\
  Tree.Nimportedcell (SphTree.tree (self s2)) = 0 /\
  Sph.Nsph (sph s2) = Sph.Nsph (sph s0) /\
  Sph.Nghost (sph s2) = Sph.Nghost (sph s0) /\
  Tree.Ncell (SphTree.tree (self s2)) = Tree.Ncell (SphTree.tree (self s0)).
Proof.
  intros Hin Hback.
  apply UnpackExported_counters in Hin as (U1 & U2 & U3 & U4 & U5).
  apply GetBackExportInfo_counters in Hback as
    (G1 & G2 & G3 & G4 & G5 & G6 & G7 & G8).
  repeat split; try assumption; lia.
Qed.

End BackFacts.

Section RoundTripExample.
Import Worked.
#[local] Existing Instances ZFloat ZTree ZLayout.

Lemma import_of_export_message :
  UnpackExported export_message [320] (import_state 8) = Done tt imported_state.
Proof. vm_compute. reflexivity. Qed.

(** The message of two cells and two particles is imported by a rank that
    holds two particles, and the returns are packed: four particles in
    between, two again at the end. *)
Lemma import_then_return_restores_counters_witness :
  Sph.Ntot (sph imported_state) = 4 /\
  exists loc s2,
    GetBackExportInfo [] [0] [0] 0 imported_state = Done loc s2 /\
    Sph.Ntot (sph s2) = Sph.Nsph (sph s2) + Sph.Nghost (sph s2) /\
    Sph.Ntot (sph s2) = Sph.Ntot (sph (import_state 8)) /\
    Sph.NImportedParticles (sph s2) = 0 /\
    Tree.Ncelltot (SphTree.tree (self s2)) = Tree.Ncell (SphTree.tree (self s2)) /\
    Tree.Nimportedcell (SphTree.tree (self s2)) = 0 /\
    Sph.Nsph (sph s2) = Sph.Nsph (sph (import_state 8)) /\
    Sph.Nghost (sph s2) = Sph.Nghost (sph (import_state 8)) /\
    Tree.Ncell (SphTree.tree (self s2))
      = Tree.Ncell (SphTree.tree (self (import_state 8))).
Proof.
  split; [vm_compute; reflexivity|].
  destruct (GetBackExportInfo [] [0] [0] 0 imported_state) as [loc s2| | |] eqn:Hback;
    [|vm_compute in Hback; discriminate..].
  exists loc, s2. split; [reflexivity|].
  exact (import_then_return_restores_counters export_message [320] [] [0] [0] 0
           loc (import_state 8) imported_state s2
           import_of_export_message Hback).
Defined.

End RoundTripExample.

(** ** Capacity *)

Section CapacityFacts.
Context {FLOAT : Type} `{!FloatOps FLOAT} `{!TreeOps FLOAT} `{!Layout FLOAT}.

(** A peer whose header asks for more room than is left: the error is
    raised when nothing but the peer's count has been written. *)
Lemma unpack_proc_raises (received_array : list byte) (Nbytes : list Z)
    (Nproc offset Nrb : Z) (bs1 bs2 : list byte) (s : State FLOAT) :
  zget Nbytes Nproc = Some Nrb -> Nrb <> 0 ->
  read_at received_array offset sizeof_int = Some bs1 ->
  read_at received_array (offset + Z.of_nat sizeof_int) sizeof_int = Some bs2 ->
  0 <= Nproc < Z.of_nat (length (SphTree.N_imported_part_per_proc (self s))) ->
  Sph.Ntot (sph s) + int_of_bytes bs1 > Sph.Nsphmax (sph s) \/
  Tree.Ncelltot (SphTree.tree (self s)) + int_of_bytes bs2
    > Tree.Ncellmax (SphTree.tree (self s)) ->
  exists msg s',
    unpack_proc received_array Nbytes Nproc offset s = Abort msg s' /\
    (msg = "Error while receiving imported particles: not enough memory!" \/
     msg = "Error while receiving imported cells: not enough memory!") /\
    sph s' = sph s /\ SphTree.tree (self s') = SphTree.tree (self s).
Proof.
  intros Hb Hnz Hr1 Hr2 Hrange Hfull.
  unfold unpack_proc, read_int, set_N_imported, the_tree.
  unfold bind at 1. rewrite Hb. cbn [defined ret].
  rewrite decide_False by exact Hnz.
  unfold bind at 1. unfold bind at 1. rewrite Hr1. cbn [defined ret].
  unfold bind at 1. unfold bind at 1. unfold bind at 1. unfold gets at 1.
  unfold zset. rewrite decide_True by exact Hrange. cbn [defined ret].
  unfold on_self, modify.
  unfold bind at 1. unfold bind at 1. rewrite Hr2. cbn [defined ret].
  unfold bind at 1. unfold gets at 1.
  unfold bind at 1. unfold gets at 1.
  cbn [self sph SphTree.tree SphTree.set_N_imported_part_per_proc].
  unfold bind at 1.
  destruct (decide (Sph.Ntot (sph s) + int_of_bytes bs1 > Sph.Nsphmax (sph s)))
    as [H1|H1].
  { eexists _, _. split; [reflexivity|]. split; [left; reflexivity|].
    split; reflexivity. }
  unfold ret at 1. unfold bind at 1.
  destruct (decide (Tree.Ncelltot (SphTree.tree (self s)) + int_of_bytes bs2
                    > Tree.Ncellmax (SphTree.tree (self s)))) as [H2|H2].
  { eexists _, _. split; [reflexivity|]. split; [right; reflexivity|].
    split; reflexivity. }
  exfalso. destruct Hfull; contradiction.
Qed.

(** C7.  Running out of room ends the run.  A ghost search (over a tree
    whose walk ends, in a box with an edge that is not open) leaves
    [Ntot = Nsph + Nghost], and it raises exactly when that total exceeds
    [Nsphmax].  [UnpackExported], when the peers before [Nproc] were
    accepted and the header of peer [Nproc] asks for more particles than
    [Nsphmax] or more cells than [Ncellmax] leaves room for, raises, and
    the particle store and the tree are then as the peers before left
    them: nothing of that peer's payload was copied. *)
Theorem capacity_exhaustion_raises :
  (forall (tghost : FLOAT) (simbox : DomainBox.t FLOAT) (fuel n : nat)
          (ndim : Z) (s : State FLOAT),
     tree_ok n (SphTree.tree (self s)) -> (n < fuel)%nat ->
     x_open simbox && y_open simbox && z_open simbox = false ->
     exists s',
       Sph.Ntot (sph s') = Sph.Nsph (sph s') + Sph.Nghost (sph s') /\
       Sph.Nsphmax (sph s') = Sph.Nsphmax (sph s) /\
       ((Sph.Ntot (sph s') > Sph.Nsphmax (sph s') /\
         SearchBoundaryGhostParticles fuel ndim tghost simbox s
         = Abort "Not enough memory for ghost particles" s') \/
        (Sph.Ntot (sph s') <= Sph.Nsphmax (sph s') /\
         SearchBoundaryGhostParticles fuel ndim tghost simbox s = Done tt s')))
  /\
  (forall (received_array : list byte) (Nbytes : list Z)
          (Nproc offset Nrb : Z) (bs1 bs2 : list byte) (r r0 r1 : State FLOAT),
     unpack_begin Nbytes r = Done tt r0 ->
     fold_each (seqZ 0 Nproc) (unpack_proc received_array Nbytes) 0 r0
       = Done offset r1 ->
     zget Nbytes Nproc = Some Nrb -> Nrb <> 0 ->
     read_at received_array offset sizeof_int = Some bs1 ->
     read_at received_array (offset + Z.of_nat sizeof_int) sizeof_int
       = Some bs2 ->
     Sph.Ntot (sph r1) + int_of_bytes bs1 > Sph.Nsphmax (sph r1) \/
     Tree.Ncelltot (SphTree.tree (self r1)) + int_of_bytes bs2
       > Tree.Ncellmax (SphTree.tree (self r1)) ->
     exists msg r',
       UnpackExported received_array Nbytes r = Abort msg r' /\
       (msg = "Error while receiving imported particles: not enough memory!" \/
        msg = "Error while receiving imported cells: not enough memory!") /\
       sph r' = sph r1 /\ SphTree.tree (self r') = SphTree.tree (self r1)).
Proof.
  split.
  - intros tghost simbox fuel n ndim s Hok Hfuel Hopen.
    destruct (SearchBoundaryGhostParticles_run tghost simbox fuel n ndim s
                Hok Hfuel Hopen) as (lx & ly & lz & Hrun).
    cbv zeta in Hrun.
    match type of Hrun with
    | _ = if decide (Sph.Nsph _ + Sph.Nghost ?final > _) then _ else _ =>
        pose proof (replay_frame tghost simbox
                      (search_calls tghost simbox ndim (sph s) lx ly lz)
                      (reset_ghost_counters (sph s))) as [HN HM];
        unfold search_calls in HN, HM; cbv zeta in HN, HM;
        cbn [reset_ghost_counters Sph.Nsph Sph.Nsphmax Sph.set_Ntot
             Sph.set_Nghostmax Sph.set_Nmpighost Sph.set_NPeriodicGhost
             Sph.set_Nghost] in HN, HM
    end.
    destruct (decide (_ > _)) as [Hgt|Hle].
    + eexists. split; [|split; [|left; split; [|exact Hrun]]]; cbn.
      * rewrite HN. reflexivity.
      * exact HM.
      * rewrite HM. exact Hgt.
    + eexists. split; [|split; [|right; split; [|exact Hrun]]]; cbn.
      * rewrite HN. reflexivity.
      * exact HM.
      * rewrite HM. lia.
  - intros received_array Nbytes Nproc offset Nrb bs1 bs2 r r0 r1
      Hbegin Hprefix Hb Hnz Hr1 Hr2 Hfull.
    pose proof (zget_spec _ _ _ Hb) as [HNproc Hlook].
    apply lookup_lt_Some in Hlook.
    pose proof (unpack_begin_done Nbytes r r0 Hbegin) as (Hlen & _).
    assert (Hlen1 : length (SphTree.N_imported_part_per_proc (self r1))
                    = length Nbytes).
    { rewrite <- (Z2Nat.id Nproc) in Hprefix by exact HNproc.
      apply unpack_fold_counters in Hprefix as (R0 & _); [|lia].
      cbv zeta in R0. rewrite R0. exact Hlen. }
    destruct (unpack_proc_raises received_array Nbytes Nproc offset Nrb bs1 bs2
                r1 Hb Hnz Hr1 Hr2 ltac:(lia) Hfull)
      as (msg & r' & Hraise & Hmsg & Hsph & Htree).
    exists msg, r'. split; [|split; [exact Hmsg|split; assumption]].
    unfold UnpackExported. rewrite (bind_done _ _ _ _ _ Hbegin).
    replace (Z.of_nat (length Nbytes))
      with (Nproc + (Z.of_nat (length Nbytes) - Nproc)) by lia.
    rewrite seqZ_app by lia. rewrite Z.add_0_l.
    rewrite (seqZ_cons Nproc) by lia.
    apply bind_abort. rewrite fold_each_app.
    rewrite (bind_done _ _ _ _ _ Hprefix). cbn [fold_each].
    apply bind_abort. exact Hraise.
Qed.

End CapacityFacts.

Section CapacityExample.
Import Worked.
#[local] Existing Instances ZFloat ZTree ZLayout.

Lemma corner_tree_ok : tree_ok 2 corner_tree.
Proof.
  split; [cbn; lia|]. split; [cbn; lia|].
  intros c cell Hc Hcell. cbn in Hc.
  assert (c = 0) as -> by lia.
  cbn in Hcell. injection Hcell as <-. split; [cbn; lia|].
  intros _ _. cbn. right. right. exists 1. split; [reflexivity|].
  right. left. reflexivity.
Qed.

(** The corner particle needs three ghosts: with room for four particles
    the search raises.  A rank with room for three particles receives a
    message of two: the import raises with its particle store and tree
    untouched. *)
Lemma capacity_exhaustion_raises_witness :
  (exists s',
     Sph.Ntot (sph s') = Sph.Nsph (sph s') + Sph.Nghost (sph s') /\
     Sph.Nsphmax (sph s') = Sph.Nsphmax (sph (corner_state 4)) /\
     ((Sph.Ntot (sph s') > Sph.Nsphmax (sph s') /\
       SearchBoundaryGhostParticles 5 3 1 corner_box (corner_state 4)
       = Abort "Not enough memory for ghost particles" s') \/
      (Sph.Ntot (sph s') <= Sph.Nsphmax (sph s') /\
       SearchBoundaryGhostParticles 5 3 1 corner_box (corner_state 4)
       = Done tt s')))
  /\
  (exists msg r',
     UnpackExported export_message [320] (import_state 3) = Abort msg r' /\
     (msg = "Error while receiving imported particles: not enough memory!" \/
      msg = "Error while receiving imported cells: not enough memory!") /\
     sph r' = sph (import_state 3) /\
     SphTree.tree (self r') = SphTree.tree (self (import_state 3))).
Proof.
  destruct (@capacity_exhaustion_raises Z ZFloat ZTree ZLayout) as [HA HB].
  split.
  - apply (HA 1 corner_box 5%nat 2%nat 3 (corner_state 4));
      [exact corner_tree_ok | lia | reflexivity].
  - set (r0 := state_of (unpack_begin [320] (import_state 3)) (import_state 3)).
    destruct (HB export_message [320] 0 0 320 (bytes_of_Z 2) (bytes_of_Z 2)
                (import_state 3) r0 r0)
      as (msg & r' & Hrun & Hmsg & Hsph & Htree);
      [ vm_compute; reflexivity | reflexivity | reflexivity | lia
      | vm_compute; reflexivity | vm_compute; reflexivity
      | left; vm_compute; reflexivity | ].
    exists msg, r'. split; [exact Hrun|]. split; [exact Hmsg|].
    split; [rewrite Hsph | rewrite Htree]; reflexivity.
Defined.

End CapacityExample.

Section GhostExample.
Import Worked.
#[local] Existing Instances ZFloat ZTree ZLayout.


(** In the corner example the x pass makes the ghost 2 of particle 0; the y
    pass makes the ghost 3 of particle 0 and, by its direct scan of ghost 2,
    the corner image 4 at (10, 10, 5). *)
Example corner_image_by_direct_scan :
  let s' := state_of (SearchBoundaryGhostParticles 5 3 1 corner_box
                        (corner_state 8)) (corner_state 8) in
  calls s' = [CallCheckBoundaryGhostParticle 0 0;
              CallCheckBoundaryGhostParticle 0 1;
              CallCheckBoundaryGhostParticle 1 0;
              CallCheckBoundaryGhostParticle 1 1;
              CallCheckBoundaryGhostParticle 1 2] /\
  Particle.r <$> take 5 (Sph.sphdata (sph s'))
  = [[0; 0; 5]; [5; 5; 5]; [10; 0; 5]; [0; 10; 5]; [10; 10; 5]].
Proof. vm_compute. split; reflexivity. Qed.

End GhostExample.

(** ** Byte buffers *)

Section BufferFacts.

(** A write just after [pre] replaces the bytes that follow it. *)
Lemma write_at_after (pre rest data b : list byte) (off : Z) :
  off = Z.of_nat (length pre) ->
  write_at (pre ++ rest) off data = Some b ->
  (length data <= length rest)%nat /\
  b = pre ++ data ++ drop (length data) rest.
Proof.
  intros -> Hw. unfold write_at in Hw.
  destruct (decide _) as [[_ Hfit]|]; [|discriminate].
  injection Hw as <-. rewrite length_app in Hfit.
  split; [lia|].
  rewrite Nat2Z.id, take_app_length.
  rewrite drop_app_add' by reflexivity. reflexivity.
Qed.

Lemma write_at_fits (v data b : list byte) (off : Z) :
  write_at v off data = Some b ->
  0 <= off /\ off + Z.of_nat (length data) <= Z.of_nat (length v).
Proof.
  unfold write_at. destruct (decide _) as [Hin|]; [|discriminate].
  intros _. exact Hin.
Qed.

Lemma length_resize_buffer (n : nat) (v : list byte) :
  length (resize_buffer n v) = n.
Proof.
  unfold resize_buffer. rewrite length_app, length_take, length_replicate. lia.
Qed.

Lemma length_concat_records {A} (f : A -> list byte) (size : nat) (l : list A) :
  (forall x, length (f x) = size) ->
  length (concat (f <$> l)) = (length l * size)%nat.
Proof.
  intros Hf. induction l as [|x l IH]; cbn; [reflexivity|].
  rewrite length_app, Hf, IH. reflexivity.
Qed.

End BufferFacts.

(** ** SphTree.cpp: the payload of GetBackExportInfo *)

Section PayloadFacts.
Context {FLOAT : Type} `{!FloatOps FLOAT} `{!TreeOps FLOAT} `{!Layout FLOAT}
  `{!LayoutLaws FLOAT}.

(** The copy loop of one peer writes the records of [n] consecutive
    particles, whole, one after the other. *)
Lemma back_particles_written (removed : Z) (n : nat) :
  forall (start j : Z) (buf pre rest : list byte) (acc' : Z * list byte)
         (s s' : State FLOAT),
    fold_each (seqZ start (Z.of_nat n)) (back_particle removed) (j, buf) s
      = Done acc' s' ->
    buf = pre ++ rest ->
    Z.of_nat (length pre) = (removed + j) * Z.of_nat sizeof_part ->
    let ps := take n (drop (Z.to_nat start) (Sph.sphdata (sph s))) in
    (n = 0%nat \/ 0 <= start) /\
    length ps = n /\
    (n * sizeof_part <= length rest)%nat /\
    acc' = (j + Z.of_nat n,
            pre ++ concat (bytes_of_part <$> ps)
              ++ drop (n * sizeof_part) rest).
Proof.
  induction n as [|n IH]; intros start j buf pre rest acc' s s' Hrun -> Hpre.
  - cbn in Hrun. run_inj Hrun. cbn. rewrite Z.add_0_r, drop_0.
    repeat split; [left; reflexivity | lia].
  - rewrite seqZ_succ in Hrun. cbn [fold_each] in Hrun.
    apply bind_inv_done in Hrun as ([j1 buf1] & s1 & Hstep & Hrest).
    pose proof (back_particle_state _ _ _ _ _ _ Hstep) as ->.
    unfold back_particle in Hstep. run_inv Hstep.
    match goal with
    | H : zget _ start = Some ?p |- _ =>
        apply zget_spec in H as [Hstart Hp]; set (p0 := p) in *
    end.
    match goal with
    | H : write_at _ _ _ = Some _ |- _ =>
        apply write_at_after in H as [Hfit ->]; [|lia]
    end.
    rewrite length_bytes_of_part in Hfit.
    rewrite app_assoc in Hrest.
    eapply IH in Hrest; [|reflexivity|].
    2:{ rewrite length_app, length_bytes_of_part. lia. }
    destruct Hrest as (_ & Hlen & Hfit' & ->). cbv zeta.
    rewrite length_drop, length_bytes_of_part in Hfit'.
    replace (Z.to_nat (start + 1)) with (S (Z.to_nat start)) in * by lia.
    rewrite (drop_S _ _ _ Hp). cbn [take fmap list_fmap concat length].
    split; [right; exact Hstart|]. split; [rewrite Hlen; reflexivity|].
    split; [lia|]. f_equal; [lia|].
    rewrite <- !app_assoc. f_equal. f_equal. f_equal.
    rewrite drop_drop, length_bytes_of_part. f_equal; lia.
Qed.

(** The loop over the peers [k], ..., [k+n-1]: the buffer holds, whole and
    in index order, the records of the particles taken out so far. *)
Lemma back_fold_written (n : nat) :
  forall (k : Z) (loc loc' : BackLocals) (s s' : State FLOAT)
         (rest : list byte),
    0 <= k ->
    fold_each (seqZ k (Z.of_nat n)) back_proc loc s = Done loc' s' ->
    let base := Sph.Nsph (sph s) + Sph.Nghost (sph s) in
    let written r :=
      concat (bytes_of_part
                <$> take (Z.to_nat r) (drop (Z.to_nat base) (Sph.sphdata (sph s)))) in
    0 <= removed_particles loc ->
    (removed_particles loc = 0 \/ 0 <= base) ->
    Z.of_nat (length (written (removed_particles loc)))
      = removed_particles loc * Z.of_nat sizeof_part ->
    send_buffer loc = written (removed_particles loc) ++ rest ->
    exists rest',
      0 <= removed_particles loc' /\
      Z.of_nat (length (written (removed_particles loc')))
        = removed_particles loc' * Z.of_nat sizeof_part /\
      send_buffer loc' = written (removed_particles loc') ++ rest'.
Proof.
  induction n as [|n IH];
    intros k loc loc' s s' rest Hk Hrun base written Hpos Hbase Hlen Hbuf;
    subst written; cbv beta in *.
  - cbn in Hrun. run_inj Hrun. exists rest. repeat split; assumption.
  - rewrite seqZ_succ in Hrun. cbn [fold_each] in Hrun.
    apply bind_inv_done in Hrun as (loc1 & s1 & Hstep & Hrest).
    pose proof (back_proc_counters _ _ _ _ _ Hstep)
      as (N & _ & _ & S1 & S2 & _ & _ & S5).
    unfold back_proc in Hstep. run_inv Hstep.
    match goal with
    | H : fold_each _ _ _ s = Done ?jb ?s2 |- _ =>
        pose proof H as Hsame;
        apply (fold_each_keeps (fun x => x = s)) in Hsame;
          [subst s2 | | reflexivity];
        rename H into Hcopy
    end.
    2:{ intros ? ? ? ? ? -> Hbody. apply (back_particle_state _ _ _ _ _ _ Hbody). }
    match goal with
    | H : zget (SphTree.N_imported_part_per_proc _) k = Some ?N0 |- _ =>
        set (Np := N0) in *
    end.
    assert (HNp : 0 <= Np).
    { match goal with
      | H : _.1 = Np |- _ => rewrite <- H
      end.
      destruct (Z.le_gt_cases 0 Np) as [?|Hneg]; [|exfalso].
      - rewrite <- (Z2Nat.id Np) in Hcopy by assumption.
        eapply back_particles_written in Hcopy; [|exact Hbuf|lia].
        destruct Hcopy as (_ & _ & _ & ->). cbn. lia.
      - replace (seqZ _ Np) with (@nil Z) in Hcopy.
        2:{ symmetry. apply length_zero_iff_nil. rewrite length_seqZ. lia. }
        cbn in Hcopy. run_inj Hcopy. cbn in *. lia. }
    rewrite <- (Z2Nat.id Np) in Hcopy by assumption.
    eapply back_particles_written in Hcopy; [|exact Hbuf|lia].
    destruct Hcopy as (Hstart & Hplen & Hfit & ->). cbn [fst snd] in *.
    eapply (IH _ _ _ _ _ (drop (Z.to_nat Np * sizeof_part) rest)) in Hrest;
      [|lia|cbn; lia|cbn|cbn|cbn].
    + cbn in Hrest. exact Hrest.
    + destruct Hstart as [Hz|Hs]; [|right; lia].
      destruct Hbase as [H0|?]; [|right; assumption]. left. lia.
    + rewrite length_concat_records with (size := sizeof_part)
        by apply length_bytes_of_part.
      rewrite length_take, length_drop.
      rewrite length_concat_records with (size := sizeof_part) in Hlen
        by apply length_bytes_of_part.
      rewrite length_take, length_drop in Hlen, Hplen.
      fold base in Hplen |- *. nia.
    + rewrite app_assoc. f_equal.
      rewrite <- concat_app, <- fmap_app. f_equal. f_equal.
      assert (Hb : removed_particles loc = 0 /\ Np = 0 \/ 0 <= base).
      { destruct Hbase as [H0|?]; [|right; assumption].
        destruct Hstart as [Hz|Hs]; [left; split; lia | right; fold base in Hs; lia]. }
      destruct Hb as [[H0 HN0]|Hb0].
      * rewrite H0, HN0. reflexivity.
      * fold base.
        replace (Z.to_nat (base + removed_particles loc))
          with (Z.to_nat base + Z.to_nat (removed_particles loc))%nat by lia.
        rewrite <- drop_drop, take_take_drop. f_equal. lia.
Qed.

(** X2.  The buffer that [GetBackExportInfo] packs is the
    whole record, all [sizeof(ParticleType)] bytes of it, of every imported
    particle, in index order: the order in which [UnpackExported] stored
    them. *)
Theorem GetBackExportInfo_packs_whole_records (send_buffer0 : list byte)
    (exported0 to_each0 : list Z) (rank : Z) (loc : BackLocals)
    (s s' : State FLOAT) :
  GetBackExportInfo send_buffer0 exported0 to_each0 rank s = Done loc s' ->
  send_buffer loc = concat (bytes_of_part <$> imported_particles (sph s)) /\
  Z.of_nat (length (send_buffer loc))
    = Sph.NImportedParticles (sph s) * Z.of_nat sizeof_part.
Proof.
  intros Hrun.
  pose proof (GetBackExportInfo_counters _ _ _ _ _ _ _ Hrun)
    as (_ & _ & _ & _ & G5 & _).
  unfold GetBackExportInfo in Hrun.
  apply bind_inv_done in Hrun as (t & s1 & Hself & Hrun). run_inv Hself.
  apply bind_inv_done in Hrun as (s0 & s1 & Hsph & Hrun). run_inv Hsph.
  apply bind_inv_done in Hrun as ([] & s1 & Hsize & Hrun). run_inv Hsize.
  apply bind_inv_done in Hrun as (loc1 & s1 & Hloop & Hrun).
  pose proof (back_fold_counters _ 0 _ _ _ _ ltac:(lia) Hloop)
    as (_ & _ & _ & _ & R4 & R5).
  eapply back_fold_written in Hloop; [|lia|cbn; lia|left; reflexivity|cbn|cbn].
  2:{ reflexivity. }
  2:{ reflexivity. }
  destruct Hloop as (rest' & Hpos & Hlen & Hbuf).
  run_inv Hrun. cbn in G5.
  cbv zeta in R4, R5. cbn [removed_particles] in R5.
  assert (Hall : removed_particles loc1 = Sph.NImportedParticles (sph s)) by lia.
  match goal with
  | H : Z.of_nat (length (send_buffer loc1)) = _ |- _ => rename H into Hfull
  end.
  rewrite Hbuf, length_app in Hfull.
  assert (rest' = []) as -> by (apply length_zero_iff_nil; lia).
  rewrite app_nil_r in Hbuf. rewrite Hbuf. rewrite Hall in *. split.
  - reflexivity.
  - exact Hlen.
Qed.

End PayloadFacts.

(** ** SphTree.cpp: the message of GetExportInfo *)

Section ExportFacts.
Context {FLOAT : Type} `{!FloatOps FLOAT} `{!TreeOps FLOAT} `{!Layout FLOAT}
  `{!LayoutLaws FLOAT}.
Variable (Nproc : Z).

Lemma export_particle_step (ip offset offset' : Z) (buf buf' : list byte)
    (s s' : State FLOAT) :
  export_particle Nproc ip (offset, buf) s = Done (offset', buf') s' ->
  SphTree.tree (self s') = SphTree.tree (self s) /\ sph s' = sph s /\
  exists p,
    zget (Sph.sphdata (sph s)) ip = Some p /\
    offset' = offset + Z.of_nat sizeof_part /\
    write_at buf offset (bytes_of_part p) = Some buf'.
Proof.
  unfold export_particle. intros Hrun. run_inv Hrun. cbn.
  split; [reflexivity|]. split; [reflexivity|].
  eexists. split; [eassumption|]. split; [reflexivity | assumption].
Qed.

(** The loop over the active particles of one cell. *)
Lemma export_particles_written (active : list Z) :
  forall (offset : Z) (buf pre rest : list byte) (ob : Z * list byte)
         (s s' : State FLOAT),
    fold_each active (export_particle Nproc) (offset, buf) s = Done ob s' ->
    buf = pre ++ rest -> offset = Z.of_nat (length pre) ->
    SphTree.tree (self s') = SphTree.tree (self s) /\ sph s' = sph s /\
    exists ps,
      Forall2 (fun ip p => zget (Sph.sphdata (sph s)) ip = Some p) active ps /\
      (length ps * sizeof_part <= length rest)%nat /\
      ob = (offset + Z.of_nat (length ps * sizeof_part),
            pre ++ concat (bytes_of_part <$> ps)
              ++ drop (length ps * sizeof_part) rest).
Proof.
  induction active as [|ip active IH];
    intros offset buf pre rest ob s s' Hrun -> ->.
  - cbn in Hrun. run_inj Hrun. split; [reflexivity|]. split; [reflexivity|].
    exists []. split; [constructor|]. cbn. split; [lia|].
    rewrite Z.add_0_r, drop_0. reflexivity.
  - cbn [fold_each] in Hrun.
    apply bind_inv_done in Hrun as ([off1 buf1] & s1 & Hstep & Hrest).
    apply export_particle_step in Hstep as (T1 & S1 & p & Hp & -> & Hw).
    apply write_at_after in Hw as [Hfit ->]; [|reflexivity].
    rewrite length_bytes_of_part in Hfit.
    rewrite app_assoc in Hrest.
    eapply IH in Hrest; [|reflexivity|].
    2:{ rewrite length_app, length_bytes_of_part. lia. }
    destruct Hrest as (T2 & S2 & ps & Hps & Hfit' & ->).
    rewrite length_drop, length_bytes_of_part in Hfit'.
    split; [congruence|]. split; [congruence|].
    exists (p :: ps). split; [|split].
    + constructor; [exact Hp|]. rewrite <- S1. exact Hps.
    + cbn [length]. lia.
    + cbn [length fmap list_fmap concat]. f_equal; [lia|].
      rewrite <- !app_assoc. f_equal. f_equal. f_equal.
      rewrite drop_drop, length_bytes_of_part. f_equal; lia.
Qed.

(** One exported cell: its record, renumbered, then the records of its
    active particles. *)
Lemma export_cell_written (celllist : list Z) (i offset exported : Z)
    (buf pre rest : list byte) (acc' : Z * Z * list byte) (s s' : State FLOAT) :
  export_cell Nproc celllist i (offset, exported, buf) s = Done acc' s' ->
  buf = pre ++ rest -> offset = Z.of_nat (length pre) ->
  SphTree.tree (self s') = SphTree.tree (self s) /\ sph s' = sph s /\
  exists ci cell ps,
    zget celllist i = Some ci /\
    zget (Tree.celldata (SphTree.tree (self s))) ci = Some cell /\
    Forall2 (fun ip p => zget (Sph.sphdata (sph s)) ip = Some p)
      (tree_ComputeActiveParticleList cell (Sph.sphdata (sph s))
         (SphTree.tree (self s))) ps /\
    let record :=
      cell_with_particles
        (TreeCell.set_ilast (exported + Z.of_nat (length ps) - 1)
           (TreeCell.set_ifirst exported cell)) ps in
    (length record <= length rest)%nat /\
    acc' = (offset + Z.of_nat (length record),
            exported + Z.of_nat (length ps),
            pre ++ record ++ drop (length record) rest).
Proof.
  unfold export_cell. intros Hrun -> ->.
  apply bind_inv_done in Hrun as (t & s1 & Ht & Hrun). run_inv Ht.
  apply bind_inv_done in Hrun as (sp & s1 & Hs & Hrun). run_inv Hs.
  apply bind_inv_done in Hrun as (ci & s1 & Hci & Hrun). run_inv Hci.
  apply bind_inv_done in Hrun as (cell & s1 & Hcell & Hrun). run_inv Hcell.
  apply bind_inv_done in Hrun as (buf1 & s1 & Hw1 & Hrun). run_inv Hw1.
  apply bind_inv_done in Hrun as (buf2 & s1 & Hw2 & Hrun). run_inv Hw2.
  apply bind_inv_done in Hrun as (ob & s1 & Hloop & Hrun). run_inv Hrun.
  match goal with
  | H : write_at (pre ++ rest) _ _ = Some _ |- _ =>
      apply write_at_after in H as [Hfit1 ->]; [|reflexivity]
  end.
  match goal with
  | H : write_at _ _ _ = Some _ |- _ =>
      apply write_at_after in H as [Hfit2 ->]; [|reflexivity]
  end.
  rewrite !length_bytes_of_cell in *.
  rewrite drop_app_length' in Hloop
    by (symmetry; apply length_bytes_of_cell).
  rewrite app_assoc in Hloop.
  eapply export_particles_written in Hloop; [|reflexivity|].
  2:{ rewrite length_app, length_bytes_of_cell. lia. }
  destruct Hloop as (T1 & S1 & ps & Hps & Hfit & ->).
  rewrite length_drop in Hfit.
  split; [exact T1|]. split; [exact S1|].
  exists ci, cell, ps. split; [assumption|]. split; [assumption|].
  apply Forall2_length in Hps as Hlen. rewrite Hlen.
  split; [exact Hps|]. cbv zeta. unfold cell_with_particles.
  rewrite length_app, length_bytes_of_cell.
  rewrite length_concat_records with (size := sizeof_part)
    by apply length_bytes_of_part.
  split; [lia|]. cbn [fst snd]. f_equal; [f_equal; lia|].
  rewrite <- !app_assoc. f_equal. f_equal. f_equal.
  rewrite drop_drop. f_equal; lia.
Qed.

(** The loop over the cells [k], ..., [k+n-1] of the export list. *)
Lemma export_cells_written (celllist : list Z) (n : nat) :
  forall (k offset exported : Z) (buf pre rest : list byte)
         (acc' : Z * Z * list byte) (s s' : State FLOAT),
    fold_each (seqZ k (Z.of_nat n)) (export_cell Nproc celllist)
      (offset, exported, buf) s = Done acc' s' ->
    buf = pre ++ rest -> offset = Z.of_nat (length pre) ->
    exists records,
      length records = n /\
      export_records_ok (SphTree.tree (self s)) (Sph.sphdata (sph s))
        celllist k exported records /\
      (length (records_bytes records) <= length rest)%nat /\
      acc' = (offset + Z.of_nat (length (records_bytes records)),
              exported + particle_count records,
              pre ++ records_bytes records
                ++ drop (length (records_bytes records)) rest).
Proof.
  induction n as [|n IH];
    intros k offset exported buf pre rest acc' s s' Hrun -> ->.
  - cbn in Hrun. run_inj Hrun. exists []. cbn.
    rewrite !Z.add_0_r, drop_0. repeat split. lia.
  - rewrite seqZ_succ in Hrun. cbn [fold_each] in Hrun.
    apply bind_inv_done in Hrun as ([[off1 exp1] buf1] & s1 & Hstep & Hrest).
    eapply export_cell_written in Hstep; [|reflexivity..].
    destruct Hstep as (T1 & S1 & ci & cell & ps & Hci & Hcell & Hps & Hfit & Hacc).
    cbv zeta in Hfit, Hacc. injection Hacc as -> -> ->.
    rewrite app_assoc in Hrest.
    eapply IH in Hrest; [|reflexivity|].
    2:{ rewrite length_app. lia. }
    destruct Hrest as (records & Hlen & Hok & Hfit' & ->).
    rewrite length_drop in Hfit'. rewrite T1, S1 in Hok.
    eexists ((_, ps) :: records). split; [cbn; rewrite Hlen; reflexivity|].
    split.
    { cbn [export_records_ok]. split; [|exact Hok].
      exists ci, cell. repeat split; assumption. }
    unfold records_bytes in *. cbn [fmap list_fmap concat fst snd].
    rewrite length_app. split; [lia|].
    unfold particle_count. cbn [fmap list_fmap sumZ foldr snd].
    fold (sumZ ((fun r : TreeCell.t FLOAT * list (Particle.t FLOAT) =>
                   Z.of_nat (length r.2)) <$> records)).
    f_equal; [f_equal; lia|].
    rewrite <- !app_assoc. f_equal. f_equal. f_equal.
    rewrite drop_drop. f_equal; lia.
Qed.

Lemma resize_buffer_grow (n : nat) (v : list byte) :
  (length v <= n)%nat ->
  resize_buffer n v = v ++ replicate (n - length v) x00.
Proof. intros Hn. unfold resize_buffer. rewrite take_ge by exact Hn. reflexivity. Qed.

Lemma length_records_bytes
    (records : list (TreeCell.t FLOAT * list (Particle.t FLOAT))) :
  Z.of_nat (length (records_bytes records))
  = Z.of_nat (length records) * Z.of_nat sizeof_cell
    + particle_count records * Z.of_nat sizeof_part.
Proof.
  unfold records_bytes, particle_count.
  induction records as [|[c ps] records IH]; [reflexivity|].
  cbn [fmap list_fmap concat length sumZ foldr fst snd].
  fold (sumZ ((fun r : TreeCell.t FLOAT * list (Particle.t FLOAT) =>
                 Z.of_nat (length r.2)) <$> records)).
  rewrite length_app. unfold cell_with_particles at 1.
  rewrite length_app, length_bytes_of_cell.
  rewrite length_concat_records with (size := sizeof_part)
    by apply length_bytes_of_part.
  lia.
Qed.

(** X1.  The message [GetExportInfo] appends for a peer is
    the header of two ints, the particle count then the cell count, and
    after it, for each exported cell in the order of the export list, the
    record of the cell immediately followed by the records of the active
    particles of that cell.  The cell count is the number of such groups,
    the particle count the number of particle records, and the value
    returned the number of bytes appended. *)
Theorem GetExportInfo_message_layout (send_buffer0 : list byte) (n : Z)
    (buf : list byte) (s s' : State FLOAT) :
  GetExportInfo Nproc send_buffer0 s = Done (n, buf) s' ->
  exists celllist cactive Nactive records,
    zget (SphTree.cellexportlist (self s)) Nproc = Some celllist /\
    zget (SphTree.Ncellexport (self s)) Nproc = Some cactive /\
    zget (SphTree.Npartexport (self s)) Nproc = Some Nactive /\
    length records = Z.to_nat cactive /\
    particle_count records = Nactive /\
    export_records_ok (SphTree.tree (self s)) (Sph.sphdata (sph s))
      celllist 0 0 records /\
    buf = send_buffer0 ++ bytes_of_int Nactive ++ bytes_of_int cactive
            ++ records_bytes records /\
    n = Z.of_nat (length buf) - Z.of_nat (length send_buffer0).
Proof.
  unfold GetExportInfo. intros Hrun.
  apply bind_inv_done in Hrun as (t & s1 & Ht & Hrun). run_inv Ht.
  apply bind_inv_done in Hrun as ([] & s1 & Has & Hrun). run_inv Has.
  apply bind_inv_done in Hrun as (celllist & s1 & Hcl & Hrun). run_inv Hcl.
  apply bind_inv_done in Hrun as (cactive & s1 & Hca & Hrun). run_inv Hca.
  apply bind_inv_done in Hrun as (Nactive & s1 & Hna & Hrun). run_inv Hna.
  apply bind_inv_done in Hrun as ([] & s1 & Hsz & Hrun). run_inv Hsz.
  apply bind_inv_done in Hrun as (buf1 & s1 & Hw1 & Hrun). run_inv Hw1.
  apply bind_inv_done in Hrun as (buf2 & s1 & Hw2 & Hrun). run_inv Hw2.
  apply bind_inv_done in Hrun as ([] & s1 & Hids & Hrun). run_inv Hids.
  apply bind_inv_done in Hrun as ([[offset exported] bufn] & s1 & Hloop & Hrun).
  run_inv Hrun.
  set (old := length send_buffer0) in *.
  set (new_size := Nactive * Z.of_nat sizeof_part
                   + cactive * Z.of_nat sizeof_cell + 2 * Z.of_nat sizeof_int
                   + Z.of_nat old) in *.
  match goal with
  | H : write_at (resize_buffer _ _) _ _ = Some _ |- _ => rename H into Hw1
  end.
  pose proof Hw1 as Hgrow.
  assert (Hgrow' : (old + sizeof_int <= Z.to_nat new_size)%nat).
  { apply write_at_fits in Hgrow as [_ Hin].
    rewrite length_resize_buffer, length_bytes_of_int in Hin. lia. }
  clear Hgrow.
  rewrite resize_buffer_grow in Hw1 by (fold old; lia).
  fold old in Hw1.
  apply write_at_after in Hw1 as [Hfit1 ->]; [|reflexivity].
  match goal with
  | H : write_at _ _ _ = Some _ |- _ => rename H into Hw2
  end.
  rewrite app_assoc in Hw2.
  apply write_at_after in Hw2 as [Hfit2 ->].
  2:{ rewrite length_app, length_bytes_of_int. fold old. lia. }
  rewrite app_assoc in Hloop.
  rewrite (seqZ_to_nat 0 cactive) in Hloop.
  eapply export_cells_written in Hloop; [|reflexivity|].
  2:{ rewrite !length_app, !length_bytes_of_int. fold old.
      unfold sizeof_int. lia. }
  destruct Hloop as (records & Hlen & Hok & Hfit & Hacc).
  injection Hacc as -> -> ->.
  exists celllist, cactive, Nactive, records.
  rewrite !length_bytes_of_int in *.
  rewrite !length_drop, length_replicate in Hfit.
  match goal with
  | H : _ = Z.of_nat (length _) |- _ => rename H into Hend
  end.
  rewrite !length_app, !length_bytes_of_int, !length_drop, length_replicate
    in Hend.
  fold old in Hend.
  assert (Hnil : drop (length (records_bytes records))
                   (drop sizeof_int
                      (drop sizeof_int
                         (replicate (Z.to_nat new_size - old) x00))) = []).
  { apply length_zero_iff_nil. rewrite !length_drop, length_replicate. lia. }
  rewrite Hnil, app_nil_r.
  pose proof (length_records_bytes records) as Hrec.
  do 3 (split; [assumption|]). split; [exact Hlen|].
  split; [lia|]. split; [exact Hok|]. split.
  - rewrite <- !app_assoc. reflexivity.
  - rewrite !length_app, !length_bytes_of_int.
    rewrite length_drop, length_replicate in Hfit2.
    subst new_size old. unfold sizeof_int in *.
    rewrite Hlen in Hrec.
    replace (particle_count records) with Nactive in Hrec by lia.
    destruct (Z.le_gt_cases 0 cactive) as [Hpos|Hneg].
    + rewrite Z2Nat.id in Hrec by exact Hpos. lia.
    + replace (Z.to_nat cactive) with 0%nat in Hrec by lia.
      assert (cactive * Z.of_nat sizeof_cell <= 0) by nia. lia.
Qed.

End ExportFacts.

(** ** The export of two cells, [Worked.export_state] *)

Section ExportExample.
Import Worked.
#[local] Existing Instances ZFloat ZTree ZLayout.

Lemma ZLayout_laws : LayoutLaws Z.
Proof. split; intros; reflexivity. Qed.

Lemma export_of_export_state :
  GetExportInfo 1 [] export_state
  = Done (320, export_message)
      (state_of (GetExportInfo 1 [] export_state) export_state).
Proof. vm_compute. reflexivity. Qed.

(** The message for rank 1: 320 bytes, two groups of a cell and its
    particle. *)
Lemma GetExportInfo_message_layout_witness :
  exists celllist cactive Nactive records,
    zget (SphTree.cellexportlist (self export_state)) 1 = Some celllist /\
    zget (SphTree.Ncellexport (self export_state)) 1 = Some cactive /\
    zget (SphTree.Npartexport (self export_state)) 1 = Some Nactive /\
    length records = Z.to_nat cactive /\
    particle_count records = Nactive /\
    export_records_ok (SphTree.tree (self export_state))
      (Sph.sphdata (sph export_state)) celllist 0 0 records /\
    export_message = [] ++ bytes_of_int Nactive ++ bytes_of_int cactive
                       ++ records_bytes records /\
    320 = Z.of_nat (length export_message) - Z.of_nat (length (@nil byte)).
Proof.
  exact (GetExportInfo_message_layout (LayoutLaws0 := ZLayout_laws) 1 [] 320
           export_message export_state _ export_of_export_state).
Defined.

(** C3, the claim as it stands.  In the message for rank 1 the record of
    the first cell is followed by the record of its particle, and the record
    of the second cell comes after that, at byte 164; it is not at byte 80,
    where it would be if the cell records came first.  [UnpackExported]
    reads the message the same way. *)
Example GetExportInfo_interleaves_cells_and_particles :
  (exists s',
     GetExportInfo 1 [] export_state = Done (320, export_message) s') /\
  export_message
  = bytes_of_int 2 ++ bytes_of_int 2
    ++ cell_with_particles exported_cell1 [exported_part1]
    ++ cell_with_particles exported_cell2 [exported_part2] /\
  export_message
  <> bytes_of_int 2 ++ bytes_of_int 2
     ++ cells_then_particles [exported_cell1; exported_cell2]
          [exported_part1; exported_part2] /\
  take sizeof_cell (drop 164 export_message) = bytes_of_cell exported_cell2 /\
  take sizeof_cell (drop 80 export_message) <> bytes_of_cell exported_cell2 /\
  UnpackExported export_message [320] (import_state 8) = Done tt imported_state /\
  drop 2 (imported_particles (sph imported_state)) = [] /\
  take 2 (drop 2 (Sph.sphdata (sph imported_state)))
  = [exported_part1; exported_part2].
Proof.
  split; [eexists; apply export_of_export_state|].
  vm_compute. repeat split; try reflexivity; discriminate.
Qed.

End ExportExample.

(** ** The return of the imported particles *)

Section PayloadExample.
Import Worked.
#[local] Existing Instances ZFloat ZTree ZLayout.

(** The rank that imported [export_message] returns the whole records of
    its two imported particles: 168 bytes. *)
Lemma GetBackExportInfo_packs_whole_records_witness :
  imported_particles (sph imported_state) = [exported_part1; exported_part2] /\
  exists loc s2,
    GetBackExportInfo [] [0] [0] 0 imported_state = Done loc s2 /\
    send_buffer loc
    = concat (bytes_of_part <$> imported_particles (sph imported_state)) /\
    Z.of_nat (length (send_buffer loc))
    = Sph.NImportedParticles (sph imported_state) * Z.of_nat sizeof_part.
Proof.
  split; [vm_compute; reflexivity|].
  destruct (GetBackExportInfo [] [0] [0] 0 imported_state)
    as [loc s2| | |] eqn:Hback; [|vm_compute in Hback; discriminate..].
  exists loc, s2. split; [reflexivity|].
  exact (GetBackExportInfo_packs_whole_records (LayoutLaws0 := ZLayout_laws)
           [] [0] [0] 0 loc imported_state s2 Hback).
Defined.

(** C6, the claim as it stands.  Two imported particles with the same
    result fields, but another position and another origin identifier, are
    returned as different payloads: the payload is the whole record, 84
    bytes in this layout, and the origin identifier that the origin rank
    checks is read back from it. *)
Example GetBackExportInfo_payload_beyond_result_fields :
  let p := particle_at [1; 2; 3] 7 in
  let q := particle_at [4; 5; 6] 9 in
  result_fields p = result_fields q /\
  exists lp sp lq sq,
    GetBackExportInfo [] [0] [0] 0 (holding p) = Done lp sp /\
    GetBackExportInfo [] [0] [0] 0 (holding q) = Done lq sq /\
    send_buffer lp <> send_buffer lq /\
    send_buffer lp = bytes_of_part p /\
    send_buffer lq = bytes_of_part q /\
    length (send_buffer lp) = sizeof_part /\
    Particle.iorig (part_of_bytes (send_buffer lp)) = 7 /\
    Particle.r (part_of_bytes (send_buffer lp)) = [1; 2; 3].
Proof.
  split; [reflexivity|].
  eexists _, _, _, _.
  split; [vm_compute; reflexivity|].
  split; [vm_compute; reflexivity|].
  vm_compute. repeat split; try reflexivity; discriminate.
Qed.

End PayloadExample.


(** ** UnpackReturnedExportInfo *)

Section ReturnedFacts.
Context {FLOAT : Type} `{!FloatOps FLOAT} `{!TreeOps FLOAT} `{!Layout FLOAT}.
Variable (ndim : nat).

Lemma with_sphdata_same (s : State FLOAT) :
  with_sphdata (Sph.sphdata (sph s)) s = s.
Proof. destruct s as [t [] c]. reflexivity. Qed.

Lemma with_sphdata_twice (d1 d2 : list (Particle.t FLOAT)) (s : State FLOAT) :
  with_sphdata d2 (with_sphdata d1 s) = with_sphdata d2 s.
Proof. reflexivity. Qed.

Lemma iorig_add_returned (p rp : Particle.t FLOAT) :
  Particle.iorig (add_returned ndim p rp) = Particle.iorig p.
Proof. reflexivity. Qed.

Lemma zget_lt {A} (l : list A) (j : Z) (x : A) :
  zget l j = Some x -> 0 <= j < Z.of_nat (length l).
Proof.
  unfold zget. destruct (decide (0 <= j)); [|discriminate].
  intros H. apply lookup_lt_Some in H. lia.
Qed.

(** Summing a record changes no origin identifier. *)
Lemma origin_matches_sum_record (data : list (Particle.t FLOAT))
    (jr kr : Z * Particle.t FLOAT) :
  origin_matches data kr <-> origin_matches (sum_record ndim data jr) kr.
Proof.
  unfold origin_matches, sum_record.
  destruct (zget data jr.1) as [p|] eqn:Hp; [|reflexivity].
  pose proof (zget_lt _ _ _ Hp) as Hj.
  unfold zget in *. destruct (decide (0 <= kr.1)); [|split; intros (? & [=] & _)].
  destruct (decide (0 <= jr.1)); [|discriminate].
  destruct (decide (Z.to_nat jr.1 = Z.to_nat kr.1)) as [e|ne].
  - rewrite <- e, list_lookup_insert_eq by lia. rewrite Hp. split.
    + intros (q & [= <-] & Hq). eexists. split; [reflexivity|]. exact Hq.
    + intros (q & [= <-] & Hq). eexists. split; [reflexivity|]. exact Hq.
  - rewrite list_lookup_insert_ne by exact ne. reflexivity.
Qed.

Lemma reconcile_matched (j : Z) (rp p : Particle.t FLOAT) (s : State FLOAT) :
  zget (Sph.sphdata (sph s)) j = Some p ->
  Particle.iorig p = Particle.iorig rp ->
  reconcile ndim j rp s
  = Done tt (with_sphdata (sum_record ndim (Sph.sphdata (sph s)) (j, rp)) s).
Proof.
  intros Hp Hid. pose proof (zget_lt _ _ _ Hp) as Hj.
  unfold reconcile, bind, gets, sum_record. cbn [fst snd]. rewrite Hp. cbn.
  rewrite bool_decide_eq_true_2 by exact Hid. cbn.
  unfold zset. rewrite decide_True by exact Hj. cbn. reflexivity.
Qed.

Lemma reconcile_mismatch (j : Z) (rp p : Particle.t FLOAT) (s : State FLOAT) :
  zget (Sph.sphdata (sph s)) j = Some p ->
  Particle.iorig p <> Particle.iorig rp ->
  reconcile ndim j rp s = Abort "assertion failed" s.
Proof.
  intros Hp Hid.
  unfold reconcile, bind, gets. rewrite Hp. cbn.
  rewrite bool_decide_eq_false_2 by exact Hid. reflexivity.
Qed.

(** The loop over the records of one peer reconciles them in order. *)
Lemma returned_particles_run (buf : list byte) (displ : Z) :
  forall ids i recs s,
    records_of buf displ i ids = Some recs ->
    (fold_each ids (unpack_returned_particle ndim buf displ) i ;;; ret tt) s
    = for_each recs (fun jr => reconcile ndim jr.1 jr.2) s.
Proof.
  induction ids as [|j ids IH]; intros i recs s Hrecs; cbn in Hrecs.
  - injection Hrecs as <-. reflexivity.
  - destruct (read_at buf (i * Z.of_nat sizeof_part + displ) sizeof_part)
      as [bs|] eqn:Hread; [|discriminate].
    destruct (records_of buf displ (i + 1) ids) as [rs|] eqn:Hrs; [|discriminate].
    injection Hrecs as <-.
    cbn [fold_each for_each fst snd].
    unfold unpack_returned_particle at 1. unfold bind at 1 2 3. rewrite Hread.
    cbn [defined]. unfold ret at 1. unfold bind at 1 2.
    destruct (reconcile ndim j (part_of_bytes bs) s) as [[] s1| | |];
      try reflexivity.
    cbn. exact (IH (i + 1) rs s1 Hrs).
Qed.

Lemma for_each_app {S B} (l1 l2 : list B) (body : B -> M S unit) (s : S) :
  for_each (l1 ++ l2) body s
  = (for_each l1 body ;;; for_each l2 body) s.
Proof.
  revert s. induction l1 as [|x l1 IH]; intros s; [reflexivity|].
  cbn [for_each app]. unfold bind.
  destruct (body x s) as [[] s1| | |]; try reflexivity.
  rewrite IH. reflexivity.
Qed.

Lemma reconcile_keeps_self (j : Z) (rp : Particle.t FLOAT) (s s' : State FLOAT) u :
  reconcile ndim j rp s = Done u s' -> self s' = self s.
Proof.
  unfold reconcile. intros Hrun. run_inv Hrun. reflexivity.
Qed.

Lemma reconcile_list_keeps_self (recs : list (Z * Particle.t FLOAT)) :
  forall s s' u,
    for_each recs (fun jr => reconcile ndim jr.1 jr.2) s = Done u s' ->
    self s' = self s.
Proof.
  induction recs as [|jr recs IH]; intros s s' u Hrun; cbn in Hrun.
  - injection Hrun as _ <-. reflexivity.
  - apply bind_inv_done in Hrun as (u1 & s1 & H1 & H2).
    rewrite (IH _ _ _ H2). exact (reconcile_keeps_self _ _ _ _ _ H1).
Qed.

Lemma returned_proc_run (buf : list byte) (recv_displs : list Z)
    (rank Nproc : Z) (recs : list (Z * Particle.t FLOAT)) (s : State FLOAT) :
  records_of_procs (SphTree.ids_sent_particles (self s)) buf recv_displs rank
    [Nproc] = Some recs ->
  unpack_returned_proc ndim buf recv_displs rank Nproc s
  = for_each recs (fun jr => reconcile ndim jr.1 jr.2) s.
Proof.
  cbn [records_of_procs]. unfold unpack_returned_proc.
  destruct (decide (rank = Nproc)) as [e|ne].
  - intros [= <-]. reflexivity.
  - destruct (zget (SphTree.ids_sent_particles (self s)) Nproc)
      as [ids|] eqn:Hids; [|discriminate].
    destruct (zget recv_displs Nproc) as [displ|] eqn:Hd; [|discriminate].
    destruct (records_of buf displ 0 ids) as [a|] eqn:Ha; [|discriminate].
    intros [= <-]. rewrite app_nil_r.
    rewrite <- (returned_particles_run buf displ ids 0 a s Ha).
    unfold get_ids_sent, bind, gets. cbv beta iota. rewrite Hids.
    unfold defined at 1 2, ret at 1 2. cbv beta iota. reflexivity.
Qed.

Lemma returned_procs_run (buf : list byte) (recv_displs : list Z) (rank : Z) :
  forall procs recs s,
    records_of_procs (SphTree.ids_sent_particles (self s)) buf recv_displs rank
      procs = Some recs ->
    for_each procs (unpack_returned_proc ndim buf recv_displs rank) s
    = for_each recs (fun jr => reconcile ndim jr.1 jr.2) s.
Proof.
  induction procs as [|Nproc procs IH]; intros recs s Hrecs.
  - cbn in Hrecs. injection Hrecs as <-. reflexivity.
  - cbn [records_of_procs] in Hrecs.
    match type of Hrecs with
    | match ?h with _ => _ end = _ => destruct h as [a|] eqn:Ha; [|discriminate]
    end.
    destruct (records_of_procs _ buf recv_displs rank procs) as [b|] eqn:Hb;
      [|discriminate].
    injection Hrecs as <-.
    rewrite for_each_app. cbn [for_each]. unfold bind.
    rewrite (returned_proc_run buf recv_displs rank Nproc a s).
    2:{ cbn [records_of_procs]. rewrite Ha, app_nil_r. reflexivity. }
    destruct (for_each a _ s) as [[] s1| | |] eqn:Hrun; try reflexivity.
    apply IH. rewrite (reconcile_list_keeps_self _ _ _ _ Hrun). exact Hb.
Qed.

Lemma zget_sum_record (data : list (Particle.t FLOAT))
    (jr : Z * Particle.t FLOAT) (j : Z) (p : Particle.t FLOAT) :
  zget data j = Some p ->
  exists p', zget (sum_record ndim data jr) j = Some p' /\
             Particle.iorig p' = Particle.iorig p.
Proof.
  intros Hp.
  assert (Hm : origin_matches data (j, p))
    by (exists p; split; [exact Hp|reflexivity]).
  apply (origin_matches_sum_record data jr) in Hm as (p' & Hp' & Hid).
  exists p'. split; [exact Hp'|exact Hid].
Qed.

Lemma reconcile_list_done (recs : list (Z * Particle.t FLOAT)) :
  forall s,
    Forall (origin_matches (Sph.sphdata (sph s))) recs ->
    for_each recs (fun jr => reconcile ndim jr.1 jr.2) s
    = Done tt (with_sphdata
                 (foldl (sum_record ndim) (Sph.sphdata (sph s)) recs) s).
Proof.
  induction recs as [|[j rp] recs IH]; intros s Hall.
  - cbn. rewrite with_sphdata_same. reflexivity.
  - inversion Hall as [|? ? (p & Hp & Hid) Hrest]; subst.
    cbn [for_each foldl fst snd] in *.
    unfold bind. rewrite (reconcile_matched j rp p s Hp Hid).
    rewrite IH.
    + reflexivity.
    + cbn. eapply Forall_impl; [exact Hrest|].
      intros kr Hk. apply origin_matches_sum_record. exact Hk.
Qed.

Lemma reconcile_list_abort (pre post : list (Z * Particle.t FLOAT))
    (j : Z) (rp : Particle.t FLOAT) :
  forall s p,
    Forall (origin_matches (Sph.sphdata (sph s))) pre ->
    zget (Sph.sphdata (sph s)) j = Some p ->
    Particle.iorig p <> Particle.iorig rp ->
    for_each (pre ++ (j, rp) :: post) (fun jr => reconcile ndim jr.1 jr.2) s
    = Abort "assertion failed"
        (with_sphdata (foldl (sum_record ndim) (Sph.sphdata (sph s)) pre) s).
Proof.
  induction pre as [|[j0 rp0] pre IH]; intros s p Hall Hp Hid.
  - cbn [app for_each foldl fst snd]. unfold bind.
    rewrite (reconcile_mismatch j rp p s Hp Hid), with_sphdata_same.
    reflexivity.
  - inversion Hall as [|? ? (p0 & Hp0 & Hid0) Hrest]; subst.
    cbn [app for_each foldl fst snd] in *.
    unfold bind. rewrite (reconcile_matched j0 rp0 p0 s Hp0 Hid0).
    destruct (zget_sum_record (Sph.sphdata (sph s)) (j0, rp0) j p Hp)
      as (p' & Hp' & Hid').
    rewrite (IH _ p').
    + reflexivity.
    + cbn. eapply Forall_impl; [exact Hrest|].
      intros kr Hk. apply origin_matches_sum_record. exact Hk.
    + exact Hp'.
    + rewrite Hid'. exact Hid.
Qed.

(** X3.  [UnpackReturnedExportInfo] takes the records of every peer but this
    rank, peer by peer, the [i]-th record of a peer going with the [i]-th
    index remembered for that peer.  While the origin identifiers agree,
    each record is summed into its particle and nothing else changes; at the
    first record whose origin identifier differs the run ends, the records
    before it summed. *)
Theorem UnpackReturnedExportInfo_sums_until_mismatch
    (received_information : list byte) (recv_displs : list Z) (rank : Z)
    (s : State FLOAT) (records : list (Z * Particle.t FLOAT)) :
  returned_records (SphTree.ids_sent_particles (self s)) received_information
    recv_displs rank = Some records ->
  (Forall (origin_matches (Sph.sphdata (sph s))) records ->
   UnpackReturnedExportInfo ndim received_information recv_displs rank s
   = Done tt (with_sphdata
                (foldl (sum_record ndim) (Sph.sphdata (sph s)) records) s)) /\
  (forall pre j rp post p,
     records = pre ++ (j, rp) :: post ->
     Forall (origin_matches (Sph.sphdata (sph s))) pre ->
     zget (Sph.sphdata (sph s)) j = Some p ->
     Particle.iorig p <> Particle.iorig rp ->
     UnpackReturnedExportInfo ndim received_information recv_displs rank s
     = Abort "assertion failed"
         (with_sphdata
            (foldl (sum_record ndim) (Sph.sphdata (sph s)) pre) s)).
Proof.
  intros Hrecs. unfold UnpackReturnedExportInfo.
  rewrite (returned_procs_run _ _ _ _ _ _ Hrecs). split.
  - apply reconcile_list_done.
  - intros pre j rp post p -> Hpre Hp Hid.
    exact (reconcile_list_abort pre post j rp s p Hpre Hp Hid).
Qed.

End ReturnedFacts.

Section ReturnedExample.
Import Worked Exchange.
#[local] Existing Instances ZFloat ZTree ZLayout.

Lemma returned_records_of_the_exchange :
  returned_records (SphTree.ids_sent_particles (self exported_state))
    returned_message [0; 0] 0
  = Some [(0, Particle.set_gpot 7 (Particle.set_a [1; 2; 3] exported_part1));
          (1, Particle.set_gpot 7 (Particle.set_a [1; 2; 3] exported_part2))].
Proof. vm_compute. reflexivity. Qed.

(** Rank 1 returns the two particles it imported from rank 0, with the
    acceleration (1, 2, 3) and the potential 7; rank 0 adds them to its
    particles 0 and 1, which had none. *)
Lemma UnpackReturnedExportInfo_sums_until_mismatch_witness :
  let records :=
    [(0, Particle.set_gpot 7 (Particle.set_a [1; 2; 3] exported_part1));
     (1, Particle.set_gpot 7 (Particle.set_a [1; 2; 3] exported_part2))] in
  let data := Sph.sphdata (sph exported_state) in
  (Forall (origin_matches data) records ->
   UnpackReturnedExportInfo 3 returned_message [0; 0] 0 exported_state
   = Done tt (with_sphdata (foldl (sum_record 3) data records) exported_state)) /\
  (forall pre j rp post p,
     records = pre ++ (j, rp) :: post ->
     Forall (origin_matches data) pre ->
     zget data j = Some p ->
     Particle.iorig p <> Particle.iorig rp ->
     UnpackReturnedExportInfo 3 returned_message [0; 0] 0 exported_state
     = Abort "assertion failed"
         (with_sphdata (foldl (sum_record 3) data pre) exported_state)).
Proof.
  exact (UnpackReturnedExportInfo_sums_until_mismatch 3 returned_message [0; 0]
           0 exported_state _ returned_records_of_the_exchange).
Defined.

End ReturnedExample.


(** ** Parameters.cpp: strings *)

Section StringFacts.
Variable (c : Ascii.ascii).

Lemma str_app_cons (a : Ascii.ascii) (s t : string) :
  String a s +:+ t = String a (s +:+ t).
Proof. reflexivity. Qed.

Lemma str_app_nil_l (t : string) : "" +:+ t = t.
Proof. reflexivity. Qed.

Ltac str_simpl := cbn; rewrite ?str_app_cons, ?str_app_nil_l; cbn.

Lemma str_app_nil_r (s : string) : s +:+ "" = s.
Proof.
  induction s as [|a s IH]; str_simpl; [reflexivity|]. rewrite IH. reflexivity.
Qed.

Lemma str_app_assoc (s1 s2 s3 : string) :
  (s1 +:+ s2) +:+ s3 = s1 +:+ s2 +:+ s3.
Proof.
  induction s1 as [|a s1 IH]; str_simpl; [reflexivity|]. rewrite IH. reflexivity.
Qed.

Lemma str_length_app (s1 s2 : string) :
  String.length (s1 +:+ s2) = (String.length s1 + String.length s2)%nat.
Proof.
  induction s1 as [|a s1 IH]; str_simpl; [reflexivity|]. rewrite IH. reflexivity.
Qed.

Lemma str_take_app (s1 s2 : string) :
  str_take (String.length s1) (s1 +:+ s2) = s1.
Proof.
  induction s1 as [|a s1 IH]; str_simpl; [destruct s2; reflexivity|].
  rewrite IH. reflexivity.
Qed.

Lemma str_take_all (s : string) : str_take (String.length s) s = s.
Proof.
  rewrite <- (str_app_nil_r s) at 2. apply str_take_app.
Qed.

Lemma str_drop_app (s1 s2 : string) :
  str_drop (String.length s1) (s1 +:+ s2) = s2.
Proof. induction s1 as [|a s1 IH]; str_simpl; [reflexivity|exact IH]. Qed.

Lemma str_take_drop (n : nat) (s : string) :
  str_take n s +:+ str_drop n s = s.
Proof.
  revert s. induction n as [|n IH]; intros [|a s]; str_simpl; try reflexivity.
  rewrite IH. reflexivity.
Qed.

(** [find] gives the first occurrence. *)
Lemma find_None (s : string) :
  find c s = None <-> ~ contains c s.
Proof.
  induction s as [|a s IH]; cbn.
  - split; [intros _ []|reflexivity].
  - destruct (decide (a = c)) as [->|ne].
    + split; [discriminate|]. intros H. destruct H. left. reflexivity.
    + destruct (find c s) as [i|]; cbn.
      * split; [discriminate|]. intros H. exfalso.
        assert (Hs : ~ contains c s) by (intros Hin; apply H; right; exact Hin).
        apply IH in Hs. discriminate Hs.
      * split; [|reflexivity]. intros _ [e|Hin]; [exact (ne e)|].
        destruct IH as [IH _]. exact (IH eq_refl Hin).
Qed.

Lemma find_app_first (pre post : string) :
  ~ contains c pre ->
  find c (pre +:+ String c post) = Some (String.length pre).
Proof.
  induction pre as [|a pre IH]; str_simpl; intros Hpre.
  - rewrite decide_True by reflexivity. reflexivity.
  - rewrite decide_False by (intros ->; apply Hpre; left; reflexivity).
    rewrite IH by (intros Hin; apply Hpre; right; exact Hin). reflexivity.
Qed.

Lemma find_app_skip (pre s : string) :
  ~ contains c pre ->
  find c (pre +:+ s) = (fun i => (String.length pre + i)%nat) <$> find c s.
Proof.
  induction pre as [|a pre IH]; str_simpl; intros Hpre.
  - destruct (find c s); reflexivity.
  - rewrite decide_False by (intros ->; apply Hpre; left; reflexivity).
    rewrite IH by (intros Hin; apply Hpre; right; exact Hin).
    destruct (find c s); reflexivity.
Qed.

Lemma find_le (pre post : string) (i : nat) :
  find c (pre +:+ String c post) = Some i -> (i <= String.length pre)%nat.
Proof.
  revert i. induction pre as [|a pre IH]; str_simpl; intros i.
  - rewrite decide_True by reflexivity. intros [= <-]. lia.
  - destruct (decide (a = c)); [intros [= <-]; lia|].
    destruct (find c (pre +:+ String c post)) as [j|] eqn:Hj; str_simpl; [|discriminate].
    intros [= <-]. specialize (IH j eq_refl). lia.
Qed.

Lemma ends_with_cons (a : Ascii.ascii) (s : string) :
  s <> EmptyString -> ends_with c (String a s) <-> ends_with c s.
Proof. destruct s; [intros []; reflexivity|reflexivity]. Qed.

Lemma ends_with_app (s1 s2 : string) :
  s2 <> EmptyString -> ends_with c (s1 +:+ s2) <-> ends_with c s2.
Proof.
  intros Hne. induction s1 as [|a s1 IH]; [reflexivity|].
  rewrite str_app_cons, ends_with_cons; [exact IH|].
  destruct s1; [exact Hne|rewrite str_app_cons; discriminate].
Qed.

Lemma find_first_not_of_None (s : string) :
  find_first_not_of c s = None -> s = str_repeat c (String.length s).
Proof.
  induction s as [|a s IH]; str_simpl; [reflexivity|].
  destruct (decide (a = c)) as [->|]; [|discriminate].
  destruct (find_first_not_of c s); str_simpl; [discriminate|].
  intros _. rewrite <- IH by reflexivity. reflexivity.
Qed.

Lemma find_first_not_of_Some (s : string) (pos : nat) :
  find_first_not_of c s = Some pos ->
  s = str_repeat c pos +:+ str_drop pos s /\
  ~ starts_with c (str_drop pos s) /\ str_drop pos s <> EmptyString.
Proof.
  revert pos. induction s as [|a s IH]; str_simpl; intros pos; [discriminate|].
  destruct (decide (a = c)) as [->|ne].
  - destruct (find_first_not_of c s) as [i|]; str_simpl; [|discriminate].
    intros [= <-]. destruct (IH i eq_refl) as (E & Hs & Hne).
    str_simpl. rewrite <- E. split; [reflexivity|]. split; assumption.
  - intros [= <-]. cbn. split; [reflexivity|]. split; [exact ne|discriminate].
Qed.

Lemma find_last_not_of_None (s : string) :
  find_last_not_of c s = None -> s = str_repeat c (String.length s).
Proof.
  induction s as [|a s IH]; str_simpl; [reflexivity|].
  destruct (find_last_not_of c s); [discriminate|].
  destruct (decide (a = c)) as [->|]; [|discriminate].
  intros _. rewrite <- IH by reflexivity. reflexivity.
Qed.

Lemma find_last_not_of_Some (s : string) (pos : nat) :
  find_last_not_of c s = Some pos ->
  exists m,
    s = str_take (pos + 1) s +:+ str_repeat c m /\
    ~ ends_with c (str_take (pos + 1) s) /\
    find_first_not_of c (str_take (pos + 1) s) <> None.
Proof.
  revert pos. induction s as [|a s IH]; str_simpl; intros pos; [discriminate|].
  destruct (find_last_not_of c s) as [i|] eqn:Hi.
  - intros [= <-]. destruct (IH i eq_refl) as (m & E & He & Hf).
    exists m. str_simpl. rewrite <- E. split; [reflexivity|].
    replace (i + 1)%nat with (S i) in * by lia. split.
    + destruct s as [|b s]; [discriminate Hi|].
      cbn [str_take] in *. exact He.
    + destruct (decide (a = c)); [|discriminate].
      destruct (find_first_not_of c (str_take (S i) s)); [discriminate|].
      contradiction.
  - destruct (decide (a = c)) as [|ne]; [discriminate|].
    intros [= <-]. exists (String.length s). str_simpl.
    rewrite <- (find_last_not_of_None s Hi).
    destruct s; str_simpl.
    + split; [reflexivity|]. split; [exact ne|].
      rewrite decide_False by exact ne. discriminate.
    + split; [reflexivity|]. split; [exact ne|].
      rewrite decide_False by exact ne. discriminate.
Qed.

End StringFacts.

(** X4.  [trim2] takes spaces, and only spaces, off the two ends: the
    string is some spaces, the result, and some spaces; and the result
    neither starts nor ends with a space. *)
Theorem trim2_strips_spaces_at_both_ends (str : string) :
  (exists n m,
     str = str_repeat space n +:+ trim2 str +:+ str_repeat space m) /\
  ~ starts_with space (trim2 str) /\
  ~ ends_with space (trim2 str).
Proof.
  unfold trim2.
  destruct (find_last_not_of space str) as [pos|] eqn:Hlast.
  - destruct (find_last_not_of_Some space str pos Hlast) as (m & E & He & Hf).
    cbv zeta.
    destruct (find_first_not_of space (str_take (pos + 1) str)) as [pos'|]
      eqn:Hfirst; [|contradiction].
    destruct (find_first_not_of_Some space _ pos' Hfirst) as (E' & Hs & Hne).
    split; [|split].
    + exists pos', m. rewrite <- str_app_assoc, <- E'. exact E.
    + exact Hs.
    + intros Hend. apply He. rewrite E'.
      apply ends_with_app; [exact Hne|exact Hend].
  - split; [|split].
    + exists (String.length str), 0%nat.
      rewrite str_app_nil_l, str_app_nil_r.
      exact (find_last_not_of_None space str Hlast).
    + intros [].
    + intros [].
Qed.

(** ** Parameters.cpp: ParseLine *)

Section ParseLineFacts.
Context {FLOAT : Type} `{!StreamOps FLOAT} `{!FloatLit FLOAT}.

(** X5.  A line is used only if it has a colon and, somewhere after its
    first colon, its first equals sign: a line without a colon, a line
    without an equals sign and a line with an equals sign before any colon
    change nothing and are not reported. *)
Theorem ParseLine_ignores_other_lines (paramline : string)
    (p : Parameters.t FLOAT) :
  ~ contains (char ":") paramline \/
  ~ contains (char "=") paramline \/
  (exists pre post,
     paramline = pre +:+ String (char "=") post /\
     ~ contains (char ":") pre) ->
  ParseLine paramline p = p.
Proof.
  unfold ParseLine. intros [Hc|[He|(pre & post & -> & Hpre)]].
  - apply find_None in Hc. rewrite Hc. reflexivity.
  - apply find_None in He. rewrite He.
    destruct (find (char ":") paramline); reflexivity.
  - rewrite (find_app_skip (char ":") pre _ Hpre).
    destruct (find (char "=") (pre +:+ String (char "=") post)) as [e|] eqn:He;
      [|destruct (_ <$> _); reflexivity].
    apply find_le in He. cbn [find].
    rewrite decide_False by discriminate.
    destruct (find (char ":") post) as [i|]; cbn; [|reflexivity].
    rewrite decide_True by lia. reflexivity.
Qed.

Lemma substr_middle (s1 s2 s3 : string) :
  substr (String.length s1) (String.length s2) (s1 +:+ s2 +:+ s3) = s2.
Proof. unfold substr. rewrite str_drop_app. apply str_take_app. Qed.

(** X6.  In a line [desc : name = value] the name is what stands between
    the first colon and the first equals sign, the value all that follows
    that sign, equals signs and colons included; the parameter [name] is set
    to [value], each without the spaces around it. *)
Theorem ParseLine_sets_name_to_value (desc name value : string)
    (p : Parameters.t FLOAT) :
  ~ contains (char ":") desc ->
  ~ contains (char "=") desc ->
  ~ contains (char "=") name ->
  ParseLine (desc +:+ String (char ":") (name +:+ String (char "=") value)) p
  = SetParameter (trim2 name) (trim2 value) p.
Proof.
  intros Hc He Hn. unfold ParseLine.
  rewrite (find_app_first (char ":") desc _ Hc).
  rewrite (find_app_skip (char "=") desc _ He). cbn [find].
  rewrite decide_False by discriminate.
  rewrite (find_app_first (char "=") name _ Hn). cbn [fmap option_fmap option_map].
  rewrite decide_False by lia. cbv zeta.
  f_equal; f_equal.
  - replace (String.length desc + 1)%nat
      with (String.length (desc +:+ String (char ":") "")).
    2:{ rewrite str_length_app. reflexivity. }
    replace (String.length desc + S (String.length name)
             - String.length desc - 1)%nat
      with (String.length name) by lia.
    replace (desc +:+ String (char ":") (name +:+ String (char "=") value))
      with ((desc +:+ String (char ":") "") +:+ name
            +:+ String (char "=") value).
    2:{ rewrite str_app_assoc. reflexivity. }
    apply substr_middle.
  - unfold substr.
    replace (desc +:+ String (char ":") (name +:+ String (char "=") value))
      with ((desc +:+ String (char ":") (name +:+ String (char "=") ""))
            +:+ value).
    2:{ rewrite str_app_assoc, str_app_cons, str_app_assoc. reflexivity. }
    replace (String.length desc + S (String.length name) + 1)%nat
      with (String.length (desc +:+ String (char ":")
                             (name +:+ String (char "=") ""))).
    2:{ rewrite str_length_app. cbn [String.length].
        rewrite str_length_app. cbn [String.length]. lia. }
    rewrite str_drop_app.
    replace (String.length _ - _ - 1)%nat with (String.length value).
    2:{ rewrite !str_length_app. cbn [String.length].
        rewrite !str_length_app. cbn [String.length]. lia. }
    apply str_take_all.
Qed.

End ParseLineFacts.

(** ** Parameters.cpp: the names of the parameters *)

Section ParameterKeys.
Context {FLOAT : Type} `{!StreamOps FLOAT} `{!FloatLit FLOAT}.

Lemma same_keys_refl (p : Parameters.t FLOAT) : same_keys p p.
Proof. repeat split. Qed.

Lemma same_keys_trans (p q r : Parameters.t FLOAT) :
  same_keys p q -> same_keys q r -> same_keys p r.
Proof.
  intros (A1 & A2 & A3) (B1 & B2 & B3).
  repeat split; etransitivity; eassumption.
Qed.

Lemma SetParameter_keys (key value : string) (p : Parameters.t FLOAT) :
  same_keys p (SetParameter key value p).
Proof.
  unfold SetParameter, same_keys, keys.
  destruct (Parameters.intparams p !! key) eqn:Hi; cbn.
  { rewrite dom_insert_lookup_L by (rewrite Hi; eauto). repeat split. }
  destruct (Parameters.floatparams p !! key) eqn:Hf; cbn.
  { rewrite dom_insert_lookup_L by (rewrite Hf; eauto). repeat split. }
  destruct (Parameters.stringparams p !! key) eqn:Hs; cbn.
  { rewrite dom_insert_lookup_L by (rewrite Hs; eauto). repeat split. }
  repeat split.
Qed.

Lemma ParseLine_keys (paramline : string) (p : Parameters.t FLOAT) :
  same_keys p (ParseLine paramline p).
Proof.
  unfold ParseLine.
  destruct (find _ paramline); [|apply same_keys_refl].
  destruct (find _ paramline); [|apply same_keys_refl].
  destruct (decide _); [apply same_keys_refl|apply SetParameter_keys].
Qed.

Lemma for_each_modify {S B} (f : B -> S -> S) (l : list B) :
  forall s, for_each l (fun x => modify (f x)) s
            = Done tt (foldl (fun s x => f x s) s l).
Proof.
  induction l as [|x l IH]; intros s; cbn; [reflexivity|].
  unfold bind, modify at 1. apply IH.
Qed.

Lemma ParseLines_keys (lines : list string) :
  forall p, same_keys p
    (left_by (for_each lines (fun line => modify (ParseLine line)) p) p).
Proof.
  intros p. rewrite for_each_modify. cbn. revert p.
  induction lines as [|line lines IH]; intros p; cbn.
  - apply same_keys_refl.
  - eapply same_keys_trans; [apply (ParseLine_keys line)|apply IH].
Qed.

Lemma ReadParamsFile_keys (file : option string) (filename : string)
    (p : Parameters.t FLOAT) :
  same_keys p (left_by (ReadParamsFile file filename p) p).
Proof.
  destruct file as [content|]; cbn.
  - apply ParseLines_keys.
  - repeat split.
Qed.

Lemma assign_all_keys {A} (kvs : list (string * A)) :
  forall m, keys (assign_all kvs m) = keys m ∪ list_to_set kvs.*1.
Proof.
  unfold assign_all, keys.
  induction kvs as [|[k v] kvs IH]; intros m; cbn.
  - set_solver.
  - rewrite IH, dom_insert_L. set_solver.
Qed.

(** Assignments of all that two maps differ in make them equal. *)
Lemma assign_all_covers {A} (kvs : list (string * A)) :
  forall m1 m2,
    (forall k, k ∉ kvs.*1 -> m1 !! k = m2 !! k) ->
    assign_all kvs m1 = assign_all kvs m2.
Proof.
  unfold assign_all.
  induction kvs as [|[k0 v0] kvs IH]; intros m1 m2 Hsame; cbn.
  - apply map_eq. intros k. apply Hsame. cbn. set_solver.
  - apply IH. intros k Hk.
    destruct (decide (k = k0)) as [->|ne].
    + rewrite !lookup_insert_eq. reflexivity.
    + rewrite !lookup_insert_ne by congruence. apply Hsame. cbn. set_solver.
Qed.

Lemma fmap_fst_prod_map {A B} (f : A -> B) (kvs : list (string * A)) :
  (prod_map id f <$> kvs).*1 = kvs.*1.
Proof. induction kvs as [|[k v] kvs IH]; cbn; [reflexivity|]. rewrite IH. reflexivity. Qed.

Lemma SetDefaultValues_default_keys (p : Parameters.t FLOAT) :
  default_keys p -> default_keys (SetDefaultValues p).
Proof.
  intros (Hi & Hf & Hs). unfold default_keys, SetDefaultValues.
  cbn [Parameters.intparams Parameters.floatparams Parameters.stringparams].
  rewrite !assign_all_keys, fmap_fst_prod_map, Hi, Hf, Hs.
  split; [|split]; apply union_idemp_L.
Qed.

Lemma Parameters_new_default_keys : default_keys Parameters_new.
Proof.
  unfold default_keys, Parameters_new, SetDefaultValues.
  cbn [Parameters.intparams Parameters.floatparams Parameters.stringparams].
  rewrite !assign_all_keys, fmap_fst_prod_map. unfold keys.
  rewrite !dom_empty_L. split; [|split]; apply (left_id_L ∅ (∪)).
Qed.

Lemma do_call_default_keys (p : Parameters.t FLOAT) (c : ParametersCall) :
  default_keys p -> default_keys (do_call p c).
Proof.
  intros Hp.
  assert (Hsame : forall q, same_keys p q -> default_keys q).
  { intros q (A1 & A2 & A3). destruct Hp as (Hi & Hf & Hs).
    unfold default_keys. rewrite A1, A2, A3. repeat split; assumption. }
  destruct c as [key value|paramline|file filename|]; cbn.
  - apply Hsame, SetParameter_keys.
  - apply Hsame, ParseLine_keys.
  - apply Hsame, ReadParamsFile_keys.
  - apply SetDefaultValues_default_keys, Hp.
Qed.

Lemma calls_default_keys (calls : list ParametersCall) :
  forall p, default_keys p -> default_keys (foldl do_call p calls).
Proof.
  induction calls as [|c calls IH]; intros p Hp; cbn; [exact Hp|].
  apply IH, do_call_default_keys, Hp.
Qed.

(** No name is assigned in two maps. *)
Lemma default_names_differ :
  NoDup (default_ints.*1 ++ default_floats.*1 ++ default_strings.*1).
Proof. refine (bool_decide_unpack _ _). vm_compute. exact I. Qed.

(** X7.  Whatever is called on a [Parameters] object, its parameters stay
    the ones [SetDefaultValues] knows: no call adds a name or removes one,
    and no name is in two of the three maps. *)
Theorem Parameters_names_are_the_defaults (calls : list ParametersCall) :
  let p := foldl do_call Parameters_new calls in
  keys (Parameters.intparams p) = list_to_set default_ints.*1 /\
  keys (Parameters.floatparams p) = list_to_set default_floats.*1 /\
  keys (Parameters.stringparams p) = list_to_set default_strings.*1 /\
  keys (Parameters.intparams p) ## keys (Parameters.floatparams p) /\
  keys (Parameters.intparams p) ## keys (Parameters.stringparams p) /\
  keys (Parameters.floatparams p) ## keys (Parameters.stringparams p).
Proof.
  intros p.
  destruct (calls_default_keys calls Parameters_new Parameters_new_default_keys)
    as (Hi & Hf & Hs).
  fold p in Hi, Hf, Hs. rewrite Hi, Hf, Hs.
  do 3 (split; [reflexivity|]).
  pose proof default_names_differ as Hnd.
  apply NoDup_app in Hnd as (_ & Hif & Hnd).
  apply NoDup_app in Hnd as (_ & Hfs & _).
  split; [|split]; intros k; rewrite !elem_of_list_to_set.
  - intros Hi' Hf'. apply (Hif k Hi'). apply elem_of_app. left. exact Hf'.
  - intros Hi' Hs'. apply (Hif k Hi'). apply elem_of_app. right. exact Hs'.
  - intros Hf' Hs'. exact (Hfs k Hf' Hs').
Qed.

(** X8.  [SetDefaultValues] undoes all that was set: after it the three
    maps are those of a new object, whatever was called before. *)
Theorem SetDefaultValues_discards_what_was_set (calls : list ParametersCall) :
  let p := SetDefaultValues (foldl do_call Parameters_new calls) in
  Parameters.intparams p = Parameters.intparams Parameters_new /\
  Parameters.floatparams p = Parameters.floatparams Parameters_new /\
  Parameters.stringparams p = Parameters.stringparams Parameters_new.
Proof.
  destruct (calls_default_keys calls Parameters_new Parameters_new_default_keys)
    as (Hi & Hf & Hs).
  set (p0 := foldl do_call Parameters_new calls) in *.
  cbv zeta. unfold Parameters_new, SetDefaultValues.
  cbn [Parameters.intparams Parameters.floatparams Parameters.stringparams].
  repeat split; apply assign_all_covers; intros k Hk;
    rewrite lookup_empty; apply not_elem_of_dom.
  - unfold keys in Hi. rewrite Hi, elem_of_list_to_set. exact Hk.
  - unfold keys in Hf. rewrite Hf, elem_of_list_to_set.
    rewrite fmap_fst_prod_map in Hk. exact Hk.
  - unfold keys in Hs. rewrite Hs, elem_of_list_to_set. exact Hk.
Qed.

End ParameterKeys.

Section ParseLineExample.
Import ParamsExample.
#[local] Existing Instances DecStream NoLit.

Lemma ParseLine_ignores_other_lines_witness :
  ParseLine "Npart = 200" defaults = defaults.
Proof.
  apply ParseLine_ignores_other_lines. left. cbn. intros H.
  repeat (destruct H as [H|H]; [discriminate H|]). exact H.
Defined.

Lemma ParseLine_sets_name_to_value_witness :
  ParseLine "Number of particles : Npart = 200" defaults
  = SetParameter (trim2 " Npart ") (trim2 " 200") defaults /\
  Parameters.intparams
    (ParseLine "Number of particles : Npart = 200" defaults) !! "Npart"
  = Some 200.
Proof.
  split; [|vm_compute; reflexivity].
  apply (ParseLine_sets_name_to_value "Number of particles " " Npart " " 200");
    cbn; intros H; repeat (destruct H as [H|H]; [discriminate H|]); exact H.
Defined.

(** A file of three lines, the second without a colon: the first and the
    third are used, nothing is reported. *)
Example ReadParamsFile_reads_the_lines_with_a_colon :
  exists p,
    ReadParamsFile (Some params_file) "params.dat" defaults = Done tt p /\
    Parameters.intparams p !! "Npart" = Some 200 /\
    Parameters.stringparams p !! "run_id" = Some "RUN1" /\
    Parameters.cout p = [].
Proof.
  exists (left_by (ReadParamsFile (Some params_file) "params.dat" defaults)
            defaults).
  split; [vm_compute; reflexivity|].
  split; [vm_compute; reflexivity|].
  split; vm_compute; reflexivity.
Qed.

End ParseLineExample.


(** ** SphSimulation.cpp: set-up and the run loop *)

Section SimulationFacts.
Context {FLOAT : Type} `{!FloatOps FLOAT} `{!StreamOps FLOAT}
  `{!FloatLit FLOAT} `{!NeibOps FLOAT} `{!SimFloat FLOAT} `{!FloatShow FLOAT}
  `{!SimOps FLOAT}.

(** A parameter that [SetDefaultValues] assigns is there to be read. *)
Lemma default_string_there (p : Parameters.t FLOAT) (key : string) :
  default_keys p -> key ∈ default_strings.*1 ->
  is_Some (Parameters.stringparams p !! key).
Proof.
  intros (_ & _ & Hs) Hin. apply elem_of_dom. unfold keys in Hs. rewrite Hs.
  apply elem_of_list_to_set. exact Hin.
Qed.

Lemma default_int_there (p : Parameters.t FLOAT) (key : string) :
  default_keys p -> key ∈ default_ints.*1 ->
  is_Some (Parameters.intparams p !! key).
Proof.
  intros (Hi & _ & _) Hin. apply elem_of_dom. unfold keys in Hi. rewrite Hi.
  apply elem_of_list_to_set. exact Hin.
Qed.

Lemma default_float_there (p : Parameters.t FLOAT) (key : string) :
  default_keys p -> key ∈ default_floats.*1 ->
  is_Some (Parameters.floatparams p !! key).
Proof.
  intros (_ & Hf & _) Hin. apply elem_of_dom. unfold keys in Hf. rewrite Hf.
  apply elem_of_list_to_set. exact Hin.
Qed.

Lemma index_stringparams_there (key : string) (p : Parameters.t FLOAT) :
  is_Some (Parameters.stringparams p !! key) ->
  index_stringparams key p = (string_value key p, p).
Proof.
  intros [x Hx]. unfold index_stringparams, string_value. rewrite Hx. reflexivity.
Qed.

Lemma index_intparams_there (key : string) (p : Parameters.t FLOAT) :
  is_Some (Parameters.intparams p !! key) ->
  index_intparams key p = (default 0 (Parameters.intparams p !! key), p).
Proof.
  intros [x Hx]. unfold index_intparams. rewrite Hx. reflexivity.
Qed.

Lemma index_floatparams_there (key : string) (p : Parameters.t FLOAT) :
  is_Some (Parameters.floatparams p !! key) ->
  index_floatparams key p = (default f_zero (Parameters.floatparams p !! key), p).
Proof.
  intros [x Hx]. unfold index_floatparams. rewrite Hx. reflexivity.
Qed.

Lemma set_simparams_same (s : Simulation.t FLOAT) :
  Simulation.set_simparams (Simulation.simparams s) s = s.
Proof. destruct s; reflexivity. Qed.

(** Reading a parameter that is there changes nothing. *)
Lemma stringparam_there (key : string) (s : Simulation.t FLOAT) :
  is_Some (Parameters.stringparams (Simulation.simparams s) !! key) ->
  stringparam key s = Done (string_value key (Simulation.simparams s)) s.
Proof.
  intros Hx. unfold stringparam, index_with, bind, get, modify, ret.
  rewrite (index_stringparams_there _ _ Hx), set_simparams_same. reflexivity.
Qed.

Lemma intparam_there (key : string) (s : Simulation.t FLOAT) :
  is_Some (Parameters.intparams (Simulation.simparams s) !! key) ->
  intparam key s
  = Done (default 0 (Parameters.intparams (Simulation.simparams s) !! key)) s.
Proof.
  intros Hx. unfold intparam, index_with, bind, get, modify, ret.
  rewrite (index_intparams_there _ _ Hx), set_simparams_same. reflexivity.
Qed.

Lemma floatparam_there (key : string) (s : Simulation.t FLOAT) :
  is_Some (Parameters.floatparams (Simulation.simparams s) !! key) ->
  floatparam key s
  = Done (default f_zero (Parameters.floatparams (Simulation.simparams s) !! key)) s.
Proof.
  intros Hx. unfold floatparam, index_with, bind, get, modify, ret.
  rewrite (index_floatparams_there _ _ Hx), set_simparams_same. reflexivity.
Qed.

(** *** What a step leaves alone *)

Lemma control_fields (s s' : Simulation.t FLOAT) :
  control s' = control s ->
  Simulation.paramfile s' = Simulation.paramfile s /\
  Simulation.n s' = Simulation.n s /\
  Simulation.Nsteps s' = Simulation.Nsteps s /\
  Simulation.Nstepsmax s' = Simulation.Nstepsmax s /\
  Simulation.Noutsnap s' = Simulation.Noutsnap s /\
  Simulation.ndim s' = Simulation.ndim s /\
  Simulation.time s' = Simulation.time s /\
  Simulation.tend s' = Simulation.tend s /\
  Simulation.tsnapnext s' = Simulation.tsnapnext s /\
  Simulation.dt_snap s' = Simulation.dt_snap s /\
  Simulation.run_id s' = Simulation.run_id s /\
  Simulation.simbox s' = Simulation.simbox s /\
  Simulation.sphneib s' = Simulation.sphneib s /\
  Simulation.sphint s' = Simulation.sphint s /\
  Simulation.uint s' = Simulation.uint s /\
  Simulation.diag s' = Simulation.diag s /\
  Simulation.diag0 s' = Simulation.diag0 s /\
  Simulation.snapshots s' = Simulation.snapshots s /\
  same_parameters (Simulation.simparams s) (Simulation.simparams s').
Proof.
  intros Hc. unfold control in Hc. destruct s, s'. cbn in Hc.
  injection Hc; intros; subst. cbn. unfold same_parameters. tauto.
Qed.

Lemma control_refl_sph (s : Simulation.t FLOAT) o :
  control (Simulation.set_sph o s) = control s.
Proof. destruct s; reflexivity. Qed.

Lemma control_set_timestep (s : Simulation.t FLOAT) x :
  control (Simulation.set_timestep x s) = control s.
Proof. destruct s; reflexivity. Qed.

Lemma control_print (s : Simulation.t FLOAT) line :
  control
    (Simulation.set_simparams (print_line line (Simulation.simparams s)) s)
  = control s.
Proof. destruct s; reflexivity. Qed.

Lemma ready_control (s s' : Simulation.t FLOAT) :
  ready s -> control s' = control s -> is_Some (Simulation.sph s') -> ready s'.
Proof.
  intros [Hk (_ & Hnb & Hint & Hu)] Hc Hsph.
  destruct (control_fields _ _ Hc)
    as (_ & _ & _ & _ & _ & _ & _ & _ & _ & _ & _ & _ & Hnb' & Hint' & Hu'
        & _ & _ & _ & Hi & Hf & Hs).
  split.
  - unfold default_keys in *. rewrite Hi, Hf, Hs. exact Hk.
  - unfold objects_created, string_value in *.
    rewrite Hnb', Hint', Hu', Hs. tauto.
Qed.

Lemma steps_on_ret {A} (a : A) : steps_on (ret a).
Proof. intros s Hs. exists a, s. destruct Hs as [_ [Hsph _]]. auto. Qed.

Lemma steps_on_bind {A B} (m : M (Simulation.t FLOAT) A)
    (k : A -> M (Simulation.t FLOAT) B) :
  steps_on m -> (forall a, steps_on (k a)) -> steps_on (bind m k).
Proof.
  intros Hm Hk s Hs. destruct (Hm s Hs) as (a & s1 & Hrun & Hc & Hsph).
  destruct (Hk a s1 (ready_control _ _ Hs Hc Hsph)) as (b & s2 & Hrun2 & Hc2 & Hsph2).
  exists b, s2. unfold bind. rewrite Hrun, Hrun2. split; [reflexivity|].
  split; [congruence | exact Hsph2].
Qed.

Lemma steps_on_for_each {B} (l : list B)
    (body : B -> M (Simulation.t FLOAT) unit) :
  (forall x, steps_on (body x)) -> steps_on (for_each l body).
Proof.
  intros Hbody. induction l as [|x l IH]; cbn [for_each].
  - apply steps_on_ret.
  - apply steps_on_bind; [apply Hbody | intros _; exact IH].
Qed.

Lemma steps_on_stringparam (key : string) :
  key ∈ default_strings.*1 -> steps_on (stringparam key).
Proof.
  intros Hin s Hs. destruct Hs as [Hk [Hsph _]].
  rewrite stringparam_there by (apply default_string_there; assumption).
  eauto.
Qed.

Lemma steps_on_intparam (key : string) :
  key ∈ default_ints.*1 -> steps_on (intparam key).
Proof.
  intros Hin s Hs. destruct Hs as [Hk [Hsph _]].
  rewrite intparam_there by (apply default_int_there; assumption).
  eauto.
Qed.

Lemma steps_on_the_sph : steps_on the_sph.
Proof.
  intros s Hs. destruct Hs as [Hk [[o Hsph] _]].
  unfold the_sph, bind, get, defined. rewrite Hsph. exists o, s. cbn.
  rewrite Hsph. eauto.
Qed.

Lemma steps_on_the_store : steps_on the_store.
Proof.
  unfold the_store. apply steps_on_bind; [apply steps_on_the_sph|].
  intros o. apply steps_on_ret.
Qed.

Lemma steps_on_the_sphneib : steps_on the_sphneib.
Proof.
  intros s Hs. destruct Hs as [Hk (Hsph & [nb Hnb] & _)].
  unfold the_sphneib, bind, get, defined. rewrite Hnb. exists nb, s. cbn. auto.
Qed.

Lemma steps_on_the_sphint : steps_on the_sphint.
Proof.
  intros s Hs. destruct Hs as [Hk (Hsph & _ & [i Hi] & _)].
  unfold the_sphint, bind, get, defined. rewrite Hi. exists i, s. cbn. auto.
Qed.

Lemma steps_on_on_the_sph (f : SphObject.t FLOAT -> SphObject.t FLOAT) :
  steps_on (on_the_sph f).
Proof.
  intros s Hs. destruct Hs as [Hk [[o Hsph] _]].
  unfold on_the_sph, the_sph, bind, get, defined, modify. rewrite Hsph. cbn.
  eexists tt, _. split; [reflexivity|]. split; [apply control_refl_sph|].
  destruct s; cbn; eauto.
Qed.

Lemma steps_on_on_store (f : Sph.t FLOAT -> Sph.t FLOAT) : steps_on (on_store f).
Proof. apply steps_on_on_the_sph. Qed.

Lemma steps_on_on_sphdata
    (f : list (Particle.t FLOAT) -> list (Particle.t FLOAT)) :
  steps_on (on_sphdata f).
Proof. apply steps_on_on_the_sph. Qed.

Lemma steps_on_print (line : string) : steps_on (print line).
Proof.
  intros s Hs. destruct Hs as [Hk [Hsph _]]. unfold print, modify.
  eexists tt, _. split; [reflexivity|]. split; [apply control_print|].
  destruct s; exact Hsph.
Qed.

Lemma steps_on_set_timestep (f : Simulation.t FLOAT -> FLOAT) :
  steps_on (modify (fun s => Simulation.set_timestep (f s) s)).
Proof.
  intros s Hs. destruct Hs as [Hk [Hsph _]]. unfold modify.
  eexists tt, _. split; [reflexivity|]. split; [apply control_set_timestep|].
  destruct s; exact Hsph.
Qed.

Lemma steps_on_lower_timestep (dt : FLOAT) : steps_on (lower_timestep dt).
Proof.
  intros s Hs. destruct Hs as [Hk [Hsph _]]. unfold lower_timestep, modify.
  eexists tt, _. split; [reflexivity|].
  destruct (flt dt (Simulation.timestep s)); [|auto].
  split; [apply control_set_timestep | destruct s; exact Hsph].
Qed.

(** [uint] is only followed with the energy equation, and then it is
    there. *)
Lemma steps_on_with_energy_equation
    (f : EnergyEquation FLOAT -> M (Simulation.t FLOAT) unit) :
  (forall energy, steps_on (f energy)) -> steps_on (with_energy_equation f).
Proof.
  intros Hf s Hs. pose proof Hs as [Hk (Hsph & _ & _ & Hu)].
  unfold with_energy_equation, bind.
  rewrite stringparam_there
    by (apply default_string_there; [assumption | set_solver]).
  destruct (bool_decide_reflect
              (string_value "gas_eos" (Simulation.simparams s) = "energy_eqn"))
    as [Heq|Hne].
  - destruct (Hu Heq) as [energy He].
    unfold the_uint, bind, get, defined. rewrite He. cbn. apply Hf, Hs.
  - exists tt, s. auto.
Qed.

(** The two reads of the force pass find their parameters. *)
Lemma ForceUpdate_parameters (ndim : nat) (p : Parameters.t FLOAT)
    (st : Sph.t FLOAT) :
  default_keys p -> (ForceUpdate ndim p st).1 = p.
Proof.
  intros Hk. unfold ForceUpdate.
  rewrite (index_intparams_there "hydro_forces")
    by (apply default_int_there; [assumption | set_solver]).
  rewrite (index_intparams_there "self_gravity")
    by (apply default_int_there; [assumption | set_solver]).
  reflexivity.
Qed.

Lemma steps_on_update_forces : steps_on update_forces.
Proof.
  intros s Hs. pose proof Hs as [Hk ([o Hsph] & _)].
  unfold update_forces, bind, get, the_store, the_sph, defined, bind, get.
  rewrite Hsph. cbn.
  pose proof (ForceUpdate_parameters (Z.to_nat (Simulation.ndim s))
                (Simulation.simparams s) (SphObject.store o) Hk) as Hp.
  destruct (ForceUpdate _ _ _) as [p' st'] eqn:HF. cbn in Hp. subst p'.
  unfold modify, on_store, on_the_sph, the_sph, bind, get, defined. cbn.
  rewrite set_simparams_same, Hsph. cbn.
  eexists tt, _. split; [reflexivity|]. split; [apply control_refl_sph|].
  destruct s; cbn; eauto.
Qed.

Lemma steps_on_get : steps_on (get (S := Simulation.t FLOAT)).
Proof. intros s Hs. exists s, s. destruct Hs as [_ [Hsph _]]. auto. Qed.

Lemma steps_on_decide (P : Prop) `{!Decision P} {A}
    (m1 m2 : M (Simulation.t FLOAT) A) :
  steps_on m1 -> steps_on m2 -> steps_on (if decide P then m1 else m2).
Proof. destruct (decide P); auto. Qed.

Lemma steps_on_ComputeBlockTimesteps : steps_on ComputeBlockTimesteps.
Proof.
  unfold ComputeBlockTimesteps.
  apply steps_on_bind; [apply (steps_on_set_timestep (fun _ => big_number))|].
  intros _. apply steps_on_bind; [apply steps_on_the_store|]. intros st.
  apply steps_on_bind.
  - apply steps_on_for_each. intros p.
    apply steps_on_bind; [apply steps_on_the_sphint|]. intros integ.
    apply steps_on_bind; [apply steps_on_get|]. intros s.
    apply steps_on_bind; [apply steps_on_lower_timestep|]. intros _.
    apply (steps_on_with_energy_equation
             (fun energy => lower_timestep (uint_Timestep energy p))).
    intros energy. apply steps_on_lower_timestep.
  - intros _. apply steps_on_bind; [apply steps_on_get|]. intros s.
    apply steps_on_print.
Qed.

Lemma steps_on_advance_particles : steps_on advance_particles.
Proof.
  unfold advance_particles.
  repeat first
    [ apply steps_on_with_energy_equation; intros ?
    | apply steps_on_get | apply steps_on_the_sphint | apply steps_on_the_store
    | apply steps_on_the_sphneib | apply steps_on_on_sphdata
    | apply steps_on_on_store | apply steps_on_update_forces
    | apply steps_on_ret
    | apply steps_on_decide
    | apply steps_on_bind; [|intros ?] ].
Qed.

Lemma control_reset (s s' : Simulation.t FLOAT) (a : FLOAT) (b c : Z) :
  control s' = control s ->
  control (Simulation.set_time a (Simulation.set_Nsteps b (Simulation.set_n c s')))
  = control (Simulation.set_time a (Simulation.set_Nsteps b (Simulation.set_n c s))).
Proof.
  intros Hc. destruct s, s'. unfold control in *. cbn in *.
  injection Hc as Hpar Hn HN HNm Ho Hnd Hv Hb Ht Hte Hts Hdt Hid Hi Hf Hs.
  intros; subst. rewrite Hi, Hf, Hs. reflexivity.
Qed.

(** One step: the counters go up by one, the time by the timestep, and
    the rest of the control stays. *)
Lemma MainLoop_run (s : Simulation.t FLOAT) :
  ready s ->
  exists s',
    MainLoop s = Done tt s' /\ ready s' /\
    Simulation.n s' = Simulation.n s + 1 /\
    Simulation.Nsteps s' = Simulation.Nsteps s + 1 /\
    control
      (Simulation.set_time (Simulation.time s)
         (Simulation.set_Nsteps (Simulation.Nsteps s)
            (Simulation.set_n (Simulation.n s) s')))
    = control s.
Proof.
  intros Hs.
  destruct (steps_on_ComputeBlockTimesteps s Hs) as ([] & s1 & Hrun1 & Hc1 & Hsph1).
  pose proof (ready_control _ _ Hs Hc1 Hsph1) as Hs1.
  pose (s2 :=
          Simulation.set_time (fadd (Simulation.time s1) (Simulation.timestep s1))
            (Simulation.set_Nsteps (Simulation.Nsteps s1 + 1)
               (Simulation.set_n (Simulation.n s1 + 1) s1))).
  assert (Hs2 : ready s2).
  { destruct Hs1 as [Hk Ho]. destruct s1. exact (conj Hk Ho). }
  destruct (steps_on_advance_particles s2 Hs2) as ([] & s3 & Hrun3 & Hc3 & Hsph3).
  exists s3. split.
  { unfold MainLoop. rewrite (bind_done _ _ _ _ _ Hrun1).
    unfold advance_time, modify, bind at 1 2 3. exact Hrun3. }
  split; [exact (ready_control _ _ Hs2 Hc3 Hsph3)|].
  destruct (control_fields _ _ Hc3) as (_ & Hn & HN & _).
  destruct (control_fields _ _ Hc1) as (_ & Hn1 & HN1 & _).
  split; [rewrite Hn, <- Hn1; destruct s1; reflexivity|].
  split; [rewrite HN, <- HN1; destruct s1; reflexivity|].
  rewrite (control_reset _ _ _ _ _ Hc3).
  transitivity
    (control
       (Simulation.set_time (Simulation.time s)
          (Simulation.set_Nsteps (Simulation.Nsteps s)
             (Simulation.set_n (Simulation.n s) s1)))).
  { destruct s1; reflexivity. }
  rewrite (control_reset _ _ _ _ _ Hc1). destruct s; reflexivity.
Qed.

(** *** Output *)

Lemma Output_run (s : Simulation.t FLOAT) :
  ready s ->
  Output s
  = Done tt
      (if fge (Simulation.time s) (Simulation.tsnapnext s) then
         Simulation.set_snapshots
           (Simulation.snapshots s
            ++ [(snapshot_name (Simulation.run_id s)
                   (string_value "out_file_form" (Simulation.simparams s))
                   (Simulation.Noutsnap s + 1), "column")])
           (Simulation.set_tsnapnext
              (fadd (Simulation.tsnapnext s) (Simulation.dt_snap s))
              (Simulation.set_Noutsnap (Simulation.Noutsnap s + 1) s))
       else s).
Proof.
  intros [Hk _]. unfold Output, bind.
  rewrite stringparam_there
    by (apply default_string_there; [assumption | set_solver]).
  unfold get. destruct (fge _ _); [|reflexivity].
  unfold modify, WriteSnapshotFile, modify. destruct s; reflexivity.
Qed.

Lemma seqZ_one (m : Z) : seqZ m 1 = [m].
Proof. unfold seqZ. cbn. f_equal; lia. Qed.

Lemma seqZ_snoc (m n : Z) : 0 <= n -> seqZ m (n + 1) = seqZ m n ++ [m + n].
Proof. intros Hn. rewrite seqZ_app, seqZ_one by lia. reflexivity. Qed.

(** One pass of the loop of [Run]. *)
Lemma loop_pass_run (s : Simulation.t FLOAT) :
  ready s ->
  exists s' (j : Z),
    bind MainLoop (fun _ => Output) s = Done tt s' /\ ready s' /\
    Simulation.n s' = Simulation.n s + 1 /\
    Simulation.Nsteps s' = Simulation.Nsteps s + 1 /\
    0 <= j <= 1 /\
    Simulation.Noutsnap s' = Simulation.Noutsnap s + j /\
    Simulation.snapshots s'
    = Simulation.snapshots s
      ++ snapshot_files (Simulation.run_id s)
           (string_value "out_file_form" (Simulation.simparams s))
           (Simulation.Noutsnap s + 1) j /\
    same_settings s s'.
Proof.
  intros Hs.
  destruct (MainLoop_run s Hs) as (s1 & Hrun1 & Hs1 & Hn1 & HN1 & Hc1).
  assert (Hf : Simulation.Noutsnap s1 = Simulation.Noutsnap s /\
               Simulation.snapshots s1 = Simulation.snapshots s /\
               same_settings s s1).
  { destruct (control_fields _ _ Hc1)
      as (_ & _ & _ & HNm & Ho & Hnd & _ & Hte & _ & Hdt & Hid & _ & _ & _ & _
          & _ & _ & Hsn & Hpar).
    unfold same_settings. destruct s1; cbn in *. tauto. }
  destruct Hf as (Ho & Hsn & HNm & Hte & Hdt & Hid & Hnd & Hpar).
  unfold bind. rewrite Hrun1, (Output_run s1 Hs1).
  assert (Hform : string_value "out_file_form" (Simulation.simparams s1)
                  = string_value "out_file_form" (Simulation.simparams s)).
  { unfold string_value. destruct Hpar as (_ & _ & ->). reflexivity. }
  destruct (fge (Simulation.time s1) (Simulation.tsnapnext s1)).
  - eexists _, 1. split; [reflexivity|].
    split. { destruct Hs1 as [Hk Ho1]. exact (conj Hk Ho1). }
    rewrite Hform, Hid, Ho. cbn. rewrite Hsn, Hn1, HN1.
    unfold snapshot_files, same_settings. rewrite seqZ_one. cbn.
    split_and!; try lia; try assumption; reflexivity.
  - exists s1, 0. split; [reflexivity|]. split; [exact Hs1|].
    unfold snapshot_files, same_settings. cbn. rewrite app_nil_r.
    split_and!; try lia; try assumption; reflexivity.
Qed.

Lemma same_settings_refl (s : Simulation.t FLOAT) : same_settings s s.
Proof. unfold same_settings, same_parameters. tauto. Qed.

Lemma same_settings_trans (s1 s2 s3 : Simulation.t FLOAT) :
  same_settings s1 s2 -> same_settings s2 s3 -> same_settings s1 s3.
Proof.
  unfold same_settings, same_parameters.
  intros (-> & -> & -> & -> & -> & -> & -> & ->). tauto.
Qed.

Lemma same_settings_fileform (s s' : Simulation.t FLOAT) (key : string) :
  same_settings s s' ->
  string_value key (Simulation.simparams s')
  = string_value key (Simulation.simparams s).
Proof.
  intros (_ & _ & _ & _ & _ & _ & _ & Hs). unfold string_value.
  rewrite Hs. reflexivity.
Qed.

Lemma snapshot_files_app (run_id fileform : string) (first j1 j2 : Z) :
  0 <= j1 -> 0 <= j2 ->
  snapshot_files run_id fileform first j1
  ++ snapshot_files run_id fileform (first + j1) j2
  = snapshot_files run_id fileform first (j1 + j2).
Proof.
  intros H1 H2. unfold snapshot_files. rewrite seqZ_app, fmap_app by lia.
  reflexivity.
Qed.

(** The loop of [Run] with the fuel for the steps that are left. *)
Lemma run_loop_run (fuel : nat) (Ntarget : Z) (s : Simulation.t FLOAT) :
  ready s -> (Z.to_nat (Ntarget - Simulation.Nsteps s) <= fuel)%nat ->
  exists s' (k j : Z),
    run_loop fuel Ntarget s = Done tt s' /\ ready s' /\
    0 <= k <= Z.max 0 (Ntarget - Simulation.Nsteps s) /\
    0 <= j <= k /\
    Simulation.n s' = Simulation.n s + k /\
    Simulation.Nsteps s' = Simulation.Nsteps s + k /\
    Simulation.Noutsnap s' = Simulation.Noutsnap s + j /\
    Simulation.snapshots s'
    = Simulation.snapshots s
      ++ snapshot_files (Simulation.run_id s)
           (string_value "out_file_form" (Simulation.simparams s))
           (Simulation.Noutsnap s + 1) j /\
    same_settings s s' /\
    (flt (Simulation.time s') (Simulation.tend s') = false \/
     Ntarget <= Simulation.Nsteps s').
Proof.
  revert s. induction fuel as [|fuel IH]; intros s Hs Hfuel.
  - exists s, 0, 0. cbn [run_loop]. unfold bind, get.
    destruct (flt (Simulation.time s) (Simulation.tend s)) eqn:Hlt;
      [destruct (bool_decide_reflect (Simulation.Nsteps s < Ntarget))
         as [Hlt2|Hge]; [lia|] |];
      cbn [andb]; unfold snapshot_files; cbn; rewrite app_nil_r;
      (split_and!; try lia; auto using same_settings_refl; right; lia).
  - cbn [run_loop]. unfold bind at 1, get.
    destruct (flt (Simulation.time s) (Simulation.tend s)) eqn:Hlt;
      [destruct (bool_decide_reflect (Simulation.Nsteps s < Ntarget))
         as [Hlt2|Hge] |]; cbn [andb].
    + destruct (loop_pass_run s Hs)
        as (s1 & j1 & Hrun1 & Hs1 & Hn1 & HN1 & Hj1 & Ho1 & Hsn1 & Hset1).
      destruct (IH s1 Hs1 ltac:(lia))
        as (s2 & k & j2 & Hrun2 & Hs2 & Hk & Hj2 & Hn2 & HN2 & Ho2 & Hsn2
            & Hset2 & Hstop).
      exists s2, (1 + k), (j1 + j2).
      split.
      { unfold bind in Hrun1 |- *. destruct (MainLoop s) as [[] s0| | |];
          try discriminate. rewrite Hrun1. exact Hrun2. }
      split; [exact Hs2|].
      rewrite Hsn2, Hsn1, Ho1, <- app_assoc.
      rewrite (same_settings_fileform _ _ _ Hset1).
      destruct Hset1 as (HNm & Hte & Hdt & Hid & Hrest). rewrite Hid.
      replace (Simulation.Noutsnap s + j1 + 1)
        with (Simulation.Noutsnap s + 1 + j1) by lia.
      rewrite snapshot_files_app by lia.
      split_and!; try lia.
      * reflexivity.
      * eapply same_settings_trans; [|exact Hset2].
        unfold same_settings. tauto.
      * destruct Hstop as [Hstop|Hstop]; [left; exact Hstop | right; lia].
    + exists s, 0, 0. unfold ret, snapshot_files. cbn. rewrite app_nil_r.
      split_and!; try lia; auto using same_settings_refl.
    + exists s, 0, 0. unfold ret, snapshot_files. cbn. rewrite app_nil_r.
      split_and!; try lia; auto using same_settings_refl.
Qed.

(** *** CalculateDiagnostics *)

Lemma CalculateDiagnostics_run (s : Simulation.t FLOAT) (o : SphObject.t FLOAT) :
  Simulation.sph s = Some o ->
  exists s',
    CalculateDiagnostics s = Done tt s' /\
    Simulation.diag s'
    = diagnostics_of (Z.to_nat (Simulation.ndim s))
        (Sph.Nsph (SphObject.store o)) (Sph.sphdata (SphObject.store o))
        (Simulation.diag s) /\
    Simulation.sph s' = Simulation.sph s /\
    control (Simulation.set_diag (Simulation.diag s) s') = control s.
Proof.
  intros Hsph. unfold CalculateDiagnostics, the_store, the_sph.
  unfold bind, get, defined, ret, print, modify. rewrite Hsph.
  destruct (_ || _); eexists; (split; [reflexivity|]);
    destruct s; cbn; auto.
Qed.

(** *** ProcessParameters *)

Lemma bind_assoc {S A B C} (m : M S A) (f : A -> M S B) (k : B -> M S C)
    (s : S) :
  bind (bind m f) k s = bind m (fun a => bind (f a) k) s.
Proof. unfold bind. destruct (m s); reflexivity. Qed.

Lemma bind_modify {S B} (f : S -> S) (k : unit -> M S B) (s : S) :
  bind (modify f) k s = k tt (f s).
Proof. reflexivity. Qed.

Lemma bind_raise {S A B} (msg : string) (k : A -> M S B) (s : S) :
  bind (raise msg) k s = Abort msg s.
Proof. reflexivity. Qed.

Lemma bind_stringparam {B} (key : string)
    (k : string -> M (Simulation.t FLOAT) B) (s : Simulation.t FLOAT)
    (p : Parameters.t FLOAT) :
  Simulation.simparams s = p ->
  is_Some (Parameters.stringparams p !! key) ->
  bind (stringparam key) k s = k (string_value key p) s.
Proof.
  intros <- Hx. unfold bind. rewrite (stringparam_there _ _ Hx). reflexivity.
Qed.

Lemma bind_intparam {B} (key : string)
    (k : Z -> M (Simulation.t FLOAT) B) (s : Simulation.t FLOAT)
    (p : Parameters.t FLOAT) :
  Simulation.simparams s = p ->
  is_Some (Parameters.intparams p !! key) ->
  bind (intparam key) k s = k (default 0 (Parameters.intparams p !! key)) s.
Proof.
  intros <- Hx. unfold bind. rewrite (intparam_there _ _ Hx). reflexivity.
Qed.

Lemma bind_floatparam {B} (key : string)
    (k : FLOAT -> M (Simulation.t FLOAT) B) (s : Simulation.t FLOAT)
    (p : Parameters.t FLOAT) :
  Simulation.simparams s = p ->
  is_Some (Parameters.floatparams p !! key) ->
  bind (floatparam key) k s
  = k (default f_zero (Parameters.floatparams p !! key)) s.
Proof.
  intros <- Hx. unfold bind. rewrite (floatparam_there _ _ Hx). reflexivity.
Qed.

Lemma bind_on_the_sph {B} (f : SphObject.t FLOAT -> SphObject.t FLOAT)
    (k : unit -> M (Simulation.t FLOAT) B) (s : Simulation.t FLOAT)
    (o : SphObject.t FLOAT) :
  Simulation.sph s = Some o ->
  bind (on_the_sph f) k s = k tt (Simulation.set_sph (Some (f o)) s).
Proof.
  intros Hsph. unfold on_the_sph, the_sph, bind, get, defined, modify.
  rewrite Hsph. reflexivity.
Qed.

Lemma default_name_there (names : list string) (key : string) :
  bool_decide (key ∈ names) = true -> key ∈ names.
Proof. apply bool_decide_eq_true_1. Qed.

End SimulationFacts.

(** The reads of a parameter that [SetDefaultValues] assigns, one after
    the other, from the state [s] on. *)
Ltac known_name := apply default_name_there; vm_compute; reflexivity.

Ltac read_parameters s Hk :=
  repeat first
    [ rewrite bind_assoc
    | rewrite bind_modify
    | rewrite bind_raise
    | match goal with
      | |- context [bind (stringparam ?key) ?k ?S] =>
          rewrite (bind_stringparam key k S (Simulation.simparams s) eq_refl
                     (default_string_there _ key Hk ltac:(known_name)))
      | |- context [bind (intparam ?key) ?k ?S] =>
          rewrite (bind_intparam key k S (Simulation.simparams s) eq_refl
                     (default_int_there _ key Hk ltac:(known_name)))
      | |- context [bind (floatparam ?key) ?k ?S] =>
          rewrite (bind_floatparam key k S (Simulation.simparams s) eq_refl
                     (default_float_there _ key Hk ltac:(known_name)))
      | |- context [bind (on_the_sph ?f) ?k ?S] =>
          erewrite (bind_on_the_sph f k S) by reflexivity
      end ].

Section SetupFacts.
Context {FLOAT : Type} `{!FloatOps FLOAT} `{!StreamOps FLOAT}
  `{!FloatLit FLOAT} `{!NeibOps FLOAT} `{!SimFloat FLOAT} `{!FloatShow FLOAT}
  `{!SimOps FLOAT}.

(** What [ProcessParameters] assigns from the parameters [p]. *)
Lemma ProcessParameters_run (s : Simulation.t FLOAT) :
  default_keys (Simulation.simparams s) ->
  options_recognised (Simulation.simparams s) ->
  exists s',
    ProcessParameters s = Done tt s' /\ ready s' /\
    Simulation.simparams s' = Simulation.simparams s /\
    Simulation.paramfile s' = Simulation.paramfile s /\
    Simulation.n s' = Simulation.n s /\
    Simulation.Nsteps s' = Simulation.Nsteps s /\
    Simulation.time s' = Simulation.time s /\
    Simulation.snapshots s' = Simulation.snapshots s /\
    Simulation.Nstepsmax s'
    = default 0 (Parameters.intparams (Simulation.simparams s) !! "Nstepsmax") /\
    Simulation.run_id s' = string_value "run_id" (Simulation.simparams s).
Proof.
  intros Hk (Hsph & Hkern & Hneib & Hint & Heos).
  unfold ProcessParameters.
  read_parameters s Hk. rewrite (bool_decide_eq_true_2 _ Hsph).
  read_parameters s Hk. rewrite (bool_decide_eq_true_2 _ Hkern).
  read_parameters s Hk. rewrite (bool_decide_eq_true_2 _ Hneib).
  read_parameters s Hk. rewrite (bool_decide_eq_true_2 _ Hint).
  read_parameters s Hk.
  destruct Heos as [[Heos Hpec]|Hiso].
  - rewrite (bool_decide_eq_true_2 _ Heos).
    read_parameters s Hk. rewrite (bool_decide_eq_true_2 _ Hpec).
    read_parameters s Hk.
    unfold on_store. read_parameters s Hk.
    eexists. split; [reflexivity|]. cbn.
    split; [|tauto]. split; [exact Hk|].
    unfold objects_created; cbn. eauto.
  - rewrite Hiso. rewrite (bool_decide_eq_false_2 ("isothermal" = "energy_eqn"))
      by discriminate.
    read_parameters s Hk. rewrite (bool_decide_eq_true_2 _ Hiso).
    read_parameters s Hk.
    unfold on_store. read_parameters s Hk.
    eexists. split; [reflexivity|]. cbn.
    split; [|tauto]. split; [exact Hk|].
    unfold objects_created; cbn. rewrite Hiso. split_and!; eauto.
    discriminate.
Qed.

(** The first option that is not recognised ends the run. *)
Lemma ProcessParameters_raises (s : Simulation.t FLOAT) :
  default_keys (Simulation.simparams s) ->
  ~ options_recognised (Simulation.simparams s) ->
  exists name s',
    ProcessParameters s = Abort (unrecognised name (Simulation.simparams s)) s' /\
    name ∈ ["sph"; "kernel"; "neib_search"; "sph_integration"; "gas_eos";
            "energy_integration"].
Proof.
  intros Hk Hno. unfold ProcessParameters.
  read_parameters s Hk.
  destruct (decide (string_value "sph" (Simulation.simparams s) = "gradh"))
    as [Hsph|Hsph].
  2:{ rewrite (bool_decide_eq_false_2 _ Hsph). read_parameters s Hk.
      exists "sph". eexists. split; [reflexivity | set_solver]. }
  rewrite (bool_decide_eq_true_2 _ Hsph). read_parameters s Hk.
  destruct (decide (string_value "kernel" (Simulation.simparams s) = "m4"))
    as [Hkern|Hkern].
  2:{ rewrite (bool_decide_eq_false_2 _ Hkern). read_parameters s Hk.
      exists "kernel". eexists. split; [reflexivity | set_solver]. }
  rewrite (bool_decide_eq_true_2 _ Hkern). read_parameters s Hk.
  destruct (decide (string_value "neib_search" (Simulation.simparams s)
                    = "bruteforce")) as [Hneib|Hneib].
  2:{ rewrite (bool_decide_eq_false_2 _ Hneib). read_parameters s Hk.
      exists "neib_search". eexists. split; [reflexivity | set_solver]. }
  rewrite (bool_decide_eq_true_2 _ Hneib). read_parameters s Hk.
  destruct (decide (string_value "sph_integration" (Simulation.simparams s)
                    = "lfkdk")) as [Hint|Hint].
  2:{ rewrite (bool_decide_eq_false_2 _ Hint). read_parameters s Hk.
      exists "sph_integration". eexists. split; [reflexivity | set_solver]. }
  rewrite (bool_decide_eq_true_2 _ Hint). read_parameters s Hk.
  destruct (decide (string_value "gas_eos" (Simulation.simparams s)
                    = "energy_eqn")) as [Heos|Heos].
  - rewrite (bool_decide_eq_true_2 _ Heos). read_parameters s Hk.
    destruct (decide (string_value "energy_integration" (Simulation.simparams s)
                      = "PEC")) as [Hpec|Hpec].
    { exfalso. apply Hno. unfold options_recognised. tauto. }
    rewrite (bool_decide_eq_false_2 _ Hpec). read_parameters s Hk.
    exists "energy_integration". eexists. split; [reflexivity | set_solver].
  - rewrite (bool_decide_eq_false_2 _ Heos). read_parameters s Hk.
    destruct (decide (string_value "gas_eos" (Simulation.simparams s)
                      = "isothermal")) as [Hiso|Hiso].
    { exfalso. apply Hno. unfold options_recognised. tauto. }
    rewrite (bool_decide_eq_false_2 _ Hiso). read_parameters s Hk.
    exists "gas_eos". eexists. split; [reflexivity | set_solver].
Qed.

(** *** GenerateIC *)

Lemma GenerateIC_run (s : Simulation.t FLOAT) :
  ready s -> ic_recognised (Simulation.simparams s) ->
  exists s',
    GenerateIC s = Done tt s' /\ control s' = control s /\
    is_Some (Simulation.sph s').
Proof.
  intros Hs Hic. pose proof Hs as [Hk _]. unfold GenerateIC.
  assert (Hgen : forall ic, exists s',
             bind get (fun s0 : Simulation.t FLOAT =>
               on_store (ic (Simulation.simparams s0) (Simulation.simbox s0))) s
             = Done tt s' /\ control s' = control s /\
             is_Some (Simulation.sph s')).
  { intros ic. unfold bind at 1, get.
    destruct (steps_on_on_store
                (ic (Simulation.simparams s) (Simulation.simbox s)) s Hs)
      as ([] & s' & Hrun & Hc & Hsph). eauto. }
  unfold ic_recognised in Hic.
  read_parameters s Hk.
  destruct (bool_decide_reflect
              (string_value "ic" (Simulation.simparams s) = "random_cube"));
    [apply Hgen|].
  read_parameters s Hk.
  destruct (bool_decide_reflect
              (string_value "ic" (Simulation.simparams s) = "random_sphere"));
    [apply Hgen|].
  read_parameters s Hk.
  destruct (bool_decide_reflect
              (string_value "ic" (Simulation.simparams s) = "shocktube"));
    [apply Hgen|].
  read_parameters s Hk.
  destruct (bool_decide_reflect
              (string_value "ic" (Simulation.simparams s) = "khi"));
    [apply Hgen|].
  exfalso. set_solver.
Qed.

Lemma GenerateIC_raises (s : Simulation.t FLOAT) :
  default_keys (Simulation.simparams s) ->
  ~ ic_recognised (Simulation.simparams s) ->
  GenerateIC s = Abort (unrecognised "ic" (Simulation.simparams s)) s.
Proof.
  intros Hk Hic. unfold GenerateIC, ic_recognised in *.
  read_parameters s Hk.
  rewrite bool_decide_eq_false_2 by set_solver. read_parameters s Hk.
  rewrite bool_decide_eq_false_2 by set_solver. read_parameters s Hk.
  rewrite bool_decide_eq_false_2 by set_solver. read_parameters s Hk.
  rewrite bool_decide_eq_false_2 by set_solver. read_parameters s Hk.
  reflexivity.
Qed.

(** *** Setup *)

Lemma parameters_read_default_keys (content : string) (p : Parameters.t FLOAT) :
  default_keys p -> default_keys (parameters_read content p).
Proof.
  intros Hk. apply SetDefaultValues_default_keys in Hk.
  unfold parameters_read.
  pose proof (ParseLines_keys (getlines EmptyString content)
                (SetDefaultValues p)) as Hsame.
  rewrite for_each_modify in Hsame. cbn in Hsame.
  destruct Hsame as (Hi & Hf & Hs), Hk as (Hi' & Hf' & Hs').
  unfold default_keys. rewrite Hi, Hf, Hs. auto.
Qed.

Lemma read_parameters_run (content : string) (s : Simulation.t FLOAT) :
  read_parameters (Some content) s
  = Done tt
      (Simulation.set_simparams
         (parameters_read content (Simulation.simparams s)) s).
Proof.
  unfold read_parameters, on_simparams, bind, get, modify. cbn.
  rewrite for_each_modify. destruct s; reflexivity.
Qed.

Lemma read_parameters_exits (s : Simulation.t FLOAT) :
  exists s',
    read_parameters None s = Abort "exit(-1)" s' /\
    Parameters.cout (Simulation.simparams s')
    = Parameters.cout (Simulation.simparams s)
      ++ ["The specified parameter file: " +:+ Simulation.paramfile s
          +:+ " does not exist, aborting"].
Proof.
  unfold read_parameters, on_simparams, bind, get, modify. cbn.
  eexists. split; [reflexivity|]. destruct s; reflexivity.
Qed.

Lemma steps_on_setup_particles : steps_on setup_particles.
Proof.
  unfold setup_particles.
  repeat first
    [ apply steps_on_with_energy_equation; intros ?
    | apply steps_on_get | apply steps_on_the_sphint | apply steps_on_the_store
    | apply steps_on_the_sphneib | apply steps_on_on_sphdata
    | apply steps_on_on_store | apply steps_on_update_forces
    | apply steps_on_print
    | apply steps_on_intparam; known_name
    | apply steps_on_ret
    | apply steps_on_decide
    | apply steps_on_bind; [|intros ?] ].
Qed.

(** [Setup] on a file whose options are recognised. *)
Lemma Setup_run (content : string) (s : Simulation.t FLOAT) :
  default_keys (Simulation.simparams s) ->
  recognised (parameters_read content (Simulation.simparams s)) ->
  exists s',
    Setup (Some content) s = Done tt s' /\ ready s' /\
    same_parameters (parameters_read content (Simulation.simparams s))
      (Simulation.simparams s') /\
    Simulation.Noutsnap s' = 0 /\
    Simulation.tsnapnext s' = Simulation.dt_snap s' /\
    Simulation.n s' = Simulation.n s /\
    Simulation.Nsteps s' = Simulation.Nsteps s /\
    Simulation.time s' = Simulation.time s /\
    Simulation.snapshots s' = Simulation.snapshots s /\
    Simulation.Nstepsmax s'
    = default 0
        (Parameters.intparams
           (parameters_read content (Simulation.simparams s)) !! "Nstepsmax") /\
    Simulation.run_id s'
    = string_value "run_id" (parameters_read content (Simulation.simparams s)) /\
    Simulation.diag0 s' = Simulation.diag s'.
Proof.
  intros Hk [Hopt Hic].
  set (p := parameters_read content (Simulation.simparams s)) in *.
  pose (s1 := Simulation.set_simparams p s).
  assert (Hk1 : default_keys (Simulation.simparams s1))
    by exact (parameters_read_default_keys content _ Hk).
  destruct (ProcessParameters_run s1 Hk1 Hopt)
    as (s2 & Hrun2 & Hs2 & Hp2 & _ & Hn2 & HN2 & Ht2 & Hsn2 & HNm2 & Hid2).
  assert (Hic2 : ic_recognised (Simulation.simparams s2))
    by (rewrite Hp2; exact Hic).
  destruct (GenerateIC_run s2 Hs2 Hic2) as (s3 & Hrun3 & Hc3 & Hsph3).
  pose proof (ready_control _ _ Hs2 Hc3 Hsph3) as Hs3.
  pose (s4 := Simulation.set_tsnapnext (Simulation.dt_snap s3)
                (Simulation.set_Noutsnap 0 s3)).
  assert (Hs4 : ready s4) by exact Hs3.
  destruct (steps_on_setup_particles s4 Hs4) as ([] & s5 & Hrun5 & Hc5 & Hsph5).
  pose proof (ready_control _ _ Hs4 Hc5 Hsph5) as Hs5.
  destruct Hsph5 as [o Ho].
  destruct (CalculateDiagnostics_run s5 o Ho) as (s6 & Hrun6 & _ & Hsph6 & Hc6).
  assert (Hs6 : ready s6).
  { refine (ready_control _ _ Hs5 Hc6 _). cbn. rewrite Hsph6, Ho. eauto. }
  exists (Simulation.set_diag0 (Simulation.diag s6) s6). split.
  { unfold Setup.
    rewrite (bind_done _ _ _ _ _ (read_parameters_run content s)).
    rewrite (bind_done _ _ _ _ _ Hrun2), (bind_done _ _ _ _ _ Hrun3).
    unfold reset_output. rewrite bind_assoc, !bind_modify.
    rewrite (bind_done _ _ _ _ _ Hrun5), (bind_done _ _ _ _ _ Hrun6).
    reflexivity. }
  split; [exact Hs6|].
  destruct (control_fields _ _ Hc3)
    as (_ & Hn3 & HN3 & HNm3 & _ & _ & Ht3 & _ & _ & _ & Hid3 & _ & _ & _ & _
        & _ & _ & Hsn3 & Hi3 & Hf3 & Hst3).
  destruct (control_fields _ _ Hc5)
    as (_ & Hn5 & HN5 & HNm5 & Ho5 & _ & Ht5 & _ & Hts5 & Hdt5 & Hid5 & _ & _
        & _ & _ & _ & _ & Hsn5 & Hi5 & Hf5 & Hst5).
  destruct (control_fields _ _ Hc6)
    as (_ & Hn6 & HN6 & HNm6 & Ho6 & _ & Ht6 & _ & Hts6 & Hdt6 & Hid6 & _ & _
        & _ & _ & _ & _ & Hsn6 & Hi6 & Hf6 & Hst6).
  cbn in *. unfold same_parameters.
  rewrite Hi6, Hf6, Hst6, Hi5, Hf5, Hst5, Hi3, Hf3, Hst3, Hp2.
  rewrite Hn6, Hn5, Hn3, Hn2, HN6, HN5, HN3, HN2, Ht6, Ht5, Ht3, Ht2.
  rewrite Hsn6, Hsn5, Hsn3, Hsn2, HNm6, HNm5, HNm3, HNm2, Ho6, Ho5, Hts6, Hts5.
  rewrite Hdt6, Hdt5, Hid6, Hid5, Hid3, Hid2.
  split_and!; reflexivity.
Qed.

Lemma options_recognised_or_not (p : Parameters.t FLOAT) :
  options_recognised p \/ ~ options_recognised p.
Proof.
  unfold options_recognised.
  destruct (decide (string_value "sph" p = "gradh")); [|tauto].
  destruct (decide (string_value "kernel" p = "m4")); [|tauto].
  destruct (decide (string_value "neib_search" p = "bruteforce")); [|tauto].
  destruct (decide (string_value "sph_integration" p = "lfkdk")); [|tauto].
  destruct (decide (string_value "gas_eos" p = "energy_eqn"));
    destruct (decide (string_value "energy_integration" p = "PEC"));
    destruct (decide (string_value "gas_eos" p = "isothermal")); tauto.
Qed.

(** [Setup] on a file with an option that is not recognised. *)
Lemma Setup_raises (content : string) (s : Simulation.t FLOAT) :
  default_keys (Simulation.simparams s) ->
  ~ recognised (parameters_read content (Simulation.simparams s)) ->
  exists name s',
    Setup (Some content) s
    = Abort
        (unrecognised name (parameters_read content (Simulation.simparams s)))
        s' /\
    name ∈ ["sph"; "kernel"; "neib_search"; "sph_integration"; "gas_eos";
            "energy_integration"; "ic"].
Proof.
  intros Hk Hno.
  set (p := parameters_read content (Simulation.simparams s)) in *.
  pose (s1 := Simulation.set_simparams p s).
  assert (Hk1 : default_keys (Simulation.simparams s1))
    by exact (parameters_read_default_keys content _ Hk).
  unfold Setup. rewrite (bind_done _ _ _ _ _ (read_parameters_run content s)).
  destruct (options_recognised_or_not p) as [Hopt|Hopt].
  - destruct (ProcessParameters_run s1 Hk1 Hopt)
      as (s2 & Hrun2 & [Hk2 _] & Hp2 & _).
    rewrite (bind_done _ _ _ _ _ Hrun2).
    assert (Hic : ~ ic_recognised (Simulation.simparams s2)).
    { rewrite Hp2. intros Hic. apply Hno. split; assumption. }
    exists "ic", s2. split; [|set_solver].
    pose proof (GenerateIC_raises s2 Hk2 Hic) as Hrun3.
    change (Simulation.simparams s1) with p in Hp2. rewrite Hp2 in Hrun3.
    exact (bind_abort _ _ _ _ _ Hrun3).
  - destruct (ProcessParameters_raises s1 Hk1 Hopt) as (name & s2 & Hrun2 & Hin).
    exists name, s2. split; [|set_solver].
    exact (bind_abort _ _ _ _ _ Hrun2).
Qed.

End SetupFacts.

Section RunFacts.
Context {FLOAT : Type} `{!FloatOps FLOAT} `{!StreamOps FLOAT}
  `{!FloatLit FLOAT} `{!NeibOps FLOAT} `{!SimFloat FLOAT} `{!FloatShow FLOAT}
  `{!SimOps FLOAT}.

(** [Run] with the fuel for the steps up to the target. *)
Lemma Run_run (fuel : nat) (Nadvance : Z) (s : Simulation.t FLOAT) :
  ready s ->
  (Z.to_nat (Ntarget_of Nadvance s - Simulation.Nsteps s) <= fuel)%nat ->
  exists s' (k j : Z),
    Run fuel Nadvance s = Done tt s' /\ ready s' /\
    0 <= k <= Z.max 0 (Ntarget_of Nadvance s - Simulation.Nsteps s) /\
    0 <= j <= k /\
    Simulation.n s' = Simulation.n s + k /\
    Simulation.Nsteps s' = Simulation.Nsteps s + k /\
    Simulation.Noutsnap s' = Simulation.Noutsnap s + j /\
    Simulation.snapshots s'
    = Simulation.snapshots s
      ++ snapshot_files (Simulation.run_id s)
           (string_value "out_file_form" (Simulation.simparams s))
           (Simulation.Noutsnap s + 1) j /\
    same_settings s s' /\
    (flt (Simulation.time s') (Simulation.tend s') = false \/
     Ntarget_of Nadvance s <= Simulation.Nsteps s').
Proof.
  intros Hs Hfuel.
  destruct (run_loop_run fuel (Ntarget_of Nadvance s) s Hs Hfuel)
    as (s1 & k & j & Hrun1 & Hs1 & Hk & Hj & Hn1 & HN1 & Ho1 & Hsn1 & Hset1
        & Hstop).
  pose proof Hs1 as [_ ([o Ho] & _)].
  destruct (CalculateDiagnostics_run s1 o Ho) as (s2 & Hrun2 & _ & Hsph2 & Hc2).
  assert (Hs2 : ready s2).
  { refine (ready_control _ _ Hs1 Hc2 _). cbn. rewrite Hsph2, Ho. eauto. }
  eexists _, k, j. split.
  { unfold Run. unfold bind at 1, get.
    rewrite (bind_done _ _ _ _ _ Hrun1), (bind_done _ _ _ _ _ Hrun2).
    unfold bind, get, print, modify. reflexivity. }
  destruct (control_fields _ _ Hc2)
    as (_ & Hn2 & HN2 & HNm2 & Ho2 & Hnd2 & Ht2 & Hte2 & _ & Hdt2 & Hid2 & _
        & _ & _ & _ & _ & _ & Hsn2 & Hi2 & Hf2 & Hst2).
  cbn in *.
  destruct Hset1 as (HNm1 & Hte1 & Hdt1 & Hid1 & Hnd1 & Hi1 & Hf1 & Hst1).
  split; [exact Hs2|].
  unfold same_settings, same_parameters. cbn.
  rewrite Hn2, HN2, Ho2, Hsn2, HNm2, Hte2, Hdt2, Hid2, Hnd2, Ht2, Hi2, Hf2, Hst2.
  split_and!; try assumption; lia.
Qed.

(** X14.  [Run] returns on a simulation that has been set up, given the fuel for
    the steps up to the target, which is [Nstepsmax] for a negative
    [Nadvance] and [Nsteps + Nadvance] otherwise.  It takes no more steps
    than the target is away (none if the target is behind), [n] and [Nsteps]
    go up by the number of steps taken, and at the end [t < tend] is false
    or [Nsteps] has reached the target.  The simulation can then be run
    again. *)
Theorem Run_stops_within_the_target (fuel : nat) (Nadvance : Z)
    (s : Simulation.t FLOAT) :
  ready s ->
  (Z.to_nat (Ntarget_of Nadvance s - Simulation.Nsteps s) <= fuel)%nat ->
  exists s',
    Run fuel Nadvance s = Done tt s' /\
    (let steps := Simulation.Nsteps s' - Simulation.Nsteps s in
     0 <= steps <= Z.max 0 (Ntarget_of Nadvance s - Simulation.Nsteps s) /\
     Simulation.n s' = Simulation.n s + steps) /\
    (flt (Simulation.time s') (Simulation.tend s) = false \/
     Ntarget_of Nadvance s <= Simulation.Nsteps s') /\
    ready s'.
Proof.
  intros Hs Hfuel.
  destruct (Run_run fuel Nadvance s Hs Hfuel)
    as (s' & k & j & Hrun & Hs' & Hk & Hj & Hn & HN & _ & _ & Hset & Hstop).
  exists s'. split; [exact Hrun|].
  destruct Hset as (_ & Hte & _). rewrite <- Hte.
  replace (Simulation.Nsteps s' - Simulation.Nsteps s) with k by lia.
  cbv zeta. tauto.
Qed.

(** X15.  A run writes at most one snapshot for each step it takes, however far
    the time has gone past [tsnapnext], and numbers them on from [Noutsnap]
    without a gap: the files are [run_id.out_file_form.NNNNN] for
    [Noutsnap + 1], [Noutsnap + 2], ..., all written in the format
    "column". *)
Theorem Run_numbers_snapshots_in_sequence (fuel : nat) (Nadvance : Z)
    (s : Simulation.t FLOAT) :
  ready s ->
  (Z.to_nat (Ntarget_of Nadvance s - Simulation.Nsteps s) <= fuel)%nat ->
  exists s' (written : Z),
    Run fuel Nadvance s = Done tt s' /\
    0 <= written <= Simulation.Nsteps s' - Simulation.Nsteps s /\
    Simulation.Noutsnap s' = Simulation.Noutsnap s + written /\
    Simulation.snapshots s'
    = Simulation.snapshots s
      ++ snapshot_files (Simulation.run_id s)
           (string_value "out_file_form" (Simulation.simparams s))
           (Simulation.Noutsnap s + 1) written.
Proof.
  intros Hs Hfuel.
  destruct (Run_run fuel Nadvance s Hs Hfuel)
    as (s' & k & j & Hrun & _ & Hk & Hj & _ & HN & Ho & Hsn & _).
  exists s', j. split; [exact Hrun|]. split; [lia|]. split; assumption.
Qed.

End RunFacts.

Section LifeFacts.
Context {FLOAT : Type} `{!FloatOps FLOAT} `{!StreamOps FLOAT}
  `{!FloatLit FLOAT} `{!NeibOps FLOAT} `{!SimFloat FLOAT} `{!FloatShow FLOAT}
  `{!SimOps FLOAT}.

(** X16.  [Setup] ends the run with "exit(-1)" if the parameter file cannot be
    opened.  Otherwise it returns exactly when the parameters, read over the
    defaults, name options that the code knows ([sph], [kernel],
    [neib_search], [sph_integration], [gas_eos], with it
    [energy_integration], and [ic]); if one does not, the run ends with
    "Unrecognised parameter" for it.  When [Setup] returns, the objects that
    a step uses exist, the snapshot counter is 0 and the next snapshot time
    is [dt_snap]; [n], [Nsteps] and [t] are not reset. *)
Theorem Setup_returns_iff_options_are_recognised (file : option string)
    (s : Simulation.t FLOAT) :
  default_keys (Simulation.simparams s) ->
  match file with
  | None => exists s', Setup None s = Abort "exit(-1)" s'
  | Some content =>
      let p := parameters_read content (Simulation.simparams s) in
      (recognised p ->
       exists s',
         Setup (Some content) s = Done tt s' /\ ready s' /\
         Simulation.Noutsnap s' = 0 /\
         Simulation.tsnapnext s' = Simulation.dt_snap s' /\
         Simulation.n s' = Simulation.n s /\
         Simulation.Nsteps s' = Simulation.Nsteps s /\
         Simulation.time s' = Simulation.time s) /\
      (~ recognised p ->
       exists name s',
         Setup (Some content) s = Abort (unrecognised name p) s' /\
         name ∈ ["sph"; "kernel"; "neib_search"; "sph_integration"; "gas_eos";
                 "energy_integration"; "ic"])
  end.
Proof.
  intros Hk. destruct file as [content|].
  - split.
    + intros Hrec.
      destruct (Setup_run content s Hk Hrec)
        as (s' & Hrun & Hs' & _ & Ho & Hts & Hn & HN & Ht & _).
      exists s'. tauto.
    + apply Setup_raises, Hk.
  - destruct (read_parameters_exits s) as (s' & Hrun & _).
    exists s'. exact (bind_abort _ _ _ _ _ Hrun).
Qed.

(** X17.  [Setup] and then [Run]: with recognised options and the fuel for the
    steps, both return.  No read of a parameter has added a name or changed
    a value (the parameters are those read from the file over the
    defaults), and the snapshots of the run are numbered from 1, whatever
    was written before. *)
Theorem Setup_then_Run_numbers_snapshots_from_one (content : string)
    (fuel : nat) (Nadvance : Z) (s : Simulation.t FLOAT) :
  let p := parameters_read content (Simulation.simparams s) in
  let Ntarget :=
    if decide (Nadvance < 0)
    then default 0 (Parameters.intparams p !! "Nstepsmax")
    else Simulation.Nsteps s + Nadvance in
  default_keys (Simulation.simparams s) -> recognised p ->
  (Z.to_nat (Ntarget - Simulation.Nsteps s) <= fuel)%nat ->
  exists s1 s2 (written : Z),
    Setup (Some content) s = Done tt s1 /\
    Run fuel Nadvance s1 = Done tt s2 /\
    same_parameters p (Simulation.simparams s2) /\
    Simulation.Noutsnap s2 = written /\
    Simulation.snapshots s2
    = Simulation.snapshots s
      ++ snapshot_files (string_value "run_id" p)
           (string_value "out_file_form" p) 1 written.
Proof.
  intros p Ntarget Hk Hrec Hfuel.
  destruct (Setup_run content s Hk Hrec)
    as (s1 & Hrun1 & Hs1 & Hp1 & Ho1 & _ & _ & HN1 & _ & Hsn1 & HNm1 & Hid & _).
  fold p in Hp1, HNm1, Hid.
  assert (Htarget : Ntarget_of Nadvance s1 = Ntarget).
  { unfold Ntarget_of, Ntarget. rewrite HNm1, HN1. reflexivity. }
  destruct (Run_run fuel Nadvance s1 Hs1 ltac:(rewrite Htarget, HN1; exact Hfuel))
    as (s2 & k & j & Hrun2 & _ & _ & Hj & _ & _ & Ho2 & Hsn2 & Hset & _).
  exists s1, s2, j. split; [exact Hrun1|]. split; [exact Hrun2|].
  destruct Hset as (_ & _ & _ & _ & _ & Hi & Hf & Hst).
  destruct Hp1 as (Hi1 & Hf1 & Hst1).
  split. { unfold same_parameters. rewrite Hi, Hf, Hst. tauto. }
  split; [lia|].
  rewrite Hsn2, Hsn1, Ho1, Hid.
  replace (string_value "out_file_form" (Simulation.simparams s1))
    with (string_value "out_file_form" p)
    by (unfold string_value; rewrite Hst1; reflexivity).
  reflexivity.
Qed.

Lemma angmom_add_to_diagnostics (ndim : nat) (p : Particle.t FLOAT)
    (d : Diagnostics.t FLOAT) :
  Diagnostics.angmom (add_to_diagnostics ndim p d) = Diagnostics.angmom d.
Proof. reflexivity. Qed.

Lemma angmom_diagnostics_of (ndim : nat) (Nsph : Z)
    (sphdata : list (Particle.t FLOAT)) (d : Diagnostics.t FLOAT) :
  Diagnostics.angmom (diagnostics_of ndim Nsph sphdata d)
  = vec_loop 3 (fun _ _ => f_zero) (Diagnostics.angmom d).
Proof.
  unfold diagnostics_of. cbn.
  generalize (take (Z.to_nat Nsph) sphdata). intros l.
  set (d0 := Diagnostics.mk _ _ _ _ _ _ _ _).
  change (vec_loop 3 (fun _ _ => f_zero) (Diagnostics.angmom d))
    with (Diagnostics.angmom d0).
  generalize d0. clear d0.
  induction l as [|p l IH]; intros d0; cbn; [reflexivity|].
  rewrite IH. apply angmom_add_to_diagnostics.
Qed.

(** X18.  [CalculateDiagnostics] sets the angular momentum to zero and never
    adds to it: whatever the particles are, its three components are 0
    afterwards. *)
Theorem CalculateDiagnostics_leaves_angmom_zero (s : Simulation.t FLOAT)
    (o : SphObject.t FLOAT) :
  Simulation.sph s = Some o ->
  exists s',
    CalculateDiagnostics s = Done tt s' /\
    length (Diagnostics.angmom (Simulation.diag s'))
    = length (Diagnostics.angmom (Simulation.diag s)) /\
    forall (k : nat) (x : FLOAT),
      (k < 3)%nat ->
      Diagnostics.angmom (Simulation.diag s') !! k = Some x -> x = f_zero.
Proof.
  intros Hsph.
  destruct (CalculateDiagnostics_run s o Hsph) as (s' & Hrun & Hd & _).
  exists s'. split; [exact Hrun|].
  rewrite Hd, angmom_diagnostics_of. split; [apply length_vec_loop|].
  intros k x Hk. rewrite lookup_vec_loop.
  destruct (Diagnostics.angmom (Simulation.diag s) !! k); cbn; [|discriminate].
  rewrite decide_True by exact Hk. congruence.
Qed.

End LifeFacts.

(** *** The worked example *)

Section SimExamples.
Import Worked ParamsExample SimExample.
#[local] Existing Instances ZFloat ZNeib ZLit ZStream ZSimFloat ZShow ZSimOps.

Lemma fresh_default_keys : default_keys (Simulation.simparams fresh).
Proof. exact Parameters_new_default_keys. Qed.

Lemma run_file_recognised :
  recognised (parameters_read run_file (Simulation.simparams fresh)).
Proof.
  split; [split_and!; try (vm_compute; reflexivity);
          right; vm_compute; reflexivity|].
  unfold ic_recognised.
  replace (string_value "ic" _) with "random_cube" by (vm_compute; reflexivity).
  set_solver.
Qed.

Lemma bad_file_not_recognised :
  ~ recognised (parameters_read bad_file (Simulation.simparams fresh)).
Proof.
  intros [(_ & _ & _ & _ & [[Heos _]|Heos]) _];
    vm_compute in Heos; discriminate.
Qed.

Lemma set_up_ready : ready set_up.
Proof.
  destruct (Setup_run run_file fresh fresh_default_keys run_file_recognised)
    as (s' & Hrun & Hs' & _).
  unfold set_up. rewrite Hrun. exact Hs'.
Qed.

Lemma Run_stops_within_the_target_witness :
  exists s',
    Run 2 2 set_up = Done tt s' /\
    (let steps := Simulation.Nsteps s' - Simulation.Nsteps set_up in
     0 <= steps
     <= Z.max 0 (Ntarget_of 2 set_up - Simulation.Nsteps set_up) /\
     Simulation.n s' = Simulation.n set_up + steps) /\
    (flt (Simulation.time s') (Simulation.tend set_up) = false \/
     Ntarget_of 2 set_up <= Simulation.Nsteps s') /\
    ready s'.
Proof.
  apply (Run_stops_within_the_target 2 2 set_up set_up_ready).
  vm_compute. lia.
Defined.

Lemma Run_numbers_snapshots_in_sequence_witness :
  exists s' (written : Z),
    Run 2 2 set_up = Done tt s' /\
    0 <= written <= Simulation.Nsteps s' - Simulation.Nsteps set_up /\
    Simulation.Noutsnap s' = Simulation.Noutsnap set_up + written /\
    Simulation.snapshots s'
    = Simulation.snapshots set_up
      ++ snapshot_files (Simulation.run_id set_up)
           (string_value "out_file_form" (Simulation.simparams set_up))
           (Simulation.Noutsnap set_up + 1) written.
Proof.
  apply (Run_numbers_snapshots_in_sequence 2 2 set_up set_up_ready).
  vm_compute. lia.
Defined.

Lemma Setup_returns_iff_options_are_recognised_witness :
  let p := parameters_read bad_file (Simulation.simparams fresh) in
  (recognised p ->
   exists s',
     Setup (Some bad_file) fresh = Done tt s' /\ ready s' /\
     Simulation.Noutsnap s' = 0 /\
     Simulation.tsnapnext s' = Simulation.dt_snap s' /\
     Simulation.n s' = Simulation.n fresh /\
     Simulation.Nsteps s' = Simulation.Nsteps fresh /\
     Simulation.time s' = Simulation.time fresh) /\
  (~ recognised p ->
   exists name s',
     Setup (Some bad_file) fresh = Abort (unrecognised name p) s' /\
     name ∈ ["sph"; "kernel"; "neib_search"; "sph_integration"; "gas_eos";
             "energy_integration"; "ic"]).
Proof.
  exact (Setup_returns_iff_options_are_recognised (Some bad_file) fresh
           fresh_default_keys).
Defined.

Lemma Setup_then_Run_numbers_snapshots_from_one_witness :
  exists s1 s2 (written : Z),
    Setup (Some run_file) fresh = Done tt s1 /\
    Run 4 4 s1 = Done tt s2 /\
    same_parameters (parameters_read run_file (Simulation.simparams fresh))
      (Simulation.simparams s2) /\
    Simulation.Noutsnap s2 = written /\
    Simulation.snapshots s2
    = Simulation.snapshots fresh
      ++ snapshot_files
           (string_value "run_id"
              (parameters_read run_file (Simulation.simparams fresh)))
           (string_value "out_file_form"
              (parameters_read run_file (Simulation.simparams fresh)))
           1 written.
Proof.
  apply (Setup_then_Run_numbers_snapshots_from_one run_file 4 4 fresh
           fresh_default_keys run_file_recognised).
  vm_compute. lia.
Defined.

Lemma CalculateDiagnostics_leaves_angmom_zero_witness :
  exists s',
    CalculateDiagnostics set_up = Done tt s' /\
    length (Diagnostics.angmom (Simulation.diag s'))
    = length (Diagnostics.angmom (Simulation.diag set_up)) /\
    forall (k : nat) (x : Z),
      (k < 3)%nat ->
      Diagnostics.angmom (Simulation.diag s') !! k = Some x -> x = f_zero.
Proof.
  refine (CalculateDiagnostics_leaves_angmom_zero set_up
            (default (new_GradhSph 0 0 0) (Simulation.sph set_up)) _).
  vm_compute. reflexivity.
Defined.

(** The run of the example: the time passes the end time 1.0 in the fourth
    step of 0.3, and each step writes one snapshot, although snapshots are
    due every 0.1. *)
Example Run_of_the_example :
  let r := Run 4 (-1) set_up in
  outcome r = "returned" /\
  Simulation.Nsteps (left_by r set_up) = 4 /\
  Simulation.time (left_by r set_up) = 12 /\
  Simulation.snapshots (left_by r set_up)
  = [("RUN1.ascii.00001", "column"); ("RUN1.ascii.00002", "column");
     ("RUN1.ascii.00003", "column"); ("RUN1.ascii.00004", "column")].
Proof. cbv zeta. split_and!; vm_compute; reflexivity. Qed.

(** The file with the unknown equation of state ends the run. *)
Example Setup_of_the_bad_file :
  outcome (Setup (Some bad_file) fresh)
  = "Unrecognised parameter : gas_eos = polytropic".
Proof. vm_compute. reflexivity. Qed.

End SimExamples.


(** ** The walks of the searches *)

Section WalkFacts.
Context {FLOAT : Type} `{!FloatOps FLOAT} `{!GeomOps FLOAT}.

(** A chain that ends is walked particle by particle. *)
Lemma chain_loop_for_each {S} (inext : list Z) (visit : Z -> M S unit)
    (ilast : Z) :
  forall n fuel i s,
    chain_ok n inext ilast i -> (n <= fuel)%nat ->
    chain_loop fuel inext visit ilast i s
    = for_each (chain_ids n inext ilast i) visit s.
Proof.
  induction n as [|n IH]; intros fuel i s Hok Hfuel; [destruct Hok|].
  destruct fuel as [|fuel]; [lia|].
  cbn [chain_loop chain_ids].
  destruct (decide (i = -1)) as [|Hi]; [reflexivity|].
  cbn [for_each]. unfold bind at 1 3.
  destruct (visit i s) as [[] s1| | |]; try reflexivity.
  destruct (decide (i = ilast)) as [|Hl]; [reflexivity|].
  destruct Hok as [?|[?|(i' & Hnext & Hok)]]; [contradiction..|].
  rewrite Hnext. unfold bind. cbn [defined ret].
  apply IH; [exact Hok|lia].
Qed.

Lemma chain_ids_within (len : nat) (inext : list Z) (ilast : Z) :
  Forall (fun i => i = -1 \/ 0 <= i < Z.of_nat len) inext ->
  forall n i,
    i = -1 \/ 0 <= i < Z.of_nat len ->
    Forall (fun i => 0 <= i < Z.of_nat len) (chain_ids n inext ilast i).
Proof.
  intros Hnext. induction n as [|n IH]; intros i Hi; cbn; [constructor|].
  destruct (decide (i = -1)); [constructor|].
  constructor; [lia|].
  destruct (decide (i = ilast)); [constructor|].
  destruct (zget inext i) as [i'|] eqn:Hi'; [|constructor].
  apply IH. unfold zget in Hi'. destruct (decide (0 <= i)); [|discriminate].
  rewrite Forall_forall in Hnext. apply Hnext.
  eapply list_elem_of_lookup_2. exact Hi'.
Qed.

Lemma tree_ok_cells_ok (n : nat) (t : Tree.t FLOAT) (Ncell : Z) :
  tree_ok n t -> Ncell <= Tree.Ncell t -> cells_ok Ncell t.
Proof.
  intros (Hlen & _ & Hcells) Hle. split; [lia|].
  intros c cell Hc Hcell. apply (Hcells c cell); [lia|exact Hcell].
Qed.

Lemma zget_defined {A} (l : list A) (c : Z) :
  0 <= c < Z.of_nat (length l) -> exists x, zget l c = Some x.
Proof.
  intros Hc. unfold zget. rewrite decide_True by lia.
  apply lookup_lt_is_Some. lia.
Qed.

(** A walk that has the fuel comes to its leaves in turn. *)
Lemma walk_cells_for_each {S} (Ncell : Z) (t : Tree.t FLOAT)
    (overlap : TreeCell.t FLOAT -> bool)
    (leaf : Z -> TreeCell.t FLOAT -> M S unit) :
  cells_ok Ncell t ->
  forall fuel c s,
    0 <= c -> (Z.to_nat (Ncell - c) < fuel)%nat ->
    walk_cells fuel Ncell t overlap leaf c s
    = for_each (walk_leaves fuel Ncell t overlap c) (fun cc => leaf cc.1 cc.2) s.
Proof.
  intros (Hlen & Hnext).
  induction fuel as [|fuel IH]; intros c s Hc Hfuel; [lia|].
  cbn [walk_cells walk_leaves].
  destruct (decide (c < Ncell)) as [Hlt|]; [|reflexivity].
  destruct (zget_defined (Tree.celldata t) c ltac:(lia)) as (cell & Hcell).
  rewrite Hcell. unfold bind at 1. cbn [defined ret].
  pose proof (Hnext c cell ltac:(lia) Hcell) as Hfwd.
  destruct (overlap cell).
  - destruct (decide (TreeCell.level cell <> Tree.ltot t)) as [|Hleaf].
    { apply IH; lia. }
    destruct (decide (TreeCell.N cell = 0)).
    { apply IH; lia. }
    rewrite decide_True by (destruct (decide (TreeCell.level cell = Tree.ltot t));
                            [assumption|contradiction]).
    cbn [for_each fst snd]. unfold bind.
    destruct (leaf c cell s) as [[] s1| | |]; try reflexivity.
    apply IH; lia.
  - apply IH; lia.
Qed.

(** The leaves of a walk: they overlap, they hold particles, and no cell
    comes twice. *)
Lemma walk_leaves_spec (Ncell : Z) (t : Tree.t FLOAT)
    (overlap : TreeCell.t FLOAT -> bool) :
  cells_ok Ncell t ->
  forall fuel c,
    0 <= c ->
    Forall (fun cc =>
              c <= cc.1 < Ncell /\
              zget (Tree.celldata t) cc.1 = Some cc.2 /\
              overlap cc.2 = true /\
              TreeCell.level cc.2 = Tree.ltot t /\
              TreeCell.N cc.2 <> 0)
      (walk_leaves fuel Ncell t overlap c) /\
    increasing (walk_leaves fuel Ncell t overlap c).*1.
Proof.
  intros (Hlen & Hnext).
  assert (Hweaken : forall c c' (l : list (Z * TreeCell.t FLOAT)),
             c <= c' ->
             Forall (fun cc =>
                       c' <= cc.1 < Ncell /\
                       zget (Tree.celldata t) cc.1 = Some cc.2 /\
                       overlap cc.2 = true /\
                       TreeCell.level cc.2 = Tree.ltot t /\
                       TreeCell.N cc.2 <> 0) l ->
             Forall (fun cc =>
                       c <= cc.1 < Ncell /\
                       zget (Tree.celldata t) cc.1 = Some cc.2 /\
                       overlap cc.2 = true /\
                       TreeCell.level cc.2 = Tree.ltot t /\
                       TreeCell.N cc.2 <> 0) l).
  { intros c c' l Hle HF. eapply Forall_impl; [exact HF|].
    intros cc (? & ?). split; [lia|assumption]. }
  induction fuel as [|fuel IH]; intros c Hc; cbn [walk_leaves].
  { split; [constructor|exact I]. }
  destruct (decide (c < Ncell)) as [Hlt|]; [|split; [constructor|exact I]].
  destruct (zget (Tree.celldata t) c) as [cell|] eqn:Hcell;
    [|split; [constructor|exact I]].
  pose proof (Hnext c cell ltac:(lia) Hcell) as Hfwd.
  destruct (overlap cell) eqn:Hov.
  - destruct (decide (TreeCell.level cell <> Tree.ltot t)) as [|Hleaf].
    { destruct (IH (c + 1) ltac:(lia)) as (A & B).
      split; [eapply Hweaken; [|exact A]; lia|exact B]. }
    destruct (decide (TreeCell.N cell = 0)).
    { destruct (IH (TreeCell.cnext cell) ltac:(lia)) as (A & B).
      split; [eapply Hweaken; [|exact A]; lia|exact B]. }
    destruct (IH (TreeCell.cnext cell) ltac:(lia)) as (A & B).
    split.
    + constructor.
      * cbn. repeat split; try assumption; try lia.
      * eapply Hweaken; [|exact A]. lia.
    + cbn [fmap list_fmap fst increasing]. split; [|exact B].
      destruct (walk_leaves fuel Ncell t overlap (TreeCell.cnext cell))
        as [|[c' cell'] l] eqn:Hl; [exact I|].
      cbn. inversion A as [|? ? (Hc' & _) _]; subst. cbn in Hc'. lia.
  - destruct (IH (TreeCell.cnext cell) ltac:(lia)) as (A & B).
    split; [eapply Hweaken; [|exact A]; lia|exact B].
Qed.

End WalkFacts.

(** ** SearchMpiGhostParticles *)

Section MpiGhostFacts.
Context {FLOAT : Type} `{!FloatOps FLOAT} `{!GeomOps FLOAT}.

Lemma export_ghosts_run (ids : list Z) :
  forall s,
    for_each ids export_ghost s
    = Done tt (mkGhostExport (export_list s ++ ids)
                 (Nexport s + Z.of_nat (length ids))).
Proof.
  induction ids as [|i ids IH]; intros [l n]; cbn [for_each].
  - cbn. rewrite app_nil_r, Z.add_0_r. reflexivity.
  - unfold bind, export_ghost, modify. rewrite IH. cbn.
    rewrite <- app_assoc. do 2 f_equal. lia.
Qed.

Lemma ghost_leaves_run (n fuel : nat) (inext : list Z)
    (leaves : list (Z * TreeCell.t FLOAT)) :
  (n <= fuel)%nat ->
  Forall (fun cc => chain_ok n inext (TreeCell.ilast cc.2) (TreeCell.ifirst cc.2))
    leaves ->
  forall s, exists new,
    for_each leaves
      (fun cc => chain_loop fuel inext export_ghost
                   (TreeCell.ilast cc.2) (TreeCell.ifirst cc.2)) s
    = Done tt (mkGhostExport (export_list s ++ new)
                 (Nexport s + Z.of_nat (length new))).
Proof.
  intros Hfuel. induction 1 as [|cc leaves Hcc _ IH]; intros s.
  - exists []. cbn. rewrite app_nil_r, Z.add_0_r. destruct s. reflexivity.
  - cbn [for_each]. unfold bind.
    rewrite (chain_loop_for_each _ _ _ n fuel _ _ Hcc Hfuel), export_ghosts_run.
    destruct (IH (mkGhostExport
                    (export_list s ++ chain_ids n inext (TreeCell.ilast cc.2)
                                        (TreeCell.ifirst cc.2))
                    (Nexport s + Z.of_nat (length (chain_ids n inext
                       (TreeCell.ilast cc.2) (TreeCell.ifirst cc.2))))))
      as (new & ->).
    exists (chain_ids n inext (TreeCell.ilast cc.2) (TreeCell.ifirst cc.2) ++ new).
    cbn. rewrite <- app_assoc, length_app. do 2 f_equal. lia.
Qed.

Lemma walk_leaves_chains (n : nat) (t : Tree.t FLOAT)
    (overlap : TreeCell.t FLOAT -> bool) (Ncell : Z) (fuel : nat) :
  tree_ok n t -> Ncell <= Tree.Ncell t ->
  Forall (fun cc => chain_ok n (Tree.inext t)
                      (TreeCell.ilast cc.2) (TreeCell.ifirst cc.2))
    (walk_leaves fuel Ncell t overlap 0).
Proof.
  intros Hok Hle.
  destruct (walk_leaves_spec Ncell t overlap (tree_ok_cells_ok n t Ncell Hok Hle)
              fuel 0 ltac:(lia)) as (Hall & _).
  eapply Forall_impl; [exact Hall|].
  intros [c cell] (Hc & Hcell & _ & Hlevel & HN). cbn in *.
  destruct Hok as (_ & _ & Hcells).
  apply (Hcells c cell); [lia|assumption..].
Qed.

Lemma search_mpi_ghosts_run (n fuel ndim : nat) (tghost grange : FLOAT)
    (mpibox : Box.t FLOAT) (t : Tree.t FLOAT) (s : GhostExport) :
  tree_ok n t -> (n < fuel)%nat ->
  exists new,
    search_mpi_ghosts fuel ndim tghost grange mpibox t s
    = Done tt (mkGhostExport (export_list s ++ new)
                 (Nexport s + Z.of_nat (length new))).
Proof.
  intros Hok Hfuel. unfold search_mpi_ghosts.
  rewrite walk_cells_for_each.
  - apply (ghost_leaves_run n fuel); [lia|].
    apply walk_leaves_chains; [exact Hok|lia].
  - apply (tree_ok_cells_ok n); [exact Hok|lia].
  - lia.
  - destruct Hok as (_ & Hn & _). lia.
Qed.

(** X9.  On a tree and a ghost tree whose chains end, and with the fuel for
    them, [SearchMpiGhostParticles] returns: the caller's list is kept and
    extended, and the value returned is the number of indices appended, not
    the length of the list. *)
Theorem SearchMpiGhostParticles_returns_number_appended (n fuel ndim : nat)
    (tghost : FLOAT) (mpibox : Box.t FLOAT) (self : SphTree.t FLOAT)
    (ghosttree : Tree.t FLOAT) (export_list0 : list Z) :
  tree_ok n (SphTree.tree self) -> tree_ok n ghosttree -> (n < fuel)%nat ->
  exists new,
    SearchMpiGhostParticles fuel ndim tghost mpibox self ghosttree export_list0
    = Done (Z.of_nat (length new)) (export_list0 ++ new).
Proof.
  intros Ht Hg Hfuel. unfold SearchMpiGhostParticles. cbv zeta.
  unfold bind at 1.
  destruct (search_mpi_ghosts_run n fuel ndim tghost
              (fmul (SphTree.ghost_range self) (SphTree.kernrange self))
              mpibox (SphTree.tree self) (mkGhostExport export_list0 0)
              Ht Hfuel) as (new1 & ->).
  cbn [export_list Nexport]. unfold bind at 1.
  destruct (search_mpi_ghosts_run n fuel ndim tghost
              (fmul (SphTree.ghost_range self) (SphTree.kernrange self))
              mpibox ghosttree
              (mkGhostExport (export_list0 ++ new1)
                 (0 + Z.of_nat (length new1)))
              Hg Hfuel) as (new2 & ->).
  exists (new1 ++ new2). cbn. rewrite app_assoc, length_app.
  f_equal. lia.
Qed.

End MpiGhostFacts.

(** ** SearchHydroExportParticles *)

Section HydroExportFacts.
Context {FLOAT : Type} `{!FloatOps FLOAT} `{!GeomOps FLOAT}.

Lemma increasing_cons (x : Z) (l : list Z) :
  increasing (x :: l) <-> Forall (fun y => x < y) l /\ increasing l.
Proof.
  revert x. induction l as [|y l IH]; intros x; cbn [increasing].
  - split; [intros _; split; [constructor|exact I]|intros _; split; exact I].
  - split.
    + intros (Hxy & Hl). split; [|exact Hl].
      constructor; [exact Hxy|].
      apply IH in Hl as (Hy & _).
      eapply Forall_impl; [exact Hy|]. intros z Hz. cbn in Hz. lia.
    + intros (Hall & Hl). split; [|exact Hl].
      inversion Hall; subst. assumption.
Qed.

Lemma increasing_filter (l : list (Z * TreeCell.t FLOAT)) :
  increasing l.*1 -> increasing (filter is_active l).*1.
Proof.
  induction l as [|cc l IH]; [intros _; exact I|].
  cbn [fmap list_fmap]. rewrite increasing_cons. intros (Hall & Hl).
  rewrite filter_cons. destruct (decide (is_active cc)); [|exact (IH Hl)].
  cbn [fmap list_fmap]. rewrite increasing_cons. split; [|exact (IH Hl)].
  rewrite Forall_fmap in *. apply Forall_forall. intros x Hx. apply list_elem_of_filter in Hx as (_ & Hx). rewrite Forall_forall in Hall. exact (Hall x Hx).
Qed.

Lemma active_leaves_run (leaves : list (Z * TreeCell.t FLOAT)) :
  forall s,
    for_each leaves (fun cc => export_cell_if_active cc.1 cc.2) s
    = Done tt
        (mkCellExport (cell_list s ++ (filter is_active leaves).*1)
           (Nexport_cells s
            + sumZ (TreeCell.Nactive <$> (filter is_active leaves).*2))).
Proof.
  induction leaves as [|cc leaves IH]; intros [l n]; cbn [for_each].
  - cbn. rewrite app_nil_r, Z.add_0_r. reflexivity.
  - unfold bind, export_cell_if_active. rewrite filter_cons.
    destruct (decide (is_active cc)) as [Ha|Ha]; unfold is_active in Ha.
    + rewrite decide_True by exact Ha. unfold modify. rewrite IH. cbn.
      rewrite <- app_assoc. do 2 f_equal. unfold sumZ. lia.
    + rewrite decide_False by exact Ha. cbn [ret]. rewrite IH. reflexivity.
Qed.

(** X10.  On a tree in which every cell is left forwards, and with the fuel
    for it, [SearchHydroExportParticles] returns: the caller's list is kept
    and extended by leaves of the tree that overlap the box and have active
    particles, no cell twice, and the value returned is the number of active
    particles of the cells appended. *)
Theorem SearchHydroExportParticles_lists_active_leaves (n fuel ndim : nat)
    (mpibox : Box.t FLOAT) (self : SphTree.t FLOAT) (cell_list0 : list Z) :
  tree_ok n (SphTree.tree self) -> (n < fuel)%nat ->
  exists cells : list (Z * TreeCell.t FLOAT),
    SearchHydroExportParticles fuel ndim mpibox self cell_list0
    = Done (sumZ (TreeCell.Nactive <$> cells.*2)) (cell_list0 ++ cells.*1) /\
    increasing cells.*1 /\
    Forall (fun cc =>
              zget (Tree.celldata (SphTree.tree self)) cc.1 = Some cc.2 /\
              TreeCell.level cc.2 = Tree.ltot (SphTree.tree self) /\
              TreeCell.Nactive cc.2 > 0 /\
              hydro_overlap ndim
                (fmul (SphTree.ghost_range self) (SphTree.kernrange self))
                mpibox cc.2 = true)
      cells.
Proof.
  intros Hok Hfuel. unfold SearchHydroExportParticles. cbv zeta.
  set (t := SphTree.tree self) in *.
  set (overlap := hydro_overlap ndim _ mpibox).
  pose proof (tree_ok_cells_ok n t (Tree.Ncell t) Hok ltac:(lia)) as Hcells.
  destruct (walk_leaves_spec (Tree.Ncell t) t overlap Hcells fuel 0 ltac:(lia))
    as (Hall & Hinc).
  exists (filter is_active (walk_leaves fuel (Tree.Ncell t) t overlap 0)).
  split; [|split].
  - unfold bind. rewrite walk_cells_for_each; [|exact Hcells|lia|].
    2:{ destruct Hok as (_ & Hn & _). fold t in Hn. lia. }
    rewrite active_leaves_run. cbn. reflexivity.
  - apply increasing_filter. exact Hinc.
  - apply Forall_forall. intros cc Hin.
    apply list_elem_of_filter in Hin as (Hact & Hin).
    rewrite Forall_forall in Hall.
    destruct (Hall cc Hin) as (_ & Hcell & Hov & Hlevel & _).
    repeat split; assumption.
Qed.

End HydroExportFacts.

(** ** FindMpiTransferParticles *)

Section TransferFacts.
Context {FLOAT : Type} `{!FloatOps FLOAT} `{!GeomOps FLOAT}.

Lemma transfer_particle_run (sphdata : list (Particle.t FLOAT))
    (node : Z) (domain : Box.t FLOAT) (i : Z) (s : TransferLists) :
  0 <= i < Z.of_nat (length sphdata) ->
  0 <= node < Z.of_nat (length (particles_to_export s)) ->
  transfer_particle sphdata node domain i s
  = Done tt
      (mkTransferLists
         (alter (fun l => l ++ filter (in_box sphdata domain) [i])
            (Z.to_nat node) (particles_to_export s))
         (all_particles_to_export s ++ filter (in_box sphdata domain) [i])).
Proof.
  intros Hi Hnode. unfold transfer_particle.
  destruct (zget_defined sphdata i Hi) as (p & Hp).
  destruct (zget_defined (particles_to_export s) node Hnode) as (l & Hl).
  rewrite Hp. unfold bind at 1. cbn [defined ret].
  rewrite filter_cons, filter_nil.
  destruct (decide (in_box sphdata domain i)) as [Hin|Hout];
    unfold in_box in *; rewrite Hp in *; cbn in *.
  - injection Hin as Hin. rewrite Hin.
    unfold bind, get. rewrite Hl. cbn [defined ret].
    unfold zset. rewrite decide_True by exact Hnode. cbn [defined ret].
    unfold modify. do 2 f_equal. unfold zget in Hl. rewrite decide_True in Hl by lia.
    apply list_eq. intros k. destruct (decide (k = Z.to_nat node)) as [->|ne].
    + rewrite list_lookup_insert_eq by lia.
      rewrite list_lookup_alter_eq, Hl. reflexivity.
    + rewrite list_lookup_insert_ne by congruence.
      rewrite list_lookup_alter_ne by congruence. reflexivity.
  - destruct (ParticleInBox p domain) eqn:Hin.
    { exfalso. apply Hout. reflexivity. }
    cbn [ret]. rewrite app_nil_r. destruct s as [pe al]. cbn. do 2 f_equal.
    symmetry. etransitivity; [|apply list_alter_id; intros; reflexivity].
    apply list_alter_ext; [|reflexivity]. intros x _. apply app_nil_r.
Qed.

Lemma transfer_particles_run (sphdata : list (Particle.t FLOAT))
    (node : Z) (domain : Box.t FLOAT) (ids : list Z) :
  Forall (fun i => 0 <= i < Z.of_nat (length sphdata)) ids ->
  forall s,
    0 <= node < Z.of_nat (length (particles_to_export s)) ->
    for_each ids (transfer_particle sphdata node domain) s
    = Done tt
        (mkTransferLists
           (alter (fun l => l ++ filter (in_box sphdata domain) ids)
              (Z.to_nat node) (particles_to_export s))
           (all_particles_to_export s ++ filter (in_box sphdata domain) ids)).
Proof.
  induction 1 as [|i ids Hi _ IH]; intros s Hnode; cbn [for_each].
  - rewrite filter_nil, app_nil_r. destruct s as [pe al]. cbn. do 2 f_equal.
    symmetry. etransitivity; [|apply list_alter_id; intros; reflexivity].
    apply list_alter_ext; [|reflexivity]. intros x _. apply app_nil_r.
  - unfold bind. rewrite (transfer_particle_run _ _ _ _ _ Hi Hnode).
    rewrite IH by (cbn; rewrite length_alter; exact Hnode).
    cbn [particles_to_export all_particles_to_export].
    change (i :: ids) with ([i] ++ ids).
    rewrite (filter_app _ [i] ids), list_alter_alter_eq, app_assoc.
    do 2 f_equal. apply list_alter_ext; [|reflexivity].
    intros x _. cbn. rewrite app_assoc. reflexivity.
Qed.

Lemma transfer_leaves_run (n fuel : nat) (inext : list Z)
    (sphdata : list (Particle.t FLOAT)) (node : Z) (domain : Box.t FLOAT)
    (leaves : list (Z * TreeCell.t FLOAT)) :
  (n <= fuel)%nat ->
  Forall (fun cc =>
            chain_ok n inext (TreeCell.ilast cc.2) (TreeCell.ifirst cc.2) /\
            Forall (fun i => 0 <= i < Z.of_nat (length sphdata))
              (chain_ids n inext (TreeCell.ilast cc.2) (TreeCell.ifirst cc.2)))
    leaves ->
  forall s,
    0 <= node < Z.of_nat (length (particles_to_export s)) ->
    exists add,
      for_each leaves
        (fun cc => chain_loop fuel inext (transfer_particle sphdata node domain)
                     (TreeCell.ilast cc.2) (TreeCell.ifirst cc.2)) s
      = Done tt
          (mkTransferLists
             (alter (fun l => l ++ add) (Z.to_nat node) (particles_to_export s))
             (all_particles_to_export s ++ add)) /\
      Forall (in_box sphdata domain) add.
Proof.
  intros Hfuel. induction 1 as [|cc leaves (Hcc & Hids) _ IH]; intros s Hnode.
  - exists []. split; [|constructor].
    cbn. destruct s as [pe al]. cbn. rewrite app_nil_r. do 2 f_equal.
    symmetry. apply list_alter_id. intros x. apply app_nil_r.
  - cbn [for_each]. unfold bind.
    rewrite (chain_loop_for_each _ _ _ n fuel _ _ Hcc Hfuel).
    rewrite (transfer_particles_run _ _ _ _ Hids s Hnode).
    set (add1 := filter (in_box sphdata domain) _).
    edestruct IH as (add2 & -> & Hadd2).
    { cbn. rewrite length_alter. exact Hnode. }
    exists (add1 ++ add2). split.
    + cbn. rewrite list_alter_alter_eq, !app_assoc. do 2 f_equal.
      apply list_alter_ext; [|reflexivity]. intros x _. cbn.
      rewrite app_assoc. reflexivity.
    + apply Forall_app. split; [|exact Hadd2].
      apply Forall_forall. intros i Hi.
      apply list_elem_of_filter in Hi as (Hi & _). exact Hi.
Qed.

Lemma transfer_to_node_run (n fuel ndim : nat) (Ncell : Z) (t : Tree.t FLOAT)
    (sphdata : list (Particle.t FLOAT)) (mpinodes : list (MpiNode.t FLOAT))
    (node : Z) (s : TransferLists) :
  tree_ok n t -> Ncell <= Tree.Ncell t -> (n < fuel)%nat ->
  links_within (length sphdata) t ->
  0 <= node < Z.of_nat (length mpinodes) ->
  0 <= node < Z.of_nat (length (particles_to_export s)) ->
  exists add nd,
    transfer_to_node fuel ndim Ncell t sphdata mpinodes node s
    = Done tt
        (mkTransferLists
           (alter (fun l => l ++ add) (Z.to_nat node) (particles_to_export s))
           (all_particles_to_export s ++ add)) /\
    zget mpinodes node = Some nd /\
    Forall (in_box sphdata (MpiNode.domain nd)) add.
Proof.
  intros Hok Hle Hfuel (Hfirst & Hnext) Hnode Hlists. unfold transfer_to_node.
  destruct (zget_defined mpinodes node Hnode) as (nd & Hnd).
  rewrite Hnd. unfold bind at 1. cbn [defined ret].
  pose proof (tree_ok_cells_ok n t Ncell Hok Hle) as Hcells.
  rewrite walk_cells_for_each; [|exact Hcells|lia|].
  2:{ destruct Hok as (_ & Hn & _). lia. }
  match goal with
  | |- context [walk_leaves fuel Ncell t ?ov 0] => set (overlap := ov)
  end.
  assert (Hleaves :
    Forall (fun cc =>
              chain_ok n (Tree.inext t) (TreeCell.ilast cc.2) (TreeCell.ifirst cc.2) /\
              Forall (fun i => 0 <= i < Z.of_nat (length sphdata))
                (chain_ids n (Tree.inext t) (TreeCell.ilast cc.2)
                   (TreeCell.ifirst cc.2)))
      (walk_leaves fuel Ncell t overlap 0)).
  { pose proof (walk_leaves_chains n t overlap Ncell fuel Hok Hle) as Hchains.
    destruct (walk_leaves_spec Ncell t overlap Hcells fuel 0 ltac:(lia))
      as (Hall & _).
    apply Forall_forall. intros cc Hin.
    rewrite Forall_forall in Hchains, Hall.
    split; [exact (Hchains cc Hin)|].
    apply chain_ids_within; [exact Hnext|].
    destruct (Hall cc Hin) as (_ & Hcell & _).
    exact (Hfirst _ _ Hcell). }
  destruct (transfer_leaves_run n fuel (Tree.inext t) sphdata node
              (MpiNode.domain nd) _ ltac:(lia) Hleaves s Hlists)
    as (add & Hrun & Hadd).
  exists add, nd. split; [exact Hrun|]. split; [reflexivity|exact Hadd].
Qed.

(** X11.  On a tree whose chains end and whose links point into the particle
    array, for nodes that exist, and with the fuel, [FindMpiTransferParticles]
    returns.  Node by node, in the order of [potential_nodes], it appends
    the same particles to the list of the node and to the list of all
    particles: the latter is extended by what the nodes got, a particle
    that lies in the boxes of two nodes twice.  Every particle appended
    lies in the box of its node. *)
Theorem FindMpiTransferParticles_appends_to_both_lists (n fuel ndim : nat)
    (Ncell : Z) (self : SphTree.t FLOAT) (sph : Sph.t FLOAT)
    (potential_nodes : list Z) (mpinodes : list (MpiNode.t FLOAT))
    (s : TransferLists) :
  tree_ok n (SphTree.tree self) ->
  Ncell <= Tree.Ncell (SphTree.tree self) ->
  (n < fuel)%nat ->
  links_within (length (Sph.sphdata sph)) (SphTree.tree self) ->
  Forall (fun node =>
            0 <= node < Z.of_nat (length mpinodes) /\
            node < Z.of_nat (length (particles_to_export s)))
    potential_nodes ->
  exists adds,
    length adds = length potential_nodes /\
    FindMpiTransferParticles fuel ndim Ncell self sph potential_nodes mpinodes s
    = Done tt
        (mkTransferLists
           (extend_lists (particles_to_export s) (zip potential_nodes adds))
           (all_particles_to_export s ++ concat adds)) /\
    Forall2 (fun node add =>
               exists nd,
                 zget mpinodes node = Some nd /\
                 Forall (in_box (Sph.sphdata sph) (MpiNode.domain nd)) add)
      potential_nodes adds.
Proof.
  intros Hok Hle Hfuel Hlinks Hnodes. unfold FindMpiTransferParticles.
  revert s Hnodes.
  induction potential_nodes as [|node nodes IH]; intros s Hnodes.
  - exists []. split; [reflexivity|]. split; [|constructor].
    cbn. rewrite app_nil_r. destruct s. reflexivity.
  - inversion Hnodes as [|? ? (Hnode & Hlist) Hrest]; subst.
    destruct (transfer_to_node_run n fuel ndim Ncell (SphTree.tree self)
                (Sph.sphdata sph) mpinodes node s Hok Hle Hfuel Hlinks
                Hnode ltac:(lia)) as (add & nd & Hrun & Hnd & Hadd).
    destruct (IH (mkTransferLists
                    (alter (fun l => l ++ add) (Z.to_nat node)
                       (particles_to_export s))
                    (all_particles_to_export s ++ add)))
      as (adds & Hlen & Hrest' & Hall).
    { eapply Forall_impl; [exact Hrest|]. intros x (? & ?).
      split; [assumption|]. cbn. rewrite length_alter. assumption. }
    exists (add :: adds). split; [cbn; rewrite Hlen; reflexivity|]. split.
    + cbn [for_each]. unfold bind. rewrite Hrun, Hrest'.
      cbn. rewrite app_assoc. reflexivity.
    + constructor; [|exact Hall]. exists nd. split; assumption.
Qed.

End TransferFacts.

Section SearchExamples.
Import Worked SearchExample.
#[local] Existing Instances ZFloat ZGeom.

Lemma search_tree_ok : tree_ok 3 search_tree.
Proof.
  split; [cbn; lia|]. split; [cbn; lia|].
  intros c cell Hc Hcell. cbn in Hc.
  assert (Hcases : c = 0 \/ c = 1 \/ c = 2) by lia.
  destruct Hcases as [-> | [-> | ->]];
    cbn in Hcell; injection Hcell as <-; (split; [cbn; lia|]); cbn.
  - intros Hl. discriminate Hl.
  - intros _ _. right. right. exists 1. split; [reflexivity|].
    right. left. reflexivity.
  - intros _ _. right. left. reflexivity.
Qed.

Lemma search_ghosttree_ok : tree_ok 3 search_ghosttree.
Proof.
  split; [cbn; lia|]. split; [cbn; lia|].
  intros c cell Hc Hcell. cbn in Hc.
  assert (c = 0) as -> by lia.
  cbn in Hcell. injection Hcell as <-. split; [cbn; lia|]. cbn.
  intros _ _. right. right. exists 4. split; [reflexivity|].
  right. left. reflexivity.
Qed.

Lemma search_tree_links : links_within 3 search_tree.
Proof.
  split.
  - intros c cell. unfold zget. destruct (decide (0 <= c)); [|discriminate].
    cbn. destruct (Z.to_nat c) as [|[|[|k]]]; cbn; intros [= <-]; cbn; lia.
  - cbn. repeat constructor; lia.
Qed.

(** The search for the upper half of the box: the second leaf of the tree
    and the leaf of the ghost tree give the particles 2, 3 and 4. *)
Lemma SearchMpiGhostParticles_returns_number_appended_witness :
  exists new,
    SearchMpiGhostParticles 4 3 1 upper_box search_sphtree search_ghosttree [9]
    = Done (Z.of_nat (length new)) ([9] ++ new).
Proof.
  exact (SearchMpiGhostParticles_returns_number_appended 3 4 3 1 upper_box
           search_sphtree search_ghosttree [9] search_tree_ok
           search_ghosttree_ok ltac:(lia)).
Defined.

Example SearchMpiGhostParticles_of_the_upper_box :
  SearchMpiGhostParticles 4 3 1 upper_box search_sphtree search_ghosttree [9]
  = Done 3 [9; 2; 3; 4].
Proof. vm_compute. reflexivity. Qed.

Lemma SearchHydroExportParticles_lists_active_leaves_witness :
  exists cells : list (Z * TreeCell.t Z),
    SearchHydroExportParticles 4 3 (Box.mk [0; 0; 0] [10; 10; 10])
      search_sphtree [0]
    = Done (sumZ (TreeCell.Nactive <$> cells.*2)) ([0] ++ cells.*1) /\
    increasing cells.*1 /\
    Forall (fun cc =>
              zget (Tree.celldata (SphTree.tree search_sphtree)) cc.1
              = Some cc.2 /\
              TreeCell.level cc.2 = Tree.ltot (SphTree.tree search_sphtree) /\
              TreeCell.Nactive cc.2 > 0 /\
              hydro_overlap 3
                (fmul (SphTree.ghost_range search_sphtree)
                   (SphTree.kernrange search_sphtree))
                (Box.mk [0; 0; 0] [10; 10; 10]) cc.2 = true)
      cells.
Proof.
  exact (SearchHydroExportParticles_lists_active_leaves 3 4 3
           (Box.mk [0; 0; 0] [10; 10; 10]) search_sphtree [0]
           search_tree_ok ltac:(lia)).
Defined.

(** The two leaves have one active particle each; the cell 0 that the
    caller had in the list stays. *)
Example SearchHydroExportParticles_of_the_whole_box :
  SearchHydroExportParticles 4 3 (Box.mk [0; 0; 0] [10; 10; 10])
    search_sphtree [0]
  = Done 2 [0; 1; 2].
Proof. vm_compute. reflexivity. Qed.

Lemma FindMpiTransferParticles_appends_to_both_lists_witness :
  exists adds,
    length adds = 3%nat /\
    FindMpiTransferParticles 4 3 3 search_sphtree search_sph [1; 0; 1]
      two_nodes (mkTransferLists [[]; [5]] [5])
    = Done tt
        (mkTransferLists (extend_lists [[]; [5]] (zip [1; 0; 1] adds))
           ([5] ++ concat adds)) /\
    Forall2 (fun node add =>
               exists nd,
                 zget two_nodes node = Some nd /\
                 Forall (in_box (Sph.sphdata search_sph) (MpiNode.domain nd)) add)
      [1; 0; 1] adds.
Proof.
  apply (FindMpiTransferParticles_appends_to_both_lists 3 4 3 3 search_sphtree
           search_sph [1; 0; 1] two_nodes (mkTransferLists [[]; [5]] [5])
           search_tree_ok ltac:(cbn; lia) ltac:(lia) search_tree_links).
  repeat constructor; cbn; lia.
Defined.

(** The node 1 is asked twice and gets its particle twice. *)
Example FindMpiTransferParticles_of_two_nodes :
  FindMpiTransferParticles 4 3 3 search_sphtree search_sph [1; 0; 1]
    two_nodes (mkTransferLists [[]; [5]] [5])
  = Done tt (mkTransferLists [[0; 1]; [5; 2; 2]] [5; 2; 0; 1; 2]).
Proof. vm_compute. reflexivity. Qed.

End SearchExamples.


(** ** Loops with an invariant *)

Section LoopFacts.
Context {S B : Type}.

(** A loop whose every turn returns and takes the invariant from the
    elements before to the elements up to its own returns, and the
    invariant holds of all elements. *)
Lemma for_each_inv (I : list B -> S -> Prop) (l : list B) (body : B -> M S unit) :
  (forall pre x post s,
     l = pre ++ x :: post -> I pre s ->
     exists s', body x s = Done tt s' /\ I (pre ++ [x]) s') ->
  forall s, I [] s -> exists s', for_each l body s = Done tt s' /\ I l s'.
Proof.
  intros Hbody.
  assert (H : forall rest pre s,
             l = pre ++ rest -> I pre s ->
             exists s', for_each rest body s = Done tt s' /\ I l s').
  { induction rest as [|x rest IH]; intros pre s Hl HI.
    - exists s. rewrite app_nil_r in Hl. subst pre. split; [reflexivity|exact HI].
    - destruct (Hbody pre x rest s Hl HI) as (s1 & Hx & HI1).
      destruct (IH (pre ++ [x]) s1) as (s' & Hrest & HI').
      { rewrite <- app_assoc. exact Hl. }
      { exact HI1. }
      exists s'. split; [|exact HI'].
      cbn [for_each]. unfold bind. rewrite Hx. exact Hrest. }
  intros s HI. exact (H l [] s eq_refl HI).
Qed.

End LoopFacts.

Lemma seqZ_prefix (n : Z) (pre : list Z) (x : Z) (post : list Z) :
  seqZ 0 n = pre ++ x :: post ->
  x = Z.of_nat (length pre) /\ 0 <= x < n /\ pre = seqZ 0 x.
Proof.
  intros H.
  assert (Hx : seqZ 0 n !! length pre = Some x).
  { rewrite H, lookup_app_r by lia. rewrite Nat.sub_diag. reflexivity. }
  apply lookup_seqZ in Hx as (Hx & Hlt). split; [lia|]. split; [lia|].
  replace n with (x + (n - x)) in H by lia.
  rewrite seqZ_app in H by lia.
  apply app_inj_1 in H; [|rewrite length_seqZ; lia].
  destruct H as [H _]. symmetry. exact H.
Qed.

(** ** UpdateHydroExportList *)

Section ExportListFacts.
Context {FLOAT : Type} `{!PrunedOps FLOAT}.
Variables (rank : Z) (prunedtree : list (Tree.t FLOAT)).

Lemma zget_insert_eq {A} (l : list A) (j : Z) (x : A) :
  0 <= j < Z.of_nat (length l) -> zget (<[Z.to_nat j := x]> l) j = Some x.
Proof.
  intros Hj. unfold zget. rewrite decide_True by lia.
  apply list_lookup_insert_eq. lia.
Qed.

Lemma zget_insert_ne {A} (l : list A) (j k : Z) (x : A) :
  0 <= j -> 0 <= k -> j <> k ->
  zget (<[Z.to_nat j := x]> l) k = zget l k.
Proof.
  intros Hj Hk Hne. unfold zget. rewrite !decide_True by lia.
  apply list_lookup_insert_ne. lia.
Qed.

Lemma zget_Some_lt {A} (l : list A) (j : Z) (x : A) :
  zget l j = Some x -> 0 <= j < Z.of_nat (length l).
Proof.
  unfold zget. destruct (decide (0 <= j)); [|discriminate].
  intros H. apply lookup_lt_Some in H. lia.
Qed.

Lemma zget_is_Some {A} (l : list A) (j : Z) :
  0 <= j < Z.of_nat (length l) -> exists x, zget l j = Some x.
Proof.
  intros Hj. unfold zget. rewrite decide_True by lia.
  apply lookup_lt_is_Some. lia.
Qed.

Lemma exports_frame_refl (t0 : SphTree.t FLOAT) : exports_frame t0 t0.
Proof. destruct t0. repeat split. Qed.

Lemma exports_frame_step (t0 t : SphTree.t FLOAT) (a b : list Z)
    (c : list (list Z)) :
  exports_frame t0 t ->
  length a = length (SphTree.Ncellexport t) ->
  length b = length (SphTree.Npartexport t) ->
  length c = length (SphTree.cellexportlist t) ->
  exports_frame t0 (with_exports a b c t).
Proof.
  intros (Ht & LN & LP & LC) La Lb Lc. split; [|cbn; repeat split; congruence].
  cbn [with_exports SphTree.Ncellexport SphTree.Npartexport
       SphTree.cellexportlist].
  rewrite Ht. reflexivity.
Qed.

(** The loop that sets the counters to zero. *)
Lemma reset_exports_run (t0 : SphTree.t FLOAT) :
  SphTree.Nmpi t0 <= Z.of_nat (length (SphTree.Ncellexport t0)) ->
  SphTree.Nmpi t0 <= Z.of_nat (length (SphTree.Npartexport t0)) ->
  exists t1,
    for_range 0 (SphTree.Nmpi t0) reset_export t0 = Done tt t1 /\
    exports_frame t0 t1 /\
    SphTree.cellexportlist t1 = SphTree.cellexportlist t0 /\
    forall j, 0 <= j < SphTree.Nmpi t0 ->
      zget (SphTree.Ncellexport t1) j = Some 0 /\
      zget (SphTree.Npartexport t1) j = Some 0.
Proof.
  intros HN HP. unfold for_range. rewrite Z.sub_0_r.
  destruct (for_each_inv
    (fun pre t =>
       exports_frame t0 t /\
       SphTree.cellexportlist t = SphTree.cellexportlist t0 /\
       forall j, 0 <= j < Z.of_nat (length pre) ->
         zget (SphTree.Ncellexport t) j = Some 0 /\
         zget (SphTree.Npartexport t) j = Some 0)
    (seqZ 0 (SphTree.Nmpi t0)) reset_export) with (s := t0)
    as (t1 & Hrun & Hframe & Hcl & Hzero).
  - intros pre j post t Hl (Hframe & Hcl & Hzero).
    pose proof Hframe as (Ht & LN & LP & LC).
    apply seqZ_prefix in Hl as (Hj & Hlt & _).
    unfold reset_export, bind, get.
    unfold zset. rewrite !decide_True by lia. cbn [defined ret modify].
    eexists. split; [reflexivity|].
    split; [|split; [exact Hcl|]].
    + apply exports_frame_step; [exact Hframe|..];
        rewrite ?length_insert; reflexivity.
    + cbn. intros k Hk. rewrite length_app in Hk. cbn in Hk.
      destruct (decide (k = j)) as [->|ne].
      * rewrite !zget_insert_eq by lia. split; reflexivity.
      * rewrite !zget_insert_ne by lia. apply Hzero. lia.
  - split; [apply exports_frame_refl|]. split; [reflexivity|].
    intros j Hj. cbn in Hj. lia.
  - exists t1. split; [exact Hrun|]. split; [exact Hframe|].
    split; [exact Hcl|]. intros j Hj. apply Hzero.
    rewrite length_seqZ. lia.
Qed.

Lemma overlapping_snoc (pruned : Tree.t FLOAT)
    (celldata : list (TreeCell.t FLOAT)) (cs : list Z) (c : Z) :
  overlapping pruned celldata (cs ++ [c])
  = overlapping pruned celldata cs
    ++ (if decide ((tree_ComputeHydroTreeCellOverlap pruned <$> zget celldata c)
                   = Some true)
        then [c] else []).
Proof.
  unfold overlapping. rewrite filter_app, filter_cons, filter_nil.
  destruct (decide _); reflexivity.
Qed.

Lemma overlapping_length_prefix (pruned : Tree.t FLOAT)
    (celldata : list (TreeCell.t FLOAT)) (cs post : list Z) :
  (length (overlapping pruned celldata cs)
   <= length (overlapping pruned celldata (cs ++ post)))%nat.
Proof. unfold overlapping. rewrite filter_app, length_app. lia. Qed.

Lemma exports_of_ext (t0 t t' : SphTree.t FLOAT) (cs : list Z) (k : Z) :
  same_slots t t' k ->
  exports_of rank prunedtree t0 t cs k ->
  exports_of rank prunedtree t0 t' cs k.
Proof.
  intros (HN & HP & HC). unfold exports_of. rewrite HN, HP, HC. tauto.
Qed.

Lemma frame_tree (t0 t : SphTree.t FLOAT) :
  exports_frame t0 t -> SphTree.tree t = SphTree.tree t0.
Proof. intros (Ht & _). rewrite Ht. reflexivity. Qed.

Lemma export_cell_to_run (t0 t : SphTree.t FLOAT) (cs post : list Z)
    (c j : Z) :
  exports_fit rank prunedtree t0 ->
  tree_ComputeActiveCellList (SphTree.tree t0) = cs ++ c :: post ->
  0 <= j < SphTree.Nmpi t0 ->
  exports_frame t0 t ->
  exports_of rank prunedtree t0 t cs j ->
  exists t',
    export_cell_to rank prunedtree c j t = Done tt t' /\
    exports_frame t0 t' /\
    exports_of rank prunedtree t0 t' (cs ++ [c]) j /\
    forall k, 0 <= k -> k <> j -> same_slots t t' k.
Proof.
  intros (FN & FP & FC & Fcells & Ffit) Hl Hj Hframe (HP & Hslot).
  unfold export_cell_to, exports_of in *.
  destruct (decide (j = rank)) as [->|Hrank].
  { exists t. split; [reflexivity|]. split; [exact Hframe|].
    split; [split; assumption|]. intros k _ _. repeat split. }
  destruct Hslot as (pruned & old & Hpruned & Hold & HN & HC). cbv zeta in *.
  destruct (Ffit j Hj Hrank) as (pruned' & old' & Hpruned' & Hold' & Hroom).
  rewrite Hpruned in Hpruned'. injection Hpruned' as <-.
  rewrite Hold in Hold'. injection Hold' as <-.
  rewrite Hpruned. unfold bind at 1. cbn [defined ret].
  unfold bind at 1, get at 1. rewrite (frame_tree t0 t Hframe).
  assert (Hc : 0 <= c < Z.of_nat (length (Tree.celldata (SphTree.tree t0)))).
  { rewrite Hl in Fcells. apply Forall_app in Fcells as (_ & Fc).
    inversion Fc; subst. assumption. }
  destruct (zget_is_Some _ c Hc) as (cell & Hcell).
  rewrite Hcell. unfold bind at 1. cbn [defined ret].
  set (cells := overlapping pruned (Tree.celldata (SphTree.tree t0)) cs) in *.
  assert (Hsnoc :
    overlapping pruned (Tree.celldata (SphTree.tree t0)) (cs ++ [c])
    = cells ++ (if tree_ComputeHydroTreeCellOverlap pruned cell
                then [c] else [])).
  { rewrite overlapping_snoc, Hcell. cbn [fmap option_fmap option_map].
    destruct (tree_ComputeHydroTreeCellOverlap pruned cell);
      [rewrite decide_True by reflexivity|rewrite decide_False by discriminate];
      reflexivity. }
  destruct (tree_ComputeHydroTreeCellOverlap pruned cell) eqn:Hov.
  - assert (Hlen : (length cells + 1 <= length old)%nat).
    { etransitivity; [|exact Hroom]. rewrite Hl.
      replace (cs ++ c :: post) with ((cs ++ [c]) ++ post)
        by (rewrite <- app_assoc; reflexivity).
      etransitivity; [|apply overlapping_length_prefix].
      rewrite Hsnoc, length_app. cbn. lia. }
    pose proof (zget_Some_lt _ _ _ HN) as HjN.
    pose proof (zget_Some_lt _ _ _ HC) as HjC.
    eexists. split.
    { unfold bind, get. rewrite HN, HC. cbn [defined ret].
      unfold zset. rewrite length_app, length_drop.
      rewrite decide_True by lia. cbn [defined ret].
      rewrite (decide_True (P := 0 <= j < Z.of_nat (length (SphTree.cellexportlist t))))
        by exact HjC. cbn [defined ret].
      rewrite decide_True by exact HjN. cbn [defined ret]. unfold modify.
      reflexivity. }
    split; [|split].
    + apply exports_frame_step; [exact Hframe|..];
        rewrite ?length_insert; reflexivity.
    + cbn. split.
      { exact HP. }
      exists pruned, old. split; [reflexivity|]. split; [exact Hold|].
      cbv zeta. rewrite Hsnoc.
      rewrite !zget_insert_eq by lia. split.
      * f_equal. rewrite length_app. cbn. lia.
      * f_equal. rewrite Nat2Z.id.
        rewrite insert_app_r_alt by lia. rewrite Nat.sub_diag.
        rewrite <- app_assoc. f_equal.
        rewrite length_app. cbn [length].
        destruct (drop (length cells) old) as [|x rest] eqn:Hdrop.
        { apply (f_equal length) in Hdrop. rewrite length_drop in Hdrop.
          cbn in Hdrop. lia. }
        cbn [insert list_insert app]. f_equal.
        rewrite <- drop_drop, Hdrop. reflexivity.
    + intros k Hk Hne. unfold same_slots. cbn.
      rewrite !zget_insert_ne by lia. repeat split.
  - exists t. split; [reflexivity|]. split; [exact Hframe|]. split.
    + split; [exact HP|]. exists pruned, old.
      split; [reflexivity|]. split; [exact Hold|].
      cbv zeta. rewrite Hsnoc, app_nil_r. split; assumption.
    + intros k _ _. repeat split.
Qed.

(** The loop over the pruned trees, for one active cell. *)
Lemma export_cell_run (t0 t : SphTree.t FLOAT) (cs post : list Z) (c : Z) :
  exports_fit rank prunedtree t0 ->
  tree_ComputeActiveCellList (SphTree.tree t0) = cs ++ c :: post ->
  exports_frame t0 t ->
  (forall j, 0 <= j < SphTree.Nmpi t0 ->
     exports_of rank prunedtree t0 t cs j) ->
  exists t',
    for_range 0 (SphTree.Nmpi t0) (export_cell_to rank prunedtree c) t
    = Done tt t' /\
    exports_frame t0 t' /\
    forall j, 0 <= j < SphTree.Nmpi t0 ->
      exports_of rank prunedtree t0 t' (cs ++ [c]) j.
Proof.
  intros Hfit Hl Hframe Hall. unfold for_range. rewrite Z.sub_0_r.
  destruct (for_each_inv
    (fun pre t =>
       exports_frame t0 t /\
       forall j, 0 <= j < SphTree.Nmpi t0 ->
         if decide (j < Z.of_nat (length pre))
         then exports_of rank prunedtree t0 t (cs ++ [c]) j
         else exports_of rank prunedtree t0 t cs j)
    (seqZ 0 (SphTree.Nmpi t0)) (export_cell_to rank prunedtree c))
    with (s := t) as (t' & Hrun & Hframe' & Hall').
  - intros pre j rest t1 Hseq (Hframe1 & Hall1).
    apply seqZ_prefix in Hseq as (Hj & Hlt & _).
    pose proof (Hall1 j Hlt) as Hslot. rewrite decide_False in Hslot by lia.
    destruct (export_cell_to_run t0 t1 cs post c j Hfit Hl Hlt Hframe1 Hslot)
      as (t2 & Hrun & Hframe2 & Hslot2 & Hsame).
    exists t2. split; [exact Hrun|]. split; [exact Hframe2|].
    intros k Hk. rewrite length_app. cbn [length].
    destruct (decide (k = j)) as [->|Hne].
    + rewrite decide_True by lia. exact Hslot2.
    + pose proof (Hall1 k Hk) as Hk1.
      destruct (decide (k < Z.of_nat (length pre))).
      * rewrite decide_True by lia.
        apply (exports_of_ext t0 t1 t2); [apply Hsame; lia|exact Hk1].
      * rewrite decide_False by lia.
        apply (exports_of_ext t0 t1 t2); [apply Hsame; lia|exact Hk1].
  - split; [exact Hframe|]. intros j Hj. cbn [length].
    rewrite decide_False by lia. apply Hall. exact Hj.
  - exists t'. split; [exact Hrun|]. split; [exact Hframe'|].
    intros j Hj. specialize (Hall' j Hj). rewrite length_seqZ in Hall'.
    rewrite decide_True in Hall' by lia. exact Hall'.
Qed.

(** X12.  When the arrays have the room, [UpdateHydroExportList] returns and
    changes only the export counters and lists.  Every process is left
    with no particles to export; this rank with no cells; and every other
    process with the active cells that overlap its pruned tree, in the
    order of the active cells, at the start of its list, and their
    number. *)
Theorem UpdateHydroExportList_lists_overlapping_cells (t0 : SphTree.t FLOAT) :
  exports_fit rank prunedtree t0 ->
  exists t,
    UpdateHydroExportList rank prunedtree t0 = Done tt t /\
    exports_frame t0 t /\
    forall j, 0 <= j < SphTree.Nmpi t0 ->
      exports_of rank prunedtree t0 t
        (tree_ComputeActiveCellList (SphTree.tree t0)) j.
Proof.
  intros Hfit. pose proof Hfit as (FN & FP & FC & Fcells & Ffit).
  unfold UpdateHydroExportList, bind at 1, get at 1. cbv zeta.
  destruct (reset_exports_run t0 FN FP) as (t1 & Hreset & Hframe1 & Hcl & Hzero).
  unfold bind at 1. rewrite Hreset.
  destruct (for_each_inv
    (fun cs t =>
       exports_frame t0 t /\
       forall j, 0 <= j < SphTree.Nmpi t0 ->
         exports_of rank prunedtree t0 t cs j)
    (tree_ComputeActiveCellList (SphTree.tree t0))
    (fun c => for_range 0 (SphTree.Nmpi t0) (export_cell_to rank prunedtree c)))
    with (s := t1) as (t & Hrun & Hframe & Hall).
  - intros cs c post t2 Hl (Hframe2 & Hall2).
    exact (export_cell_run t0 t2 cs post c Hfit Hl Hframe2 Hall2).
  - split; [exact Hframe1|]. intros j Hj.
    destruct (Hzero j Hj) as (HN & HP). unfold exports_of.
    split; [exact HP|].
    destruct (decide (j = rank)) as [->|Hrank].
    + split; [exact HN|]. rewrite Hcl. reflexivity.
    + destruct (Ffit j Hj Hrank) as (pruned & old & Hpruned & Hold & _).
      exists pruned, old. split; [exact Hpruned|]. split; [exact Hold|].
      cbn. rewrite drop_0, Hcl. split; [exact HN|exact Hold].
  - exists t. split; [exact Hrun|]. split; [exact Hframe|exact Hall].
Qed.

End ExportListFacts.

(** ** GetExportInfo after UpdateHydroExportList *)

Section ExportAfterUpdate.
Context {FLOAT : Type} `{!FloatOps FLOAT} `{!TreeOps FLOAT} `{!Layout FLOAT}
  `{!LayoutLaws FLOAT} `{!PrunedOps FLOAT}.





End ExportAfterUpdate.

Section ExportListExamples.
Import Worked ExportListExample.
#[local] Existing Instances ZFloat ZTree ZLayout ZLayout_laws ZPruned.

Lemma active_cells_of_export_tree :
  tree_ComputeActiveCellList export_tree = [1; 2].
Proof. vm_compute. reflexivity. Qed.


Lemma stale_sphtree_fits : exports_fit 0 two_pruned stale_sphtree.
Proof.
  unfold exports_fit. cbv zeta.
  change (SphTree.tree stale_sphtree) with export_tree.
  rewrite active_cells_of_export_tree.
  split; [cbn; lia|]. split; [cbn; lia|]. split; [cbn; lia|]. split.
  - repeat constructor; cbn; lia.
  - intros j Hj Hrank. cbn in Hj. assert (j = 1) as -> by lia.
    eexists _, _. split; [reflexivity|]. split; [reflexivity|].
    vm_compute. lia.
Qed.


(** Both leaves of rank 0 are active; the second one overlaps the pruned
    tree of rank 1. *)
Lemma UpdateHydroExportList_lists_overlapping_cells_witness :
  exists t,
    UpdateHydroExportList 0 two_pruned stale_sphtree = Done tt t /\
    exports_frame stale_sphtree t /\
    forall j, 0 <= j < SphTree.Nmpi stale_sphtree ->
      exports_of 0 two_pruned stale_sphtree t
        (tree_ComputeActiveCellList (SphTree.tree stale_sphtree)) j.
Proof.
  apply (UpdateHydroExportList_lists_overlapping_cells 0 two_pruned
           stale_sphtree).
  exact stale_sphtree_fits.
Defined.

Example UpdateHydroExportList_of_two_leaves :
  exists t,
    UpdateHydroExportList 0 two_pruned stale_sphtree = Done tt t /\
    SphTree.Ncellexport t = [0; 1] /\
    SphTree.Npartexport t = [0; 0] /\
    SphTree.cellexportlist t = [[-1; -1]; [2; -1]] /\
    GetExportInfo 1 [] (mkState t export_sph []) = Undefined.
Proof.
  exists (left_by_update (UpdateHydroExportList 0 two_pruned stale_sphtree)).
  split; [vm_compute; reflexivity|].
  split; [vm_compute; reflexivity|].
  split; [vm_compute; reflexivity|].
  split; vm_compute; reflexivity.
Qed.


End ExportListExamples.


(** ** SphTree.cpp: the trees of the ghosts and the pruned trees *)

Section GhostTreeFacts.
Context {FLOAT : Type} `{!FloatOps FLOAT} `{!TreeOps FLOAT}.

(** X19.  On a step that rebuilds them, the two ghost trees are built over the
    particles that follow the real ones: [ghosttree] over the
    [NPeriodicGhost] particles from [Nsph] on, [mpighosttree] over the
    [Nmpighost] particles after those, so that the two ranges are adjacent
    and end at [Nsph + NPeriodicGhost + Nmpighost - 1].  Each tree is built
    with its own [Ntot] and [Ntotmax], which is at least the old [Ntotmax],
    [Ntot] and [Nsphmax]; the arguments [Npart] and [Npartmax] are not
    used. *)
Theorem ghost_trees_cover_the_ghosts (rebuild_tree : bool)
    (n ntreebuildstep ntreestockstep Npart Npartmax Npart' Npartmax' : Z)
    (sph : Sph.t FLOAT) (timestep : FLOAT)
    (ghosttree mpighosttree : Tree.t FLOAT) (out : list string) :
  ntreebuildstep <> 0 ->
  Z.rem n ntreebuildstep = 0 \/ rebuild_tree = true ->
  let g :=
    cover (Sph.Nsph sph) (Sph.NPeriodicGhost sph) (Sph.Nsphmax sph) ghosttree in
  let m :=
    cover (Sph.Nsph sph + Sph.NPeriodicGhost sph) (Sph.Nmpighost sph)
      (Sph.Nsphmax sph) mpighosttree in
  BuildGhostTree rebuild_tree n ntreebuildstep ntreestockstep Npart Npartmax
    sph timestep (ghosttree, out)
  = Done tt
      (tree_BuildTree (Tree.Ntot g) (Tree.Ntotmax g) (Sph.sphdata sph)
         timestep g, out) /\
  (exists line,
     BuildMpiGhostTree rebuild_tree n ntreebuildstep ntreestockstep Npart'
       Npartmax' sph timestep (mpighosttree, out)
     = Done tt
         (tree_BuildTree (Tree.Ntot m) (Tree.Ntotmax m) (Sph.sphdata sph)
            timestep m, out ++ [line])) /\
  Tree.ifirst g = Sph.Nsph sph /\
  Tree.ifirst m = Tree.ilast g + 1 /\
  Tree.ilast m
  = Sph.Nsph sph + Sph.NPeriodicGhost sph + Sph.Nmpighost sph - 1 /\
  Tree.Ntot g = Tree.ilast g - Tree.ifirst g + 1 /\
  Tree.Ntot m = Tree.ilast m - Tree.ifirst m + 1 /\
  Tree.Ntotmax g
  = Z.max (Z.max (Tree.Ntotmax ghosttree) (Tree.Ntot g)) (Sph.Nsphmax sph) /\
  Tree.Ntotmax m
  = Z.max (Z.max (Tree.Ntotmax mpighosttree) (Tree.Ntot m)) (Sph.Nsphmax sph) /\
  Tree.Ntotmaxold g = Tree.Ntotmax ghosttree /\
  Tree.Ntotmaxold m = Tree.Ntotmax mpighosttree.
Proof.
  intros Hstep Hbuild g m.
  assert (Hcond : bool_decide (Z.rem n ntreebuildstep = 0) || rebuild_tree = true).
  { destruct Hbuild as [Hrem| ->].
    - rewrite (bool_decide_eq_true_2 _ Hrem). reflexivity.
    - apply orb_true_r. }
  unfold BuildGhostTree, BuildMpiGhostTree, c_rem.
  rewrite decide_False by exact Hstep.
  unfold bind, defined, ret, modify, on_ghost_tree. cbn. rewrite Hcond.
  split; [reflexivity|]. split; [eexists; reflexivity|].
  subst g m. unfold cover. cbn. split_and!; try reflexivity; lia.
Qed.

End GhostTreeFacts.

(** ** Loops that carry a local variable, with an invariant *)

Section FoldFacts.
Context {S A B : Type}.

Lemma fold_each_inv (I : list B -> A -> S -> Prop) (l : list B)
    (body : B -> A -> M S A) :
  (forall pre x post acc s,
     l = pre ++ x :: post -> I pre acc s ->
     exists acc' s', body x acc s = Done acc' s' /\ I (pre ++ [x]) acc' s') ->
  forall acc s, I [] acc s ->
    exists acc' s', fold_each l body acc s = Done acc' s' /\ I l acc' s'.
Proof.
  intros Hbody.
  assert (H : forall rest pre acc s,
             l = pre ++ rest -> I pre acc s ->
             exists acc' s',
               fold_each rest body acc s = Done acc' s' /\ I l acc' s').
  { induction rest as [|x rest IH]; intros pre acc s Hl HI.
    - exists acc, s. rewrite app_nil_r in Hl. subst pre.
      split; [reflexivity|exact HI].
    - destruct (Hbody pre x rest acc s Hl HI) as (acc1 & s1 & Hx & HI1).
      destruct (IH (pre ++ [x]) acc1 s1) as (acc' & s' & Hrest & HI').
      { rewrite <- app_assoc. exact Hl. }
      { exact HI1. }
      exists acc', s'. split; [|exact HI'].
      cbn [fold_each]. unfold bind. rewrite Hx. exact Hrest. }
  intros acc s HI. exact (H l [] acc s eq_refl HI).
Qed.

End FoldFacts.

(** ** Lists that are rewritten from the front *)

Section PrefixFacts.
Context {A B : Type}.

(** The next element of a list whose first [j] elements were mapped. *)
Lemma lookup_mapped_prefix (h : A -> B) (xs : list A) (ys : list B) (j : nat) :
  (j <= length xs)%nat ->
  ((h <$> take j xs) ++ drop j ys) !! j = ys !! j.
Proof.
  intros Hle.
  rewrite lookup_app_r by (rewrite length_fmap, length_take; lia).
  rewrite length_fmap, length_take, Nat.min_l, Nat.sub_diag by lia.
  rewrite lookup_drop. f_equal. lia.
Qed.

Lemma insert_mapped_prefix (h : A -> B) (xs : list A) (ys : list B) (j : nat)
    (x : A) :
  xs !! j = Some x -> (j < length ys)%nat ->
  <[j := h x]> ((h <$> take j xs) ++ drop j ys)
  = (h <$> take (S j) xs) ++ drop (S j) ys.
Proof.
  intros Hx Hj.
  assert (Hlen : (j < length xs)%nat) by (eapply lookup_lt_Some; exact Hx).
  rewrite insert_app_r_alt by (rewrite length_fmap, length_take; lia).
  rewrite length_fmap, length_take, Nat.min_l, Nat.sub_diag by lia.
  rewrite (take_S_r _ _ _ Hx), fmap_app, <- app_assoc. f_equal.
  destruct (lookup_lt_is_Some_2 ys j Hj) as [y Hy].
  rewrite (drop_S _ _ _ Hy). reflexivity.
Qed.

End PrefixFacts.

(** ** BuildPrunedTree *)

Section PrunedTreeFacts.
Context {FLOAT : Type} `{!FloatOps FLOAT} `{!PrunedOps FLOAT}
  `{!FloatShow FLOAT}.
Variables (pruning_level gmax : Z).
Hypothesis Hpow : pow2_int pruning_level = Some gmax.

Lemma zget_nat {X} (l : list X) (j : nat) : zget l (Z.of_nat j) = l !! j.
Proof.
  unfold zget. rewrite decide_True by lia. rewrite Nat2Z.id. reflexivity.
Qed.

Lemma zset_nat {X} (l : list X) (j : nat) (x : X) :
  (j < length l)%nat -> zset l (Z.of_nat j) x = Some (<[j := x]> l).
Proof.
  intros Hj. unfold zset. rewrite decide_True by lia. rewrite Nat2Z.id.
  reflexivity.
Qed.

Lemma zget_at {X} (l : list X) (i : Z) :
  0 <= i -> zget l i = l !! Z.to_nat i.
Proof. intros Hi. unfold zget. rewrite decide_True by lia. reflexivity. Qed.

Lemma zset_at {X} (l : list X) (i : Z) (x : X) :
  0 <= i -> (Z.to_nat i < length l)%nat ->
  zset l i x = Some (<[Z.to_nat i := x]> l).
Proof. intros Hi Hlt. unfold zset. rewrite decide_True by lia. reflexivity. Qed.

(** The first loop: every pruned tree gets its sizes and its memory. *)
Lemma set_levels_run (Nmpi : Z) (s : PrunedTrees.t FLOAT) :
  0 <= Nmpi <= Z.of_nat (length (PrunedTrees.prunedtree s)) ->
  Nmpi <= Z.of_nat (length (PrunedTrees.ltot_old s)) ->
  exists s',
    for_range 0 Nmpi (set_pruning_level pruning_level) s = Done tt s' /\
    PrunedTrees.prunedtree s'
    = (levelled pruning_level gmax <$> take (Z.to_nat Nmpi) (PrunedTrees.prunedtree s))
      ++ drop (Z.to_nat Nmpi) (PrunedTrees.prunedtree s) /\
    PrunedTrees.ltot_old s'
    = (Tree.ltot <$> take (Z.to_nat Nmpi) (PrunedTrees.prunedtree s))
      ++ drop (Z.to_nat Nmpi) (PrunedTrees.ltot_old s) /\
    PrunedTrees.Nprunedcellmax s'
    = PrunedTrees.Nprunedcellmax s + Nmpi * (2 * gmax - 1) /\
    PrunedTrees.cout s' = PrunedTrees.cout s.
Proof.
  intros Htrees Holds. unfold for_range. rewrite Z.sub_0_r.
  set (trees := PrunedTrees.prunedtree s). set (olds := PrunedTrees.ltot_old s).
  pose (I := fun (pre : list Z) (s' : PrunedTrees.t FLOAT) =>
    let j := length pre in
    PrunedTrees.prunedtree s'
    = (levelled pruning_level gmax <$> take j trees) ++ drop j trees /\
    PrunedTrees.ltot_old s' = (Tree.ltot <$> take j trees) ++ drop j olds /\
    PrunedTrees.Nprunedcellmax s'
    = PrunedTrees.Nprunedcellmax s + Z.of_nat j * (2 * gmax - 1) /\
    PrunedTrees.cout s' = PrunedTrees.cout s).
  destruct (for_each_inv I (seqZ 0 Nmpi) (set_pruning_level pruning_level))
    with (s := s) as (s' & Hrun & HI).
  - intros pre x post s1 Hl (Ht & Ho & Hn & Hc).
    apply seqZ_prefix in Hl as (Hx & Hrange & _).
    set (j := length pre) in *.
    assert (Hj : (j < length trees)%nat) by (subst trees; lia).
    assert (Hjo : (j < length olds)%nat) by (subst olds; lia).
    destruct (lookup_lt_is_Some_2 trees j Hj) as [t Htj].
    unfold set_pruning_level, bind, get. subst x.
    rewrite zget_nat, Ht, lookup_mapped_prefix, Htj by lia. cbn.
    rewrite zset_nat
      by (rewrite ?Ho, length_app, length_fmap, length_take, length_drop; lia).
    cbn. rewrite Hpow. cbn.
    rewrite zset_nat
      by (rewrite ?Ht, length_app, length_fmap, length_take, length_drop; lia).
    cbn. eexists. split; [reflexivity|].
    unfold I. rewrite length_app. cbn [length].
    replace (length pre + 1)%nat with (S j) by (subst j; lia).
    cbn. rewrite ?Ht, ?Ho, ?Hn, ?Hc.
    split_and!; try reflexivity; try lia.
    + exact (insert_mapped_prefix (levelled pruning_level gmax) trees trees j t
               Htj Hj).
    + exact (insert_mapped_prefix Tree.ltot trees olds j t Htj Hjo).
  - unfold I. cbn. rewrite !drop_0. split_and!; try reflexivity. lia.
  - exists s'. split; [exact Hrun|].
    destruct HI as (Ht & Ho & Hn & Hc). rewrite length_seqZ in *.
    rewrite Z2Nat.id in Hn by lia.
    rewrite Ht, Ho, Hn, Hc. split_and!; reflexivity.
Qed.

Lemma length_filter_take {X} (P : X -> Prop) `{!forall x, Decision (P x)}
    (l : list X) (i n : nat) :
  (i <= n)%nat ->
  (length (filter P (take i l)) <= length (filter P (take n l)))%nat.
Proof.
  intros Hle. replace n with (i + (n - i))%nat by lia.
  rewrite <- take_take_drop, filter_app, length_app. lia.
Qed.

Lemma set_celldata_same (t : Tree.t FLOAT) :
  Tree.set_celldata (Tree.celldata t) t = t.
Proof. destruct t; reflexivity. Qed.

Lemma copied_over_nil (cells : list (TreeCell.t FLOAT)) :
  copied_over [] cells = cells.
Proof. unfold copied_over. cbn. rewrite drop_0. reflexivity. Qed.

Lemma length_copied_over (kept cells : list (TreeCell.t FLOAT)) :
  (length kept <= length cells)%nat ->
  length (copied_over kept cells) = length cells.
Proof.
  intros Hle. unfold copied_over.
  rewrite length_app, length_zip_with, length_take, length_drop. lia.
Qed.

Lemma lookup_copied_over (kept cells : list (TreeCell.t FLOAT)) :
  (length kept <= length cells)%nat ->
  copied_over kept cells !! length kept = cells !! length kept.
Proof.
  intros Hle. unfold copied_over.
  rewrite lookup_app_r by (rewrite length_zip_with, length_take; lia).
  rewrite length_zip_with, length_take, lookup_drop. f_equal. lia.
Qed.

Lemma copied_over_snoc (kept cells : list (TreeCell.t FLOAT))
    (old cell : TreeCell.t FLOAT) :
  cells !! length kept = Some old ->
  <[length kept := with_links_of old cell]> (copied_over kept cells)
  = copied_over (kept ++ [cell]) cells.
Proof.
  intros Hold.
  assert (Hlt : (length kept < length cells)%nat)
    by (eapply lookup_lt_Some; exact Hold).
  unfold copied_over.
  rewrite insert_app_r_alt by (rewrite length_zip_with, length_take; lia).
  rewrite length_zip_with, length_take.
  replace (length kept - (length kept `min` length cells) `min` length kept)%nat
    with 0%nat by lia.
  rewrite (drop_S _ _ _ Hold). cbn [insert list_insert].
  rewrite length_app. cbn [length].
  replace (length kept + 1)%nat with (S (length kept)) by lia.
  rewrite (take_S_r _ _ _ Hold).
  rewrite zip_with_app by (rewrite length_take; lia).
  rewrite <- app_assoc. reflexivity.
Qed.

(** The walk through the main tree: the cells down to the pruning level go
    to the first cells of [prunedtree[rank]], in the order of the tree. *)
Lemma copy_cells_run (tree : Tree.t FLOAT) (rank : Z)
    (s : PrunedTrees.t FLOAT) (pruned : Tree.t FLOAT) :
  zget (PrunedTrees.prunedtree s) rank = Some pruned ->
  Tree.Ncell tree <= Z.of_nat (length (Tree.celldata tree)) ->
  (length (upper_cells pruning_level tree) <= length (Tree.celldata pruned))%nat ->
  exists cnew,
    fold_each (seqZ 0 (Tree.Ncell tree)) (copy_cell pruning_level rank tree) 0 s
    = Done cnew
        (PrunedTrees.set_prunedtree
           (<[Z.to_nat rank :=
                Tree.set_celldata
                  (copied_over (upper_cells pruning_level tree)
                     (Tree.celldata pruned)) pruned]>
              (PrunedTrees.prunedtree s)) s).
Proof.
  intros Hrank Hcells Hfit.
  assert (Hrank0 : 0 <= rank).
  { unfold zget in Hrank. destruct (decide (0 <= rank)); [lia|discriminate]. }
  assert (Hrank' : PrunedTrees.prunedtree s !! Z.to_nat rank = Some pruned).
  { unfold zget in Hrank. rewrite decide_True in Hrank by lia. exact Hrank. }
  assert (Hrlt : (Z.to_nat rank < length (PrunedTrees.prunedtree s))%nat)
    by (eapply lookup_lt_Some; exact Hrank').
  set (cells := Tree.celldata tree) in *.
  set (P := fun cell : TreeCell.t FLOAT => TreeCell.level cell <= pruning_level).
  pose (I := fun (pre : list Z) (cnew : Z) (s' : PrunedTrees.t FLOAT) =>
    let kept := filter P (take (length pre) cells) in
    cnew = Z.of_nat (length kept) /\
    s' = PrunedTrees.set_prunedtree
           (<[Z.to_nat rank :=
                Tree.set_celldata (copied_over kept (Tree.celldata pruned))
                  pruned]> (PrunedTrees.prunedtree s)) s).
  destruct (fold_each_inv I (seqZ 0 (Tree.Ncell tree))
              (copy_cell pruning_level rank tree))
    with (acc := 0) (s := s) as (cnew & s' & Hrun & Hcnew & Hs').
  - intros pre x post cnew s1 Hl (Hcnew & Hs1).
    apply seqZ_prefix in Hl as (Hx & Hrange & _).
    set (j := length pre) in *.
    assert (Hj : (j < length cells)%nat) by lia.
    destruct (lookup_lt_is_Some_2 cells j Hj) as [cell Hcell].
    set (kept := filter P (take j cells)) in *.
    assert (Hnext : filter P (take (S j) cells)
                    = kept ++ (if decide (P cell) then [cell] else [])).
    { rewrite (take_S_r _ _ _ Hcell), filter_app. subst kept. f_equal. }
    assert (Hbound : (length (filter P (take (S j) cells))
                      <= length (Tree.celldata pruned))%nat).
    { etransitivity; [|exact Hfit]. unfold upper_cells. fold cells P.
      apply length_filter_take. lia. }
    unfold copy_cell, bind. subst x. rewrite zget_nat. fold cells.
    rewrite Hcell. cbn [defined ret].
    unfold I. rewrite length_app. cbn [length].
    replace (length pre + 1)%nat with (S j) by (subst j; lia).
    cbv zeta. rewrite Hnext.
    destruct (decide (TreeCell.level cell > pruning_level)) as [Hskip|Hcopy].
    + rewrite decide_False by (unfold P; lia). rewrite app_nil_r.
      exists cnew, s1. auto.
    + rewrite decide_True in Hnext |- * by (unfold P; lia).
      rewrite Hnext, length_app in Hbound. cbn [length] in Hbound.
      unfold get. subst s1. cbn [PrunedTrees.prunedtree PrunedTrees.set_prunedtree].
      rewrite (zget_at _ rank), list_lookup_insert_eq by lia. cbn [defined ret].
      cbn [Tree.celldata Tree.set_celldata].
      subst cnew. rewrite zget_nat, lookup_copied_over by lia.
      destruct (lookup_lt_is_Some_2 (Tree.celldata pruned) (length kept))
        as [old Hold]; [lia|].
      rewrite Hold. cbn [defined ret].
      rewrite zset_nat by (rewrite length_copied_over; lia). cbn [defined ret].
      rewrite (zset_at _ rank) by (rewrite ?length_insert; lia).
      cbn [defined ret].
      unfold modify. eexists _, _. split; [reflexivity|].
      rewrite length_app. cbn [length]. split; [lia|].
      rewrite list_insert_insert_eq, (copied_over_snoc _ _ _ _ Hold).
      reflexivity.
  - unfold I. cbn [length]. cbv zeta. rewrite take_0, filter_nil.
    split; [reflexivity|].
    rewrite copied_over_nil, set_celldata_same, list_insert_id by exact Hrank'.
    destruct s; reflexivity.
  - exists cnew. rewrite Hrun. f_equal. rewrite Hs'.
    rewrite length_seqZ. reflexivity.
Qed.

Lemma set_cout_same (s : PrunedTrees.t FLOAT) :
  PrunedTrees.set_cout (PrunedTrees.cout s) s = s.
Proof. destruct s; reflexivity. Qed.

(** The lines about the cells of [prunedtree[rank]]. *)
Lemma print_cells_run (rank n : Z) (s : PrunedTrees.t FLOAT)
    (pruned : Tree.t FLOAT) :
  zget (PrunedTrees.prunedtree s) rank = Some pruned ->
  n <= Z.of_nat (length (Tree.celldata pruned)) ->
  exists lines,
    for_range 0 n (print_pruned_cell rank) s
    = Done tt (PrunedTrees.set_cout (PrunedTrees.cout s ++ lines) s).
Proof.
  intros Hrank Hn. unfold for_range. rewrite Z.sub_0_r.
  pose (I := fun (pre : list Z) (s' : PrunedTrees.t FLOAT) =>
    exists lines, s' = PrunedTrees.set_cout (PrunedTrees.cout s ++ lines) s).
  destruct (for_each_inv I (seqZ 0 n) (print_pruned_cell rank))
    with (s := s) as (s' & Hrun & lines & Hs').
  - intros pre x post s1 Hl [lines Hs1].
    apply seqZ_prefix in Hl as (Hx & Hrange & _).
    unfold print_pruned_cell, bind, get. subst s1.
    cbn [PrunedTrees.prunedtree PrunedTrees.set_cout]. rewrite Hrank.
    cbn [defined ret]. subst x. rewrite zget_nat.
    destruct (lookup_lt_is_Some_2 (Tree.celldata pruned) (length pre))
      as [cell Hcell]; [lia|].
    rewrite Hcell. cbn [defined ret]. unfold print_pruned, modify.
    eexists. split; [reflexivity|]. eexists (lines ++ [_]).
    cbn. rewrite app_assoc. reflexivity.
  - exists []. rewrite app_nil_r, set_cout_same. reflexivity.
  - exists lines. rewrite Hrun, Hs'. reflexivity.
Qed.

(** X20.  [BuildPrunedTree] gives each of the [Nmpi] pruned trees the pruning
    level, [gmax = 2^level] and [Ncell = Ncellmax = 2 gmax - 1], and has its
    memory allocated; [Nprunedcellmax] becomes [Nmpi (2 gmax - 1)].  Cells are
    copied into [prunedtree[rank]] only: the cells of the main tree down to
    the pruning level, in the order of the tree, go to its first cells, each
    keeping the links [c1], [c2] and [cnext] that were in its place (no
    link is set here); the cells after them, and the other pruned trees,
    are as the allocation left them. *)
Theorem BuildPrunedTree_copies_the_upper_levels (tree : Tree.t FLOAT)
    (Nmpi rank : Z) (s : PrunedTrees.t FLOAT) (pruned : Tree.t FLOAT) :
  let trees := PrunedTrees.prunedtree s in
  let allocated := levelled pruning_level gmax pruned in
  0 <= rank < Nmpi -> Nmpi <= Z.of_nat (length trees) ->
  Nmpi <= Z.of_nat (length (PrunedTrees.ltot_old s)) ->
  zget trees rank = Some pruned ->
  Tree.Ncell tree <= Z.of_nat (length (Tree.celldata tree)) ->
  (length (upper_cells pruning_level tree)
   <= length (Tree.celldata allocated))%nat ->
  Tree.Ncell allocated <= Z.of_nat (length (Tree.celldata allocated)) ->
  exists lines,
    BuildPrunedTree tree Nmpi pruning_level rank s
    = Done tt
        (PrunedTrees.mk
           (<[Z.to_nat rank :=
                Tree.set_celldata
                  (copied_over (upper_cells pruning_level tree)
                     (Tree.celldata allocated)) allocated]>
              ((levelled pruning_level gmax <$> take (Z.to_nat Nmpi) trees)
               ++ drop (Z.to_nat Nmpi) trees))
           ((Tree.ltot <$> take (Z.to_nat Nmpi) trees)
            ++ drop (Z.to_nat Nmpi) (PrunedTrees.ltot_old s))
           (Nmpi * (2 * gmax - 1))
           (PrunedTrees.cout s ++ lines)).
Proof.
  intros trees allocated Hrank Hmpi Holds Hpruned Hcells Hfit Hprint.
  assert (Hpruned' : trees !! Z.to_nat rank = Some pruned).
  { rewrite zget_at in Hpruned by lia. exact Hpruned. }
  destruct (set_levels_run Nmpi (PrunedTrees.set_Nprunedcellmax 0 s))
    as (s1 & Hrun1 & Ht1 & Ho1 & Hn1 & Hc1); [cbn; fold trees; lia | cbn; lia|].
  cbn in Ht1, Ho1, Hn1, Hc1. fold trees in Ht1, Ho1.
  assert (Hrank1 : zget (PrunedTrees.prunedtree s1) rank = Some allocated).
  { rewrite zget_at, Ht1 by lia.
    rewrite lookup_app_l by (rewrite length_fmap, length_take; lia).
    rewrite list_lookup_fmap, lookup_take_lt, Hpruned' by lia. reflexivity. }
  destruct (copy_cells_run tree rank s1 allocated Hrank1 Hcells Hfit)
    as (cnew & Hrun2).
  set (copied := Tree.set_celldata _ allocated) in Hrun2.
  set (s2 := PrunedTrees.set_prunedtree _ s1) in Hrun2.
  assert (Hrank2 : zget (PrunedTrees.prunedtree s2) rank = Some copied).
  { subst s2. cbn. rewrite zget_at, list_lookup_insert_eq; [reflexivity| |lia].
    rewrite zget_at in Hrank1 by lia. eapply lookup_lt_Some; exact Hrank1. }
  destruct (print_cells_run rank (Tree.Ncell copied)
              (PrunedTrees.set_cout
                 (PrunedTrees.cout s2
                  ++ ["Pruned tree size : " +:+ pretty.pretty (Tree.Ncell copied)
                      +:+ "    " +:+ pretty.pretty (Tree.ltot copied)
                      +:+ "    " +:+ pretty.pretty pruning_level]) s2) copied)
    as (lines & Hrun3).
  { exact Hrank2. }
  { subst copied. cbn [Tree.Ncell Tree.set_celldata Tree.celldata].
    rewrite length_copied_over by exact Hfit. exact Hprint. }
  eexists (_ :: lines).
  unfold BuildPrunedTree. rewrite bind_modify.
  rewrite (bind_done _ _ _ _ _ Hrun1), (bind_done _ _ _ _ _ Hrun2).
  unfold bind at 1, get. rewrite Hrank2. unfold bind at 1. cbn [defined ret].
  unfold print_pruned at 1. rewrite bind_modify, Hrun3. f_equal.
  subst s2 copied. destruct s1. cbn in *. subst.
  rewrite <- app_assoc. reflexivity.
Qed.

End PrunedTreeFacts.

(** *** The worked example *)

Section TreesExamples.
Import Worked ExportListExample SimExample TreesExample.
#[local] Existing Instances ZFloat ZTree ZPruned ZShow.

Lemma ghost_trees_cover_the_ghosts_witness :
  let g := cover 3 2 8 old_ghost_tree in
  let m := cover (3 + 2) 1 8 old_ghost_tree in
  BuildGhostTree true 5 3 2 100 200 ghost_sph 0 (old_ghost_tree, [])
  = Done tt
      (tree_BuildTree (Tree.Ntot g) (Tree.Ntotmax g) (Sph.sphdata ghost_sph) 0
         g, []) /\
  (exists line,
     BuildMpiGhostTree true 5 3 2 7 9 ghost_sph 0 (old_ghost_tree, [])
     = Done tt
         (tree_BuildTree (Tree.Ntot m) (Tree.Ntotmax m) (Sph.sphdata ghost_sph)
            0 m, [] ++ [line])) /\
  Tree.ifirst g = 3 /\
  Tree.ifirst m = Tree.ilast g + 1 /\
  Tree.ilast m = 3 + 2 + 1 - 1 /\
  Tree.Ntot g = Tree.ilast g - Tree.ifirst g + 1 /\
  Tree.Ntot m = Tree.ilast m - Tree.ifirst m + 1 /\
  Tree.Ntotmax g = Z.max (Z.max (Tree.Ntotmax old_ghost_tree) (Tree.Ntot g)) 8 /\
  Tree.Ntotmax m = Z.max (Z.max (Tree.Ntotmax old_ghost_tree) (Tree.Ntot m)) 8 /\
  Tree.Ntotmaxold g = Tree.Ntotmax old_ghost_tree /\
  Tree.Ntotmaxold m = Tree.Ntotmax old_ghost_tree.
Proof.
  exact (ghost_trees_cover_the_ghosts true 5 3 2 100 200 7 9 ghost_sph 0
           old_ghost_tree old_ghost_tree [] ltac:(lia) (or_intror eq_refl)).
Defined.

(** The ghost tree of the example is built over the particles 3 and 4, the
    MPI ghost tree over the particle 5, whatever ranges they had. *)
Example ghost_trees_of_the_example :
  let g := left_by (BuildGhostTree true 5 3 2 100 200 ghost_sph 0
                      (old_ghost_tree, [])) (old_ghost_tree, []) in
  let m := left_by (BuildMpiGhostTree true 5 3 2 100 200 ghost_sph 0
                      (old_ghost_tree, [])) (old_ghost_tree, []) in
  (Tree.ifirst g.1, Tree.ilast g.1, Tree.Ntot g.1, Tree.Ntotmax g.1) = (3, 4, 2, 8) /\
  (Tree.ifirst m.1, Tree.ilast m.1, Tree.Ntot m.1, Tree.Ntotmax m.1) = (5, 5, 1, 8) /\
  m.2 = ["BUILDING TREE WITH 1 MPI GHOSTS!!"].
Proof. cbv zeta. split_and!; vm_compute; reflexivity. Qed.

Lemma BuildPrunedTree_copies_the_upper_levels_witness :
  let allocated := levelled 1 2 (pruned_box 0 5) in
  exists lines,
    BuildPrunedTree idle_tree 2 1 0 pruned_state
    = Done tt
        (PrunedTrees.mk
           (<[Z.to_nat 0 :=
                Tree.set_celldata
                  (copied_over (upper_cells 1 idle_tree)
                     (Tree.celldata allocated)) allocated]>
              ((levelled 1 2 <$> take (Z.to_nat 2) two_pruned)
               ++ drop (Z.to_nat 2) two_pruned))
           ((Tree.ltot <$> take (Z.to_nat 2) two_pruned)
            ++ drop (Z.to_nat 2) [9; 9])
           (2 * (2 * 2 - 1))
           ([] ++ lines)).
Proof.
  refine (BuildPrunedTree_copies_the_upper_levels 1 2 eq_refl idle_tree 2 0
            pruned_state (pruned_box 0 5) _ _ _ eq_refl _ _ _);
    first [lia | vm_compute; first [lia | intros; discriminate]].
Defined.

(** The tree of the example pruned at its leaves: the three cells are
    copied, and keep the links of the cells that the allocation made. *)
Example BuildPrunedTree_of_the_example :
  let s := left_by (BuildPrunedTree idle_tree 2 1 0 pruned_state) pruned_state in
  outcome (BuildPrunedTree idle_tree 2 1 0 pruned_state) = "returned" /\
  (Tree.celldata <$> PrunedTrees.prunedtree s !! 0%nat)
  = Some
      [TreeCell.mk 0 2 0 0 1 1 (-1) (-1) [1; 1; 1] [8; 8; 8] [0; 0; 0] 1;
       TreeCell.mk 1 1 0 0 0 (-1) (-1) (-1) [1; 1; 1] [1; 1; 1] [0; 0; 0] 1;
       TreeCell.mk 1 1 0 1 1 (-1) (-1) (-1) [8; 8; 8] [8; 8; 8] [0; 0; 0] 1] /\
  PrunedTrees.Nprunedcellmax s = 6 /\
  PrunedTrees.ltot_old s = [0; 0] /\
  PrunedTrees.cout s
  = ["Pruned tree size : 3    1    1"; "bb[0] : 1    8    level : 0";
     "bb[1] : 1    1    level : 1"; "bb[2] : 8    8    level : 1"].
Proof. cbv zeta. split_and!; vm_compute; reflexivity. Qed.

End TreesExamples.


(** ** SphTree.cpp: CheckValidNeighbourList *)

Section NeighbourCheckFacts.
Context {FLOAT : Type} `{!FloatOps FLOAT} `{!FloatShow FLOAT}
  `{!NeibCheckOps FLOAT}.

(** A loop whose turns return and leave the state alone. *)
Lemma for_each_unchanged {S B} (l : list B) (body : B -> M S unit) (s : S) :
  Forall (fun x => body x s = Done tt s) l -> for_each l body s = Done tt s.
Proof.
  induction 1 as [|x l Hx _ IH]; [reflexivity|].
  cbn [for_each]. unfold bind. rewrite Hx. exact IH.
Qed.

(** The loops that fill [trueneiblist]. *)
Lemma note_neighbours_run
    (test : Particle.t FLOAT -> Particle.t FLOAT -> bool) (i Ntot : Z)
    (partdata : list (Particle.t FLOAT)) (pi : Particle.t FLOAT)
    (s : NeibCheck.t) :
  zget partdata i = Some pi -> Ntot <= Z.of_nat (length partdata) ->
  fold_each (seqZ 0 Ntot) (note_neighbour test i partdata) [] s
  = Done (filter (fun j => test pi <$> zget partdata j = Some true)
            (seqZ 0 Ntot)) s.
Proof.
  intros Hi Hlen.
  pose (I := fun (pre : list Z) (acc : list Z) (s' : NeibCheck.t) =>
    s' = s /\
    acc = filter (fun j => test pi <$> zget partdata j = Some true) pre).
  destruct (fold_each_inv I (seqZ 0 Ntot) (note_neighbour test i partdata))
    with (acc := @nil Z) (s := s) as (acc & s' & Hrun & -> & ->).
  - intros pre x post acc s1 Hl (-> & ->).
    apply seqZ_prefix in Hl as (Hx & Hrange & _).
    unfold note_neighbour, bind.
    destruct (lookup_lt_is_Some_2 partdata (length pre)) as [pj Hj]; [lia|].
    assert (Hzj : zget partdata x = Some pj) by (subst x; rewrite zget_nat; exact Hj).
    rewrite Hzj, Hi. cbn [defined ret].
    eexists _, _. split; [reflexivity|]. split; [reflexivity|].
    rewrite filter_app, filter_cons, Hzj. cbn.
    destruct (test pi pj).
    + rewrite decide_True by reflexivity. reflexivity.
    + rewrite decide_False by discriminate. cbn. rewrite app_nil_r.
      reflexivity.
  - split; reflexivity.
  - exact Hrun.
Qed.

(** The loop that counts. *)
Lemma count_listed_run (Nneib id : Z) (s : NeibCheck.t) :
  Nneib <= Z.of_nat (length (NeibCheck.neiblist s)) ->
  count_listed Nneib id s = Done (times_listed Nneib (NeibCheck.neiblist s) id) s.
Proof.
  intros Hlen. unfold count_listed, times_listed.
  pose (I := fun (pre : list Z) (count : Z) (s' : NeibCheck.t) =>
    s' = s /\
    count = Z.of_nat (length (filter (fun listed => listed = id)
                                (take (length pre) (NeibCheck.neiblist s))))).
  destruct (fold_each_inv I (seqZ 0 Nneib)
              (fun k count =>
                 s <- get ;;
                 listed <- defined (zget (NeibCheck.neiblist s) k) ;;
                 ret (if decide (listed = id) then count + 1 else count)))
    with (acc := 0) (s := s) as (count & s' & Hrun & -> & ->).
  - intros pre x post count s1 Hl (-> & ->).
    apply seqZ_prefix in Hl as (Hx & Hrange & _).
    unfold bind, get.
    destruct (lookup_lt_is_Some_2 (NeibCheck.neiblist s) (length pre))
      as [listed Hk]; [lia|].
    subst x. rewrite zget_nat, Hk. cbn [defined ret].
    eexists _, _. split; [reflexivity|]. split; [reflexivity|].
    rewrite length_app. cbn [length].
    replace (length pre + 1)%nat with (S (length pre)) by lia.
    rewrite (take_S_r _ _ _ Hk), filter_app, length_app, filter_cons.
    destruct (decide (listed = id)); cbn; lia.
  - split; [reflexivity|]. cbn. reflexivity.
  - rewrite Hrun, length_seqZ. reflexivity.
Qed.

(** One turn of the loop over the true neighbours. *)
Lemma check_listed_once_returns (i Nneib : Z)
    (partdata : list (Particle.t FLOAT)) (trueneiblist : list Z) (j : nat)
    (id : Z) (s : NeibCheck.t) :
  trueneiblist !! j = Some id ->
  Nneib <= Z.of_nat (length (NeibCheck.neiblist s)) ->
  times_listed Nneib (NeibCheck.neiblist s) id = 1 ->
  check_listed_once i Nneib partdata trueneiblist (Z.of_nat j) s = Done tt s.
Proof.
  intros Hid Hlen Honce. unfold check_listed_once, bind.
  rewrite zget_nat, Hid. cbn [defined ret].
  rewrite (count_listed_run _ _ _ Hlen), Honce. reflexivity.
Qed.

Lemma check_listed_once_raises (i Nneib : Z)
    (partdata : list (Particle.t FLOAT)) (pi : Particle.t FLOAT)
    (trueneiblist : list Z) (j : nat) (id : Z) (s : NeibCheck.t) :
  trueneiblist !! j = Some id ->
  Nneib <= Z.of_nat (length (NeibCheck.neiblist s)) ->
  zget partdata i = Some pi ->
  times_listed Nneib (NeibCheck.neiblist s) id <> 1 ->
  exists lines,
    check_listed_once i Nneib partdata trueneiblist (Z.of_nat j) s
    = Abort "Problem with neighbour lists in grid search"
        (NeibCheck.mk (InsertionSortIds Nneib (NeibCheck.neiblist s))
           (NeibCheck.cout s ++ lines)).
Proof.
  intros Hid Hlen Hi Hno. unfold check_listed_once, bind.
  rewrite zget_nat, Hid. cbn [defined ret].
  rewrite (count_listed_run _ _ _ Hlen).
  rewrite decide_True by exact Hno.
  unfold modify, say, modify, get, raise. rewrite Hi. cbn.
  eexists. rewrite <- !app_assoc. reflexivity.
Qed.

Lemma filter_none {X} (P : X -> Prop) `{!forall x, Decision (P x)} (l : list X) :
  (forall x, ~ P x) -> filter P l = [].
Proof.
  intros Hno. induction l as [|x l IH]; [reflexivity|].
  rewrite filter_cons, decide_False by apply Hno. exact IH.
Qed.

(** The list that the first part of the check makes. *)
Lemma trueneiblist_run (ndim : nat) (kernrangesqd : FLOAT) (i Ntot : Z)
    (partdata : list (Particle.t FLOAT)) (neibtype : string)
    (pi : Particle.t FLOAT) (s : NeibCheck.t) :
  zget partdata i = Some pi -> Ntot <= Z.of_nat (length partdata) ->
  (if bool_decide (neibtype = "gather") then
     fold_each (seqZ 0 Ntot)
       (note_neighbour (gather_neighbour ndim kernrangesqd) i partdata) []
   else if bool_decide (neibtype = "all") then
     fold_each (seqZ 0 Ntot)
       (note_neighbour (any_neighbour ndim kernrangesqd) i partdata) []
   else ret []) s
  = Done (true_neighbours ndim kernrangesqd neibtype pi Ntot partdata) s.
Proof.
  intros Hi Hlen. unfold true_neighbours, neighbour_test.
  destruct (bool_decide (neibtype = "gather"));
    [apply note_neighbours_run; assumption|].
  destruct (bool_decide (neibtype = "all"));
    [apply note_neighbours_run; assumption|].
  rewrite filter_none; [reflexivity|].
  intros j. destruct (zget partdata j); discriminate.
Qed.

(** X21.  [CheckValidNeighbourList] returns, and changes nothing, exactly when
    each true neighbour of the particle [i] is once among the first [Nneib]
    entries of [neiblist]; which particles are true neighbours depends on
    [neibtype], and none is for a type other than "gather" and "all".
    Entries that are no true neighbour are accepted.  At the first true
    neighbour that is missing or listed twice the check sorts the caller's
    list, prints it and raises "Problem with neighbour lists in grid
    search". *)
Theorem CheckValidNeighbourList_wants_each_neighbour_once (ndim : nat)
    (kernrangesqd : FLOAT) (i Ntot Nneib : Z)
    (partdata : list (Particle.t FLOAT)) (neibtype : string)
    (pi : Particle.t FLOAT) (s : NeibCheck.t) :
  0 <= Ntot <= Z.of_nat (length partdata) ->
  zget partdata i = Some pi ->
  Nneib <= Z.of_nat (length (NeibCheck.neiblist s)) ->
  let trues := true_neighbours ndim kernrangesqd neibtype pi Ntot partdata in
  let once id := times_listed Nneib (NeibCheck.neiblist s) id = 1 in
  (Forall once trues ->
   CheckValidNeighbourList ndim kernrangesqd i Ntot Nneib partdata neibtype s
   = Done tt s) /\
  (forall pre id post,
     trues = pre ++ id :: post -> Forall once pre -> ~ once id ->
     exists lines,
       CheckValidNeighbourList ndim kernrangesqd i Ntot Nneib partdata
         neibtype s
       = Abort "Problem with neighbour lists in grid search"
           (NeibCheck.mk (InsertionSortIds Nneib (NeibCheck.neiblist s))
              (NeibCheck.cout s ++ lines))).
Proof.
  intros HNtot Hi Hlen trues once.
  assert (Hrun : CheckValidNeighbourList ndim kernrangesqd i Ntot Nneib
                   partdata neibtype s
                 = for_each (seqZ 0 (Z.of_nat (length trues)))
                     (check_listed_once i Nneib partdata trues) s).
  { unfold CheckValidNeighbourList.
    rewrite decide_False by lia. unfold bind at 1. cbn [ret].
    rewrite (bind_done _ _ _ _ _
               (trueneiblist_run ndim kernrangesqd i Ntot partdata neibtype pi s
                  Hi ltac:(lia))).
    unfold for_range. rewrite Z.sub_0_r. reflexivity. }
  assert (Hturns : forall l : list Z,
            Forall once l -> forall offset : nat,
            (forall k id, l !! k = Some id -> trues !! (offset + k)%nat = Some id) ->
            for_each (seqZ (Z.of_nat offset) (Z.of_nat (length l)))
              (check_listed_once i Nneib partdata trues) s = Done tt s).
  { intros l Hall offset Hat. apply for_each_unchanged.
    apply Forall_forall. intros x Hx.
    apply elem_of_seqZ in Hx.
    destruct (lookup_lt_is_Some_2 l (Z.to_nat x - offset)) as [id Hid]; [lia|].
    replace x with (Z.of_nat (offset + (Z.to_nat x - offset))) by lia.
    apply (check_listed_once_returns _ _ _ _ _ id); [|exact Hlen|].
    - apply Hat, Hid.
    - eapply Forall_lookup_1 in Hall; [exact Hall | exact Hid]. }
  split.
  - intros Hall. rewrite Hrun. apply (Hturns trues Hall 0%nat).
    intros k id Hk. exact Hk.
  - intros pre id post Htrues Hpre Hno. rewrite Hrun.
    assert (Hcount : Z.of_nat (length trues)
                     = Z.of_nat (length pre) + (1 + Z.of_nat (length post))).
    { rewrite Htrues, length_app. cbn [length]. lia. }
    rewrite Hcount, seqZ_app, for_each_app by lia.
    destruct (check_listed_once_raises i Nneib partdata pi trues (length pre)
                id s) as [lines Hraise]; try assumption.
    { rewrite Htrues, lookup_app_r, Nat.sub_diag by lia. reflexivity. }
    exists lines.
    pose proof (Hturns pre Hpre 0%nat) as Hfirst.
    change (Z.of_nat 0) with 0 in Hfirst.
    unfold bind. rewrite Hfirst.
    2:{ intros k id' Hk. rewrite Htrues. apply lookup_app_l_Some. exact Hk. }
    rewrite seqZ_app by lia. rewrite seqZ_one, for_each_app. unfold bind.
    cbn [for_each]. unfold bind. rewrite Z.add_0_l, Hraise. reflexivity.
Qed.

End NeighbourCheckFacts.

(** *** The worked example *)

Section NeibExamples.
Import Worked SimExample NeibExample.
#[local] Existing Instances ZFloat ZShow ZNeibCheck.

Lemma CheckValidNeighbourList_wants_each_neighbour_once_witness :
  let trues :=
    true_neighbours 1 4 "gather" (particle_at [0; 0; 0] 0) 3 line_particles in
  let once id := times_listed 3 (NeibCheck.neiblist bad_list) id = 1 in
  (Forall once trues ->
   CheckValidNeighbourList 1 4 0 3 3 line_particles "gather" bad_list
   = Done tt bad_list) /\
  (forall pre id post,
     trues = pre ++ id :: post -> Forall once pre -> ~ once id ->
     exists lines,
       CheckValidNeighbourList 1 4 0 3 3 line_particles "gather" bad_list
       = Abort "Problem with neighbour lists in grid search"
           (NeibCheck.mk (InsertionSortIds 3 (NeibCheck.neiblist bad_list))
              (NeibCheck.cout bad_list ++ lines))).
Proof.
  refine (CheckValidNeighbourList_wants_each_neighbour_once 1 4 0 3 3
            line_particles "gather" (particle_at [0; 0; 0] 0) bad_list
            _ eq_refl _);
    vm_compute; first [lia | intros; discriminate | split; intros; discriminate].
Defined.

(** The list with both neighbours and a particle that is none passes; in
    the list without the particle itself the check misses it, although it
    lists the particle 1 twice as well; a type that the check does not know
    lets every list pass. *)
Example CheckValidNeighbourList_of_the_example :
  CheckValidNeighbourList 1 4 0 3 3 line_particles "gather" good_list
  = Done tt good_list /\
  CheckValidNeighbourList 1 4 0 3 3 line_particles "gather" bad_list
  = Abort "Problem with neighbour lists in grid search"
      (NeibCheck.mk [1; 1; 2]
         ["Problem with neighbour lists : 0  0   0   0   1";
          "Nneib : 3   Ntrueneib : 2"; "neiblist     : 1 1 2 ";
          "trueneiblist : 0 1 "]) /\
  CheckValidNeighbourList 1 4 0 3 3 line_particles "scatter" bad_list
  = Done tt bad_list.
Proof. split_and!; vm_compute; reflexivity. Qed.

End NeibExamples.
